(* ===== verification/_CoqProject ===== *)
-Q . S2P
Prelude.v
Guards.v
GoStrings.v
Types.v
Labels.v
Json.v
GoTime.v
Codec.v
K8s.v
Containers.v
Store.v
ConfigServer.v
Dgraph.v
DgraphStore.v
Queue.v
Events.v
Streams.v
StreamFacts.v
Alerts.v
Pipeline.v
DgraphEvents.v
DgraphEventFacts.v
DgraphPipeline.v
DgraphIngestion.v
DgraphSchema.v
Dial.v
ServerRun.v
NodeAgent.v
Detector.v
ClusterAgent.v
Falco.v
Selection.v
Webhook.v
ClusterRun.v
Sha256.v
PodAgent.v
TarianCtl.v
Install.v
Commands.v
System.v
Delivery.v
DgraphSystem.v
