(* ===== verification/Prelude.v ===== *)
(** * Tarian, verified

    Tarian detects processes and files that the containers of a Kubernetes
    cluster should not run or change.  This library models the Go program in
    [src/] and proves what its parts promise to each other.

    ** The program

    - A node agent ([pkg/nodeagent]) on every node reads exec events from the
      kernel, finds the pod of each process, and checks the command against
      the constraints it fetched; a violation is reported as an event or
      registered as a new constraint.
    - A pod agent ([pkg/podagent]) in a pod does the same with the checksums
      of files.  An admission webhook ([pkg/clusteragent/webhookserver])
      injects it into annotated pods.
    - The cluster agent ([pkg/clusteragent]) passes the calls of the agents on
      to the server, deletes pods for which an action asks, and turns Falco's
      alerts into events and constraints.
    - tarian-server ([pkg/server]) keeps constraints, actions and events in a
      Dgraph database, takes events in through two queues ([pkg/protoqueue]),
      and sends alerts to an Alertmanager.
    - tarianctl ([cmd/tarianctl]) adds, lists, removes and imports constraints
      and actions, lists events, and installs the program on a cluster.

    ** How code is modelled

    A function that calls its surroundings (a store, a peer, the Kubernetes
    API, the file system, the clock) is a [prog E A]: a tree of calls of type
    [E] that ends in a result or in a panic ([Crash]).  [run] executes it with
    a [handler], a function that answers calls and changes a state; [trace]
    lists the calls of a run, and [history] of [Guards] lists them with their
    answers.  What the surroundings are relied on for is a class of laws about
    the handler; every class has an instance, so the laws can hold.  [interp]
    replaces calls by programs: that is how one part's calls are answered by
    the next part's handlers.  Go errors are [option error], pointers and
    slices are options, so nil is told from empty; a nil dereference, an index
    out of range and [logger.Fatal] are crashes.  Goroutines that share state
    are step relations or schedules; a loop that waits for its context runs
    for a number of turns, over which its theorems quantify.

    ** The files

    Shared: this file (Go values, programs, loops, runs, the [sat] logic of
    calls, thread pools); [Guards] (what is called after what); [GoStrings]
    and [GoTime] (the functions of Go's [strings], [path], [time]); [Types]
    ([pkg/tarianpb]: messages, getters, Falco priorities, the client stub);
    [Labels] (selectors as sets of texts); [Json] and [Codec]
    ([encoding/json]: printer, parser, struct tags); [K8s] (pods with label
    maps on a shared heap); [Sha256].

    tarian-server:
    - [Store] is the interface of the constraint and action stores
      ([pkg/store]) with the contract clients rely on; [ConfigServer] has the
      six handlers of [config_server.go], proved against that contract.
    - [Queue] is [channel.go] and [nats.go] of [pkg/protoqueue]; [Events] is
      [event_server.go], [ingestion_worker.go] and [NewServer] of [server.go];
      [Alerts] is [alert_dispatcher.go].  [Pipeline] runs all goroutines of
      the event path together, on channel queues.  [Streams] runs the
      ingestion on NATS JetStream, with redelivery and restarts;
      [StreamFacts] has its theorems.
    - [Dgraph] is the database as the stores use it; [DgraphStore] has the
      stores of [dgraph_constraint_store.go] and [dgraph_action_store.go] and
      proves that they keep the contract of [Store]; [DgraphEvents] has
      [dgraph_event_store.go], [DgraphEventFacts] its theorems;
      [DgraphSchema] has the text of [schema.go].
    - [Dial] has the transport options ([pkg/util/tls.go],
      [BuildDgraphDialOpts]); [ServerRun] the start of the process.

    Agents:
    - [Containers] is [enrich_container.go] and [enrich_kubernetes.go];
      [NodeAgent] is the state and the handlers of [nodeagent.go]; [Detector]
      has its set-up and read loop and the run command.
    - [ClusterAgent] is [grpc_servers.go], [config_cache.go] and
      [action_handler.go]; [Falco] is [falcosidekick_listener.go]; [Webhook]
      is [podagent_injector.go]; [ClusterRun] has the start of the cluster
      agent and of the webhook server.
    - [Selection] compares the four places that select pods by labels.
    - [PodAgent] is [podagent.go] with the two commands of the pod agent.

    Commands: [TarianCtl] (flags, add, get, import, remove) and [Install]
    (install, with the helm and Kubernetes clients).  [Commands] has the root
    commands of all processes with flags and logger, the connection a command
    of tarianctl makes its calls over, and the commands of the pod agent.

    Together: [System] runs agents, cluster agent, server and client as one;
    [Delivery] sends the reports of an agent through it into [Pipeline];
    [DgraphSystem] puts the server of that system on Dgraph, and
    [DgraphPipeline] the event path; [DgraphIngestion] says what is in the
    database of the events that were accepted.

    ** What the theorems show

    - Detection: which goroutines an event of the detector starts, in terms of
      its container, the pods of the node and the constraints
      ([detector_event_exact], [handleExecEvent_exact], [FindPod_exact]); what
      a scan of files reports and what registering does
      ([threat_scan_reports_exactly], [register_walk_settles],
      [registration_settles]); which pods are deleted
      ([ProcessActions_exact]); what a Falco alert causes at the listener as
      the program builds it, which has no logger
      ([spawned_process_alert_exact]).
    - The server's state: names stay unique under any client program
      ([clients_keep_keys_unique], [agents_keep_server_state]), but not when
      requests overlap, on any store and for any number of requests
      ([overlapping_adds_duplicate]); the handlers refine an
      abstract specification ([AddConstraint_refines],
      [RemoveConstraint_refines]); answers are exact ([GetConstraints_exact]).
    - The database: the stores on Dgraph keep the contracts
      ([dgraph_stores_refine], [dgraph_serves_pipeline]), give back what
      they were given ([added_constraint_comes_back],
      [added_event_comes_back]), and write what the schema declares
      ([written_values_are_typed]).
    - Events: order, bounds and delivery under every interleaving
      ([accepted_events_fifo], [workers_terminate]); on Dgraph, which may
      refuse events, each is in the database once or was refused
      ([accepted_events_reach_store]); at least one publish ([Publish_at_least_once]);
      with requests, workers and dispatcher interleaved nothing that was
      accepted disappears and every violation can be posted
      ([accepted_events_stay_visible], [accepted_violations_get_alerted]).  On
      JetStream every accepted event is accounted for, a restart loses a
      bounded number, and the streams can be drained
      ([accepted_events_accounted], [streams_can_be_drained]).
    - From end to end: a violation on a node, and one that a scan of files
      finds in a pod, ends as an alert ([violations_end_as_alerts],
      [file_violations_end_as_alerts]); a registered violation ends the violations
      ([registration_reaches_agents], [registration_reaches_dgraph]); an
      import works once ([import_works_once]).
    - Order of set-up: [install_in_order], [reads_after_setup]; connections:
      [connects_as_told].
    - What the code does against its intention is proved where it matters:
      [registrations_collide], [store_error_flags_every_exec],
      [refused_upsert_panics], [from_violated_pod_exact],
      [malformed_labels_widen], [selections_agree].

    ** Bounds

    The channel queue holds 1000 events, the channel of a worker 1000 and that
    of the action handler 4096, as in the code; a message is published at most
    five times.  From these the workers need at most 8004 steps, and a restart
    loses at most 2004 events, those in two channels and on both sides of
    them.  The JSON
    parser has fuel twice the length of its text plus two, each step consuming
    a byte or closing a level, and is proved to read back what is printed.
    Loops over strings recurse on the string or have its length as fuel.
    Process ids are cut to 32 bits, Falco priorities and limits to theirs.

    ** Not modelled

    The wire format of protobuf and the code [protoc] generates for it, gRPC,
    NATS, Dgraph, the Kubernetes API, the eBPF detector, helm and cobra are
    libraries or services the program calls: they are calls with laws.  YAML
    is a parameter of [tarianctl import].  What is logged is left out, except
    for the listener that has no logger and for fatal log entries, which end
    the process.  Test doubles ([fake_*.go], [pkg/testing], [test/e2e]) are not
    part of the program.  The alert dispatcher is run together with channel queues
    only: on JetStream it reads the same store. *)

From stdpp Require Export base option list gmap strings pretty.
From Stdlib Require Export ZArith Lia.

(** * Go values *)

Declare Scope go_scope.
Delimit Scope go_scope with go.

(** A Go pointer is [nil] or refers to a value; a Go slice is [nil] or a
    sequence.  Both are options: the code distinguishes a nil slice from an
    empty one. *)
Abbreviation ptr A := (option A) (only parsing).
Abbreviation slice A := (option (list A)) (only parsing).

(** The elements a [for range] over a slice visits. *)
Definition elems {A} (s : option (list A)) : list A := default [] s.

(** [append(s, xs...)]. *)
Definition append_slice {A} (s : option (list A)) (xs : list A) : option (list A) :=
  match s, xs with
  | None, [] => None
  | _, _ => Some (elems s ++ xs)
  end.

(** Canonical gRPC status codes the program uses. *)
Inductive code := InvalidArgument | Internal | NotFound | Unimplemented | Unavailable.

#[export] Instance code_eq_dec : EqDecision code.
Proof. solve_decision. Defined.

(** Go errors: a status error, a plain message, or [fmt.Errorf("p: %w", e)].
    [Errorf] wraps an error that may itself be nil: the result of
    [fmt.Errorf] is never nil. *)
Inductive error :=
| StatusError (c : code) (msg : string)
| PlainError (msg : string)
| WrapError (prefix : string) (inner : option error).

Definition Errorf (prefix : string) (inner : option error) : option error :=
  Some (WrapError prefix inner).

(** [errors.Is]/[status.Code] look through wrappers. *)
Fixpoint error_code (e : error) : option code :=
  match e with
  | StatusError c _ => Some c
  | PlainError _ => None
  | WrapError _ (Some i) => error_code i
  | WrapError _ None => None
  end.

(** How a goroutine can stop other than by returning. *)
Inductive crash :=
| NilDeref (what : string)
| IndexOutOfRange (what : string)
| FatalExit (what : string).

Inductive outcome (A : Type) :=
| Done (a : A)
| Crashed (c : crash).
Arguments Done {A} a.
Arguments Crashed {A} c.

(** * Programs *)

(** A handler of the program is a tree of calls to its environment (a store,
    a gRPC peer, the Kubernetes API, the file system, the clock).  [E X] is
    the type of calls that answer an [X]. *)
Inductive prog (E : Type -> Type) (A : Type) : Type :=
| Ret (a : A)
| Vis {X : Type} (e : E X) (k : X -> prog E A)
| Crash (c : crash).
Arguments Ret {E A} a.
Arguments Vis {E A X} e k.
Arguments Crash {E A} c.

Fixpoint bind {E A B} (p : prog E A) (f : A -> prog E B) : prog E B :=
  match p with
  | Ret a => f a
  | Vis e k => Vis e (fun x => bind (k x) f)
  | Crash c => Crash c
  end.

Definition call {E X} (e : E X) : prog E X := Vis e Ret.

Notation "x <- p ;; q" := (bind p (fun x => q))
  (at level 100, p at next level, right associativity) : go_scope.
Notation "p ;;; q" := (bind p (fun _ => q))
  (at level 100, right associativity) : go_scope.
Open Scope go_scope.

(** Dereference of a pointer: nil panics. *)
Definition deref {E A} (what : string) (p : ptr A) : prog E A :=
  match p with
  | Some a => Ret a
  | None => Crash (NilDeref what)
  end.

(** ** Loops *)

(** How the body of a [for range] ends: next iteration (also [continue]),
    [break], or [return] from the enclosing function. *)
Inductive flow (A R : Type) :=
| Next (a : A)
| Break (a : A)
| Return (r : R).
Arguments Next {A R} a.
Arguments Break {A R} a.
Arguments Return {A R} r.

Fixpoint for_range {E T A R} (l : list T) (a : A) (body : T -> A -> prog E (flow A R))
  : prog E (A + R) :=
  match l with
  | [] => Ret (inl a)
  | t :: l' =>
      r <- body t a;;
      match r with
      | Next a' => for_range l' a' body
      | Break a' => Ret (inl a')
      | Return r => Ret (inr r)
      end
  end.

(** A loop with no early exit. *)
Fixpoint for_each {E T A} (l : list T) (a : A) (body : T -> A -> prog E A) : prog E A :=
  match l with
  | [] => Ret a
  | t :: l' => a' <- body t a;; for_each l' a' body
  end.

(** ** Execution *)

(** An environment answers every call and changes its state. *)
Definition handler (E : Type -> Type) (S : Type) := forall X, E X -> S -> X * S.

Fixpoint run {E A S} (h : handler E S) (p : prog E A) (s : S) : outcome A * S :=
  match p with
  | Ret a => (Done a, s)
  | Vis e k => let '(x, s') := h _ e s in run h (k x) s'
  | Crash c => (Crashed c, s)
  end.

(** The calls a run makes, in order. *)
Definition event (E : Type -> Type) := {X : Type & E X}.
Definition ev {E X} (e : E X) : event E := existT X e.

Fixpoint trace {E A S} (h : handler E S) (p : prog E A) (s : S) : list (event E) :=
  match p with
  | Ret _ | Crash _ => []
  | Vis e k => let '(x, s') := h _ e s in ev e :: trace h (k x) s'
  end.

(** One component's calls implemented by another component's handlers. *)
Fixpoint interp {E F A} (i : forall X, E X -> prog F X) (p : prog E A) : prog F A :=
  match p with
  | Ret a => Ret a
  | Vis e k => bind (i _ e) (fun x => interp i (k x))
  | Crash c => Crash c
  end.

Section run_laws.
Context {E : Type -> Type} {S : Type} (h : handler E S).

Lemma run_bind {A B} (p : prog E A) (f : A -> prog E B) s :
  run h (bind p f) s =
  match run h p s with
  | (Done a, s') => run h (f a) s'
  | (Crashed c, s') => (Crashed c, s')
  end.
Proof.
  revert s. induction p as [a|X e k IH|c]; intros s; simpl; [done| |done].
  destruct (h X e s) as [x s']. apply IH.
Qed.

Lemma trace_bind {A B} (p : prog E A) (f : A -> prog E B) s :
  trace h (bind p f) s =
  trace h p s ++
  match run h p s with
  | (Done a, s') => trace h (f a) s'
  | (Crashed c, s') => []
  end.
Proof.
  revert s. induction p as [a|X e k IH|c]; intros s; simpl; [done| |done].
  destruct (h X e s) as [x s']. by rewrite IH.
Qed.

(** A loop keeps an invariant of accumulator and state that each turn keeps. *)
Lemma run_for_each {T A} (I : A -> S -> Prop) (l : list T) a s (body : T -> A -> prog E A) :
  I a s ->
  (forall t a s, t ∈ l -> I a s ->
     exists a' s', run h (body t a) s = (Done a', s') /\ I a' s') ->
  exists a' s', run h (for_each l a body) s = (Done a', s') /\ I a' s'.
Proof.
  revert a s. induction l as [|t l IH]; intros a s HI Hb; simpl; [eauto|].
  destruct (Hb t a s ltac:(left) HI) as (a'&s'&Hr&HI'). rewrite run_bind, Hr.
  apply IH; [done|]. intros t' a'' s'' Hin. apply Hb. by right.
Qed.

(** A loop whose turns keep [I], move along a preorder [R] and establish a
    fact about their element that [R] preserves, establishes it for all. *)
Lemma run_for_each_all {T A} (I : S -> Prop) (R : S -> S -> Prop) `{!PreOrder R}
    (P : T -> S -> Prop) (l : list T) a s (body : T -> A -> prog E A) :
  (forall t s s', R s s' -> P t s -> P t s') -> I s ->
  (forall t a s, t ∈ l -> I s ->
     exists a' s', run h (body t a) s = (Done a', s') /\ I s' /\ R s s' /\ P t s') ->
  exists a' s', run h (for_each l a body) s = (Done a', s') /\ I s' /\ R s s' /\
    forall t, t ∈ l -> P t s'.
Proof.
  intros Hst. revert a s. induction l as [|t l IH]; intros a s HI Hb; simpl.
  - exists a, s. split_and!; [done|done|reflexivity|]. intros t Ht. by apply elem_of_nil in Ht.
  - destruct (Hb t a s ltac:(left) HI) as (a1&s1&Hr&HI1&HR1&HP1). rewrite run_bind, Hr.
    destruct (IH a1 s1 HI1) as (a2&s2&Hr2&HI2&HR2&HP2).
    { intros t' a' s' Hin. apply Hb. by right. }
    exists a2, s2. split_and!; [done|done|by transitivity s1|].
    intros t' [->|Hin]%elem_of_cons; [by eapply Hst|by apply HP2].
Qed.
End run_laws.

Lemma run_interp {E F A S} (i : forall X, E X -> prog F X) (h : handler F S)
    (g : handler E S) (p : prog E A) :
  (forall X (e : E X) s, run h (i X e) s = let '(x, s') := g X e s in (Done x, s')) ->
  forall s, run h (interp i p) s = run g p s.
Proof.
  intros Hi. induction p as [a|X e k IH|c]; intros s; simpl; [done| |done].
  rewrite run_bind, Hi. destruct (g X e s) as [x s']. apply IH.
Qed.

(** Whatever one component's handlers keep, every client program keeps. *)
Lemma interp_invariant {E F A S} (i : forall X, E X -> prog F X) (h : handler F S)
    (I : S -> Prop) (p : prog E A) :
  (forall X (e : E X) s, I s -> exists x, (run h (i X e) s).1 = Done x /\ I (run h (i X e) s).2) ->
  forall s, I s -> I (run h (interp i p) s).2.
Proof.
  intros Hi. induction p as [a|X e k IH|c]; intros s Hs; simpl; [done| |done].
  rewrite run_bind. destruct (Hi X e s Hs) as (x&Hx&HI).
  destruct (run h (i X e) s) as [o s'] eqn:Heq; simpl in *; subst o. by apply IH.
Qed.

(** * A program logic over all environments *)

(** [sat C R Q p]: whatever the environment answers within [R], every call of
    [p] satisfies [C] and the outcome satisfies [Q]. *)
Section sat.
Context {E : Type -> Type}.
Context (C : forall X, E X -> Prop) (R : forall X, E X -> X -> Prop).

Fixpoint sat {A} (Q : outcome A -> Prop) (p : prog E A) : Prop :=
  match p with
  | Ret a => Q (Done a)
  | Vis e k => C _ e /\ forall x, R _ e x -> sat Q (k x)
  | Crash c => Q (Crashed c)
  end.

Lemma sat_mono {A} (Q Q' : outcome A -> Prop) p :
  (forall o, Q o -> Q' o) -> sat Q p -> sat Q' p.
Proof.
  intros HQ. induction p as [a|X e k IH|c]; simpl; [auto| |auto].
  intros [HC Hk]; split; eauto.
Qed.

Lemma sat_bind {A B} (Q : outcome B -> Prop) (p : prog E A) (f : A -> prog E B) :
  sat (fun o => match o with Done a => sat Q (f a) | Crashed c => Q (Crashed c) end) p ->
  sat Q (bind p f).
Proof.
  induction p as [a|X e k IH|c]; simpl; [auto| |auto].
  intros [HC Hk]; split; eauto.
Qed.

Lemma sat_call {X} (Q : outcome X -> Prop) (e : E X) :
  C X e -> (forall x, R X e x -> Q (Done x)) -> sat Q (call e).
Proof. simpl; auto. Qed.

(** Loop rules: an invariant of the accumulator. *)
Lemma sat_for_each {T A} (I : A -> Prop) (Qc : crash -> Prop) (l : list T) a
    (body : T -> A -> prog E A) :
  I a ->
  (forall t a, t ∈ l -> I a ->
     sat (fun o => match o with Done a' => I a' | Crashed c => Qc c end) (body t a)) ->
  sat (fun o => match o with Done a' => I a' | Crashed c => Qc c end) (for_each l a body).
Proof.
  revert a. induction l as [|t l IH]; intros a Ha Hb; simpl; [done|].
  apply sat_bind. eapply sat_mono; [|apply Hb; [left|done]].
  intros [a'|c] H'; simpl; [|done]. apply IH; [done|].
  intros t' a'' Hin. apply Hb. by right.
Qed.

Lemma sat_for_range {T A Rt} (I : A -> Prop) (QR : Rt -> Prop) (Qc : crash -> Prop)
    (l : list T) a (body : T -> A -> prog E (flow A Rt)) :
  I a ->
  (forall t a, t ∈ l -> I a ->
     sat (fun o => match o with
                   | Done (Next a') => I a' | Done (Break a') => I a'
                   | Done (Return r) => QR r | Crashed c => Qc c end) (body t a)) ->
  sat (fun o => match o with
                | Done (inl a') => I a' | Done (inr r) => QR r
                | Crashed c => Qc c end) (for_range l a body).
Proof.
  revert a. induction l as [|t l IH]; intros a Ha Hb; simpl; [done|].
  apply sat_bind. eapply sat_mono; [|apply Hb; [left|done]].
  intros [[a'|a'|r]|c] H'; simpl; try done. apply IH; [done|].
  intros t' a'' Hin. apply Hb. by right.
Qed.

(** Soundness: a handler that keeps an invariant [I] on permitted calls and
    answers within [R]. *)
Lemma sat_run {A S} (h : handler E S) (I : S -> Prop) (Q : outcome A -> Prop) p s :
  (forall X (e : E X) s, I s -> C X e -> R X e (h X e s).1 /\ I (h X e s).2) ->
  sat Q p -> I s ->
  Q (run h p s).1 /\ I (run h p s).2 /\
  Forall (fun v => C _ (projT2 v)) (trace h p s).
Proof.
  intros Hh. revert s. induction p as [a|X e k IH|c]; intros s; simpl; [auto| |auto].
  intros [HC Hk] Hs. destruct (Hh X e s Hs HC) as [HR HI].
  destruct (h X e s) as [x s'] eqn:Heq; simpl in *.
  destruct (IH x s' (Hk x HR) HI) as (?&?&?). split_and!; auto.
Qed.
End sat.

(** [ensures Q p]: the outcome satisfies [Q] whatever the environment answers. *)
Definition ensures {E A} (Q : outcome A -> Prop) (p : prog E A) : Prop :=
  sat (fun _ _ => True) (fun _ _ _ => True) Q p.

Section ensures.
Context {E : Type -> Type}.

Lemma ensures_mono {A} (Q Q' : outcome A -> Prop) (p : prog E A) :
  (forall o, Q o -> Q' o) -> ensures Q p -> ensures Q' p.
Proof. apply sat_mono. Qed.

Lemma ensures_ret {A} (Q : outcome A -> Prop) (a : A) :
  Q (Done a) -> ensures (E := E) Q (Ret a).
Proof. done. Qed.

Lemma ensures_call {X} (Q : outcome X -> Prop) (e : E X) :
  (forall x, Q (Done x)) -> ensures Q (call e).
Proof. intros H. split; [exact I|]. intros x _. exact (H x). Qed.

Lemma ensures_bind {A B} (Q : outcome B -> Prop) (p : prog E A) (f : A -> prog E B) :
  ensures (fun o => match o with Done a => ensures Q (f a) | Crashed c => Q (Crashed c) end) p ->
  ensures Q (bind p f).
Proof. apply sat_bind. Qed.

Lemma ensures_call_bind {X B} (Q : outcome B -> Prop) (e : E X) (f : X -> prog E B) :
  (forall x, ensures Q (f x)) -> ensures Q (bind (call e) f).
Proof. intros H. split; [exact I|]. intros x _. exact (H x). Qed.

Lemma ensures_run {A S} (h : handler E S) (Q : outcome A -> Prop) (p : prog E A) s :
  ensures Q p -> Q (run h p s).1.
Proof.
  intros Hp. by destruct (sat_run (fun _ _ => True) (fun _ _ _ => True) h (fun _ => True) Q p s
              ltac:(auto) Hp I).
Qed.
End ensures.

(** A program that never crashes, whatever the environment answers. *)
Definition never_crashes {E A} (p : prog E A) : Prop :=
  sat (fun _ _ => True) (fun _ _ _ => True)
      (fun o => match o with Done _ => True | Crashed _ => False end) p.

Lemma never_crashes_run {E A S} (h : handler E S) (p : prog E A) s :
  never_crashes p -> exists a, (run h p s).1 = Done a.
Proof.
  intros Hp. destruct (sat_run (fun _ _ => True) (fun _ _ _ => True) h (fun _ => True) _ p s
              ltac:(auto) Hp I) as [H _].
  destruct (run h p s).1 as [a|c]; [eauto|done].
Qed.

(** * Interleaving *)

(** Several requests in flight against one shared environment: the calls of
    different requests interleave, each call is atomic. *)
Section pool.
Context {E : Type -> Type} {A S : Type} (h : handler E S).

Inductive pool_step : list (prog E A) * S -> list (prog E A) * S -> Prop :=
| pool_call ps i X (e : E X) k s :
    ps !! i = Some (Vis e k) ->
    pool_step (ps, s) (<[i := k (h X e s).1]> ps, (h X e s).2).

(** Executable schedules: the request to advance at each step. *)
Fixpoint run_schedule (sched : list nat) (c : list (prog E A) * S) : list (prog E A) * S :=
  match sched with
  | [] => c
  | i :: sched' =>
      match c.1 !! i with
      | Some (@Vis _ _ X e k) =>
          run_schedule sched' (<[i := k (h X e c.2).1]> c.1, (h X e c.2).2)
      | _ => run_schedule sched' c
      end
  end.

Lemma run_schedule_reach sched c : rtc pool_step c (run_schedule sched c).
Proof.
  revert c. induction sched as [|i sched IH]; intros [ps s]; simpl; [constructor|].
  destruct (ps !! i) as [[a|X e k|cr]|] eqn:Hi; try apply IH.
  eapply rtc_l; [by eapply pool_call|apply IH].
Qed.

(** An invariant of the shared state that every permitted call preserves
    holds at every reachable configuration. *)
Lemma pool_invariant (C : forall X, E X -> Prop) (R : forall X, E X -> X -> Prop)
    (Q : outcome A -> Prop) (I : S -> Prop) c c' :
  (forall X (e : E X) s, I s -> C X e -> R X e (h X e s).1 /\ I (h X e s).2) ->
  rtc pool_step c c' ->
  Forall (sat C R Q) c.1 -> I c.2 -> Forall (sat C R Q) c'.1 /\ I c'.2.
Proof.
  intros Hh Hst. induction Hst as [c|c c1 c2 Hstep _ IH]; [done|].
  intros Hps HI. inversion Hstep as [ps i X e k s Hi]; subst; simpl in *.
  pose proof (Forall_lookup_1 _ _ _ _ Hps Hi) as [HC Hk].
  destruct (Hh X e s HI HC) as [HR HI']. apply IH; [|done].
  apply Forall_insert; auto.
Qed.
End pool.

(** * Propositions *)

Lemma and_iff_compat_l_strong (P Q R : Prop) : (P -> (Q <-> R)) -> (P /\ Q <-> P /\ R).
Proof. tauto. Qed.

(** * Lists *)

Lemma filter_all {A} (P : A -> Prop) `{!forall x, Decision (P x)} l : Forall P l -> filter P l = l.
Proof. induction 1 as [|x l Hx _ IH]; [done|]. rewrite filter_cons_True by done. by f_equal. Qed.

Lemma filter_none {A} (P : A -> Prop) `{!forall x, Decision (P x)} l :
  Forall (fun x => ~ P x) l -> filter P l = [].
Proof. induction 1 as [|x l Hx _ IH]; [done|]. by rewrite filter_cons_False. Qed.

Lemma filter_fmap {A B} (f : A -> B) (P : B -> Prop) `{!forall x, Decision (P x)} (l : list A) :
  filter P (f <$> l) = f <$> filter (fun x => P (f x)) l.
Proof.
  induction l as [|x l IH]; [done|]. rewrite fmap_cons. destruct (decide (P (f x))).
  - by rewrite !filter_cons_True, IH.
  - by rewrite !filter_cons_False, IH.
Qed.

(** * Tactics *)

(** Split every conditional or match of the goal, keeping the equation. *)
Ltac split_match :=
  repeat match goal with
         | |- context [match ?x with _ => _ end] => destruct x eqn:?; simplify_eq/=; try done
         | |- context [if ?b then _ else _] => destruct b eqn:?; simplify_eq/=; try done
         end.

(** Bring boolean tests on strings and numbers to propositions. *)
Ltac to_prop :=
  repeat match goal with
         | Eb : negb _ = false |- _ => apply negb_false_iff in Eb
         | Eb : Z.eqb _ _ = false |- _ => apply Z.eqb_neq in Eb
         | Eb : Z.leb _ _ = false |- _ => apply Z.leb_gt in Eb
         | Eb : Z.ltb _ _ = false |- _ => apply Z.ltb_ge in Eb
         | Eb : String.eqb _ _ = false |- _ => apply String.eqb_neq in Eb
         | Eb : Nat.leb _ _ = false |- _ => apply Nat.leb_gt in Eb
         | Eb : Nat.ltb _ _ = false |- _ => apply Nat.ltb_ge in Eb
         | Eb : orb _ _ = false |- _ => let Hl := fresh "Eb" in apply orb_false_iff in Eb; destruct Eb as [Eb Hl]
         | Eb : negb _ = true |- _ => apply negb_true_iff in Eb
         | Eb : Z.eqb _ _ = true |- _ => apply Z.eqb_eq in Eb
         | Eb : Z.leb _ _ = true |- _ => apply Z.leb_le in Eb
         | Eb : Z.ltb _ _ = true |- _ => apply Z.ltb_lt in Eb
         | Eb : String.eqb _ _ = true |- _ => apply String.eqb_eq in Eb
         | Eb : Nat.leb _ _ = true |- _ => apply Nat.leb_le in Eb
         | Eb : Nat.ltb _ _ = true |- _ => apply Nat.ltb_lt in Eb
         | Eb : andb _ _ = true |- _ => let Hl := fresh "Eb" in apply andb_true_iff in Eb; destruct Eb as [Eb Hl]
         end.
