(* ===== verification/Guards.v ===== *)
(** What a program does after what.  The history of a run is the list of its
    calls with their answers; [guarded P Q past p] says that, whatever the
    environment answers, every call of [p] satisfies [P] at the history before
    it and the result satisfies [Q] at the history of the whole.  Two
    goroutines are run under a schedule. *)

From S2P Require Import Prelude.

Section history.
Context {E : Type -> Type}.

(** A call and its answer. *)
Definition answered : Type := {X : Type & (E X * X)%type}.
Definition got {X} (e : E X) (x : X) : answered := existT X (e, x).

Fixpoint history {A S} (h : handler E S) (p : prog E A) (s : S) : list answered :=
  match p with
  | Ret _ | Crash _ => []
  | Vis e k => let '(x, s') := h _ e s in got e x :: history h (k x) s'
  end.

Fixpoint guarded {A} (P : list answered -> forall X, E X -> Prop) (Q : list answered -> A -> Prop)
    (past : list answered) (p : prog E A) : Prop :=
  match p with
  | Ret a => Q past a
  | Vis e k => P past _ e /\ forall x, guarded P Q (past ++ [got e x]) (k x)
  | Crash _ => True
  end.

Section rules.
Context (P : list answered -> forall X, E X -> Prop).

Lemma guarded_mono {A} (Q Q' : list answered -> A -> Prop) past (p : prog E A) :
  (forall past' a, past ⊆ past' -> Q past' a -> Q' past' a) -> guarded P Q past p -> guarded P Q' past p.
Proof.
  revert past. induction p as [a|X e k IH|c]; intros past HQ Hp; cbn in *; [by apply HQ| |done].
  destruct Hp as [He Hk]. split; [done|]. intros x. apply IH; [|done].
  intros past' a Hsub. apply HQ. set_solver.
Qed.

(** Nothing of the past is lost. *)
Lemma guarded_extends {A} (Q : list answered -> A -> Prop) past (p : prog E A) :
  guarded P Q past p -> guarded P (fun past' a => past ⊆ past' /\ Q past' a) past p.
Proof.
  revert past. induction p as [a|X e k IH|c]; intros past Hp; cbn in *; [done| |done].
  destruct Hp as [He Hk]. split; [done|]. intros x.
  eapply guarded_mono; [|apply IH, Hk]. intros past' a _ [Hsub HQ]. split; [set_solver|done].
Qed.

Lemma guarded_bind {A B} (Q : list answered -> B -> Prop) past (p : prog E A) (f : A -> prog E B) :
  guarded P (fun past' a => guarded P Q past' (f a)) past p -> guarded P Q past (bind p f).
Proof.
  revert past. induction p as [a|X e k IH|c]; intros past Hp; cbn in *; [done| |done].
  destruct Hp as [He Hk]. split; [done|]. intros x. by apply IH.
Qed.

Lemma guarded_run {A S} (h : handler E S) (Q : list answered -> A -> Prop) past (p : prog E A) s :
  guarded P Q past p ->
  (forall pre X (e : E X) x post, history h p s = pre ++ got e x :: post -> P (past ++ pre) X e) /\
  (forall a, (run h p s).1 = Done a -> Q (past ++ history h p s) a).
Proof.
  revert past s. induction p as [a|X e k IH|c]; intros past s Hp; cbn in *.
  - split; [by intros [] *|]. intros a' [= <-]. by rewrite app_nil_r.
  - destruct Hp as [He Hk]. destruct (h X e s) as [x s'] eqn:Hh.
    destruct (IH x (past ++ [got e x]) s' (Hk x)) as [H1 H2]. split.
    + intros [|v pre] Y e' y post Heq.
      * apply (f_equal (hd (got e x))) in Heq. cbn in Heq. rewrite app_nil_r.
        pose (C := fun v : answered => P past (projT1 v) (projT2 v).1).
        change (C (got e' y)). by rewrite <- Heq.
      * pose proof (f_equal tail Heq) as Hrest. apply (f_equal (hd (got e x))) in Heq. cbn in Heq, Hrest.
        subst v. specialize (H1 pre Y e' y post Hrest). by rewrite <- app_assoc in H1.
    + intros a Ha. specialize (H2 a Ha). by rewrite <- app_assoc in H2.
  - split; [by intros [] *|done].
Qed.

(** What every call of the program satisfies, every new part of the past does. *)
Lemma guarded_sat {A} (C : forall X, E X -> Prop) (Q : list answered -> A -> Prop) past (p : prog E A) :
  sat C (fun _ _ _ => True) (fun _ => True) p -> guarded P Q past p ->
  guarded P (fun past' a => Q past' a /\
    exists new, past' = past ++ new /\ Forall (fun v => C _ (projT2 v).1) new) past p.
Proof.
  revert past. induction p as [a|X e k IH|c]; intros past Hc Hp; cbn in *; [|destruct Hc as [He Hc]|done].
  - split; [done|]. exists []. by rewrite app_nil_r.
  - destruct Hp as [He' Hk]. split; [done|]. intros x.
    eapply guarded_mono; [|apply IH; [by apply Hc|apply Hk]].
    intros past' a _ [HQ (new&->&Hn)]. split; [done|]. exists (got e x :: new).
    rewrite <- app_assoc. split; [done|]. by constructor.
Qed.
End rules.

(** Conditions that only ask what happened, not what did not. *)
Class Stable {A} (Q : list answered -> A -> Prop) : Prop :=
  stable past past' a : past ⊆ past' -> Q past a -> Q past' a.

Lemma guarded_past {A} (P : list answered -> forall X, E X -> Prop) (Q : list answered -> A -> Prop)
    past past' (p : prog E A) :
  (forall past past' X e, past ⊆ past' -> P past X e -> P past' X e) -> Stable Q ->
  past ⊆ past' -> guarded P Q past p -> guarded P Q past' p.
Proof.
  intros HP HQ. revert past past'. induction p as [a|X e k IH|c]; intros past past' Hsub Hp; cbn in *;
    [by eapply stable| |done].
  destruct Hp as [He Hk]. split; [by eapply HP|]. intros x. eapply IH; [|apply Hk]. set_solver.
Qed.
End history.
Arguments answered E : clear implicits.

(** Calls passed on under a guard that is open. *)
Lemma guarded_interp_ensures {E F A} (P : list (answered F) -> forall X, F X -> Prop)
    (inj : forall X, E X -> F X) (Q : outcome A -> Prop) (p : prog E A) past :
  (forall past' X (e : E X), past ⊆ past' -> P past' X (inj X e)) -> ensures Q p ->
  guarded P (fun past' a => past ⊆ past' /\ Q (Done a)) past (interp (fun X e => call (inj X e)) p).
Proof.
  revert past. induction p as [a|X e k IH|c]; intros past Hp Hq; cbn; [done| |done].
  split; [by apply Hp|]. intros x.
  assert (past ⊆ past ++ [got (inj X e) x]) as Hx by (intros y; rewrite elem_of_app; by left).
  eapply guarded_mono; [|apply IH; [|by apply Hq]].
  - intros past' a _ [Hs HQ]. split; [by etrans|done].
  - intros past' Y e' Hs. apply Hp. by etrans.
Qed.

Lemma ensures_true {E A} (p : prog E A) : ensures (fun _ => True) p.
Proof. unfold ensures. induction p as [a|X e k IH|c]; cbn; auto. Qed.

Lemma guarded_interp {E F A} (P : list (answered F) -> forall X, F X -> Prop)
    (inj : forall X, E X -> F X) (p : prog E A) past :
  (forall past' X (e : E X), past ⊆ past' -> P past' X (inj X e)) ->
  guarded P (fun past' _ => past ⊆ past') past (interp (fun X e => call (inj X e)) p).
Proof.
  intros Hp. eapply guarded_mono; [|apply guarded_interp_ensures; [done|apply ensures_true]].
  by intros past' a _ [Hs _].
Qed.

(** A sequence of calls passed on. *)
Lemma guarded_interp_bind {E F A B} (P : list (answered F) -> forall X, F X -> Prop) (inj : forall X, E X -> F X)
    (Q : list (answered F) -> B -> Prop) past (p : prog E A) (f : A -> prog E B) :
  guarded P (fun past' a => guarded P Q past' (interp (fun X e => call (inj X e)) (f a))) past
    (interp (fun X e => call (inj X e)) p) ->
  guarded P Q past (interp (fun X e => call (inj X e)) (bind p f)).
Proof.
  revert past. induction p as [a|X e k IH|c]; intros past Hp; cbn in *; [done| |done].
  destruct Hp as [He Hk]. split; [done|]. intros x. by apply IH.
Qed.

(** * An error group of two goroutines *)

(** [errgroup.Group]: both run to their end, [Wait] returns the error of the
    first that failed.  The schedule says whose turn it is while both run. *)
Fixpoint both {E} (sched : list bool) (p q : prog E (option error)) : prog E (option error) :=
  match p, q with
  | Crash c, _ => Crash c
  | _, Crash c => Crash c
  | Ret (Some e), _ => q;;; Ret (Some e)
  | Ret None, _ => q
  | _, Ret (Some e) => p;;; Ret (Some e)
  | _, Ret None => p
  | Vis e k, Vis e' k' =>
      match sched with
      | [] => r <- p;; match r with Some err => q;;; Ret (Some err) | None => q end
      | true :: sched' => Vis e (fun x => both sched' (k x) q)
      | false :: sched' => Vis e' (fun x => both sched' p (k' x))
      end
  end.

(** It fails only if one of them does, and otherwise establishes what both do. *)
Lemma guarded_both {E} (P : list (answered E) -> forall X, E X -> Prop)
    (Q1 Q2 : list (answered E) -> option error -> Prop) sched past (p q : prog E (option error)) :
  (forall past past' X e, past ⊆ past' -> P past X e -> P past' X e) -> Stable Q1 -> Stable Q2 ->
  guarded P Q1 past p -> guarded P Q2 past q ->
  guarded P (fun past' r => r = None -> Q1 past' None /\ Q2 past' None) past (both sched p q).
Proof.
  intros HP HS1 HS2.
  assert (forall past err (r : prog E (option error)) (Q : list (answered E) -> option error -> Prop) Q',
    guarded P Q past r -> guarded P (fun past' (o : option error) => o = None -> Q' past') past (r;;; Ret (Some err))) as Hfail.
  { intros past' err r Q Q' Hr. apply guarded_bind. by eapply guarded_mono; [|exact Hr]. }
  assert (forall past p q, guarded P Q1 past p -> guarded P Q2 past q ->
    guarded P (fun past' r => r = None -> Q1 past' None /\ Q2 past' None) past
      (r <- p;; match r with Some err => q;;; Ret (Some err) | None => q end)) as Hseq.
  { intros past' p' q' Hp Hq. apply guarded_bind. eapply guarded_mono; [|exact Hp].
    intros past1 [err|] Hsub HQ.
    - eapply Hfail, guarded_past; done.
    - eapply guarded_mono; [|by eapply guarded_past]. intros past2 a Hsub2 HQ2 ->.
      split; [by eapply stable|done]. }
  assert (forall past p q, guarded P Q1 past p -> guarded P Q2 past q -> p = Ret None ->
    guarded P (fun past' r => r = None -> Q1 past' None /\ Q2 past' None) past q) as Hleft.
  { intros past' p' q' Hp Hq ->. eapply guarded_mono; [|exact Hq].
    intros past1 a Hsub HQ ->. split; [by eapply stable|done]. }
  assert (forall past p q, guarded P Q1 past p -> guarded P Q2 past q -> q = Ret None ->
    guarded P (fun past' r => r = None -> Q1 past' None /\ Q2 past' None) past p) as Hright.
  { intros past' p' q' Hp Hq ->. eapply guarded_mono; [|exact Hp].
    intros past1 a Hsub HQ ->. split; [done|by eapply stable]. }
  revert past p q. induction sched as [|b sched IH]; intros past p q Hp Hq;
    (destruct p as [[e|]|X e k|c]; [| | |done]; destruct q as [[e'|]|Y e' k'|c'];
     cbn [both]; try exact I;
     try (by eapply Hfail; first [exact Hp|exact Hq]);
     try (by apply (Hleft past _ _ Hp Hq)); try (by apply (Hright past _ _ Hp Hq))).
  - by apply (Hseq past _ _ Hp Hq).
  - assert (forall v, past ⊆ past ++ [v]) as Hsub by (intros v x; rewrite elem_of_app; by left).
    destruct b; cbn in Hp, Hq |- *; (split; [first [apply Hp|apply Hq]|]; intros x; apply IH);
      first [apply Hp|apply Hq|apply (guarded_past P _ past); [exact HP|done|apply Hsub|done]].
Qed.
