(* ===== verification/GoStrings.v ===== *)
(** The functions of Go's [strings], [strconv] and [path/filepath] packages
    that the program calls, on byte strings, UTF-8 decoding and slices of
    strings, with the laws the components use: [Split]/[Join] round trip,
    pieces free of the separator, prefix and index facts. *)

From S2P Require Import Prelude.
From Stdlib Require Export Ascii.

Open Scope string_scope.
#[global] Arguments String.append !_ _ / : simpl nomatch.
Open Scope list_scope.

(** * Bytes and slices of strings *)

Definition byte_val (c : ascii) : Z := Z.of_N (N_of_ascii c).

(** [s[:n]] and [s[n:]] for [n <= len(s)]. *)
Fixpoint str_take (n : nat) (s : string) : string :=
  match n, s with
  | S n', String c s' => String c (str_take n' s')
  | _, _ => ""
  end.

Fixpoint str_drop (n : nat) (s : string) : string :=
  match n, s with
  | S n', String _ s' => str_drop n' s'
  | O, _ => s
  | _, "" => ""
  end.

Lemma app_assoc_s (a b c : string) : (a +:+ b) +:+ c = a +:+ b +:+ c.
Proof. induction a as [|x a IH]; simpl; [done|by rewrite IH]. Qed.

Lemma app_empty_r (a : string) : a +:+ "" = a.
Proof. induction a as [|c a IH]; simpl; [done|by rewrite IH]. Qed.

Lemma length_app_s (a b : string) : String.length (a +:+ b) = String.length a + String.length b.
Proof. induction a as [|c a IH]; simpl; [done|by rewrite IH]. Qed.

Lemma str_take_drop n s : str_take n s +:+ str_drop n s = s.
Proof. revert s. induction n as [|n IH]; intros [|c s]; simpl; [done..|by rewrite IH]. Qed.

Lemma str_take_length n s : n <= String.length s -> String.length (str_take n s) = n.
Proof. revert s. induction n as [|n IH]; intros [|c s]; simpl; [done..|lia|]. intros; rewrite IH; lia. Qed.

Lemma str_take_ge n s : String.length s <= n -> str_take n s = s.
Proof. revert s. induction n as [|n IH]; intros [|c s]; simpl; [done|lia|done|]. intros; rewrite IH; [done|lia]. Qed.

Lemma str_take_take m n s : m <= n -> str_take m (str_take n s) = str_take m s.
Proof.
  revert n s. induction m as [|m IH]; intros [|n] [|c s] Hmn; simpl; try done; [lia|].
  rewrite IH; [done|lia].
Qed.

Lemma str_drop_length n s : String.length (str_drop n s) = String.length s - n.
Proof. revert s. induction n as [|n IH]; intros [|c s]; simpl; [done..|apply IH]. Qed.

Lemma str_take_app_length a b : str_take (String.length a) (a +:+ b) = a.
Proof. induction a as [|c a IH]; simpl; [done|by rewrite IH]. Qed.

Lemma str_drop_app_length a b : str_drop (String.length a) (a +:+ b) = b.
Proof. induction a as [|c a IH]; simpl; done. Qed.

(** * Prefixes and occurrences *)

Fixpoint prefixb (p s : string) : bool :=
  match p, s with
  | "", _ => true
  | String c p', String d s' => Ascii.eqb c d && prefixb p' s'
  | String _ _, "" => false
  end.

Definition HasPrefix (s p : string) : bool := prefixb p s.

Lemma HasPrefix_spec s p : HasPrefix s p = true <-> exists t, s = p +:+ t.
Proof.
  unfold HasPrefix. revert s. induction p as [|c p IH]; intros s; simpl.
  - split; [intros _; by exists s|done].
  - destruct s as [|d s]; [split; [done|by intros [t ?]]|].
    rewrite andb_true_iff, Ascii.eqb_eq, IH. split.
    + intros [-> [t ->]]. by exists t.
    + intros [t Ht]. injection Ht as -> ->. split; [done|by exists t].
Qed.

Lemma HasPrefix_app p t : HasPrefix (p +:+ t) p = true.
Proof. apply HasPrefix_spec; eauto. Qed.

Lemma HasPrefix_take s p :
  HasPrefix s p = true -> str_take (String.length p) s = p.
Proof. intros [t ->]%HasPrefix_spec. apply str_take_app_length. Qed.

Lemma HasPrefix_drop s p :
  HasPrefix s p = true -> s = p +:+ str_drop (String.length p) s.
Proof. intros [t ->]%HasPrefix_spec. by rewrite str_drop_app_length. Qed.

(** The first occurrence of [sep], as the parts before and after it. *)
Fixpoint Cut (s sep : string) : option (string * string) :=
  if HasPrefix s sep then Some ("", str_drop (String.length sep) s)
  else match s with
       | "" => None
       | String c s' =>
           match Cut s' sep with
           | Some (b, a) => Some (String c b, a)
           | None => None
           end
       end.

Definition Contains (s sep : string) : bool := match Cut s sep with Some _ => true | None => false end.

(** [strings.Index]: -1 when there is no occurrence. *)
Definition Index (s sep : string) : Z :=
  match Cut s sep with
  | Some (b, _) => Z.of_nat (String.length b)
  | None => -1
  end.

(** [strings.LastIndex]. *)
Fixpoint last_index (s sep : string) : option nat :=
  match s with
  | "" => if String.eqb sep "" then Some 0 else None
  | String _ s' =>
      match last_index s' sep with
      | Some m => Some (S m)
      | None => if HasPrefix s sep then Some 0 else None
      end
  end.

Definition LastIndex (s sep : string) : Z :=
  match last_index s sep with
  | Some m => Z.of_nat m
  | None => -1
  end.

Lemma Cut_Some s sep b a : Cut s sep = Some (b, a) -> s = b +:+ sep +:+ a.
Proof.
  revert b a. induction s as [|c s IH]; intros b a; cbn [Cut];
    destruct (HasPrefix _ sep) eqn:HP.
  - intros [= <- <-]. by apply HasPrefix_drop.
  - done.
  - intros [= <- <-]. by apply HasPrefix_drop.
  - destruct (Cut s sep) as [[b' a']|]; [|done]. intros [= <- <-].
    simpl. by rewrite (IH b' a').
Qed.

Lemma Cut_None s sep : Cut s sep = None <-> forall b a, s <> b +:+ sep +:+ a.
Proof.
  induction s as [|c s IH]; cbn [Cut]; destruct (HasPrefix _ sep) eqn:HP.
  - apply HasPrefix_spec in HP as [t Ht]. split; [done|]. intros H.
    exfalso. by apply (H "" t).
  - split; [|done]. intros _ b a Hs. apply not_true_iff_false in HP. apply HP.
    apply HasPrefix_spec. destruct b; [by exists a|done].
  - apply HasPrefix_spec in HP as [t Ht]. split; [done|]. intros H.
    exfalso. by apply (H "" t).
  - apply not_true_iff_false in HP. destruct (Cut s sep) as [[b' a']|] eqn:HC.
    + split; [done|]. intros H. exfalso. apply Cut_Some in HC.
      apply (H (String c b') a'). simpl. congruence.
    + split; [|done]. intros _ b a Hs. destruct b as [|d b]; simpl in Hs.
      * apply HP, HasPrefix_spec. by exists a.
      * injection Hs as -> Hs. by apply (proj1 IH eq_refl b a).
Qed.

Lemma Contains_spec s sep : Contains s sep = true <-> exists b a, s = b +:+ sep +:+ a.
Proof.
  unfold Contains. destruct (Cut s sep) as [[b a]|] eqn:HC.
  - apply Cut_Some in HC. split; eauto.
  - split; [done|]. intros (b&a&H). exfalso. by apply (proj1 (Cut_None _ _) HC b a).
Qed.

(** The part before the first occurrence contains no occurrence of a
    one-byte separator. *)
Lemma Cut_before_free s c b a :
  Cut s (String c "") = Some (b, a) -> Contains b (String c "") = false.
Proof.
  revert b a. induction s as [|d s IH]; intros b a; cbn [Cut];
    destruct (HasPrefix _ (String c "")) eqn:HP.
  1,3: by intros [= <- <-].
  1: done.
  destruct (Cut s (String c "")) as [[b' a']|] eqn:HC; [|done].
  intros [= <- <-]. specialize (IH _ _ eq_refl). unfold Contains in *.
  cbn [Cut]. destruct (HasPrefix (String d b') (String c "")) eqn:HP'.
  - apply not_true_iff_false in HP. exfalso. apply HP.
    apply HasPrefix_spec in HP' as [t Ht]. apply HasPrefix_spec.
    simpl in Ht. injection Ht as -> _. by exists s.
  - by destruct (Cut b' (String c "")) as [[??]|].
Qed.

(** * Split and Join *)

Fixpoint split_fuel (n : nat) (s sep : string) : list string :=
  match n with
  | O => [s]
  | S n' =>
      match Cut s sep with
      | Some (b, a) => b :: split_fuel n' a sep
      | None => [s]
      end
  end.

(** [strings.Split] for a non-empty separator. *)
Definition Split (s sep : string) : list string := split_fuel (String.length s) s sep.

Fixpoint Join (l : list string) (sep : string) : string :=
  match l with
  | [] => ""
  | [s] => s
  | s :: l' => s +:+ sep +:+ Join l' sep
  end.

Lemma split_fuel_cons n s sep : exists b l, split_fuel n s sep = b :: l.
Proof. destruct n; simpl; [eauto|]. destruct (Cut s sep) as [[b a]|]; eauto. Qed.

Lemma Join_split_fuel n s sep : Join (split_fuel n s sep) sep = s.
Proof.
  revert s. induction n as [|n IH]; intros s; simpl; [done|].
  destruct (Cut s sep) as [[b a]|] eqn:HC; [|done].
  destruct (split_fuel_cons n a sep) as (b'&l&Heq). pose proof (IH a) as IHa.
  rewrite Heq in *. change (b +:+ sep +:+ Join (b' :: l) sep = s).
  rewrite IHa. symmetry. by apply Cut_Some.
Qed.

Lemma Join_Split s sep : Join (Split s sep) sep = s.
Proof. apply Join_split_fuel. Qed.

Lemma Split_nonempty s sep : Split s sep <> [].
Proof. unfold Split. destruct (split_fuel_cons (String.length s) s sep) as (?&?&->). done. Qed.

Lemma split_fuel_free n s c :
  String.length s <= n ->
  Forall (fun p => Contains p (String c "") = false) (split_fuel n s (String c "")).
Proof.
  revert s. induction n as [|n IH]; intros s Hn; simpl.
  - destruct s; [|simpl in Hn; lia]. by repeat constructor.
  - destruct (Cut s (String c "")) as [[b a]|] eqn:HC.
    + constructor; [by eapply Cut_before_free|]. apply IH.
      apply Cut_Some in HC. subst s. rewrite !length_app_s in Hn. simpl in Hn. lia.
    + repeat constructor. unfold Contains. by rewrite HC.
Qed.

(** No piece of a split contains the (one-byte) separator. *)
Lemma Split_free s c : Forall (fun p => Contains p (String c "") = false) (Split s (String c "")).
Proof. by apply split_fuel_free. Qed.

Lemma Split_no_sep s sep : Contains s sep = false -> Split s sep = [s].
Proof.
  unfold Contains, Split. destruct (Cut s sep) as [[b a]|] eqn:HC; [done|]. intros _.
  destruct (String.length s); simpl; [done|]. by rewrite HC.
Qed.

Lemma Contains_cons_false c s d :
  Contains (String c s) (String d "") = false <-> c <> d /\ Contains s (String d "") = false.
Proof.
  unfold Contains. cbn [Cut]. unfold HasPrefix. cbn [prefixb].
  rewrite andb_true_r. destruct (Ascii.eqb_spec d c) as [->|Hn].
  - split; [done|]. by intros [? _].
  - destruct (Cut s (String d "")) as [[??]|]; split; try done; intuition congruence.
Qed.

Lemma Cut_app c p t :
  Contains p (String c "") = false -> Cut (p +:+ String c t) (String c "") = Some (p, t).
Proof.
  induction p as [|d p IH].
  - intros _. cbn [String.append Cut]. unfold HasPrefix. cbn [prefixb].
    by rewrite Ascii.eqb_refl.
  - intros [Hne Hf]%Contains_cons_false. cbn [String.append Cut].
    unfold HasPrefix at 1. cbn [prefixb].
    destruct (Ascii.eqb_spec c d) as [->|_]; [done|]. cbn [andb]. by rewrite (IH Hf).
Qed.

Lemma split_fuel_app n c p t :
  Contains p (String c "") = false -> String.length (p +:+ String c t) <= n ->
  split_fuel n (p +:+ String c t) (String c "") = p :: split_fuel (n - 1) t (String c "").
Proof.
  intros Hf Hn. destruct n as [|n].
  - rewrite length_app_s in Hn. simpl in Hn. lia.
  - cbn [split_fuel]. rewrite Cut_app by done. by rewrite Nat.sub_1_r.
Qed.

Lemma split_fuel_more n m s c :
  String.length s <= n -> n <= m -> split_fuel m s (String c "") = split_fuel n s (String c "").
Proof.
  revert m s. induction n as [|n IH]; intros m s Hs Hm.
  - destruct s; [|simpl in Hs; lia]. by destruct m.
  - destruct m as [|m]; [lia|]. cbn [split_fuel].
    destruct (Cut s (String c "")) as [[b a]|] eqn:HC; [|done].
    f_equal. apply IH; [|lia]. apply Cut_Some in HC. subst s.
    rewrite !length_app_s in Hs. simpl in Hs. lia.
Qed.

(** A piece free of the separator comes back as the first piece. *)
Lemma Split_app c p t :
  Contains p (String c "") = false ->
  Split (p +:+ String c t) (String c "") = p :: Split t (String c "").
Proof.
  intros Hf. unfold Split at 1. rewrite split_fuel_app by done. f_equal.
  apply split_fuel_more; [done|]. rewrite length_app_s. simpl. lia.
Qed.

(** Splitting a join of separator-free pieces gives the pieces back. *)
Lemma Split_Join c l :
  l <> [] -> Forall (fun p => Contains p (String c "") = false) l ->
  Split (Join l (String c "")) (String c "") = l.
Proof.
  intros Hne Hl. induction Hl as [|p l Hp Hl IH]; [done|].
  destruct l as [|q l]; [by apply Split_no_sep|].
  change (Join (p :: q :: l) (String c "")) with (p +:+ String c (Join (q :: l) (String c ""))).
  rewrite Split_app by done. by rewrite IH.
Qed.

(** * Trimming *)

Definition bytes (l : list nat) : string :=
  fold_right (fun n s => String (ascii_of_nat n) s) "" l.

(** The UTF-8 encodings of the runes for which [unicode.IsSpace] holds. *)
Definition space_encodings : list string :=
  [ bytes [9]; bytes [10]; bytes [11]; bytes [12]; bytes [13]; bytes [32];
    bytes [194; 133]; bytes [194; 160]; bytes [225; 154; 128];
    bytes [226; 128; 128]; bytes [226; 128; 129]; bytes [226; 128; 130];
    bytes [226; 128; 131]; bytes [226; 128; 132]; bytes [226; 128; 133];
    bytes [226; 128; 134]; bytes [226; 128; 135]; bytes [226; 128; 136];
    bytes [226; 128; 137]; bytes [226; 128; 138]; bytes [226; 128; 168];
    bytes [226; 128; 169]; bytes [226; 128; 175]; bytes [226; 129; 159];
    bytes [227; 128; 128] ].

Fixpoint str_rev_app (s acc : string) : string :=
  match s with
  | "" => acc
  | String c s' => str_rev_app s' (String c acc)
  end.

Definition str_rev (s : string) : string := str_rev_app s "".

(** Drop leading occurrences of the given (non-empty) prefixes. *)
Fixpoint trim_prefixes (fuel : nat) (ps : list string) (s : string) : string :=
  match fuel with
  | O => s
  | S n =>
      match List.find (HasPrefix s) ps with
      | Some p => trim_prefixes n ps (str_drop (String.length p) s)
      | None => s
      end
  end.

Definition trim_left (ps : list string) (s : string) : string :=
  trim_prefixes (String.length s) ps s.

Definition trim_both (ps : list string) (s : string) : string :=
  str_rev (trim_left (List.map str_rev ps) (str_rev (trim_left ps s))).

(** [strings.TrimSpace]. *)
Definition TrimSpace (s : string) : string := trim_both space_encodings s.

(** [strings.Trim(s, cutset)] for a cutset of ASCII characters. *)
Fixpoint cutset_chars (cutset : string) : list string :=
  match cutset with
  | "" => []
  | String c s => String c "" :: cutset_chars s
  end.

Definition Trim (s cutset : string) : string := trim_both (cutset_chars cutset) s.

Lemma str_rev_app_acc a acc : str_rev_app a acc = str_rev a +:+ acc.
Proof.
  unfold str_rev. revert acc. induction a as [|c a IH]; intros acc; [done|]. cbn.
  rewrite IH, (IH (String c "")). by rewrite app_assoc_s.
Qed.

Lemma str_rev_app_eq a b : str_rev (a +:+ b) = str_rev b +:+ str_rev a.
Proof.
  induction a as [|c a IH]; [by rewrite app_empty_r|].
  change (str_rev_app (a +:+ b) (String c "") = str_rev b +:+ str_rev_app a (String c "")).
  rewrite !str_rev_app_acc. rewrite IH. by rewrite app_assoc_s.
Qed.

Lemma str_rev_rev a : str_rev (str_rev a) = a.
Proof.
  induction a as [|c a IH]; [done|].
  change (str_rev (str_rev_app a (String c "")) = String c a).
  by rewrite str_rev_app_acc, str_rev_app_eq, IH.
Qed.

Lemma str_rev_length a : String.length (str_rev a) = String.length a.
Proof.
  induction a as [|c a IH]; [done|].
  change (String.length (str_rev_app a (String c "")) = S (String.length a)).
  rewrite str_rev_app_acc, length_app_s, IH. cbn. lia.
Qed.

(** Trimming one character from a string that does not start with it. *)
Lemma trim_left_other c s :
  (forall t, s <> String c t) -> trim_left [String c ""] s = s.
Proof.
  unfold trim_left. destruct s as [|d s]; [done|]. intros Hne. cbn.
  destruct (Ascii.eqb_spec c d) as [->|]; [by destruct (Hne s)|done].
Qed.

Lemma trim_left_cons c s : trim_left [String c ""] (String c s) = trim_left [String c ""] s.
Proof. unfold trim_left. cbn. by rewrite Ascii.eqb_refl. Qed.

Lemma Contains_false_head c s t : Contains s (String c "") = false -> s <> String c t.
Proof. intros H ->. apply Contains_cons_false in H. naive_solver. Qed.

Lemma Contains_app_false c a b :
  Contains (a +:+ b) (String c "") = false <->
  Contains a (String c "") = false /\ Contains b (String c "") = false.
Proof.
  induction a as [|d a IH]; [cbn; naive_solver|].
  change (String d a +:+ b) with (String d (a +:+ b)). rewrite !Contains_cons_false, IH. naive_solver.
Qed.

Lemma Contains_rev_false c s :
  Contains s (String c "") = false -> Contains (str_rev s) (String c "") = false.
Proof.
  induction s as [|d s IH]; [done|]. intros [Hd Hs]%Contains_cons_false.
  change (Contains (str_rev_app s (String d "")) (String c "") = false).
  rewrite str_rev_app_acc. apply Contains_app_false. split; [by apply IH|].
  by apply Contains_cons_false.
Qed.

(** [strings.Trim] takes the quotes off a quoted text that holds none. *)
Lemma Trim_quoted c v :
  Contains v (String c "") = false ->
  Trim (String c (v +:+ String c "")) (String c "") = v.
Proof.
  intros Hv. unfold Trim, trim_both. cbn [cutset_chars]. rewrite trim_left_cons.
  change (List.map str_rev [String c ""]) with [String c ""].
  destruct v as [|d v].
  - cbn [String.append]. by rewrite trim_left_cons.
  - rewrite (trim_left_other c (String d v +:+ String c ""))
      by (intros t; cbn; intros [= -> _]; by apply Contains_cons_false in Hv as [? _]).
    rewrite str_rev_app_eq. change (str_rev (String c "") +:+ ?x) with (String c x).
    rewrite trim_left_cons, trim_left_other; [by rewrite str_rev_rev|].
    intros t. by apply Contains_false_head, Contains_rev_false.
Qed.

(** [strings.Replace(s, "\n", "", -1)] and the like: remove a byte. *)
Fixpoint remove_byte (c : ascii) (s : string) : string :=
  match s with
  | "" => ""
  | String d s' => if Ascii.eqb c d then remove_byte c s' else String d (remove_byte c s')
  end.

Lemma remove_byte_free c s : Contains (remove_byte c s) (String c "") = false.
Proof.
  induction s as [|d s IH]; simpl; [done|]. destruct (Ascii.eqb_spec c d) as [->|Hn]; [done|].
  apply Contains_cons_false. split; [congruence|done].
Qed.

Lemma remove_byte_length c s : String.length (remove_byte c s) <= String.length s.
Proof. induction s as [|d s IH]; simpl; [done|]. destruct (Ascii.eqb c d); simpl; lia. Qed.

(** * Numbers *)

(** [strconv.Itoa], [strconv.FormatInt(n, 10)]. *)
Definition Itoa (n : Z) : string := pretty n.

Definition digit_val (c : ascii) : option Z :=
  let b := byte_val c in
  if ((48 <=? b) && (b <=? 57))%Z then Some (b - 48)%Z else None.

Inductive num_error := ErrSyntax | ErrRange.

#[export] Instance num_error_eq_dec : EqDecision num_error.
Proof. solve_decision. Defined.

(** [strconv.ParseUint(s, 10, 32)]: the loop stops at the first value above
    the maximum with a range error, or at the first non-digit with a syntax
    error. *)
Fixpoint parse_uint_loop (s : string) (n : Z) : Z * option num_error :=
  match s with
  | "" => (n, None)
  | String c s' =>
      match digit_val c with
      | None => (0%Z, Some ErrSyntax)
      | Some d =>
          let n1 := (n * 10 + d)%Z in
          if (4294967295 <? n1)%Z then (4294967295%Z, Some ErrRange) else parse_uint_loop s' n1
      end
  end.

Definition ParseUint32 (s : string) : Z * option num_error :=
  match s with
  | "" => (0%Z, Some ErrSyntax)
  | _ => parse_uint_loop s 0
  end.

(** [strconv.ParseInt(s, 10, 32)]: on a range error the nearest bound. *)
Definition ParseInt32 (s : string) : Z * option num_error :=
  let '(neg, digits) :=
    match s with
    | String "-" s' => (true, s')
    | String "+" s' => (false, s')
    | _ => (false, s)
    end in
  match ParseUint32 digits with
  | (_, Some ErrSyntax) => (0%Z, Some ErrSyntax)
  | (un, _) =>
      if negb neg && (2147483648 <=? un)%Z then (2147483647%Z, Some ErrRange)
      else if neg && (2147483648 <? un)%Z then ((-2147483648)%Z, Some ErrRange)
      else ((if neg then - un else un)%Z, None)
  end.

Lemma parse_uint_loop_nonneg s n : (0 <= n)%Z -> (0 <= (parse_uint_loop s n).1)%Z.
Proof.
  revert n. induction s as [|c s IH]; intros n Hn; simpl; [done|].
  unfold digit_val. destruct (_ && _)%Z eqn:Hd; [|done].
  apply andb_true_iff in Hd as [Hd1%Z.leb_le Hd2%Z.leb_le].
  destruct (_ <? _)%Z eqn:Hr; simpl; [lia|]. apply IH. lia.
Qed.

Lemma ParseInt32_range s : (-2147483648 <= (ParseInt32 s).1 <= 2147483647)%Z.
Proof.
  unfold ParseInt32.
  destruct (match s with String "-" s' => _ | String "+" s' => _ | _ => _ end) as [neg digits].
  assert (0 <= (ParseUint32 digits).1)%Z as Hn.
  { destruct digits; [done|]. by apply parse_uint_loop_nonneg. }
  destruct (ParseUint32 digits) as [un [[]|]]; simpl in *; [lia| |];
    destruct neg; simpl; split_match; to_prop; simpl; lia.
Qed.

(** int32(n): two's complement wrap-around. *)
Definition to_int32 (n : Z) : Z := ((n + 2 ^ 31) mod 2 ^ 32 - 2 ^ 31)%Z.

Lemma to_int32_id n : (-2147483648 <= n <= 2147483647)%Z -> to_int32 n = n.
Proof. intros Hn. unfold to_int32. rewrite Z.mod_small; lia. Qed.

(** * Paths *)

Fixpoint strip_slashes_rev (s : string) : string :=
  match s with
  | String "/" s' => strip_slashes_rev s'
  | _ => s
  end.

(** [filepath.Base] on Unix. *)
Definition Base (path : string) : string :=
  match path with
  | "" => "."
  | _ =>
      let p := str_rev (strip_slashes_rev (str_rev path)) in
      let p := match last_index p "/" with
               | Some i => str_drop (S i) p
               | None => p
               end in
      match p with "" => "/" | _ => p end
  end.

Example Base_ex : Base "/usr/bin/nginx" = "nginx" /\ Base "///" = "/" /\ Base "a/" = "a".
Proof. by vm_compute. Qed.

Example TrimSpace_ex : TrimSpace "  all " = "all".
Proof. by vm_compute. Qed.

Example ParseInt32_ex :
  ParseInt32 "4294967296" = (2147483647%Z, Some ErrRange) /\ ParseInt32 "-17" = ((-17)%Z, None) /\
  ParseInt32 "x" = (0%Z, Some ErrSyntax).
Proof. by vm_compute. Qed.

(** * UTF-8 *)

Definition in_range (lo hi : Z) (c : ascii) : bool := ((lo <=? byte_val c) && (byte_val c <=? hi))%Z.

Definition is_cont (c : ascii) : bool := in_range 128 191 c.

(** Width of the encoding a string starts with; 0 when its first byte starts
    no valid encoding. *)
Definition rune_width (s : string) : nat :=
  match s with
  | String a s1 =>
      if in_range 0 127 a then 1
      else match s1 with
      | String b s2 =>
          if in_range 194 223 a && is_cont b then 2
          else match s2 with
          | String c s3 =>
              if ((in_range 224 224 a && in_range 160 191 b) ||
                  (in_range 237 237 a && in_range 128 159 b) ||
                  (in_range 225 236 a && is_cont b) || (in_range 238 239 a && is_cont b)) &&
                 is_cont c then 3
              else match s3 with
              | String d _ =>
                  if ((in_range 240 240 a && in_range 144 191 b) ||
                      (in_range 244 244 a && in_range 128 143 b) ||
                      (in_range 241 243 a && is_cont b)) && is_cont c && is_cont d then 4 else 0
              | EmptyString => 0
              end
          | EmptyString => 0
          end
      | EmptyString => 0
      end
  | EmptyString => 0
  end.

(** U+FFFD, which stands for every byte that starts no encoding. *)
Definition rune_error : string := bytes [239; 191; 189].

(** [[]rune(s)], each rune as its encoding. *)
Fixpoint runes_fuel (n : nat) (s : string) : list string :=
  match n, s with
  | S n', String _ _ =>
      match rune_width s with
      | 0 => rune_error :: runes_fuel n' (str_drop 1 s)
      | w => str_take w s :: runes_fuel n' (str_drop w s)
      end
  | _, _ => []
  end.

Definition runes (s : string) : list string := runes_fuel (String.length s) s.

(** [utf8.RuneCountInString] and [string([]rune)]. *)
Definition RuneCountInString (s : string) : Z := Z.of_nat (length (runes s)).
Definition string_of_runes (rs : list string) : string := String.concat "" rs.

Lemma length_concat_bound k (rs : list string) :
  Forall (fun r => String.length r <= k) rs -> String.length (string_of_runes rs) <= k * length rs.
Proof.
  unfold string_of_runes. induction 1 as [|r rs Hr _ IH]; cbn [length]; [cbn; lia|].
  destruct rs as [|r' rs]; [cbn in *; lia|].
  cbn [String.concat] in *. rewrite !length_app_s. cbn [String.length length] in *. lia.
Qed.

Lemma rune_width_le s : rune_width s <= 4.
Proof.
  destruct s as [|a [|b [|c [|d s]]]]; cbn; repeat case_match; lia.
Qed.

Lemma str_take_length_le n s : String.length (str_take n s) <= n.
Proof. revert s. induction n as [|n IH]; intros [|c s]; cbn; try lia. specialize (IH s). lia. Qed.

Lemma runes_short s : Forall (fun r => String.length r <= 4) (runes s).
Proof.
  unfold runes. generalize (String.length s) as n. intros n. revert s.
  induction n as [|n IH]; intros [|c s]; cbn [runes_fuel]; try constructor.
  pose proof (rune_width_le (String c s)). destruct (rune_width (String c s)) as [|w]; constructor;
    try apply IH; [cbn; lia|]. etrans; [apply str_take_length_le|done].
Qed.

Lemma rune_width_le_length s : rune_width s <= String.length s.
Proof.
  destruct s as [|a [|b [|c [|d s]]]]; cbn; repeat case_match; lia.
Qed.

Lemma runes_cover s : String.length s <= 4 * length (runes s).
Proof.
  unfold runes. remember (String.length s) as n eqn:Hn.
  assert (String.length s <= n) as Hle by lia. rewrite Hn at 1. clear Hn.
  revert s Hle. induction n as [|n IH]; intros [|c s] Hle; cbn [String.length] in Hle; try (cbn; lia).
  cbn [runes_fuel]. pose proof (rune_width_le (String c s)).
  pose proof (rune_width_le_length (String c s)).
  destruct (rune_width (String c s)) as [|w] eqn:Hw; cbn [length].
  - pose proof (IH (str_drop 1 (String c s))) as H1. rewrite str_drop_length in H1.
    cbn [String.length] in *. lia.
  - pose proof (IH (str_drop (S w) (String c s))) as H1. rewrite str_drop_length in H1.
    cbn [String.length] in *. lia.
Qed.

(** * Slices *)

(** [s[:n]]: out of range panics. *)
Definition slice_to {E} (n : nat) (s : string) : prog E string :=
  if (n <=? String.length s)%nat then Ret (str_take n s)
  else Crash (IndexOutOfRange "slice bounds").

Lemma slice_to_ok {E} n s : n <= String.length s -> slice_to (E := E) n s = Ret (str_take n s).
Proof. intros H. unfold slice_to. by destruct (Nat.leb_spec n (String.length s)); [|lia]. Qed.

(** * Paths ([path.Clean], [filepath.Join] on Unix) *)

(** The elements kept so far, the last one first. *)
Definition clean_element (rooted : bool) (acc : list string) (x : string) : list string :=
  if String.eqb x "" || String.eqb x "." then acc
  else if String.eqb x ".." then
    match acc with
    | y :: acc' => if String.eqb y ".." then x :: acc else acc'
    | [] => if rooted then [] else [x]
    end
  else x :: acc.

Definition path_Clean (path : string) : string :=
  let rooted := HasPrefix path "/" in
  let elements := fold_left (clean_element rooted) (Split path "/") [] in
  let out := (if rooted then "/" else "") +:+ Join (rev elements) "/" in
  if String.eqb out "" then "." else out.

Fixpoint path_Join (elements : list string) : string :=
  match elements with
  | [] => ""
  | x :: rest => if String.eqb x "" then path_Join rest else path_Clean (Join elements "/")
  end.

Example path_Join_examples :
  path_Join ["/home/u"; ".kube"; "config"] = "/home/u/.kube/config" /\
  path_Join [""; ".kube"; "config"] = ".kube/config" /\ path_Join [""; "/api/v2"] = "/api/v2" /\
  path_Join ["/am/"; "/api/v2"] = "/am/api/v2" /\ path_Clean "/../a/./b//../c/" = "/a/c" /\
  path_Clean "a/.." = "." /\ path_Clean "../../a" = "../../a".
Proof. by vm_compute. Qed.
