(* ===== verification/Types.v ===== *)
(** The protobuf messages of package tarianpb ([pkg/tarianpb/types.pb.go],
    [api.pb.go]) with their nil-safe getters, the constants and constructors,
    the Falco priority enumeration, and the generated gRPC client stub
    ([api_grpc.pb.go]) that turns a server's answer into what a client sees. *)

From S2P Require Import Prelude GoStrings.

(** * Time *)

(** Instants are nanoseconds since the Unix epoch. *)
Record Timestamp := mkTimestamp { Timestamp_Seconds : Z; Timestamp_Nanos : Z }.

(** [timestamppb.New] and [Timestamp.AsTime]; a nil timestamp is the epoch. *)
Definition timestamppb_New (t : Z) : Timestamp :=
  {| Timestamp_Seconds := (t / 1000000000)%Z; Timestamp_Nanos := (t mod 1000000000)%Z |}.

Definition AsTime (x : ptr Timestamp) : Z :=
  match x with
  | Some v => (Timestamp_Seconds v * 1000000000 + Timestamp_Nanos v)%Z
  | None => 0%Z
  end.

Lemma AsTime_New t : AsTime (Some (timestamppb_New t)) = t.
Proof. unfold AsTime, timestamppb_New; simpl. pose proof (Z.div_mod t 1000000000). lia. Qed.

(** * Falco priorities *)

(** [type FalcoPriority int32]. *)
Definition FalcoPriority := Z.

Definition FalcoPriority_name (p : Z) : string :=
  match p with
  | 0 => "EMERGENCY" | 1 => "ALERT" | 2 => "CRITICAL" | 3 => "ERROR"
  | 4 => "WARNING" | 5 => "NOTICE" | 6 => "INFORMATIONAL" | 7 => "DEBUG"
  | _ => ""
  end%Z.

Definition FalcoPriority_value_map : list (string * Z) :=
  [ ("EMERGENCY", 0); ("emergency", 0); ("Emergency", 0);
    ("ALERT", 1); ("alert", 1); ("Alert", 1);
    ("CRITICAL", 2); ("critical", 2); ("Critical", 2);
    ("ERROR", 3); ("error", 3); ("Error", 3);
    ("WARNING", 4); ("warning", 4); ("Warning", 4);
    ("NOTICE", 5); ("notice", 5); ("Notice", 5);
    ("INFORMATIONAL", 6); ("informational", 6); ("Informational", 6);
    ("DEBUG", 7); ("debug", 7); ("Debug", 7) ]%Z.

(** Indexing a Go map: an absent key gives the zero value. *)
Definition FalcoPriority_value (s : string) : Z :=
  match List.find (fun kv => String.eqb kv.1 s) FalcoPriority_value_map with
  | Some kv => kv.2
  | None => 0%Z
  end.

Definition FalcoPriority_ToString (f : FalcoPriority) : string := FalcoPriority_name f.
Definition FalcoPriorityFromString (s : string) : FalcoPriority := FalcoPriority_value s.

(** * Constants *)

Definition KindConstraint := "Constraint".
Definition KindAction := "Action".
Definition KindEvent := "Event".
Definition EventTypeViolation := "violation".
Definition EventTypeFalcoAlert := "falco_alert".
Definition EventTypePodDeleted := "pod_deleted".
Definition EventTypeDetection := "tarian-detection/detection".

(** * Messages *)

Record MatchLabel := mkMatchLabel {
  MatchLabel_Key : string;
  MatchLabel_Value : string }.

Definition MatchLabel_GetKey (x : ptr MatchLabel) : string :=
  match x with Some v => MatchLabel_Key v | None => "" end.

Definition MatchLabel_GetValue (x : ptr MatchLabel) : string :=
  match x with Some v => MatchLabel_Value v | None => "" end.

Record Selector := mkSelector {
  Selector_MatchLabels : slice (ptr MatchLabel) }.

Definition Selector_GetMatchLabels (x : ptr Selector) : slice (ptr MatchLabel) :=
  match x with Some v => Selector_MatchLabels v | None => None end.

Record AllowedProcessRule := mkAllowedProcessRule {
  AllowedProcessRule_Regex : ptr string }.

Definition AllowedProcessRule_GetRegex (x : ptr AllowedProcessRule) : string :=
  match x with
  | Some v => default "" (AllowedProcessRule_Regex v)
  | None => ""
  end.

Record AllowedFileRule := mkAllowedFileRule {
  AllowedFileRule_Name : string;
  AllowedFileRule_Sha256Sum : ptr string }.

Definition AllowedFileRule_GetName (x : ptr AllowedFileRule) : string :=
  match x with Some v => AllowedFileRule_Name v | None => "" end.

Definition AllowedFileRule_GetSha256Sum (x : ptr AllowedFileRule) : string :=
  match x with
  | Some v => default "" (AllowedFileRule_Sha256Sum v)
  | None => ""
  end.

Record Constraint := mkConstraint {
  Constraint_Kind : string;
  Constraint_Namespace : string;
  Constraint_Name : string;
  Constraint_Selector : ptr Selector;
  Constraint_AllowedProcesses : slice (ptr AllowedProcessRule);
  Constraint_AllowedFiles : slice (ptr AllowedFileRule) }.

Definition Constraint_GetKind (x : ptr Constraint) : string :=
  match x with Some v => Constraint_Kind v | None => "" end.

Definition Constraint_GetNamespace (x : ptr Constraint) : string :=
  match x with Some v => Constraint_Namespace v | None => "" end.

Definition Constraint_GetName (x : ptr Constraint) : string :=
  match x with Some v => Constraint_Name v | None => "" end.

Definition Constraint_GetSelector (x : ptr Constraint) : ptr Selector :=
  match x with Some v => Constraint_Selector v | None => None end.

Definition Constraint_GetAllowedProcesses (x : ptr Constraint) : slice (ptr AllowedProcessRule) :=
  match x with Some v => Constraint_AllowedProcesses v | None => None end.

Definition Constraint_GetAllowedFiles (x : ptr Constraint) : slice (ptr AllowedFileRule) :=
  match x with Some v => Constraint_AllowedFiles v | None => None end.

Record Process := mkProcess {
  Process_Pid : Z;
  Process_Name : string }.

Definition Process_GetPid (x : ptr Process) : Z :=
  match x with Some v => Process_Pid v | None => 0%Z end.

Definition Process_GetName (x : ptr Process) : string :=
  match x with Some v => Process_Name v | None => "" end.

Record ViolatedFile := mkViolatedFile {
  ViolatedFile_Name : string;
  ViolatedFile_ActualSha256Sum : string;
  ViolatedFile_ExpectedSha256Sum : string }.

Definition ViolatedFile_GetName (x : ptr ViolatedFile) : string :=
  match x with Some v => ViolatedFile_Name v | None => "" end.

Definition ViolatedFile_GetActualSha256Sum (x : ptr ViolatedFile) : string :=
  match x with Some v => ViolatedFile_ActualSha256Sum v | None => "" end.

Definition ViolatedFile_GetExpectedSha256Sum (x : ptr ViolatedFile) : string :=
  match x with Some v => ViolatedFile_ExpectedSha256Sum v | None => "" end.

Record Label := mkLabel {
  Label_Key : string;
  Label_Value : string }.

Definition Label_GetKey (x : ptr Label) : string :=
  match x with Some v => Label_Key v | None => "" end.

Definition Label_GetValue (x : ptr Label) : string :=
  match x with Some v => Label_Value v | None => "" end.

Record Pod := mkPod {
  Pod_Uid : string;
  Pod_Namespace : string;
  Pod_Name : string;
  Pod_Labels : slice (ptr Label) }.

Definition Pod_GetUid (x : ptr Pod) : string :=
  match x with Some v => Pod_Uid v | None => "" end.

Definition Pod_GetNamespace (x : ptr Pod) : string :=
  match x with Some v => Pod_Namespace v | None => "" end.

Definition Pod_GetName (x : ptr Pod) : string :=
  match x with Some v => Pod_Name v | None => "" end.

Definition Pod_GetLabels (x : ptr Pod) : slice (ptr Label) :=
  match x with Some v => Pod_Labels v | None => None end.

Record FalcoAlert := mkFalcoAlert {
  FalcoAlert_Rule : string;
  FalcoAlert_Priority : FalcoPriority;
  FalcoAlert_Output : string;
  FalcoAlert_OutputFields : option (gmap string string) }.

Definition FalcoAlert_GetRule (x : ptr FalcoAlert) : string :=
  match x with Some v => FalcoAlert_Rule v | None => "" end.

Definition FalcoAlert_GetPriority (x : ptr FalcoAlert) : FalcoPriority :=
  match x with Some v => FalcoAlert_Priority v | None => 0%Z end.

Definition FalcoAlert_GetOutput (x : ptr FalcoAlert) : string :=
  match x with Some v => FalcoAlert_Output v | None => "" end.

Definition FalcoAlert_GetOutputFields (x : ptr FalcoAlert) : option (gmap string string) :=
  match x with Some v => FalcoAlert_OutputFields v | None => None end.

Record Target := mkTarget {
  Target_Pod : ptr Pod;
  Target_ViolatedProcesses : slice (ptr Process);
  Target_ViolatedFiles : slice (ptr ViolatedFile);
  Target_FalcoAlert : ptr FalcoAlert;
  Target_DetectionDataType : string;
  Target_DetectionData : string }.

Definition Target_GetPod (x : ptr Target) : ptr Pod :=
  match x with Some v => Target_Pod v | None => None end.

Definition Target_GetViolatedProcesses (x : ptr Target) : slice (ptr Process) :=
  match x with Some v => Target_ViolatedProcesses v | None => None end.

Definition Target_GetViolatedFiles (x : ptr Target) : slice (ptr ViolatedFile) :=
  match x with Some v => Target_ViolatedFiles v | None => None end.

Definition Target_GetFalcoAlert (x : ptr Target) : ptr FalcoAlert :=
  match x with Some v => Target_FalcoAlert v | None => None end.

Definition Target_GetDetectionDataType (x : ptr Target) : string :=
  match x with Some v => Target_DetectionDataType v | None => "" end.

Definition Target_GetDetectionData (x : ptr Target) : string :=
  match x with Some v => Target_DetectionData v | None => "" end.

Record Event := mkEvent {
  Event_Kind : string;
  Event_Type : string;
  Event_Uid : string;
  Event_ServerTimestamp : ptr Timestamp;
  Event_ClientTimestamp : ptr Timestamp;
  Event_AlertSentAt : ptr Timestamp;
  Event_Targets : slice (ptr Target) }.

Definition Event_GetKind (x : ptr Event) : string :=
  match x with Some v => Event_Kind v | None => "" end.

Definition Event_GetType (x : ptr Event) : string :=
  match x with Some v => Event_Type v | None => "" end.

Definition Event_GetUid (x : ptr Event) : string :=
  match x with Some v => Event_Uid v | None => "" end.

Definition Event_GetServerTimestamp (x : ptr Event) : ptr Timestamp :=
  match x with Some v => Event_ServerTimestamp v | None => None end.

Definition Event_GetClientTimestamp (x : ptr Event) : ptr Timestamp :=
  match x with Some v => Event_ClientTimestamp v | None => None end.

Definition Event_GetAlertSentAt (x : ptr Event) : ptr Timestamp :=
  match x with Some v => Event_AlertSentAt v | None => None end.

Definition Event_GetTargets (x : ptr Event) : slice (ptr Target) :=
  match x with Some v => Event_Targets v | None => None end.

Record Action := mkAction {
  Action_Kind : string;
  Action_Namespace : string;
  Action_Name : string;
  Action_Selector : ptr Selector;
  Action_OnViolatedProcess : bool;
  Action_OnViolatedFile : bool;
  Action_OnFalcoAlert : bool;
  Action_FalcoPriority : FalcoPriority;
  Action_Action : string }.

Definition Action_GetKind (x : ptr Action) : string :=
  match x with Some v => Action_Kind v | None => "" end.

Definition Action_GetNamespace (x : ptr Action) : string :=
  match x with Some v => Action_Namespace v | None => "" end.

Definition Action_GetName (x : ptr Action) : string :=
  match x with Some v => Action_Name v | None => "" end.

Definition Action_GetSelector (x : ptr Action) : ptr Selector :=
  match x with Some v => Action_Selector v | None => None end.

Definition Action_GetOnViolatedProcess (x : ptr Action) : bool :=
  match x with Some v => Action_OnViolatedProcess v | None => false end.

Definition Action_GetOnViolatedFile (x : ptr Action) : bool :=
  match x with Some v => Action_OnViolatedFile v | None => false end.

Definition Action_GetOnFalcoAlert (x : ptr Action) : bool :=
  match x with Some v => Action_OnFalcoAlert v | None => false end.

Definition Action_GetFalcoPriority (x : ptr Action) : FalcoPriority :=
  match x with Some v => Action_FalcoPriority v | None => 0%Z end.

Definition Action_GetAction (x : ptr Action) : string :=
  match x with Some v => Action_Action v | None => "" end.
(** Constructors ([pkg/tarianpb/constructor.go]). *)
Definition NewConstraint : Constraint := mkConstraint KindConstraint "" "" None None None.
Definition NewAction : Action := mkAction KindAction "" "" None false false false 0%Z "".
Definition NewEvent : Event := mkEvent KindEvent "" "" None None None None.

(** * Requests and responses *)

Record GetConstraintsRequest := mkGetConstraintsRequest {
  GetConstraintsRequest_Namespace : string;
  GetConstraintsRequest_Labels : slice (ptr Label) }.

Definition GetConstraintsRequest_GetNamespace (x : ptr GetConstraintsRequest) : string :=
  match x with Some v => GetConstraintsRequest_Namespace v | None => "" end.

Definition GetConstraintsRequest_GetLabels (x : ptr GetConstraintsRequest) : slice (ptr Label) :=
  match x with Some v => GetConstraintsRequest_Labels v | None => None end.

Record GetConstraintsResponse := mkGetConstraintsResponse {
  GetConstraintsResponse_Constraints : slice (ptr Constraint) }.

Definition GetConstraintsResponse_GetConstraints (x : ptr GetConstraintsResponse) : slice (ptr Constraint) :=
  match x with Some v => GetConstraintsResponse_Constraints v | None => None end.

Record AddConstraintRequest := mkAddConstraintRequest {
  AddConstraintRequest_Constraint : ptr Constraint }.

Definition AddConstraintRequest_GetConstraint (x : ptr AddConstraintRequest) : ptr Constraint :=
  match x with Some v => AddConstraintRequest_Constraint v | None => None end.

Record AddConstraintResponse := mkAddConstraintResponse {
  AddConstraintResponse_Success : bool }.

Definition AddConstraintResponse_GetSuccess (x : ptr AddConstraintResponse) : bool :=
  match x with Some v => AddConstraintResponse_Success v | None => false end.

Record RemoveConstraintRequest := mkRemoveConstraintRequest {
  RemoveConstraintRequest_Namespace : string;
  RemoveConstraintRequest_Name : string }.

Definition RemoveConstraintRequest_GetNamespace (x : ptr RemoveConstraintRequest) : string :=
  match x with Some v => RemoveConstraintRequest_Namespace v | None => "" end.

Definition RemoveConstraintRequest_GetName (x : ptr RemoveConstraintRequest) : string :=
  match x with Some v => RemoveConstraintRequest_Name v | None => "" end.

Record RemoveConstraintResponse := mkRemoveConstraintResponse {
  RemoveConstraintResponse_Success : bool }.

Definition RemoveConstraintResponse_GetSuccess (x : ptr RemoveConstraintResponse) : bool :=
  match x with Some v => RemoveConstraintResponse_Success v | None => false end.

Record AddActionRequest := mkAddActionRequest {
  AddActionRequest_Action : ptr Action }.

Definition AddActionRequest_GetAction (x : ptr AddActionRequest) : ptr Action :=
  match x with Some v => AddActionRequest_Action v | None => None end.

Record AddActionResponse := mkAddActionResponse {
  AddActionResponse_Success : bool }.

Definition AddActionResponse_GetSuccess (x : ptr AddActionResponse) : bool :=
  match x with Some v => AddActionResponse_Success v | None => false end.

Record GetActionsRequest := mkGetActionsRequest {
  GetActionsRequest_Namespace : string;
  GetActionsRequest_Labels : slice (ptr Label) }.

Definition GetActionsRequest_GetNamespace (x : ptr GetActionsRequest) : string :=
  match x with Some v => GetActionsRequest_Namespace v | None => "" end.

Definition GetActionsRequest_GetLabels (x : ptr GetActionsRequest) : slice (ptr Label) :=
  match x with Some v => GetActionsRequest_Labels v | None => None end.

Record GetActionsResponse := mkGetActionsResponse {
  GetActionsResponse_Actions : slice (ptr Action) }.

Definition GetActionsResponse_GetActions (x : ptr GetActionsResponse) : slice (ptr Action) :=
  match x with Some v => GetActionsResponse_Actions v | None => None end.

Record RemoveActionRequest := mkRemoveActionRequest {
  RemoveActionRequest_Namespace : string;
  RemoveActionRequest_Name : string }.

Definition RemoveActionRequest_GetNamespace (x : ptr RemoveActionRequest) : string :=
  match x with Some v => RemoveActionRequest_Namespace v | None => "" end.

Definition RemoveActionRequest_GetName (x : ptr RemoveActionRequest) : string :=
  match x with Some v => RemoveActionRequest_Name v | None => "" end.

Record RemoveActionResponse := mkRemoveActionResponse {
  RemoveActionResponse_Success : bool }.

Definition RemoveActionResponse_GetSuccess (x : ptr RemoveActionResponse) : bool :=
  match x with Some v => RemoveActionResponse_Success v | None => false end.

Record IngestEventRequest := mkIngestEventRequest {
  IngestEventRequest_Event : ptr Event }.

Definition IngestEventRequest_GetEvent (x : ptr IngestEventRequest) : ptr Event :=
  match x with Some v => IngestEventRequest_Event v | None => None end.

Record IngestEventResponse := mkIngestEventResponse {
  IngestEventResponse_Success : bool }.

Definition IngestEventResponse_GetSuccess (x : ptr IngestEventResponse) : bool :=
  match x with Some v => IngestEventResponse_Success v | None => false end.

Record GetEventsRequest := mkGetEventsRequest {
  GetEventsRequest_Namespace : string;
  GetEventsRequest_Limit : Z }.

Definition GetEventsRequest_GetNamespace (x : ptr GetEventsRequest) : string :=
  match x with Some v => GetEventsRequest_Namespace v | None => "" end.

Definition GetEventsRequest_GetLimit (x : ptr GetEventsRequest) : Z :=
  match x with Some v => GetEventsRequest_Limit v | None => 0%Z end.

Record GetEventsResponse := mkGetEventsResponse {
  GetEventsResponse_Events : slice (ptr Event) }.

Definition GetEventsResponse_GetEvents (x : ptr GetEventsResponse) : slice (ptr Event) :=
  match x with Some v => GetEventsResponse_Events v | None => None end.
(** * gRPC services *)

(** The calls of the Config service, as a client makes them. *)
Inductive ConfigE : Type -> Type :=
| GetConstraints (r : GetConstraintsRequest) : ConfigE (ptr GetConstraintsResponse * option error)
| AddConstraint (r : AddConstraintRequest) : ConfigE (ptr AddConstraintResponse * option error)
| RemoveConstraint (r : RemoveConstraintRequest) : ConfigE (ptr RemoveConstraintResponse * option error)
| AddAction (r : AddActionRequest) : ConfigE (ptr AddActionResponse * option error)
| GetActions (r : GetActionsRequest) : ConfigE (ptr GetActionsResponse * option error)
| RemoveAction (r : RemoveActionRequest) : ConfigE (ptr RemoveActionResponse * option error).

(** The calls of the Event service. *)
Inductive EventE : Type -> Type :=
| IngestEvent (r : IngestEventRequest) : EventE (ptr IngestEventResponse * option error)
| GetEvents (r : GetEventsRequest) : EventE (ptr GetEventsResponse * option error).

(** What the generated client stub hands its caller: on an error the response
    is nil, whatever the server's handler returned with it. *)
Definition client_invoke {R} (answer : ptr R * option error) : ptr R * option error :=
  match answer.2 with
  | Some e => (None, Some e)
  | None => (answer.1, None)
  end.

Lemma client_invoke_error {R} (a : ptr R * option error) r e :
  client_invoke a = (r, Some e) -> r = None.
Proof. unfold client_invoke. destruct a as [r0 [e0|]]; simpl; by intros [= <- ?]. Qed.

(** A server nobody can reach: every call answers the same error. *)
Definition unavailable : option error := Some (StatusError Unavailable "connection refused").

Definition config_down : forall X, ConfigE X -> X := fun X e =>
  match e in ConfigE X return X with
  | GetConstraints _ => (None, unavailable)
  | AddConstraint _ => (None, unavailable)
  | RemoveConstraint _ => (None, unavailable)
  | AddAction _ => (None, unavailable)
  | GetActions _ => (None, unavailable)
  | RemoveAction _ => (None, unavailable)
  end.

Definition event_down : forall X, EventE X -> X := fun X e =>
  match e in EventE X return X with
  | IngestEvent _ => (None, unavailable)
  | GetEvents _ => (None, unavailable)
  end.
