(* ===== verification/Labels.v ===== *)
(** Label selectors.  Four places of the program decide whether a selector
    picks a pod by turning labels into the texts "key=value", collecting them
    in string sets of github.com/scylladb/go-set/strset and asking
    [IsSubset].  The set library is a parameter with its documented
    behaviour; the facts here are what every caller uses: the test holds
    exactly when each selector label is a label of the pod, provided keys are
    free of '=' (Kubernetes label keys are). *)

From S2P Require Import Prelude GoStrings Types.

(** * The set library *)

(** [s.IsSubset(t)] of strset: every element of [t] is in [s]. *)
Class StrSet := {
  strset : Type;
  strset_New : strset;
  strset_Add : strset -> string -> strset;
  strset_Has : strset -> string -> bool;
  strset_IsSubset : strset -> strset -> bool;
}.

Class StrSetLaws (SS : StrSet) : Prop := {
  Has_New x : strset_Has strset_New x = false;
  Has_Add s x y : strset_Has (strset_Add s y) x = true <-> x = y \/ strset_Has s x = true;
  IsSubset_spec s t :
    strset_IsSubset s t = true <-> forall x, strset_Has t x = true -> strset_Has s x = true;
}.

(** A concrete set, to evaluate the model. *)
#[export] Instance gset_strset : StrSet := {
  strset := gset string;
  strset_New := empty;
  strset_Add s x := {[ x ]} ∪ s;
  strset_Has s x := bool_decide (x ∈ s);
  strset_IsSubset s t := bool_decide (t ⊆ s);
}.

#[export] Instance gset_strset_laws : StrSetLaws gset_strset.
Proof.
  split; simpl; intros.
  - apply bool_decide_eq_false. set_solver.
  - rewrite !bool_decide_eq_true. set_solver.
  - rewrite bool_decide_eq_true. split.
    + intros Hst x. rewrite !bool_decide_eq_true. set_solver.
    + intros H x Hx. specialize (H x). rewrite !bool_decide_eq_true in H. auto.
Qed.

(** * Map iteration *)

(** [for k, v := range m]: Go fixes no order; any enumeration of the map. *)
Class MapRange := map_range : forall V, gmap string V -> list (string * V).
Arguments map_range {_ V} m.

Class MapRangeLaws (MR : MapRange) : Prop :=
  map_range_perm V (m : gmap string V) : map_range m ≡ₚ map_to_list m.

#[export] Instance map_to_list_range : MapRange := fun V m => map_to_list m.

#[export] Instance map_to_list_range_laws : MapRangeLaws map_to_list_range.
Proof. by intros V m. Qed.

Lemma elem_of_map_range `{!MapRange} `{!MapRangeLaws _} {V} (m : gmap string V) k v :
  (k, v) ∈ map_range m <-> m !! k = Some v.
Proof. by rewrite map_range_perm, elem_of_map_to_list. Qed.

(** * Label texts *)

(** [l.GetKey() + "=" + l.GetValue()]. *)
Definition label_text (k v : string) : string := k +:+ "=" +:+ v.

Definition MatchLabel_text (l : ptr MatchLabel) : string :=
  label_text (MatchLabel_GetKey l) (MatchLabel_GetValue l).

Definition Label_text (l : ptr Label) : string :=
  label_text (Label_GetKey l) (Label_GetValue l).

(** [key=value] texts determine key and value when keys hold no '='. *)
Lemma label_text_inj k v k' v' :
  Contains k "=" = false -> Contains k' "=" = false ->
  label_text k v = label_text k' v' -> k = k' /\ v = v'.
Proof.
  intros Hk Hk' Heq.
  assert (Cut (label_text k v) "=" = Cut (label_text k' v') "=") as HC by by rewrite Heq.
  unfold label_text in HC.
  change ("=" +:+ v) with (String "="%char v) in HC. change ("=" +:+ v') with (String "="%char v') in HC.
  rewrite !Cut_app in HC by done. by injection HC.
Qed.

(** Without that, different labels share a text. *)
Lemma label_text_not_inj : label_text "a=b" "c" = label_text "a" "b=c".
Proof. done. Qed.

Section sets.
Context `{SS : StrSet}.

(** A set filled by [Add] in a loop. *)
Definition set_of (l : list string) : strset := fold_left strset_Add l strset_New.

Context `{!StrSetLaws SS}.

Lemma Has_fold l s x :
  strset_Has (fold_left strset_Add l s) x = true <-> x ∈ l \/ strset_Has s x = true.
Proof.
  revert s. induction l as [|y l IH]; intros s; simpl.
  - split; [by right|]. intros [H|]; [by apply elem_of_nil in H|done].
  - rewrite IH, Has_Add, elem_of_cons. tauto.
Qed.

Lemma Has_set_of l x : strset_Has (set_of l) x = true <-> x ∈ l.
Proof.
  unfold set_of. rewrite Has_fold, Has_New. split; [by intros [|]|by left].
Qed.

Lemma IsSubset_set_of l l' :
  strset_IsSubset (set_of l) (set_of l') = true <-> forall x, x ∈ l' -> x ∈ l.
Proof.
  rewrite IsSubset_spec. split; intros H x; specialize (H x); rewrite !Has_set_of in *; auto.
Qed.

(** Only the collected texts matter, not their order. *)
#[export] Instance IsSubset_proper :
  Proper (Permutation ==> Permutation ==> eq)
    (fun l l' => strset_IsSubset (set_of l) (set_of l')).
Proof.
  intros l1 l2 Hl m1 m2 Hm. apply eq_bool_prop_intro.
  rewrite !Is_true_true, !IsSubset_set_of.
  split; intros H x; specialize (H x); [rewrite <- Hl, <- Hm|rewrite Hl, Hm]; auto.
Qed.
End sets.

(** * Selectors *)

(** What a selector is meant to say of a pod's labels. *)
Definition selected (ms : list (ptr MatchLabel)) (labels : list (string * string)) : Prop :=
  forall m, m ∈ ms -> (MatchLabel_GetKey m, MatchLabel_GetValue m) ∈ labels.

Definition keys_ok (ks : list string) : Prop := Forall (fun k => Contains k "=" = false) ks.

Section selectors.
Context `{SS : StrSet} `{!StrSetLaws SS}.

(** The text comparison decides [selected]. *)
Lemma subset_selected (ms : list (ptr MatchLabel)) (labels : list (string * string)) :
  keys_ok (MatchLabel_GetKey <$> ms) -> keys_ok (fst <$> labels) ->
  strset_IsSubset (set_of ((fun kv => label_text kv.1 kv.2) <$> labels))
                  (set_of (MatchLabel_text <$> ms)) = true <->
  selected ms labels.
Proof.
  intros Hms Hls. rewrite IsSubset_set_of. unfold selected. split.
  - intros H m Hm. specialize (H (MatchLabel_text m)).
    rewrite !list_elem_of_fmap in H.
    destruct H as ([k v]&Heq&Hkv); [eauto|]. simpl in Heq.
    unfold keys_ok in *. rewrite Forall_fmap, Forall_forall in Hms.
    rewrite Forall_fmap, Forall_forall in Hls.
    apply label_text_inj in Heq as [-> ->]; [done|by apply (Hms m)|by apply (Hls (k, v))].
  - intros H x. rewrite !list_elem_of_fmap. intros (m&->&Hm).
    exists (MatchLabel_GetKey m, MatchLabel_GetValue m). split; [done|auto].
Qed.
End selectors.
