(* ===== verification/Json.v ===== *)
(** JSON texts, as [encoding/json] writes and reads them: values, the printer
    with its escapes, the parser, and the values of Go strings, numbers,
    pointers and slices.  The stores keep parts of their resources as such
    texts.  The lemma the stores use: a printed value is read back, with bytes that
    are no UTF-8 replaced. *)

From S2P Require Import Prelude GoStrings.

(** Numbers stay the literal they are written as. *)
Inductive json :=
| JNull
| JBool (b : bool)
| JNum (literal : string)
| JStr (s : string)
| JArr (l : list json)
| JObj (l : list (string * json)).

(** * Writing *)

Definition dquote : ascii := "034"%char.
Definition backslash : ascii := "092"%char.

Definition hex_lower (n : Z) : string :=
  String (ascii_of_N (Z.to_N (if n <? 10 then 48 + n else 87 + n)%Z)) "".

(** [\u00XX]. *)
Definition escape_byte (c : ascii) : string :=
  String backslash ("u00" +:+ hex_lower (byte_val c / 16) +:+ hex_lower (byte_val c mod 16)).

(** A byte below 128: quotes and control characters are escaped, and the
    characters HTML treats specially. *)
Definition escape_ascii (c : ascii) : string :=
  let n := byte_val c in
  if (n =? 34)%Z || (n =? 92)%Z then String backslash (String c "")
  else if (n =? 8)%Z then String backslash "b"
  else if (n =? 12)%Z then String backslash "f"
  else if (n =? 10)%Z then String backslash "n"
  else if (n =? 13)%Z then String backslash "r"
  else if (n =? 9)%Z then String backslash "t"
  else if (n <? 32)%Z || (n =? 60)%Z || (n =? 62)%Z || (n =? 38)%Z then escape_byte c
  else String c "".

(** U+2028 and U+2029 are escaped too. *)
Definition escape_rune (r : string) : string :=
  if String.eqb r (bytes [226; 128; 168]) then String backslash "u2028"
  else if String.eqb r (bytes [226; 128; 169]) then String backslash "u2029"
  else r.

Fixpoint escape (n : nat) (s : string) : string :=
  match n, s with
  | S n', String c s' =>
      if in_range 0 127 c then escape_ascii c +:+ escape n' s'
      else match rune_width s with
           | 0 => String backslash "ufffd" +:+ escape n' s'
           | w => escape_rune (str_take w s) +:+ escape n' (str_drop w s)
           end
  | _, _ => ""
  end.

Definition quoted (s : string) : string :=
  String dquote (escape (String.length s) s +:+ String dquote "").

Fixpoint print (j : json) : string :=
  match j with
  | JNull => "null"
  | JBool b => if b then "true" else "false"
  | JNum literal => literal
  | JStr s => quoted s
  | JArr l => "[" +:+ Join (List.map print l) "," +:+ "]"
  | JObj l => "{" +:+ Join (List.map (fun kv => quoted kv.1 +:+ ":" +:+ print kv.2) l) "," +:+ "}"
  end.

(** * Reading *)

Definition is_space (c : ascii) : bool :=
  let n := byte_val c in ((n =? 32) || (n =? 9) || (n =? 10) || (n =? 13))%Z.

Fixpoint skip_space (s : string) : string :=
  match s with
  | String c s' => if is_space c then skip_space s' else s
  | "" => ""
  end.

Definition is_digit (c : ascii) : bool := in_range 48 57 c.

Definition hex_val (c : ascii) : option Z :=
  let n := byte_val c in
  if is_digit c then Some (n - 48)%Z
  else if in_range 97 102 c then Some (n - 87)%Z
  else if in_range 65 70 c then Some (n - 55)%Z
  else None.

(** Four hexadecimal digits. *)
Definition hex4 (s : string) : option (Z * string) :=
  match s with
  | String a (String b (String c (String d s'))) =>
      match hex_val a, hex_val b, hex_val c, hex_val d with
      | Some x, Some y, Some z, Some w => Some (((x * 16 + y) * 16 + z) * 16 + w, s')%Z
      | _, _, _, _ => None
      end
  | _ => None
  end.

Definition byte_of (n : Z) : ascii := ascii_of_N (Z.to_N n).

(** The UTF-8 encoding of a code point; surrogates are replaced. *)
Definition encode_rune (n : Z) : string :=
  (if n <? 128 then String (byte_of n) ""
   else if n <? 2048 then String (byte_of (192 + n / 64)) (String (byte_of (128 + n mod 64)) "")
   else if (55296 <=? n) && (n <=? 57343) then rune_error
   else if n <? 65536 then
     String (byte_of (224 + n / 4096)) (String (byte_of (128 + n / 64 mod 64))
       (String (byte_of (128 + n mod 64)) ""))
   else
     String (byte_of (240 + n / 262144)) (String (byte_of (128 + n / 4096 mod 64))
       (String (byte_of (128 + n / 64 mod 64)) (String (byte_of (128 + n mod 64)) ""))))%Z.

(** [\uXXXX], with the second half of a surrogate pair when there is one. *)
Definition unescape_u (s : string) : option (string * string) :=
  match hex4 s with
  | None => None
  | Some (n, s') =>
      if ((55296 <=? n) && (n <=? 56319))%Z then
        match s' with
        | String b (String u s'') =>
            if Ascii.eqb b backslash && Ascii.eqb u "u" then
              match hex4 s'' with
              | Some (m, s3) =>
                  if ((56320 <=? m) && (m <=? 57343))%Z
                  then Some (encode_rune (65536 + (n - 55296) * 1024 + (m - 56320))%Z, s3)
                  else Some (rune_error, s')
              | None => Some (rune_error, s')
              end
            else Some (rune_error, s')
        | _ => Some (rune_error, s')
        end
      else Some (encode_rune n, s')
  end.

(** What follows a backslash. *)
Definition unescape (s : string) : option (string * string) :=
  match s with
  | "" => None
  | String c s' =>
      let n := byte_val c in
      if ((n =? 34) || (n =? 92) || (n =? 47))%Z then Some (String c "", s')
      else if (n =? 98)%Z then Some (String "008" "", s')
      else if (n =? 102)%Z then Some (String "012" "", s')
      else if (n =? 110)%Z then Some (String "010" "", s')
      else if (n =? 114)%Z then Some (String "013" "", s')
      else if (n =? 116)%Z then Some (String "009" "", s')
      else if (n =? 117)%Z then unescape_u s'
      else None
  end.

(** The rest of a string after its opening quote. *)
Fixpoint parse_string (n : nat) (s : string) : option (string * string) :=
  match n, s with
  | S n', String c s' =>
      if Ascii.eqb c dquote then Some ("", s')
      else if Ascii.eqb c backslash then
        match unescape s' with
        | Some (r, s'') =>
            match parse_string n' s'' with Some (t, rest) => Some (r +:+ t, rest) | None => None end
        | None => None
        end
      else if (byte_val c <? 32)%Z then None
      else
        let w := rune_width s in
        let r := match w with 0 => rune_error | _ => str_take w s end in
        match parse_string n' (str_drop (Nat.max 1 w) s) with
        | Some (t, rest) => Some (r +:+ t, rest)
        | None => None
        end
  | _, _ => None
  end.

(** The characters of a number, and the grammar of numbers. *)
Definition is_number_char (c : ascii) : bool :=
  is_digit c || Ascii.eqb c "+" || Ascii.eqb c "-" || Ascii.eqb c "." || Ascii.eqb c "e" || Ascii.eqb c "E".

Fixpoint span (p : ascii -> bool) (s : string) : string * string :=
  match s with
  | String c s' => if p c then let '(a, b) := span p s' in (String c a, b) else ("", s)
  | "" => ("", "")
  end.

(** One or more digits. *)
Definition digits1 (s : string) : option string :=
  let '(d, rest) := span is_digit s in if String.eqb d "" then None else Some rest.

Definition number_ok (s : string) : bool :=
  let s := match s with String "-" s' => s' | _ => s end in
  let after_int :=
    match s with
    | String "0" s' => Some s'
    | _ => digits1 s
    end in
  let after_frac := after_int ≫= fun s =>
    match s with String "." s' => digits1 s' | _ => Some s end in
  let after_exp := after_frac ≫= fun s =>
    match s with
    | String "e" s' | String "E" s' =>
        digits1 (match s' with String "+" t | String "-" t => t | _ => s' end)
    | _ => Some s
    end in
  match after_exp with Some "" => true | _ => false end.

(** A key, a colon and a value. *)
Definition parse_member (value : string -> option (json * string)) (s : string)
  : option (string * json * string) :=
  match skip_space s with
  | String c s1 =>
      if Ascii.eqb c dquote then
        match parse_string (String.length s1) s1 with
        | None => None
        | Some (k, s2) =>
            match skip_space s2 with
            | String ":" s3 =>
                match value s3 with Some (j, rest) => Some (k, j, rest) | None => None end
            | _ => None
            end
        end
      else None
  | "" => None
  end.

Fixpoint parse_value (n : nat) (s : string) : option (json * string) :=
  match n with
  | 0 => None
  | S n' =>
      match skip_space s with
      | "" => None
      | String c s' =>
          if Ascii.eqb c dquote then
            match parse_string (String.length s') s' with
            | Some (t, rest) => Some (JStr t, rest) | None => None end
          else if Ascii.eqb c "[" then
            match skip_space s' with
            | String "]" rest => Some (JArr [], rest)
            | _ => match parse_elements n' s' with
                   | Some (l, rest) => Some (JArr l, rest) | None => None end
            end
          else if Ascii.eqb c "{" then
            match skip_space s' with
            | String "}" rest => Some (JObj [], rest)
            | _ => match parse_members n' s' with
                   | Some (l, rest) => Some (JObj l, rest) | None => None end
            end
          else if HasPrefix (String c s') "null" then Some (JNull, str_drop 4 (String c s'))
          else if HasPrefix (String c s') "true" then Some (JBool true, str_drop 4 (String c s'))
          else if HasPrefix (String c s') "false" then Some (JBool false, str_drop 5 (String c s'))
          else
            let '(literal, rest) := span is_number_char (String c s') in
            if number_ok literal then Some (JNum literal, rest) else None
      end
  end
with parse_elements (n : nat) (s : string) : option (list json * string) :=
  match n with
  | 0 => None
  | S n' =>
      match parse_value n' s with
      | None => None
      | Some (j, s') =>
          match skip_space s' with
          | String "]" rest => Some ([j], rest)
          | String "," rest =>
              match parse_elements n' rest with
              | Some (l, rest) => Some (j :: l, rest) | None => None end
          | _ => None
          end
      end
  end
with parse_members (n : nat) (s : string) : option (list (string * json) * string) :=
  match n with
  | 0 => None
  | S n' =>
      match parse_member (parse_value n') s with
      | None => None
      | Some (k, j, s') =>
          match skip_space s' with
          | String "}" rest => Some ([(k, j)], rest)
          | String "," rest =>
              match parse_members n' rest with
              | Some (l, rest) => Some ((k, j) :: l, rest) | None => None end
          | _ => None
          end
      end
  end.

(** A whole text: one value, spaces around it. *)
Definition parse (s : string) : option json :=
  match parse_value (2 * String.length s + 2) s with
  | Some (j, rest) => if String.eqb (skip_space rest) "" then Some j else None
  | None => None
  end.

(** * Strings are read back *)

(** Bytes that are no UTF-8 are written as the replacement character. *)
Fixpoint clean_fuel (n : nat) (s : string) : string :=
  match n, s with
  | S n', String c s' =>
      match rune_width s with
      | 0 => rune_error +:+ clean_fuel n' s'
      | w => str_take w s +:+ clean_fuel n' (str_drop w s)
      end
  | _, _ => ""
  end.

Definition clean (s : string) : string := clean_fuel (String.length s) s.

Fixpoint clean_json (j : json) : json :=
  match j with
  | JStr s => JStr (clean s)
  | JArr l => JArr (List.map clean_json l)
  | JObj l => JObj (List.map (fun kv => (clean kv.1, clean_json kv.2)) l)
  | _ => j
  end.

(** [scan s t]: reading [s] rune by rune gives [t]. *)
Inductive scan : string -> string -> Prop :=
| scan_nil : scan "" ""
| scan_rune r s t :
    r <> "" -> rune_width (r +:+ s) = String.length r -> scan s t -> scan (r +:+ s) (r +:+ t)
| scan_bad c s t : rune_width (String c s) = 0 -> scan s t -> scan (String c s) (rune_error +:+ t).

Lemma scan_fuel n s : String.length s <= n -> scan s (clean_fuel n s).
Proof.
  revert s. induction n as [|n IH]; intros [|c s] Hn; try constructor; [cbn in Hn; lia|].
  cbn [clean_fuel]. destruct (rune_width (String c s)) as [|w] eqn:Hw.
  - apply scan_bad; [done|]. apply IH. cbn in Hn. lia.
  - pose proof (rune_width_le_length (String c s)) as Hle. rewrite Hw in Hle.
    assert (String.length (str_take (S w) (String c s)) = S w) as Hlt by (apply str_take_length; lia).
    rewrite <- (str_take_drop (S w) (String c s)) at 1. apply scan_rune.
    + by intros He; rewrite He in Hlt.
    + by rewrite str_take_drop, Hw.
    + apply IH. rewrite str_drop_length. cbn [String.length] in *. lia.
Qed.

Lemma scan_clean s : scan s (clean s).
Proof. by apply scan_fuel. Qed.

(** Valid UTF-8: a sequence of encodings. *)
Inductive utf8 : string -> Prop :=
| utf8_nil : utf8 ""
| utf8_cons r s : r <> "" -> rune_width (r +:+ s) = String.length r -> utf8 s -> utf8 (r +:+ s).

(** Valid strings stay as they are. *)
Lemma utf8_clean s : utf8 s -> clean s = s.
Proof.
  intros Hs. unfold clean. generalize (le_n (String.length s)). generalize (String.length s) at 2 3.
  induction Hs as [|r s Hr Hw _ IH]; intros n Hn; [by destruct n|].
  destruct r as [|c r]; [done|]. destruct n as [|n]; [cbn in Hn; lia|].
  change (String c r +:+ s) with (String c (r +:+ s)) in *. cbn [clean_fuel]. rewrite Hw.
  cbn [String.length]. change (S (String.length r)) with (String.length (String c r)).
  change (String c (r +:+ s)) with (String c r +:+ s).
  rewrite str_take_app_length, str_drop_app_length, IH; [done|].
  cbn [String.length] in Hn. rewrite length_app_s in Hn. lia.
Qed.

(** A width only depends on the bytes of the encoding. *)
Lemma rune_width_prefix r s t :
  r <> "" -> rune_width (r +:+ s) = String.length r -> rune_width (r +:+ t) = String.length r.
Proof.
  intros Hr. destruct r as [|a [|b [|c [|d [|e r]]]]]; [done|..]; cbn -[in_range is_cont andb orb].
  - destruct (in_range 0 127 a); [done|]. intros H. exfalso. revert H.
    destruct s as [|? [|? [|? ?]]]; repeat case_match; done.
  - destruct (in_range 0 127 a); [done|]. destruct (_ && is_cont b); [done|].
    intros H. exfalso. revert H. destruct s as [|? [|? ?]]; repeat case_match; done.
  - destruct (in_range 0 127 a); [done|]. destruct (_ && is_cont b); [done|].
    destruct (_ && is_cont c); [done|]. destruct s as [|? ?]; repeat case_match; done.
  - destruct (in_range 0 127 a); [done|]. destruct (_ && is_cont b); [done|].
    destruct (_ && is_cont c); [done|]. done.
  - intros H. pose proof (rune_width_le (String a (String b (String c (String d (String e (r +:+ s))))))) as Hle.
    cbn -[in_range is_cont andb orb] in Hle. rewrite H in Hle. lia.
Qed.

(** One step of the string parser. *)
Definition prepend (r : string) (o : option (string * string)) : option (string * string) :=
  match o with Some (t, rest) => Some (r +:+ t, rest) | None => None end.

Lemma parse_escape_ascii c n rest :
  in_range 0 127 c = true ->
  parse_string (S n) (escape_ascii c +:+ rest) = prepend (String c "") (parse_string n rest).
Proof.
  destruct c as [b0 b1 b2 b3 b4 b5 b6 b7].
  destruct b7; [by destruct b0, b1, b2, b3, b4, b5, b6|]. intros _.
  destruct b0, b1, b2, b3, b4, b5, b6; reflexivity.
Qed.

Lemma in_range_ascii c : in_range 0 127 c = true <-> (byte_val c < 128)%Z.
Proof.
  unfold in_range. rewrite andb_true_iff, !Z.leb_le. unfold byte_val. lia.
Qed.

Lemma parse_escape_rune r n rest :
  1 < String.length r -> rune_width (r +:+ rest) = String.length r ->
  parse_string (S n) (escape_rune r +:+ rest) = prepend r (parse_string n rest).
Proof.
  intros Hlen Hw. unfold escape_rune.
  destruct (String.eqb_spec r (bytes [226; 128; 168])) as [->|_]; [reflexivity|].
  destruct (String.eqb_spec r (bytes [226; 128; 169])) as [->|_]; [reflexivity|].
  destruct r as [|c r]; [cbn in Hlen; lia|]. change (String c r +:+ rest) with (String c (r +:+ rest)) in *.
  cbn [parse_string]. rewrite Hw. cbn [String.length] in *.
  destruct (in_range 0 127 c) eqn:Hc.
  { exfalso. cbn [rune_width] in Hw. rewrite Hc in Hw. injection Hw as Hw. lia. }
  apply not_true_iff_false in Hc. rewrite in_range_ascii in Hc.
  destruct (Ascii.eqb_spec c dquote) as [->|_]; [by destruct Hc|].
  destruct (Ascii.eqb_spec c backslash) as [->|_]; [by destruct Hc|].
  destruct (Z.ltb_spec (byte_val c) 32); [lia|].
  change (String c (r +:+ rest)) with (String c r +:+ rest).
  change (S (String.length r)) with (String.length (String c r)).
  rewrite Nat.max_r by (cbn; lia). by rewrite str_take_app_length, str_drop_app_length.
Qed.

Lemma escape_step n r s :
  r <> "" -> rune_width (r +:+ s) = String.length r -> String.length (r +:+ s) <= n ->
  exists n', String.length s <= n' /\
    escape n (r +:+ s) = (if (1 <? String.length r)%nat then escape_rune r
                          else match r with String c _ => escape_ascii c | "" => "" end) +:+ escape n' s.
Proof.
  intros Hr Hw Hn. rewrite length_app_s in Hn. destruct r as [|c r]; [done|].
  destruct n as [|n']; [cbn in Hn; lia|].
  change (String c r +:+ s) with (String c (r +:+ s)) in *. cbn [escape].
  destruct (in_range 0 127 c) eqn:Hc.
  - cbn [rune_width] in Hw. rewrite Hc in Hw. cbn [String.length] in *.
    destruct r as [|d r]; [|cbn in Hw; lia]. exists n'. split; [lia|]. done.
  - rewrite Hw. change (String c (r +:+ s)) with (String c r +:+ s).
    assert (1 < String.length (String c r)) as Hlen.
    { destruct r as [|d r]; [|cbn; lia]. exfalso.
      assert (rune_width (String c "" +:+ s) = 1) as Hw1 by done. clear Hw.
      cbn [String.append rune_width] in Hw1. rewrite Hc in Hw1.
      destruct s as [|? [|? [|? ?]]]; repeat case_match; done. }
    destruct (String.length (String c r)) as [|[|k]] eqn:Hl; [lia..|]. rewrite <- Hl in *.
    rewrite str_take_app_length, str_drop_app_length.
    destruct (Nat.ltb_spec 1 (String.length (String c r))); [|lia].
    exists n'. split; [cbn [String.length] in Hn; lia|done].
Qed.

Lemma escape_bad n c s :
  rune_width (String c s) = 0 -> String.length (String c s) <= n ->
  exists n', String.length s <= n' /\
    escape n (String c s) = String backslash "ufffd" +:+ escape n' s.
Proof.
  intros Hw Hn. destruct n as [|n']; [cbn in Hn; lia|]. exists n'. cbn [escape String.length] in *.
  rewrite Hw. destruct (in_range 0 127 c) eqn:Hc; [|split; [lia|done]].
  cbn [rune_width] in Hw. by rewrite Hc in Hw.
Qed.

Lemma escape_length s n : String.length s <= n -> String.length s <= String.length (escape n s).
Proof.
  revert n. induction (scan_clean s) as [|r s t Hr Hw Hs IH|c s t Hw Hs IH]; intros n Hn; [cbn; lia|..].
  2: { destruct (escape_bad n c s Hw Hn) as (n'&Hn'&->). rewrite length_app_s.
       specialize (IH n' Hn'). cbn. lia. }
  destruct (escape_step n r s Hr Hw Hn) as (n'&Hn'&->). rewrite !length_app_s.
  specialize (IH n' Hn'). enough (String.length r <= String.length
    (if (1 <? String.length r)%nat then escape_rune r
     else match r with String c _ => escape_ascii c | "" => "" end)) by lia.
  destruct (Nat.ltb_spec 1 (String.length r)).
  - unfold escape_rune. destruct (String.eqb_spec r (bytes [226; 128; 168])) as [->|]; [by cbn; lia|].
    destruct (String.eqb_spec r (bytes [226; 128; 169])) as [->|]; [by cbn; lia|done].
  - destruct r as [|c [|d r]]; cbn [String.length] in *; [lia| |lia].
    unfold escape_ascii. repeat case_match; cbn; lia.
Qed.

Lemma parse_escaped s t n m rest :
  scan s t -> String.length s <= n -> String.length s < m ->
  parse_string m (escape n s +:+ String dquote rest) = Some (t, rest).
Proof.
  intros Hs. revert n m. induction Hs as [|r s t Hr Hw Hs IH|c s t Hw Hs IH]; intros n m Hn Hm.
  - destruct m as [|m]; [cbn in Hm; lia|]. by destruct n.
  - destruct (escape_step n r s Hr Hw Hn) as (n'&Hn'&->). rewrite length_app_s in Hm.
    destruct m as [|m]; [lia|]. rewrite app_assoc_s.
    assert (String.length s < m) by (destruct r; [done|cbn [String.length] in Hm; lia]).
    destruct (Nat.ltb_spec 1 (String.length r)) as [Hlen|Hlen].
    + rewrite parse_escape_rune; [by rewrite IH by done|done|]. by eapply rune_width_prefix.
    + destruct r as [|c [|d r]]; cbn [String.length] in *; [done| |lia].
      rewrite parse_escape_ascii; [by rewrite IH by done|].
      apply in_range_ascii, Z.nle_gt. intros Hc.
      change (String c "" +:+ s) with (String c s) in Hw. cbn [rune_width] in Hw.
      destruct (in_range 0 127 c) eqn:He; [apply in_range_ascii in He; lia|].
      destruct s as [|? [|? [|? ?]]]; repeat case_match; done.
  - destruct (escape_bad n c s Hw Hn) as (n'&Hn'&->). cbn [String.length] in Hm.
    destruct m as [|m]; [lia|]. rewrite app_assoc_s.
    change (prepend rune_error (parse_string m (escape n' s +:+ String dquote rest)) =
            Some (rune_error +:+ t, rest)).
    by rewrite IH by (done || lia).
Qed.

Lemma parse_quoted s rest :
  parse_string (String.length (escape (String.length s) s +:+ String dquote "" +:+ rest))
    (escape (String.length s) s +:+ String dquote "" +:+ rest) = Some (clean s, rest).
Proof.
  change (String dquote "" +:+ rest) with (String dquote rest).
  apply parse_escaped; [apply scan_clean|done|]. rewrite length_app_s.
  pose proof (escape_length s (String.length s) ltac:(done)). cbn [String.length]. lia.
Qed.

(** * Values are read back *)

(** A literal that reads as a number. *)
Definition literal_ok (l : string) : Prop :=
  number_ok l = true /\ fst (span is_number_char l) = l.

Inductive json_ok : json -> Prop :=
| ok_null : json_ok JNull
| ok_bool b : json_ok (JBool b)
| ok_num l : literal_ok l -> json_ok (JNum l)
| ok_str s : json_ok (JStr s)
| ok_arr l : Forall json_ok l -> json_ok (JArr l)
| ok_obj l : Forall (fun kv => json_ok kv.2) l -> json_ok (JObj l).

(** What may follow a value. *)
Definition stops (rest : string) : Prop :=
  match rest with String c _ => is_number_char c = false | "" => True end.

Fixpoint json_size (j : json) : nat :=
  match j with
  | JArr l => S (list_sum (List.map (fun j => S (json_size j)) l))
  | JObj l => S (list_sum (List.map (fun kv => S (json_size kv.2)) l))
  | _ => 1
  end.

Lemma span_app p l rest :
  fst (span p l) = l -> match rest with String c _ => p c = false | "" => True end ->
  span p (l +:+ rest) = (l, rest).
Proof.
  intros Hl Hr. induction l as [|c l IH]; cbn in *.
  - destruct rest as [|c rest]; [done|]. cbn. by rewrite Hr.
  - destruct (p c) eqn:Hc; [|done]. destruct (span p l) as [a b]. cbn in Hl. injection Hl as ->.
    by rewrite IH.
Qed.

(** How a printed value starts. *)
Definition value_start (c : ascii) : Prop := is_space c = false /\ c <> "]"%char /\ c <> "}"%char.

Lemma number_start c : is_number_char c = true ->
  value_start c /\ c <> dquote /\ c <> "["%char /\ c <> "{"%char /\ c <> "n"%char /\ c <> "t"%char /\
  c <> "f"%char.
Proof.
  destruct c as [b0 b1 b2 b3 b4 b5 b6 b7].
  by destruct b0, b1, b2, b3, b4, b5, b6, b7; intros H; try discriminate H; split_and!.
Qed.

Lemma literal_start l : literal_ok l -> exists c l', l = String c l' /\ is_number_char c = true.
Proof.
  intros [Hn Hs]. destruct l as [|c l]; [done|]. exists c, l. split; [done|]. cbn in Hs.
  by destruct (is_number_char c).
Qed.

Lemma print_start j : json_ok j -> exists c t, print j = String c t /\ value_start c.
Proof.
  intros Hj. destruct Hj as [|[]|l Hl|s|l|l]; cbn; try by eexists _, _; split_and!.
  destruct (literal_start l Hl) as (c&l'&->&Hc). exists c, l'. split; [done|]. by apply number_start.
Qed.

Lemma skip_start c t : is_space c = false -> skip_space (String c t) = String c t.
Proof. cbn. by intros ->. Qed.

Definition elements_size (l : list json) : nat := list_sum (List.map (fun j => S (json_size j)) l).
Definition members_size (l : list (string * json)) : nat :=
  list_sum (List.map (fun kv => S (json_size kv.2)) l).

Definition print_member (kv : string * json) : string := quoted kv.1 +:+ ":" +:+ print kv.2.

Definition clean_member (kv : string * json) : string * json := (clean kv.1, clean_json kv.2).

Definition reads_value (n : nat) : Prop := forall j rest,
  json_ok j -> json_size j <= n -> stops rest -> parse_value n (print j +:+ rest) = Some (clean_json j, rest).
Definition reads_elements (n : nat) : Prop := forall l rest,
  l <> [] -> Forall json_ok l -> elements_size l <= n ->
  parse_elements n (Join (List.map print l) "," +:+ "]" +:+ rest) = Some (List.map clean_json l, rest).
Definition reads_members (n : nat) : Prop := forall l rest,
  l <> [] -> Forall (fun kv => json_ok kv.2) l -> members_size l <= n ->
  parse_members n (Join (List.map print_member l) "," +:+ "}" +:+ rest) = Some (List.map clean_member l, rest).

Lemma Join_cons x y l sep : Join (x :: y :: l) sep = x +:+ sep +:+ Join (y :: l) sep.
Proof. done. Qed.

Lemma reads_elements_S n : reads_value n -> reads_elements n -> reads_elements (S n).
Proof.
  intros IHv IHe l rest Hne Hl Hs. destruct l as [|j l]; [done|].
  inversion Hl as [|? ? Hj Hl']; subst. cbn [elements_size List.map list_sum fold_right] in Hs.
  change (S (json_size j) + elements_size l <= S n) in Hs. cbn [parse_elements].
  destruct l as [|j' l].
  - cbn [List.map Join]. rewrite IHv by (done || lia). done.
  - cbn [List.map]. rewrite Join_cons, !app_assoc_s. rewrite IHv by (done || lia).
    change ("," +:+ ?x) with (String "," x). cbn [skip_space is_space].
    change (is_space ",") with false. cbv iota.
    change (print j' :: List.map print l) with (List.map print (j' :: l)).
    rewrite IHe; [done..|lia].
Qed.

Lemma quoted_start s : exists t, quoted s = String dquote t.
Proof. by eexists. Qed.

Lemma reads_member n kv rest :
  reads_value n -> json_ok kv.2 -> json_size kv.2 <= n -> stops rest ->
  parse_member (parse_value n) (print_member kv +:+ rest) = Some (clean_member kv, rest).
Proof.
  destruct kv as [k j]. cbn [fst snd]. intros IHv Hj Hs Hr. unfold print_member, quoted, parse_member.
  cbn [fst snd]. rewrite app_assoc_s.
  change (String dquote ?a +:+ ?b) with (String dquote (a +:+ b)).
  rewrite skip_start by done. rewrite Ascii.eqb_refl, app_assoc_s, parse_quoted by done.
  change (":" +:+ ?x) with (String ":" x). cbn [String.append]. rewrite skip_start by done.
  by rewrite IHv by (done || lia).
Qed.

Lemma reads_members_S n : reads_value n -> reads_members n -> reads_members (S n).
Proof.
  intros IHv IHm l rest Hne Hl Hs. destruct l as [|kv l]; [done|].
  inversion Hl as [|? ? Hj Hl']; subst.
  change (S (json_size kv.2) + members_size l <= S n) in Hs. cbn [parse_members].
  destruct l as [|kv' l].
  - cbn [List.map Join]. rewrite reads_member by (done || lia). by destruct kv.
  - cbn [List.map]. rewrite Join_cons, !app_assoc_s. rewrite reads_member by (done || lia).
    destruct kv as [k j]. change ("," +:+ ?x) with (String "," x). rewrite skip_start by done. cbv iota.
    change (print_member kv' :: List.map print_member l) with (List.map print_member (kv' :: l)).
    rewrite IHm; [done..|cbn [snd] in Hs; lia].
Qed.

Lemma HasPrefix_head_false c s d p : c <> d -> HasPrefix (String c s) (String d p) = false.
Proof. intros Hne. unfold HasPrefix. cbn. by destruct (Ascii.eqb_spec d c) as [->|]. Qed.

Lemma reads_number n l rest :
  literal_ok l -> stops rest -> parse_value (S n) (l +:+ rest) = Some (JNum l, rest).
Proof.
  intros Hl Hr. pose proof Hl as [Hok Hspan].
  destruct (literal_start l Hl) as (c&l'&He&Hc).
  destruct (number_start c Hc) as ((Hsp&_&_)&Hq&Hb&Hcb&Hn&Ht&Hf).
  pose proof (span_app is_number_char l rest Hspan Hr) as Hs.
  rewrite He in *. change (String c l' +:+ rest) with (String c (l' +:+ rest)) in *.
  cbn [parse_value]. rewrite skip_start by done.
  rewrite (proj2 (Ascii.eqb_neq _ _) Hq), (proj2 (Ascii.eqb_neq _ _) Hb), (proj2 (Ascii.eqb_neq _ _) Hcb).
  rewrite !HasPrefix_head_false by done. by rewrite Hs, Hok.
Qed.

Lemma Join_start {A} (f : A -> string) (x : A) l sep rest c t :
  f x = String c t -> exists t', Join (List.map f (x :: l)) sep +:+ rest = String c t'.
Proof.
  intros Hx. cbn [List.map]. destruct l as [|y l]; cbn [List.map Join]; rewrite Hx; cbn; by eexists.
Qed.

Lemma parse_array n s :
  parse_value (S n) (String "[" s) =
  match skip_space s with
  | String "]" rest => Some (JArr [], rest)
  | _ => match parse_elements n s with Some (l, rest) => Some (JArr l, rest) | None => None end
  end.
Proof. reflexivity. Qed.

Lemma parse_object n s :
  parse_value (S n) (String "{" s) =
  match skip_space s with
  | String "}" rest => Some (JObj [], rest)
  | _ => match parse_members n s with Some (l, rest) => Some (JObj l, rest) | None => None end
  end.
Proof. reflexivity. Qed.

Lemma not_close c t (A : Type) (x y : A) :
  c <> "]"%char -> match String c t with String "]" _ => x | _ => y end = y.
Proof. destruct c as [[] [] [] [] [] [] [] []]; done. Qed.

Lemma reads_value_S n : reads_elements n -> reads_members n -> reads_value (S n).
Proof.
  intros IHe IHm j rest Hj Hs Hr. destruct Hj as [|[]|l Hl|s|l Hl|l Hl].
  - done.
  - done.
  - done.
  - by apply reads_number.
  - cbn [print]. unfold quoted. change (String dquote ?a +:+ ?b) with (String dquote (a +:+ b)).
    cbn [parse_value]. rewrite skip_start by done. rewrite Ascii.eqb_refl, app_assoc_s.
    by rewrite parse_quoted.
  - cbn [print]. rewrite !app_assoc_s. change ("[" +:+ ?x) with (String "[" x).
    rewrite parse_array. destruct l as [|j l]; [done|].
    inversion Hl as [|? ? Hj' _]; subst. destruct (print_start j Hj') as (c&t&Hp&Hsp&Hc&_).
    destruct (Join_start print j l "," ("]" +:+ rest) c t Hp) as (t'&Ht').
    rewrite IHe by (done || by apply le_S_n). rewrite Ht', skip_start by done.
    by destruct c as [[] [] [] [] [] [] [] []].
  - cbn [print]. change (fun kv => quoted kv.1 +:+ ":" +:+ print kv.2) with print_member.
    rewrite !app_assoc_s. change ("{" +:+ ?x) with (String "{" x).
    rewrite parse_object. destruct l as [|kv l]; [done|].
    destruct (Join_start print_member kv l "," ("}" +:+ rest) dquote _ eq_refl) as (t'&Ht').
    rewrite IHm by (done || by apply le_S_n). by rewrite Ht', skip_start.
Qed.

Lemma reads n : reads_value n /\ reads_elements n /\ reads_members n.
Proof.
  induction n as [|n (IHv&IHe&IHm)].
  - split_and!.
    + intros j rest Hj Hs. exfalso. destruct j; cbn in Hs; lia.
    + intros [|j l] rest Hne _ Hs; [done|]. exfalso. cbn in Hs. lia.
    + intros [|kv l] rest Hne _ Hs; [done|]. exfalso. cbn in Hs. lia.
  - split_and!; auto using reads_value_S, reads_elements_S, reads_members_S.
Qed.

(** ** Enough fuel *)

Lemma Join_length l sep :
  String.length (Join l sep) =
  list_sum (List.map String.length l) + (length l - 1) * String.length sep.
Proof.
  induction l as [|x [|y l] IH]; [done|cbn; lia|]. rewrite Join_cons, !length_app_s, IH.
  cbn [List.map list_sum fold_right length]. unfold list_sum. cbn [fold_right]. nia.
Qed.

Lemma list_sum_elem {A} (f : A -> nat) l x : x ∈ l -> f x <= list_sum (List.map f l).
Proof.
  unfold list_sum. induction 1 as [x l|x y l _ IH]; cbn; lia.
Qed.

Lemma size_le_length j : json_ok j -> json_size j <= 2 * String.length (print j).
Proof.
  remember (json_size j) as n eqn:Hn. revert j Hn.
  induction n as [n IH] using lt_wf_ind. intros j -> Hj.
  assert (forall A (f : A -> string) (g : A -> json) l,
    (forall x, x ∈ l -> json_ok (g x) /\ json_size (g x) < json_size j /\
                       String.length (print (g x)) <= String.length (f x)) ->
    list_sum (List.map (fun x => S (json_size (g x))) l) <=
    length l + 2 * list_sum (List.map String.length (List.map f l))) as Hsum.
  { intros A f g l Hl. induction l as [|x l IHl]; [cbn; lia|].
    destruct (Hl x ltac:(left)) as (Hx&Hlt&Hle). specialize (IH _ Hlt _ eq_refl Hx).
    specialize (IHl ltac:(intros y Hy; apply Hl; by right)). unfold list_sum in *. cbn. lia. }
  destruct Hj as [|[]|l Hl|s|l Hl|l Hl]; cbn [print]; try (cbn; lia).
  - destruct (literal_start l Hl) as (c&l'&->&_). cbn. lia.
  - specialize (Hsum _ print (fun j => j) l). rewrite !length_app_s, Join_length, length_map.
    cbn [json_size String.length].
    enough (list_sum (List.map (fun j => S (json_size j)) l) <=
      length l + 2 * list_sum (List.map String.length (List.map print l))) by lia.
    apply Hsum. intros x Hx. split; [by apply (proj1 (Forall_forall _ _) Hl)|]. split; [|done].
    cbn [json_size]. pose proof (list_sum_elem (fun j => S (json_size j)) l x Hx). cbn in *. lia.
  - change (fun kv => quoted kv.1 +:+ ":" +:+ print kv.2) with print_member.
    specialize (Hsum _ print_member snd l). rewrite !length_app_s, Join_length, length_map.
    cbn [json_size String.length].
    enough (list_sum (List.map (fun kv : string * json => S (json_size kv.2)) l) <=
      length l + 2 * list_sum (List.map String.length (List.map print_member l))) by lia.
    apply Hsum. intros [k x] Hx. split; [by apply (proj1 (Forall_forall _ _) Hl _ Hx)|]. split.
    + cbn [json_size snd].
      pose proof (list_sum_elem (fun kv => S (json_size kv.2)) l (k, x) Hx). cbn in *. lia.
    + unfold print_member. cbn [fst snd]. rewrite !length_app_s. lia.
Qed.

(** What is printed is read back, with its strings cleaned. *)
Lemma parse_print j : json_ok j -> parse (print j) = Some (clean_json j).
Proof.
  intros Hj. unfold parse. pose proof (size_le_length j Hj) as Hs.
  rewrite <- (app_empty_r (print j)) at 2.
  rewrite (proj1 (reads _)); [done..|lia|done].
Qed.

(** An empty text is no value. *)
Lemma parse_empty : parse "" = None.
Proof. done. Qed.

Example print_ex :
  print (JObj [("a", JArr [JNum "1"; JNull]); ("b", JStr "<x>"); ("c", JObj [])]) =
  "{" +:+ quoted "a" +:+ ":[1,null]," +:+ quoted "b" +:+ ":" +:+
  String dquote (String backslash ("u003cx" +:+ String backslash ("u003e" +:+ String dquote ("," +:+ quoted "c" +:+ ":{}}")))).
Proof. reflexivity. Qed.

Example parse_ex :
  parse (" { " +:+ quoted "k" +:+ " : [ true , -1.5e3 , " +:+
         String dquote (String backslash ("ud83d" +:+ String backslash ("ude00" +:+ String dquote " ] } "))))
  = Some (JObj [("k", JArr [JBool true; JNum "-1.5e3"; JStr (bytes [240; 159; 152; 128])])]).
Proof. reflexivity. Qed.

(** * Integers *)

Fixpoint all_digits (s : string) : bool :=
  match s with "" => true | String c s' => is_digit c && all_digits s' end.

(** The value of a string of digits after the value [n]. *)
Fixpoint dec_value (s : string) (n : Z) : Z :=
  match s with "" => n | String c s' => dec_value s' (n * 10 + (byte_val c - 48))%Z end.

Lemma all_digits_app a b : all_digits (a +:+ b) = all_digits a && all_digits b.
Proof. induction a as [|c a IH]; cbn; [done|]. by rewrite IH, andb_assoc. Qed.

Lemma dec_value_app a b n : dec_value (a +:+ b) n = dec_value b (dec_value a n).
Proof. revert n. induction a as [|c a IH]; intros n; cbn; [done|apply IH]. Qed.

Lemma digit_char x : (x < 10)%N ->
  is_digit (pretty_N_char x) = true /\ byte_val (pretty_N_char x) = (Z.of_N x + 48)%Z /\
  (x <> 0%N -> pretty_N_char x <> "0"%char).
Proof.
  intros Hx. assert (x = 0 \/ x = 1 \/ x = 2 \/ x = 3 \/ x = 4 \/ x = 5 \/ x = 6 \/ x = 7 \/ x = 8 \/ x = 9)%N
    as Hc by lia.
  by repeat destruct Hc as [->|Hc]; [..|subst]; split_and!.
Qed.

(** The digits of a positive number. *)
Lemma pretty_digits x s : (0 < x)%N -> exists c d,
  pretty_N_go x s = String c d +:+ s /\ c <> "0"%char /\ all_digits (String c d) = true /\
  dec_value (String c d) 0 = Z.of_N x.
Proof.
  revert s. induction (N.lt_wf_0 x) as [x _ IH]; intros s Hx. rewrite pretty_N_go_step by done.
  destruct (digit_char (x `mod` 10)) as (Hd&Hv&Hz); [by apply N.mod_lt|].
  destruct (decide (x < 10)%N) as [Hlt|Hge].
  - rewrite N.div_small, pretty_N_go_0 by done. rewrite N.mod_small in * by done.
    eexists _, "". split; [done|]. split; [apply Hz; lia|]. split; [cbn; by rewrite Hd|].
    cbn [dec_value]. rewrite Hv. lia.
  - destruct (IH (x `div` 10)%N) with (s := String (pretty_N_char (x `mod` 10)) s) as (c&d&->&Hc&Ha&Hval).
    { apply N.div_lt; lia. }
    { apply N.div_str_pos. lia. }
    exists c, (d +:+ String (pretty_N_char (x `mod` 10)) "").
    change (String c d +:+ String ?e s) with (String c d +:+ (String e "" +:+ s)).
    rewrite <- app_assoc_s. split; [done|]. split; [done|].
    change (String c (d +:+ ?e)) with (String c d +:+ e).
    rewrite all_digits_app, dec_value_app, Ha, Hval. split; [cbn; by rewrite Hd|].
    cbn [dec_value]. rewrite Hv. rewrite (N.div_mod x 10) at 3 by done. lia.
Qed.

Lemma pretty_pos (p : positive) : exists c d,
  pretty p = String c d /\ c <> "0"%char /\ c <> "-"%char /\ c <> "+"%char /\
  all_digits (String c d) = true /\ dec_value (String c d) 0 = Z.pos p.
Proof.
  change (pretty p) with (pretty (N.pos p)). unfold pretty, pretty_N.
  destruct (decide _) as [|_]; [done|].
  destruct (pretty_digits (N.pos p) "" ltac:(lia)) as (c&d&->&Hc&Ha&Hv).
  exists c, d. rewrite app_empty_r. split_and!; [done..| | |done|done]; by intros ->.
Qed.

Lemma digits_literal c d :
  c <> "0"%char -> all_digits (String c d) = true ->
  span is_digit (String c d) = (String c d, "") /\ fst (span is_number_char (String c d)) = String c d.
Proof.
  intros _ Ha. revert Ha. generalize (String c d). intros s.
  induction s as [|e s IH]; cbn; [done|]. intros [He Hs]%andb_true_iff. destruct (IH Hs) as [H1 H2].
  assert (is_number_char e = true) as -> by (unfold is_number_char; by rewrite He).
  rewrite He, H1. split; [done|]. destruct (span is_number_char s). cbn in *. by rewrite H2.
Qed.

Lemma number_ok_digits c d :
  c <> "0"%char -> all_digits (String c d) = true -> number_ok (String c d) = true.
Proof.
  intros Hc Ha. destruct (digits_literal c d Hc Ha) as [Hs _].
  unfold number_ok. assert (c <> "-"%char) as Hm by (intros ->; cbn in Ha; done).
  assert (digits1 (String c d) = Some "") as Hd1 by (unfold digits1; by rewrite Hs).
  destruct c as [[] [] [] [] [] [] [] []]; try done; by rewrite Hd1.
Qed.

Lemma span_first p c s : p c = true -> fst (span p (String c s)) = String c (fst (span p s)).
Proof. intros Hc. cbn [span]. rewrite Hc. by destruct (span p s). Qed.

(** Printed integers are numbers, and read as what they were. *)
Lemma Itoa_literal n : literal_ok (Itoa n).
Proof.
  unfold Itoa, literal_ok. destruct n as [|p|p]; [done|..];
    [change (pretty (Z.pos p)) with (pretty p)|change (pretty (Z.neg p)) with (String "-" (pretty p))];
    destruct (pretty_pos p) as (c&d&->&Hc&Hm&_&Ha&_); destruct (digits_literal c d Hc Ha) as [_ Hs].
  - split; [by apply number_ok_digits|done].
  - pose proof (number_ok_digits c d Hc Ha) as Hn. split.
    + unfold number_ok in *. destruct c as [[] [] [] [] [] [] [] []]; try done; exact Hn.
    + by rewrite span_first, Hs.
Qed.

(** A number as a Go integer of the given range: [strconv.ParseInt] or
    [ParseUint] of the literal. *)
Definition int_of_literal (lo hi : Z) (l : string) : option Z :=
  let '(neg, d) := match l with String "-" s => (true, s) | _ => (false, l) end in
  if negb (String.eqb d "") && all_digits d then
    let v := if neg : bool then (- dec_value d 0)%Z else dec_value d 0 in
    if ((lo <=? v) && (v <=? hi))%Z then Some v else None
  else None.

Lemma int_of_literal_Itoa lo hi n : (lo <= n <= hi)%Z -> int_of_literal lo hi (Itoa n) = Some n.
Proof.
  intros Hn. assert ((lo <=? n)%Z && (n <=? hi)%Z = true) as Hr by lia.
  unfold Itoa. destruct n as [|p|p];
    [change (int_of_literal lo hi (pretty 0%Z)) with
       (if (lo <=? 0)%Z && (0 <=? hi)%Z then Some 0%Z else None); by rewrite Hr|..];
    [change (pretty (Z.pos p)) with (pretty p)|change (pretty (Z.neg p)) with (String "-" (pretty p))];
    destruct (pretty_pos p) as (c&d&->&Hc&Hm&_&Ha&Hv).
  - unfold int_of_literal.
    assert (match String c d with String "-" s => (true, s) | _ => (false, String c d) end =
            (false, String c d)) as -> by (destruct c as [[] [] [] [] [] [] [] []]; done).
    by rewrite Ha, Hv, Hr.
  - unfold int_of_literal. rewrite Ha, Hv. cbn [negb andb String.eqb].
    change (- Z.pos p)%Z with (Z.neg p). by rewrite Hr.
Qed.

(** * Printed texts are valid UTF-8 *)

Lemma utf8_app a b : utf8 a -> utf8 b -> utf8 (a +:+ b).
Proof.
  induction 1 as [|r s Hr Hw _ IH]; intros Hb; [done|]. rewrite app_assoc_s. apply utf8_cons; [done| |auto].
  by eapply rune_width_prefix.
Qed.

Fixpoint all_ascii (s : string) : bool :=
  match s with "" => true | String c s' => in_range 0 127 c && all_ascii s' end.

Lemma utf8_ascii s : all_ascii s = true -> utf8 s.
Proof.
  induction s as [|c s IH]; [constructor|]. cbn [all_ascii]. intros [Hc Hs]%andb_true_iff.
  apply (utf8_cons (String c "") s); [done| |auto]. cbn [rune_width String.append]. by rewrite Hc.
Qed.

Lemma utf8_rune r s : rune_width (r +:+ s) = String.length r -> utf8 r.
Proof.
  intros Hw. destruct r as [|c r]; [constructor|]. rewrite <- (app_empty_r (String c r)).
  apply utf8_cons; [done| |constructor]. by eapply rune_width_prefix.
Qed.

Lemma utf8_clean_valid s : utf8 (clean s).
Proof.
  induction (scan_clean s) as [|r s t Hr Hw _ IH|c s t Hw _ IH]; [constructor| |].
  - apply utf8_app; [by eapply utf8_rune|done].
  - apply utf8_app; [|done]. by apply (utf8_rune rune_error "").
Qed.

Lemma escape_ascii_ok c : in_range 0 127 c = true -> all_ascii (escape_ascii c) = true.
Proof.
  destruct c as [b0 b1 b2 b3 b4 b5 b6 b7].
  destruct b7; [by destruct b0, b1, b2, b3, b4, b5, b6|]. intros _.
  by destruct b0, b1, b2, b3, b4, b5, b6.
Qed.

Lemma utf8_escape n s : utf8 (escape n s).
Proof.
  revert s. induction n as [|n IH]; intros [|c s]; try constructor. cbn [escape].
  destruct (in_range 0 127 c) eqn:Hc.
  { apply utf8_app; [|apply IH]. by apply utf8_ascii, escape_ascii_ok. }
  destruct (rune_width (String c s)) as [|w] eqn:Hw.
  { apply utf8_app; [|apply IH]. by apply utf8_ascii. }
  apply utf8_app; [|apply IH]. unfold escape_rune.
  destruct (String.eqb _ _); [by apply utf8_ascii|]. destruct (String.eqb _ _); [by apply utf8_ascii|].
  apply (utf8_rune _ (str_drop (S w) (String c s))). rewrite str_take_drop, Hw, str_take_length; [done|].
  rewrite <- Hw. apply rune_width_le_length.
Qed.

Lemma utf8_quoted s : utf8 (quoted s).
Proof.
  unfold quoted. change (String dquote ?x) with (String dquote "" +:+ x).
  repeat apply utf8_app; try apply utf8_escape; by apply utf8_ascii.
Qed.

Lemma utf8_Join l sep : utf8 sep -> Forall utf8 l -> utf8 (Join l sep).
Proof.
  intros Hsep. induction 1 as [|x [|y l] Hx _ IH]; [constructor|done|]. rewrite Join_cons.
  by repeat apply utf8_app.
Qed.

Lemma ascii_literal l : literal_ok l -> all_ascii l = true.
Proof.
  intros [_ Hs]. induction l as [|c l IH]; [done|]. cbn [span all_ascii] in *.
  destruct (is_number_char c) eqn:Hc; [|done]. destruct (span is_number_char l) as [a b]. cbn in *.
  injection Hs as ->. rewrite IH by done. rewrite andb_true_r.
  destruct c as [[] [] [] [] [] [] [] []]; done.
Qed.

Lemma ascii_Itoa n : all_ascii (Itoa n) = true.
Proof. apply ascii_literal, Itoa_literal. Qed.

Lemma utf8_literal l : literal_ok l -> utf8 l.
Proof. intros Hl. by apply utf8_ascii, ascii_literal. Qed.

Lemma utf8_print j : json_ok j -> utf8 (print j).
Proof.
  remember (json_size j) as n eqn:Hn. revert j Hn.
  induction n as [n IH] using lt_wf_ind. intros j -> Hj.
  destruct Hj as [|[]|l Hl|s|l Hl|l Hl]; cbn [print]; try by apply utf8_ascii.
  - by apply utf8_literal.
  - apply utf8_quoted.
  - apply utf8_app; [by apply utf8_ascii|]. apply utf8_app; [|by apply utf8_ascii].
    apply utf8_Join; [by apply utf8_ascii|]. apply Forall_forall. intros x Hx.
    apply list_elem_of_fmap in Hx as (j&->&Hj).
    apply (IH (json_size j)); [|done|by apply (proj1 (Forall_forall _ _) Hl)].
    cbn [json_size]. pose proof (list_sum_elem (fun j => S (json_size j)) l j Hj). cbn in *. lia.
  - apply utf8_app; [by apply utf8_ascii|]. apply utf8_app; [|by apply utf8_ascii].
    apply utf8_Join; [by apply utf8_ascii|]. apply Forall_forall. intros x Hx.
    apply list_elem_of_fmap in Hx as ([k j]&->&Hj). cbn [fst snd].
    apply utf8_app; [apply utf8_quoted|]. apply utf8_app; [by apply utf8_ascii|].
    apply (IH (json_size j)); [|done|by apply (proj1 (Forall_forall _ _) Hl (k, j))].
    cbn [json_size]. pose proof (list_sum_elem (fun kv : string * json => S (json_size kv.2)) l (k, j) Hj).
    cbn in *. lia.
Qed.
