(* ===== verification/GoTime.v ===== *)
(** Go's package [time] as the program uses it: instants, RFC 3339 texts, and
    the JSON texts of times ([Time.MarshalJSON] and [UnmarshalJSON]).  The
    lemma: an instant of the years 0 to 9999 is read back from its text. *)

From S2P Require Import Prelude GoStrings Json.

(** * Formatting *)

(** Decimal digits padded with zeros to a width, with a sign
    ([appendInt] of package time). *)
Definition pad_int (n : Z) (width : nat) : string :=
  let digits := Itoa (Z.abs n) in
  (if (n <? 0)%Z then "-" else "") +:+
  String.concat "" (repeat "0" (width - String.length digits)) +:+ digits.

(** Year, month and day of a day count since 1970-01-01 (proleptic
    Gregorian): 400-year eras of 146097 days, years that start in March. *)
Definition civil_of_days (days : Z) : Z * Z * Z :=
  (let z := days + 719468 in
   let era := z / 146097 in
   let doe := z mod 146097 in
   let yoe := (doe - doe / 1460 + doe / 36524 - doe / 146096) / 365 in
   let doy := doe - (365 * yoe + yoe / 4 - yoe / 100) in
   let mp := (5 * doy + 2) / 153 in
   let d := doy - (153 * mp + 2) / 5 + 1 in
   let m := if mp <? 10 then mp + 3 else mp - 9 in
   (yoe + era * 400 + (if m <=? 2 then 1 else 0), m, d))%Z.

(** [t.UTC().Format(time.RFC3339)] of an instant in nanoseconds. *)
Definition Format_RFC3339 (t : Z) : string :=
  let secs := (t / 1000000000)%Z in
  let '(y, m, d) := civil_of_days (secs / 86400)%Z in
  let s := (secs mod 86400)%Z in
  pad_int y 4 +:+ "-" +:+ pad_int m 2 +:+ "-" +:+ pad_int d 2 +:+ "T" +:+
  pad_int (s / 3600) 2 +:+ ":" +:+ pad_int (s mod 3600 / 60) 2 +:+ ":" +:+
  pad_int (s mod 60) 2 +:+ "Z".

Example Format_epoch : Format_RFC3339 0 = "1970-01-01T00:00:00Z".
Proof. by vm_compute. Qed.

Example Format_leap_day : Format_RFC3339 1709210096500000000 = "2024-02-29T12:34:56Z".
Proof. by vm_compute. Qed.

(** The fraction of a second: up to [k] digits, none when the rest is zero. *)
Fixpoint frac_digits (k : nat) (n : Z) : string :=
  match k with
  | 0 => ""
  | S k' =>
      if (n =? 0)%Z then ""
      else String (byte_of (48 + n / 10 ^ Z.of_nat k')) (frac_digits k' (n mod 10 ^ Z.of_nat k'))%Z
  end.

(** A time: an instant, and the offset of its zone in seconds. *)
Record gotime := mkGotime { time_instant : Z; time_offset : Z }.

Definition UTC (t : Z) : gotime := mkGotime t 0.

(** [appendFormatRFC3339] with nanoseconds: the year and the rest. *)
Definition format_zone (offset : Z) : string :=
  if (offset =? 0)%Z then "Z"
  else
    let zone := Z.abs (Z.quot offset 60) in
    (if (Z.quot offset 60 <? 0)%Z then "-" else "+") +:+
    pad_int (zone / 60) 2 +:+ ":" +:+ pad_int (zone mod 60) 2.

Definition format_nanos (nanos : Z) : string :=
  if (nanos =? 0)%Z then "" else "." +:+ frac_digits 9 nanos.

Definition time_year (t : gotime) : Z :=
  let secs := (time_instant t / 1000000000 + time_offset t)%Z in
  (civil_of_days (secs / 86400)%Z).1.1.

Definition Format_RFC3339Nano (t : gotime) : string :=
  let secs := (time_instant t / 1000000000 + time_offset t)%Z in
  let '(y, m, d) := civil_of_days (secs / 86400)%Z in
  let s := (secs mod 86400)%Z in
  pad_int y 4 +:+ "-" +:+ pad_int m 2 +:+ "-" +:+ pad_int d 2 +:+ "T" +:+
  pad_int (s / 3600) 2 +:+ ":" +:+ pad_int (s mod 3600 / 60) 2 +:+ ":" +:+
  pad_int (s mod 60) 2 +:+ format_nanos (time_instant t mod 1000000000) +:+ format_zone (time_offset t).

(** [Time.MarshalJSON]: the year has four digits, the zone less than a day. *)
Definition time_marshals (t : gotime) : bool :=
  ((0 <=? time_year t) && (time_year t <=? 9999) && (Z.abs (Z.quot (time_offset t) 60) / 60 <? 24))%Z.

(** * Reading *)

(** [Date] in UTC: days since the epoch. *)
Definition days_of_civil (y m d : Z) : Z :=
  (let y := if m <=? 2 then y - 1 else y in
   let era := y / 400 in
   let yoe := y mod 400 in
   let mp := if m <=? 2 then m + 9 else m - 3 in
   let doy := (153 * mp + 2) / 5 + d - 1 in
   era * 146097 + (yoe * 365 + yoe / 4 - yoe / 100 + doy) - 719468)%Z.

Definition leap (y : Z) : bool :=
  ((y mod 4 =? 0) && (negb (y mod 100 =? 0) || (y mod 400 =? 0)))%Z.

Definition daysIn (m y : Z) : Z :=
  match m with
  | 2 => if leap y then 29 else 28
  | 4 | 6 | 9 | 11 => 30
  | _ => 31
  end%Z.

(** [n] digits as a number within bounds, and what follows. *)
Definition parse_uint (n : nat) (lo hi : Z) (s : string) : option (Z * string) :=
  let d := str_take n s in
  if Nat.eqb (String.length d) n && all_digits d && (lo <=? dec_value d 0)%Z && (dec_value d 0 <=? hi)%Z
  then Some (dec_value d 0, str_drop n s) else None.

(** One expected byte. *)
Definition expect (c : ascii) (s : string) : option string :=
  match s with String c' s' => if Ascii.eqb c' c then Some s' else None | "" => None end.

(** The nanoseconds: digits beyond the ninth are dropped. *)
Definition parse_nanos (s : string) : Z * string :=
  match s with
  | String "." s' =>
      let '(d, rest) := span is_digit s' in
      if String.eqb d "" then (0%Z, s)
      else
        let d := str_take 9 d in
        ((dec_value d 0 * 10 ^ Z.of_nat (9 - String.length d))%Z, rest)
  | _ => (0%Z, s)
  end.

Definition parse_zone (s : string) : option Z :=
  match s with
  | "Z" => Some 0%Z
  | String c s' =>
      if Ascii.eqb c "+" || Ascii.eqb c "-" then
        '(hr, s1) ← parse_uint 2 0 23 s';
        s2 ← expect ":" s1;
        '(mm, s3) ← parse_uint 2 0 59 s2;
        if String.eqb s3 "" then
          let offset := ((hr * 60 + mm) * 60)%Z in Some (if Ascii.eqb c "-" then (- offset)%Z else offset)
        else None
      else None
  | "" => None
  end.

(** [parseStrictRFC3339]. *)
Definition Parse_RFC3339 (s : string) : option gotime :=
  '(y, s) ← parse_uint 4 0 9999 s; s ← expect "-" s;
  '(m, s) ← parse_uint 2 1 12 s; s ← expect "-" s;
  '(d, s) ← parse_uint 2 1 (daysIn m y) s; s ← expect "T" s;
  '(h, s) ← parse_uint 2 0 23 s; s ← expect ":" s;
  '(mi, s) ← parse_uint 2 0 59 s; s ← expect ":" s;
  '(sec, s) ← parse_uint 2 0 59 s;
  let '(nsec, s) := parse_nanos s in
  offset ← parse_zone s;
  let secs := (days_of_civil y m d * 86400 + h * 3600 + mi * 60 + sec - offset)%Z in
  Some (mkGotime (secs * 1000000000 + nsec) offset).

Example Parse_ex :
  Parse_RFC3339 "2024-02-29T12:34:56.789Z" = Some (UTC 1709210096789000000) /\
  Parse_RFC3339 "2024-02-29T14:34:56.789+02:00" = Some (mkGotime 1709210096789000000 7200) /\
  Parse_RFC3339 "2023-02-29T00:00:00Z" = None /\
  Format_RFC3339Nano (mkGotime 1709210096789000000 (-5400)) = "2024-02-29T11:04:56.789-01:30".
Proof. by vm_compute. Qed.

(** * A time is read back *)

(** ** Dates *)

(** The facts about a day of an era, checked for every one of them. *)
Definition day_facts (doe : Z) : bool :=
  (let yoe := (doe - doe / 1460 + doe / 36524 - doe / 146096) / 365 in
   let doy := doe - (365 * yoe + yoe / 4 - yoe / 100) in
   let mp := (5 * doy + 2) / 153 in
   let d := doy - (153 * mp + 2) / 5 + 1 in
   let m := if mp <? 10 then mp + 3 else mp - 9 in
   let y := yoe + (if m <=? 2 then 1 else 0) in
   (0 <=? yoe) && (yoe <? 400) && (0 <=? mp) && (mp <? 12) && (1 <=? d) && (d <=? daysIn m y))%Z.

(** A test that holds of [n] numbers from [lo] on. *)
Fixpoint all_from (P : Z -> bool) (n : nat) (lo : Z) : bool :=
  match n with
  | 0 => true
  | S n' => if P lo then all_from P n' (lo + 1)%Z else false
  end.

Lemma all_from_spec P n lo :
  all_from P n lo = true -> forall k, (lo <= k < lo + Z.of_nat n)%Z -> P k = true.
Proof.
  revert lo. induction n as [|n IH]; intros lo Hc k Hk; [lia|]. cbn [all_from] in Hc.
  destruct (P lo) eqn:Hd; [|done]. destruct (decide (k = lo)) as [->|Hne]; [done|].
  apply (IH _ Hc). lia.
Qed.

(** The year of a day of an era, and the first day of a year. *)
Definition era_year (doe : Z) : Z := ((doe - doe / 1460 + doe / 36524 - doe / 146096) / 365)%Z.
Definition year_start (y : Z) : Z := (365 * y + y / 4 - y / 100 + y / 400)%Z.

Lemma era_year_mono a b : (0 <= a <= b)%Z -> (era_year a <= era_year b)%Z.
Proof.
  intros Hab. replace b with (a + Z.of_nat (Z.to_nat (b - a)))%Z by lia.
  assert (0 <= a)%Z as Ha by lia. clear Hab. induction (Z.to_nat (b - a)) as [|n IH].
  - rewrite Z.add_0_r. lia.
  - etrans; [exact IH|]. unfold era_year. apply Z.div_le_mono; [lia|].
    set (c := (a + Z.of_nat n)%Z). replace (a + Z.of_nat (S n))%Z with (c + 1)%Z by lia.
    assert (0 <= c)%Z by lia. clearbody c. Z.to_euclidean_division_equations. lia.
Qed.

(** Years are contiguous, and long when they end in a leap day (the year of an
    era begins in March). *)
Definition year_facts (y : Z) : bool :=
  ((era_year (year_start y) =? y) && (era_year (year_start (y + 1) - 1) =? y) &&
   (year_start (y + 1) - year_start y =? 365 + (if leap (y + 1) then 1 else 0)) &&
   (year_start y =? 365 * y + y / 4 - y / 100) && (0 <=? year_start y))%Z.

(** The month and the day of a day of a year. *)
Definition doy_facts (long : bool) (doy : Z) : bool :=
  (let mp := (5 * doy + 2) / 153 in
   let d := doy - (153 * mp + 2) / 5 + 1 in
   let m := if mp <? 10 then mp + 3 else mp - 9 in
   (0 <=? mp) && (mp <? 12) && (1 <=? d) && ((m <=? 2) || (d <=? daysIn m 0)) &&
   (negb (m <=? 2) || (d <=? if m =? 2 then (if long then 29 else 28) else 31)))%Z.

Lemma era_facts doe : (0 <= doe < 146097)%Z -> day_facts doe = true.
Proof.
  intros Hd. remember (era_year doe) as y eqn:Hye.
  assert (0 <= y < 400)%Z as Hy.
  { pose proof (era_year_mono 0 doe ltac:(lia)) as Hl. pose proof (era_year_mono doe 146096 ltac:(lia)) as Hm.
    change (era_year 146096) with 399%Z in Hm. change (era_year 0) with 0%Z in Hl. lia. }
  assert (all_from year_facts 400 0 = true) as Hall by by vm_compute.
  assert (forall k, (0 <= k < 400)%Z -> year_facts k = true) as Hyf
    by (intros k Hk; apply (all_from_spec _ _ _ Hall); lia).
  assert (year_start y <= doe < year_start (y + 1))%Z as Hin.
  { split.
    - destruct (decide (y = 0)%Z) as [->|Hne]; [by apply Hd|].
      pose proof (Hyf (y - 1)%Z ltac:(lia)) as Hp. unfold year_facts in Hp.
      rewrite Z.sub_add, !andb_true_iff, !Z.eqb_eq in Hp. destruct Hp as [[[[_ He] _] _] _].
      destruct (Z.le_gt_cases (year_start y) doe); [done|].
      pose proof (era_year_mono doe (year_start y - 1) ltac:(lia)) as Hm. lia.
    - destruct (Z.lt_ge_cases doe (year_start (y + 1))) as [?|Hge]; [done|].
      destruct (decide (y = 399)%Z) as [He|Hne].
      { rewrite He in Hge. change (year_start (399 + 1)) with 146097%Z in Hge. lia. }
      pose proof (Hyf (y + 1)%Z ltac:(lia)) as Hp. unfold year_facts in Hp.
      rewrite !andb_true_iff, !Z.eqb_eq, Z.leb_le in Hp. destruct Hp as [[[[He _] _] _] Hpos].
      pose proof (era_year_mono (year_start (y + 1)) doe ltac:(lia)) as Hm. lia. }
  pose proof (Hyf y Hy) as Hp. unfold year_facts in Hp.
  rewrite !andb_true_iff, !Z.eqb_eq, Z.leb_le in Hp. destruct Hp as [[[[_ _] Hlen] Hst] _].
  assert (doy_facts (leap (y + 1)) (doe - year_start y) = true) as Hdoy.
  { destruct (leap (y + 1)).
    - assert (all_from (doy_facts true) 366 0 = true) as Hc by by vm_compute.
      apply (all_from_spec _ _ _ Hc). lia.
    - assert (all_from (doy_facts false) 365 0 = true) as Hc by by vm_compute.
      apply (all_from_spec _ _ _ Hc). lia. }
  unfold day_facts. fold (era_year doe). rewrite <- Hye. cbv zeta. rewrite <- Hst. revert Hdoy. unfold doy_facts. cbv zeta.
  set (doy := (doe - year_start y)%Z). set (mp := ((5 * doy + 2) / 153)%Z).
  set (m := (if (mp <? 10)%Z then (mp + 3)%Z else (mp - 9)%Z)).
  rewrite !andb_true_iff, !orb_true_iff, negb_true_iff, !Z.leb_le, !Z.ltb_lt, Z.leb_gt.
  intros [[[[H1 H2] H3] H4] H5]. split_and!; try lia.
  destruct (Z.leb_spec m 2) as [Hm|Hm].
  - destruct H5 as [?|H5]; [lia|]. unfold daysIn. destruct (Z.eqb_spec m 2) as [->|Hne]; [done|].
    assert (m = 1%Z) as -> by (subst m; destruct (Z.ltb_spec mp 10); lia). done.
  - destruct H4 as [?|H4]; [lia|]. rewrite Z.add_0_r. unfold daysIn in *.
    destruct m as [|[[]|[]|]|]; try done; try lia.
Qed.

Lemma daysIn_era m y era : daysIn m (y + era * 400) = daysIn m y.
Proof.
  unfold daysIn, leap.
  replace ((y + era * 400) mod 4)%Z with (y mod 4)%Z by (replace (era * 400)%Z with (era * 100 * 4)%Z by lia; by rewrite Z.mod_add).
  replace ((y + era * 400) mod 100)%Z with (y mod 100)%Z by (replace (era * 400)%Z with (era * 4 * 100)%Z by lia; by rewrite Z.mod_add).
  by rewrite Z.mod_add.
Qed.

Lemma civil_inverse days :
  let '(y, m, d) := civil_of_days days in
  days_of_civil y m d = days /\ (1 <= m <= 12)%Z /\ (1 <= d <= daysIn m y)%Z.
Proof.
  unfold civil_of_days. cbv zeta. set (z := (days + 719468)%Z). set (era := (z / 146097)%Z).
  set (doe := (z mod 146097)%Z). pose proof (era_facts doe (Z.mod_pos_bound z 146097 eq_refl)) as Hf.
  pose proof (Z.div_mod z 146097 ltac:(done)) as Hz. fold era doe in Hz. unfold day_facts in Hf. cbv zeta in Hf.
  set (yoe := ((doe - doe / 1460 + doe / 36524 - doe / 146096) / 365)%Z) in *.
  set (doy := (doe - (365 * yoe + yoe / 4 - yoe / 100))%Z) in *.
  set (mp := ((5 * doy + 2) / 153)%Z) in *.
  rewrite !andb_true_iff, !Z.leb_le, !Z.ltb_lt in Hf. destruct Hf as [[[[[Hy1 Hy2] Hm1] Hm2] Hd1] Hd2].
  set (m := (if (mp <? 10)%Z then (mp + 3)%Z else (mp - 9)%Z)) in *.
  assert (m <=? 2 = negb (mp <? 10))%Z as Hm by (subst m; destruct (Z.ltb_spec mp 10); lia).
  split; [|split].
  - unfold days_of_civil. cbv zeta.
    replace (if (m <=? 2)%Z then _ else _) with (yoe + era * 400)%Z by (destruct (m <=? 2)%Z; lia).
    rewrite Z.div_add, Z.mod_add, Z.div_small, Z.mod_small by lia.
    replace (if (m <=? 2)%Z then (m + 9)%Z else (m - 3)%Z) with mp
      by (rewrite Hm; subst m; destruct (mp <? 10)%Z; cbn; lia).
    subst doy. lia.
  - subst m. destruct (Z.ltb_spec mp 10); lia.
  - replace (yoe + era * 400 + (if (m <=? 2)%Z then 1 else 0))%Z
      with (yoe + (if (m <=? 2)%Z then 1 else 0) + era * 400)%Z by lia.
    rewrite daysIn_era. lia.
Qed.

(** ** Digits *)

Definition pad_facts (w : nat) (n : Z) : bool :=
  let d := pad_int n w in
  Nat.eqb (String.length d) w && all_digits d && (dec_value d 0 =? n)%Z.

Lemma pad2_facts n : (0 <= n < 100)%Z -> pad_facts 2 n = true.
Proof.
  intros Hn. assert (all_from (pad_facts 2) 100 0 = true) as Hc by by vm_compute.
  by apply (all_from_spec _ _ _ Hc).
Qed.

Lemma pad4_facts n : (0 <= n <= 9999)%Z -> pad_facts 4 n = true.
Proof.
  intros Hn. assert (all_from (pad_facts 4) (Z.to_nat 10000) 0 = true) as Hc by by vm_compute.
  apply (all_from_spec _ _ _ Hc). lia.
Qed.

Lemma parse_pad w lo hi n rest :
  pad_facts w n = true -> (lo <= n <= hi)%Z -> parse_uint w lo hi (pad_int n w +:+ rest) = Some (n, rest).
Proof.
  unfold pad_facts. cbv zeta. rewrite !andb_true_iff, Nat.eqb_eq, Z.eqb_eq. intros [[Hl Ha] Hv] Hn.
  unfold parse_uint. cbv zeta.
  assert (str_take w (pad_int n w +:+ rest) = pad_int n w) as -> by (rewrite <- Hl at 1; apply str_take_app_length).
  assert (str_drop w (pad_int n w +:+ rest) = rest) as -> by (rewrite <- Hl at 1; apply str_drop_app_length).
  rewrite Hl, Nat.eqb_refl, Ha, Hv.
  destruct (Z.leb_spec lo n), (Z.leb_spec n hi); try lia. done.
Qed.

Lemma parse_pad2 lo hi n rest :
  (0 <= n < 100)%Z -> (lo <= n <= hi)%Z -> parse_uint 2 lo hi (pad_int n 2 +:+ rest) = Some (n, rest).
Proof.
  intros Hn. by apply parse_pad, pad2_facts.
Qed.

Lemma parse_pad4 n rest :
  (0 <= n <= 9999)%Z -> parse_uint 4 0 9999 (pad_int n 4 +:+ rest) = Some (n, rest).
Proof.
  intros Hn. apply parse_pad; [by apply pad4_facts|lia].
Qed.

Lemma digit_byte n : (0 <= n < 10)%Z -> is_digit (byte_of (48 + n)) = true /\ byte_val (byte_of (48 + n)) = (48 + n)%Z.
Proof.
  set (ok := fun d => is_digit (byte_of (48 + d)) && Z.eqb (byte_val (byte_of (48 + d))) (48 + d)).
  assert (all_from ok 10 0 = true) as Hall by by vm_compute.
  intros Hn. specialize (all_from_spec _ _ _ Hall n Hn) as Hok. unfold ok in Hok. to_prop. done.
Qed.

Lemma frac_digits_spec k n a :
  (0 <= n < 10 ^ Z.of_nat k)%Z ->
  all_digits (frac_digits k n) = true /\ String.length (frac_digits k n) <= k /\
  (dec_value (frac_digits k n) a * 10 ^ Z.of_nat (k - String.length (frac_digits k n)) =
   a * 10 ^ Z.of_nat k + n)%Z.
Proof.
  revert n a. induction k as [|k IH]; intros n a Hn.
  - cbn in *. split_and!; [done|lia|lia].
  - cbn [frac_digits]. destruct (Z.eqb_spec n 0) as [->|Hne].
    { cbn [all_digits String.length dec_value]. split_and!; [done|lia|]. rewrite Nat.sub_0_r. lia. }
    assert (0 < 10 ^ Z.of_nat k)%Z as Hpow by (apply Z.pow_pos_nonneg; lia).
    rewrite Nat2Z.inj_succ, Z.pow_succ_r in * by lia.
    assert (0 <= n / 10 ^ Z.of_nat k < 10)%Z as Hd.
    { split; [apply Z.div_pos; lia|]. apply Z.div_lt_upper_bound; lia. }
    destruct (digit_byte _ Hd) as [Hdig Hval].
    destruct (IH (n mod 10 ^ Z.of_nat k)%Z (a * 10 + n / 10 ^ Z.of_nat k)%Z) as (Ha&Hl&Hv);
      [by apply Z.mod_pos_bound|].
    cbn [all_digits String.length dec_value]. rewrite Hdig, Hval. split_and!; [done|lia|].
    replace (a * 10 + (48 + n / 10 ^ Z.of_nat k - 48))%Z with (a * 10 + n / 10 ^ Z.of_nat k)%Z by lia.
    rewrite Nat.sub_succ, Hv. pose proof (Z.div_mod n (10 ^ Z.of_nat k) ltac:(lia)). nia.
Qed.

Lemma span_all_digits s rest :
  all_digits s = true -> match rest with String c _ => is_digit c = false | "" => True end ->
  span is_digit (s +:+ rest) = (s, rest).
Proof.
  intros Hs Hr. apply span_app; [|done]. induction s as [|c s IH]; [done|].
  cbn [all_digits] in Hs. apply andb_true_iff in Hs as [Hc Hs]. by rewrite span_first, IH.
Qed.

Lemma parse_format_nanos n rest :
  (0 <= n < 1000000000)%Z -> match rest with String c _ => is_digit c = false /\ c <> "."%char | "" => True end ->
  parse_nanos (format_nanos n +:+ rest) = (n, rest).
Proof.
  intros Hn Hr. unfold format_nanos. destruct (Z.eqb_spec n 0) as [->|Hne].
  { cbn [String.append]. destruct rest as [|c rest]; [done|]. destruct Hr as [_ Hr].
    destruct c as [[] [] [] [] [] [] [] []]; done. }
  destruct (frac_digits_spec 9 n 0 ltac:(change (10 ^ Z.of_nat 9)%Z with 1000000000%Z; lia)) as (Ha&Hl&Hv).
  change ("." +:+ ?x) with (String "." x). cbn [String.append]. cbn [parse_nanos].
  rewrite span_all_digits; [|done|by destruct rest; [|apply Hr]].
  destruct (String.eqb_spec (frac_digits 9 n) "") as [He|_].
  { exfalso. revert He. change (frac_digits 9 n) with
      (if (n =? 0)%Z then "" else String (byte_of (48 + n / 10 ^ Z.of_nat 8)) (frac_digits 8 (n mod 10 ^ Z.of_nat 8))).
    by destruct (Z.eqb_spec n 0). }
  rewrite str_take_ge by done. by rewrite Hv.
Qed.

(** ** Times *)

Lemma expect_here c s : expect c (String c "" +:+ s) = Some s.
Proof. cbn. by rewrite Ascii.eqb_refl. Qed.

Lemma parse_day_time y m d s nanos :
  (0 <= y <= 9999)%Z -> (1 <= m <= 12)%Z -> (1 <= d <= daysIn m y)%Z -> (0 <= s < 86400)%Z ->
  (0 <= nanos < 1000000000)%Z ->
  Parse_RFC3339 (pad_int y 4 +:+ "-" +:+ pad_int m 2 +:+ "-" +:+ pad_int d 2 +:+ "T" +:+
    pad_int (s / 3600) 2 +:+ ":" +:+ pad_int (s mod 3600 / 60) 2 +:+ ":" +:+
    pad_int (s mod 60) 2 +:+ format_nanos nanos +:+ "Z") =
  Some (UTC ((days_of_civil y m d * 86400 + s) * 1000000000 + nanos)).
Proof.
  intros Hy Hm Hd Hs Hn. assert (daysIn m y <= 31)%Z.
  { unfold daysIn. repeat case_match; lia. }
  assert (0 <= s / 3600 <= 23 /\ 0 <= s mod 3600 / 60 <= 59 /\ 0 <= s mod 60 <= 59 /\
          s = s / 3600 * 3600 + s mod 3600 / 60 * 60 + s mod 60)%Z as (Hh&Hmi&Hse&Hsum).
  { split_and!; Z.to_euclidean_division_equations; lia. }
  unfold Parse_RFC3339. rewrite parse_pad4 by done.
  do 5 (cbn [mbind option_bind]; rewrite expect_here; cbn [mbind option_bind]; rewrite parse_pad2 by lia).
  cbn [mbind option_bind].
  rewrite parse_format_nanos by done. cbn [parse_zone mbind option_bind]. unfold UTC. do 2 f_equal. lia.
Qed.

(** The text of a time in UTC is the text of its instant. *)
Lemma Parse_Format t :
  (0 <= time_year (UTC t) <= 9999)%Z -> Parse_RFC3339 (Format_RFC3339Nano (UTC t)) = Some (UTC t).
Proof.
  unfold time_year, Format_RFC3339Nano. cbn [UTC time_instant time_offset]. rewrite Z.add_0_r.
  pose proof (civil_inverse (t / 1000000000 / 86400)%Z) as Hc.
  destruct (civil_of_days (t / 1000000000 / 86400)%Z) as [[y m] d]. cbn [fst snd]. intros Hy.
  destruct Hc as (Hdays&Hm&Hd). change (format_zone 0) with "Z".
  rewrite parse_day_time by (done || by apply Z.mod_pos_bound). do 2 f_equal. rewrite Hdays.
  pose proof (Z.div_mod (t / 1000000000) 86400 ltac:(done)). pose proof (Z.div_mod t 1000000000 ltac:(done)). lia.
Qed.

(** The text of a time in UTC is ASCII. *)
Lemma ascii_digits s : all_digits s = true -> all_ascii s = true.
Proof.
  induction s as [|c s IH]; [done|]. cbn [all_digits all_ascii]. intros [Hc Hs]%andb_true_iff.
  rewrite IH by done. by destruct c as [[] [] [] [] [] [] [] []].
Qed.

Lemma ascii_app a b : all_ascii (a +:+ b) = all_ascii a && all_ascii b.
Proof. induction a as [|c a IH]; [done|]. cbn [String.append all_ascii]. by rewrite IH, andb_assoc. Qed.

Lemma ascii_pad w n : pad_facts w n = true -> all_ascii (pad_int n w) = true.
Proof. unfold pad_facts. cbv zeta. rewrite !andb_true_iff. intros [[_ Ha] _]. by apply ascii_digits. Qed.

Lemma ascii_pad2 n : (0 <= n < 100)%Z -> all_ascii (pad_int n 2) = true.
Proof.
  intros Hn. by apply ascii_pad, pad2_facts.
Qed.

Lemma ascii_pad4 n : (0 <= n <= 9999)%Z -> all_ascii (pad_int n 4) = true.
Proof.
  intros Hn. by apply ascii_pad, pad4_facts.
Qed.

Lemma ascii_nanos n : (0 <= n < 1000000000)%Z -> all_ascii (format_nanos n) = true.
Proof.
  intros Hn. unfold format_nanos. destruct (n =? 0)%Z; [done|].
  destruct (frac_digits_spec 9 n 0 Hn) as (Ha&_&_).
  change ("." +:+ ?x) with (String "." x). cbn [all_ascii]. by apply ascii_digits.
Qed.

Lemma ascii_time t : (0 <= time_year (UTC t) <= 9999)%Z -> all_ascii (Format_RFC3339Nano (UTC t)) = true.
Proof.
  unfold time_year, Format_RFC3339Nano. cbn [UTC time_instant time_offset]. rewrite Z.add_0_r.
  pose proof (civil_inverse (t / 1000000000 / 86400)%Z) as Hc.
  destruct (civil_of_days (t / 1000000000 / 86400)%Z) as [[y m] d]. cbn [fst snd]. intros Hy.
  destruct Hc as (_&Hm&Hd). change (format_zone 0) with "Z".
  assert (daysIn m y <= 31)%Z by (unfold daysIn; repeat case_match; lia).
  pose proof (Z.mod_pos_bound (t / 1000000000) 86400 eq_refl) as Hs.
  set (s := ((t / 1000000000) mod 86400)%Z) in *.
  assert (0 <= s / 3600 < 100 /\ 0 <= s mod 3600 / 60 < 100 /\ 0 <= s mod 60 < 100)%Z as (Hh&Hmi&Hse)
    by (split_and!; Z.to_euclidean_division_equations; lia).
  rewrite !ascii_app, ascii_pad4, !ascii_pad2, ascii_nanos by (done || lia || by apply Z.mod_pos_bound).
  done.
Qed.
