(* ===== verification/Codec.v ===== *)
(** [encoding/json] on Go values: structs with tags, pointers, slices,
    strings, booleans and integers, and the messages the stores keep as texts
    ([pkg/tarianpb/types.pb.go] has their tags).  The lemmas: a message that
    is written and read back is the message with its strings cleaned and with
    empty slices in place of none.

    The texts of decoding errors are not modelled.  A text that names a field
    twice is decoded like one that names it once, with the last value. *)

From S2P Require Import Prelude GoStrings Types Json.
From stdpp Require Import sorting.

(** * Writing *)

(** Fields tagged omitempty. *)
Definition opt_string (k v : string) : list (string * json) :=
  if String.eqb v "" then [] else [(k, JStr v)].
Definition opt_bool (k : string) (b : bool) : list (string * json) :=
  if b then [(k, JBool true)] else [].
Definition opt_int (k : string) (n : Z) : list (string * json) :=
  if Z.eqb n 0 then [] else [(k, JNum (Itoa n))].
Definition opt_ptr {A} (enc : A -> json) (k : string) (p : ptr A) : list (string * json) :=
  match p with Some v => [(k, enc v)] | None => [] end.
Definition opt_slice {A} (enc : A -> json) (k : string) (s : slice A) : list (string * json) :=
  match elems s with [] => [] | l => [(k, JArr (List.map enc l))] end.

Definition enc_ptr {A} (enc : A -> json) (p : ptr A) : json :=
  match p with Some v => enc v | None => JNull end.
Definition enc_slice {A} (enc : A -> json) (s : slice A) : json :=
  match s with Some l => JArr (List.map enc l) | None => JNull end.

(** [json.Marshal], which never fails on these values. *)
Definition Marshal (j : json) : string := print j.

(** * Reading *)

(** A decoder updates a value and reports the first mismatch. *)
Definition decoder (A : Type) : Type := A -> json -> A * option error.

Definition type_error : option error := Some (PlainError "json: cannot unmarshal").
Definition first_error (a b : option error) : option error :=
  match a with Some _ => a | None => b end.

Definition dec_string : decoder string := fun old j =>
  match j with JStr s => (s, None) | JNull => (old, None) | _ => (old, type_error) end.
Definition dec_bool : decoder bool := fun old j =>
  match j with JBool b => (b, None) | JNull => (old, None) | _ => (old, type_error) end.
Definition dec_int (lo hi : Z) : decoder Z := fun old j =>
  match j with
  | JNum l => match int_of_literal lo hi l with Some n => (n, None) | None => (old, type_error) end
  | JNull => (old, None)
  | _ => (old, type_error)
  end.

Definition dec_ptr {A} (zero : A) (d : decoder A) : decoder (ptr A) := fun old j =>
  match j with
  | JNull => (None, None)
  | _ => let '(v, e) := d (default zero old) j in (Some v, e)
  end.

Definition dec_slice {A} (zero : A) (d : decoder A) : decoder (slice A) := fun old j =>
  match j with
  | JNull => (None, None)
  | JArr l =>
      (Some (List.map (fun j => (d zero j).1) l),
       fold_right (fun j e => first_error (d zero j).2 e) None l)
  | _ => (old, type_error)
  end.

(** Names of fields (which are ASCII) match exactly, or up to case folding:
    letters, the Kelvin sign and the long s. *)
Definition fold_rune (r : string) : string :=
  match r with
  | String c "" => if in_range 65 90 c then String (byte_of (byte_val c + 32)) "" else r
  | _ => if String.eqb r (bytes [226; 132; 170]) then "k"
         else if String.eqb r (bytes [197; 191]) then "s" else r
  end.

Definition fold_name (s : string) : string := string_of_runes (List.map fold_rune (runes s)).

Definition find_field {D} (k : string) (fields : list (string * D)) : option D :=
  match List.find (fun f => String.eqb f.1 k) fields with
  | Some f => Some f.2
  | None => snd <$> List.find (fun f => String.eqb (fold_name f.1) (fold_name k)) fields
  end.

Fixpoint dec_members {A} (fields : list (string * decoder A)) (l : list (string * json))
    (a : A) : A * option error :=
  match l with
  | [] => (a, None)
  | (k, j) :: l' =>
      let '(a1, e1) := match find_field k fields with Some d => d a j | None => (a, None) end in
      let '(a2, e2) := dec_members fields l' a1 in (a2, first_error e1 e2)
  end.

Definition dec_struct {A} (fields : list (string * decoder A)) : decoder A := fun old j =>
  match j with
  | JObj l => dec_members fields l old
  | JNull => (old, None)
  | _ => (old, type_error)
  end.

(** A field of a struct: its value, its update, its decoder. *)
Definition field {A B} (get : A -> B) (set : A -> B -> A) (d : decoder B) : decoder A := fun a j =>
  let '(v, e) := d (get a) j in (set a v, e).

Definition Unmarshal {A} (d : decoder A) (text : string) (old : A) : A * option error :=
  match parse text with
  | Some j => d old j
  | None => (old, Some (PlainError "invalid JSON text"))
  end.

(** * Messages *)

Definition enc_MatchLabel (x : MatchLabel) : json :=
  JObj (opt_string "key" (MatchLabel_Key x) ++ opt_string "value" (MatchLabel_Value x)).

Definition zero_MatchLabel : MatchLabel := mkMatchLabel "" "".

Definition dec_MatchLabel : decoder MatchLabel := dec_struct
  [ ("key", field MatchLabel_Key (fun x v => mkMatchLabel v (MatchLabel_Value x)) dec_string);
    ("value", field MatchLabel_Value (fun x v => mkMatchLabel (MatchLabel_Key x) v) dec_string) ].

Definition enc_Selector (x : Selector) : json :=
  JObj (opt_slice (enc_ptr enc_MatchLabel) "matchLabels" (Selector_MatchLabels x)).

Definition zero_Selector : Selector := mkSelector None.

Definition dec_Selector : decoder Selector := dec_struct
  [ ("matchLabels", field Selector_MatchLabels (fun _ v => mkSelector v)
                      (dec_slice None (dec_ptr zero_MatchLabel dec_MatchLabel))) ].

Definition enc_AllowedProcessRule (x : AllowedProcessRule) : json :=
  JObj (opt_ptr JStr "regex" (AllowedProcessRule_Regex x)).

Definition zero_AllowedProcessRule : AllowedProcessRule := mkAllowedProcessRule None.

Definition dec_AllowedProcessRule : decoder AllowedProcessRule := dec_struct
  [ ("regex", field AllowedProcessRule_Regex (fun _ v => mkAllowedProcessRule v) (dec_ptr "" dec_string)) ].

Definition enc_AllowedFileRule (x : AllowedFileRule) : json :=
  JObj (opt_string "name" (AllowedFileRule_Name x) ++
        opt_ptr JStr "sha256sum" (AllowedFileRule_Sha256Sum x)).

Definition zero_AllowedFileRule : AllowedFileRule := mkAllowedFileRule "" None.

Definition dec_AllowedFileRule : decoder AllowedFileRule := dec_struct
  [ ("name", field AllowedFileRule_Name
       (fun x v => mkAllowedFileRule v (AllowedFileRule_Sha256Sum x)) dec_string);
    ("sha256sum", field AllowedFileRule_Sha256Sum
       (fun x v => mkAllowedFileRule (AllowedFileRule_Name x) v) (dec_ptr "" dec_string)) ].

(** * What writing and reading keeps *)

(** Slices tagged omitempty: an empty one comes back as nil. *)
Definition kept_slice {A} (f : A -> A) (s : slice A) : slice A :=
  match elems s with [] => None | l => Some (List.map f l) end.

Definition clean_MatchLabel (x : MatchLabel) : MatchLabel :=
  mkMatchLabel (clean (MatchLabel_Key x)) (clean (MatchLabel_Value x)).
Definition clean_Selector (x : Selector) : Selector :=
  mkSelector (kept_slice (fmap clean_MatchLabel) (Selector_MatchLabels x)).
Definition clean_AllowedProcessRule (x : AllowedProcessRule) : AllowedProcessRule :=
  mkAllowedProcessRule (clean <$> AllowedProcessRule_Regex x).
Definition clean_AllowedFileRule (x : AllowedFileRule) : AllowedFileRule :=
  mkAllowedFileRule (clean (AllowedFileRule_Name x)) (clean <$> AllowedFileRule_Sha256Sum x).

Section decoding.
Context {A : Type} (fields : list (string * decoder A)).

Lemma dec_members_app l1 l2 a :
  dec_members fields (l1 ++ l2) a =
  let '(a1, e1) := dec_members fields l1 a in
  let '(a2, e2) := dec_members fields l2 a1 in (a2, first_error e1 e2).
Proof.
  revert a. induction l1 as [|[k j] l1 IH]; intros a; cbn [dec_members app].
  - by destruct (dec_members fields l2 a).
  - destruct (match find_field k fields with Some d => d a j | None => (a, None) end) as [a1 e1].
    rewrite IH. destruct (dec_members fields l1 a1) as [a2 e2].
    destruct (dec_members fields l2 a2) as [a3 e3]. by destruct e1, e2.
Qed.

(** One written field. *)
Lemma dec_member k j d a :
  all_ascii k = true -> find_field k fields = Some d ->
  dec_members fields (List.map clean_member [(k, j)]) a = d a (clean_json j).
Proof.
  intros Hk Hf. cbn [List.map dec_members clean_member fst snd].
  rewrite (utf8_clean k) by by apply utf8_ascii. rewrite Hf. destruct (d a (clean_json j)) as [v []]; done.
Qed.

Lemma dec_opt_string k v get set a :
  all_ascii k = true -> find_field k fields = Some (field get set dec_string) ->
  dec_members fields (List.map clean_member (opt_string k v)) a =
  (if String.eqb v "" then a else set a (clean v), None).
Proof.
  intros Hk Hf. unfold opt_string. destruct (String.eqb v ""); [done|]. by rewrite (dec_member _ _ _ _ Hk Hf).
Qed.

Lemma dec_opt_bool k b get set a :
  all_ascii k = true -> find_field k fields = Some (field get set dec_bool) ->
  dec_members fields (List.map clean_member (opt_bool k b)) a = (if b then set a true else a, None).
Proof.
  intros Hk Hf. unfold opt_bool. destruct b; [|done]. by rewrite (dec_member _ _ _ _ Hk Hf).
Qed.

Lemma dec_opt_int k n lo hi get set a :
  (lo <= n <= hi)%Z -> all_ascii k = true -> find_field k fields = Some (field get set (dec_int lo hi)) ->
  dec_members fields (List.map clean_member (opt_int k n)) a = (if Z.eqb n 0 then a else set a n, None).
Proof.
  intros Hn Hk Hf. unfold opt_int. destruct (Z.eqb n 0); [done|]. rewrite (dec_member _ _ _ _ Hk Hf).
  unfold field. cbn [clean_json dec_int]. by rewrite int_of_literal_Itoa.
Qed.
End decoding.

(** [enc] and [dec] agree: a written value is read back as [f] of it. *)
Definition codes {A} (enc : A -> json) (dec : decoder A) (zero : A) (f : A -> A) : Prop :=
  forall x, json_ok (enc x) /\ dec zero (clean_json (enc x)) = (f x, None).

Definition never_null {A} (enc : A -> json) : Prop := forall x, enc x <> JNull.

Section codes.
Context {A : Type} (enc : A -> json) (dec : decoder A) (zero : A) (f : A -> A).
Context (Hc : codes enc dec zero f).

Lemma codes_ptr : never_null enc -> codes (enc_ptr enc) (dec_ptr zero dec) None (fmap f).
Proof using Hc.
  intros Hn [x|]; cbn [enc_ptr]; [|by split; [constructor|]]. destruct (Hc x) as [Hok Hd]. split; [done|].
  specialize (Hn x). unfold dec_ptr. cbn [default]. destruct (enc x); try done; cbn [clean_json] in *;
    by rewrite Hd.
Qed.

Lemma dec_elements (l : list A) :
  List.map (fun j => (dec zero j).1) (List.map clean_json (List.map enc l)) = List.map f l /\
  fold_right (fun j e => first_error (dec zero j).2 e) None (List.map clean_json (List.map enc l)) = None.
Proof using Hc.
  induction l as [|x l [IH1 IH2]]; [done|]. destruct (Hc x) as [_ Hd]. cbn [List.map fold_right].
  by rewrite Hd, IH1, IH2.
Qed.

Lemma json_ok_list (l : list A) : json_ok (JArr (List.map enc l)).
Proof using Hc. constructor. apply Forall_map, Forall_true. intros x. apply Hc. Qed.

Lemma codes_slice : codes (enc_slice enc) (dec_slice zero dec) None (fmap (List.map f)).
Proof using Hc.
  intros [l|]; cbn [enc_slice]; [|by split; [constructor|]]. split; [apply json_ok_list|].
  cbn [clean_json dec_slice]. by destruct (dec_elements l) as [-> ->].
Qed.

Lemma dec_opt_slice {B} (fields : list (string * decoder B)) k s get set a :
  all_ascii k = true -> find_field k fields = Some (field get set (dec_slice zero dec)) ->
  dec_members fields (List.map clean_member (opt_slice enc k s)) a =
  (match kept_slice f s with None => a | s' => set a s' end, None).
Proof using Hc.
  intros Hk Hf. unfold opt_slice, kept_slice. destruct (elems s) as [|x l]; [done|].
  rewrite (dec_member _ _ _ _ _ Hk Hf). unfold field. cbn [clean_json dec_slice].
  by destruct (dec_elements (x :: l)) as [-> ->].
Qed.

Lemma dec_opt_ptr {B} (fields : list (string * decoder B)) k p get set a :
  never_null enc -> get a = None ->
  all_ascii k = true -> find_field k fields = Some (field get set (dec_ptr zero dec)) ->
  dec_members fields (List.map clean_member (opt_ptr enc k p)) a =
  (match f <$> p with None => a | p' => set a p' end, None).
Proof using Hc.
  intros Hn Hg Hk Hf. unfold opt_ptr. destruct p as [x|]; [|done].
  rewrite (dec_member _ _ _ _ _ Hk Hf). unfold field. rewrite Hg.
  destruct (codes_ptr Hn (Some x)) as [_ Hd]. cbn [enc_ptr] in Hd. by rewrite Hd.
Qed.
End codes.

Lemma codes_string : codes JStr dec_string "" clean.
Proof. intros s. by split; [constructor|]. Qed.

(** Members that are written are JSON. *)
Definition members_ok (l : list (string * json)) : Prop := Forall (fun kv => json_ok kv.2) l.

Lemma json_ok_obj l : members_ok l -> json_ok (JObj l).
Proof. by constructor. Qed.
Lemma members_ok_app a b : members_ok a -> members_ok b -> members_ok (a ++ b).
Proof. intros Ha Hb. by apply Forall_app. Qed.
Lemma opt_string_ok k v : members_ok (opt_string k v).
Proof. unfold opt_string. destruct (String.eqb v ""); repeat constructor. Qed.
Lemma opt_bool_ok k b : members_ok (opt_bool k b).
Proof. destruct b; repeat constructor. Qed.
Lemma opt_int_ok k n : members_ok (opt_int k n).
Proof. unfold opt_int. destruct (Z.eqb n 0); repeat constructor; apply Itoa_literal. Qed.
Lemma opt_ptr_ok {A} (enc : A -> json) k p : (forall x, json_ok (enc x)) -> members_ok (opt_ptr enc k p).
Proof. intros He. destruct p; repeat constructor. apply He. Qed.
Lemma opt_slice_ok {A} (enc : A -> json) k s : (forall x, json_ok (enc x)) -> members_ok (opt_slice enc k s).
Proof.
  intros He. unfold opt_slice. destruct (elems s) as [|x l]; [constructor|]. constructor; [|constructor].
  constructor. apply Forall_map, Forall_true. intros y. apply He.
Qed.

Create HintDb json.
#[export] Hint Resolve json_ok_obj codes_string members_ok_app opt_string_ok opt_bool_ok opt_int_ok
  opt_ptr_ok opt_slice_ok ok_str : json.

(** Read the members of a written struct one after the other. *)
Ltac decode_members :=
  cbn [clean_json dec_struct];
  change (fun kv => (clean kv.1, clean_json kv.2)) with clean_member;
  rewrite ?List.map_app, ?dec_members_app;
  repeat (first
    [ erewrite dec_opt_string by reflexivity
    | erewrite dec_opt_bool by reflexivity
    | erewrite (dec_opt_ptr _ _ _ _ codes_string) by first [reflexivity | by intros ?] ];
    cbv beta iota zeta; rewrite ?dec_members_app).

Lemma codes_MatchLabel : codes enc_MatchLabel dec_MatchLabel zero_MatchLabel clean_MatchLabel.
Proof.
  intros [k v]. split; [unfold enc_MatchLabel; eauto with json|].
  unfold enc_MatchLabel, dec_MatchLabel, clean_MatchLabel. cbn [MatchLabel_Key MatchLabel_Value].
  decode_members. destruct (String.eqb_spec k "") as [->|_], (String.eqb_spec v "") as [->|_]; reflexivity.
Qed.

Lemma codes_Selector : codes enc_Selector dec_Selector zero_Selector clean_Selector.
Proof.
  assert (codes (enc_ptr enc_MatchLabel) (dec_ptr zero_MatchLabel dec_MatchLabel) None (fmap clean_MatchLabel))
    as Hc by (apply codes_ptr; [apply codes_MatchLabel|done]).
  intros [ms]. split.
  - unfold enc_Selector. apply json_ok_obj, opt_slice_ok. apply Hc.
  - unfold enc_Selector, dec_Selector, clean_Selector. cbn [Selector_MatchLabels]. decode_members.
    erewrite (dec_opt_slice _ _ _ _ Hc) by reflexivity. by destruct (kept_slice _ ms).
Qed.

Lemma codes_AllowedProcessRule :
  codes enc_AllowedProcessRule dec_AllowedProcessRule zero_AllowedProcessRule clean_AllowedProcessRule.
Proof.
  intros [r]. split; [unfold enc_AllowedProcessRule; eauto with json|].
  unfold enc_AllowedProcessRule, dec_AllowedProcessRule, clean_AllowedProcessRule.
  cbn [AllowedProcessRule_Regex]. decode_members. by destruct r.
Qed.

Lemma codes_AllowedFileRule :
  codes enc_AllowedFileRule dec_AllowedFileRule zero_AllowedFileRule clean_AllowedFileRule.
Proof.
  intros [n h]. split; [unfold enc_AllowedFileRule; eauto with json|].
  unfold enc_AllowedFileRule, dec_AllowedFileRule, clean_AllowedFileRule.
  cbn [AllowedFileRule_Name AllowedFileRule_Sha256Sum]. decode_members.
  destruct (String.eqb_spec n "") as [->|_]; decode_members; by destruct h.
Qed.

(** A text that was written is read. *)
Lemma Unmarshal_Marshal {A} (enc : A -> json) dec zero f x :
  codes enc dec zero f -> Unmarshal dec (Marshal (enc x)) zero = (f x, None).
Proof.
  intros Hc. destruct (Hc x) as [Hok Hd]. unfold Unmarshal, Marshal. by rewrite parse_print.
Qed.

(** ** Messages of events *)

Definition min_int32 : Z := (- 2 ^ 31)%Z.
Definition max_int32 : Z := (2 ^ 31 - 1)%Z.

Definition enc_Label (x : Label) : json :=
  JObj (opt_string "key" (Label_Key x) ++ opt_string "value" (Label_Value x)).

Definition zero_Label : Label := mkLabel "" "".

Definition dec_Label : decoder Label := dec_struct
  [ ("key", field Label_Key (fun x v => mkLabel v (Label_Value x)) dec_string);
    ("value", field Label_Value (fun x v => mkLabel (Label_Key x) v) dec_string) ].

Definition enc_Process (x : Process) : json :=
  JObj (opt_int "pid" (Process_Pid x) ++ opt_string "name" (Process_Name x)).

Definition zero_Process : Process := mkProcess 0 "".

Definition dec_Process : decoder Process := dec_struct
  [ ("pid", field Process_Pid (fun x v => mkProcess v (Process_Name x)) (dec_int min_int32 max_int32));
    ("name", field Process_Name (fun x v => mkProcess (Process_Pid x) v) dec_string) ].

Definition enc_ViolatedFile (x : ViolatedFile) : json :=
  JObj (opt_string "name" (ViolatedFile_Name x) ++
        opt_string "actualSha256Sum" (ViolatedFile_ActualSha256Sum x) ++
        opt_string "expectedSha256Sum" (ViolatedFile_ExpectedSha256Sum x)).

Definition zero_ViolatedFile : ViolatedFile := mkViolatedFile "" "" "".

Definition dec_ViolatedFile : decoder ViolatedFile := dec_struct
  [ ("name", field ViolatedFile_Name (fun '(mkViolatedFile n a e) v => mkViolatedFile v a e) dec_string);
    ("actualSha256Sum", field ViolatedFile_ActualSha256Sum
       (fun '(mkViolatedFile n a e) v => mkViolatedFile n v e) dec_string);
    ("expectedSha256Sum", field ViolatedFile_ExpectedSha256Sum
       (fun '(mkViolatedFile n a e) v => mkViolatedFile n a v) dec_string) ].

(** Maps are written with their keys in order. *)
Definition entry_le (a b : string * string) : Prop := String.leb a.1 b.1 = true.

#[export] Instance entry_le_dec : RelDecision entry_le.
Proof. intros a b. unfold entry_le. apply _. Defined.

Definition sorted_entries (m : gmap string string) : list (string * string) :=
  merge_sort entry_le (map_to_list m).

Definition opt_map (k : string) (m : option (gmap string string)) : list (string * json) :=
  match sorted_entries (default ∅ m) with
  | [] => []
  | l => [(k, JObj (List.map (fun kv => (kv.1, JStr kv.2)) l))]
  end.

Definition put (m : gmap string string) (kv : string * string) : gmap string string :=
  <[kv.1 := kv.2]> m.

Definition dec_map : decoder (option (gmap string string)) := fun old j =>
  match j with
  | JNull => (None, None)
  | JObj l =>
      (Some (fold_left put (List.map (fun kv => (kv.1, (dec_string "" kv.2).1)) l) (default ∅ old)),
       fold_right (fun kv e => first_error (dec_string "" kv.2).2 e) None l)
  | _ => (old, type_error)
  end.

Definition enc_FalcoAlert (x : FalcoAlert) : json :=
  JObj (opt_string "rule" (FalcoAlert_Rule x) ++ opt_int "priority" (FalcoAlert_Priority x) ++
        opt_string "output" (FalcoAlert_Output x) ++ opt_map "outputFields" (FalcoAlert_OutputFields x)).

Definition zero_FalcoAlert : FalcoAlert := mkFalcoAlert "" 0%Z "" None.

Definition dec_FalcoAlert : decoder FalcoAlert := dec_struct
  [ ("rule", field FalcoAlert_Rule (fun '(mkFalcoAlert r p o f) v => mkFalcoAlert v p o f) dec_string);
    ("priority", field FalcoAlert_Priority (fun '(mkFalcoAlert r p o f) v => mkFalcoAlert r v o f)
       (dec_int min_int32 max_int32));
    ("output", field FalcoAlert_Output (fun '(mkFalcoAlert r p o f) v => mkFalcoAlert r p v f) dec_string);
    ("outputFields", field FalcoAlert_OutputFields (fun '(mkFalcoAlert r p o f) v => mkFalcoAlert r p o v)
       dec_map) ].

(** What is kept of them. *)
Definition clean_Label (x : Label) : Label := mkLabel (clean (Label_Key x)) (clean (Label_Value x)).
Definition clean_Process (x : Process) : Process := mkProcess (Process_Pid x) (clean (Process_Name x)).
Definition clean_ViolatedFile (x : ViolatedFile) : ViolatedFile :=
  mkViolatedFile (clean (ViolatedFile_Name x)) (clean (ViolatedFile_ActualSha256Sum x))
    (clean (ViolatedFile_ExpectedSha256Sum x)).
Definition clean_map (m : option (gmap string string)) : option (gmap string string) :=
  match sorted_entries (default ∅ m) with
  | [] => None
  | l => Some (fold_left put (List.map (fun kv => (clean kv.1, clean kv.2)) l) ∅)
  end.
Definition clean_FalcoAlert (x : FalcoAlert) : FalcoAlert :=
  mkFalcoAlert (clean (FalcoAlert_Rule x)) (FalcoAlert_Priority x) (clean (FalcoAlert_Output x))
    (clean_map (FalcoAlert_OutputFields x)).

Definition int32 (n : Z) : Prop := (min_int32 <= n <= max_int32)%Z.

(** [codes] for the values that satisfy [P]. *)
Definition codes_on {A} (P : A -> Prop) (enc : A -> json) (dec : decoder A) (zero : A) (f : A -> A) : Prop :=
  forall x, P x -> json_ok (enc x) /\ dec zero (clean_json (enc x)) = (f x, None).

Section codes_on.
Context {A : Type} (P : A -> Prop) (enc : A -> json) (dec : decoder A) (zero : A) (f : A -> A).
Context (Hc : codes_on P enc dec zero f).

(** Nil satisfies what is asked of the value of a pointer. *)
Definition on_ptr (p : ptr A) : Prop := match p with Some x => P x | None => True end.

Lemma codes_on_ptr :
  never_null enc -> codes_on on_ptr (enc_ptr enc) (dec_ptr zero dec) None (fmap f).
Proof using Hc.
  intros Hn [x|] Hx; cbn [enc_ptr]; [|by split; [constructor|]]. destruct (Hc x Hx) as [Hok Hd].
  split; [done|]. specialize (Hn x). unfold dec_ptr. cbn [default].
  destruct (enc x); try done; cbn [clean_json] in *; by rewrite Hd.
Qed.

Lemma dec_elements_on l :
  Forall P l ->
  List.map (fun j => (dec zero j).1) (List.map clean_json (List.map enc l)) = List.map f l /\
  fold_right (fun j e => first_error (dec zero j).2 e) None (List.map clean_json (List.map enc l)) = None.
Proof using Hc.
  induction 1 as [|x l' Hx _ [IH1 IH2]]; [done|]. destruct (Hc x Hx) as [_ Hd]. cbn [List.map fold_right].
  by rewrite Hd, IH1, IH2.
Qed.

Lemma codes_on_slice :
  codes_on (fun s => Forall P (elems s)) (enc_slice enc) (dec_slice zero dec) None (fmap (List.map f)).
Proof using Hc.
  intros [l|] Hl; cbn [enc_slice elems default] in *; [|by split; [constructor|]].
  split; [constructor; apply Forall_map; eapply Forall_impl; [exact Hl|]; intros x Hx; by apply Hc|].
  cbn [clean_json dec_slice fmap option_fmap option_map].
  destruct (dec_elements_on l Hl) as [H1 H2]. by rewrite H1, H2.
Qed.

Lemma Unmarshal_Marshal_on x : P x -> Unmarshal dec (Marshal (enc x)) zero = (f x, None).
Proof using Hc.
  intros Hx. destruct (Hc x Hx) as [Hok Hd]. unfold Unmarshal, Marshal. by rewrite parse_print.
Qed.
End codes_on.

Lemma codes_Label : codes enc_Label dec_Label zero_Label clean_Label.
Proof.
  intros [k v]. split; [unfold enc_Label; eauto with json|].
  unfold enc_Label, dec_Label, clean_Label. cbn [Label_Key Label_Value].
  decode_members. destruct (String.eqb_spec k "") as [->|_], (String.eqb_spec v "") as [->|_]; reflexivity.
Qed.

Lemma codes_ViolatedFile : codes enc_ViolatedFile dec_ViolatedFile zero_ViolatedFile clean_ViolatedFile.
Proof.
  intros [n a e]. split; [unfold enc_ViolatedFile; eauto with json|].
  unfold enc_ViolatedFile, dec_ViolatedFile, clean_ViolatedFile.
  cbn [ViolatedFile_Name ViolatedFile_ActualSha256Sum ViolatedFile_ExpectedSha256Sum]. decode_members.
  destruct (String.eqb_spec n "") as [->|_], (String.eqb_spec a "") as [->|_], (String.eqb_spec e "") as [->|_];
    reflexivity.
Qed.

Lemma codes_Process :
  codes_on (fun x => int32 (Process_Pid x)) enc_Process dec_Process zero_Process clean_Process.
Proof.
  intros [p n] Hp. split; [unfold enc_Process; eauto with json|]. cbn in Hp.
  unfold enc_Process, dec_Process, clean_Process. cbn [Process_Pid Process_Name]. decode_members.
  erewrite dec_opt_int by first [exact Hp|reflexivity]. cbv beta iota zeta. rewrite ?dec_members_app.
  decode_members.
  destruct (Z.eqb_spec p 0) as [->|_], (String.eqb_spec n "") as [->|_]; reflexivity.
Qed.

Lemma clean_entries (l : list (string * string)) :
  List.map (fun kv => (kv.1, (dec_string "" kv.2).1))
    (List.map (fun kv => (clean kv.1, clean_json kv.2)) (List.map (fun kv => (kv.1, JStr kv.2)) l)) =
    List.map (fun kv => (clean kv.1, clean kv.2)) l /\
  fold_right (fun kv e => first_error (dec_string "" kv.2).2 e) None
    (List.map (fun kv => (clean kv.1, clean_json kv.2)) (List.map (fun kv => (kv.1, JStr kv.2)) l)) = None.
Proof. induction l as [|kv l [IH1 IH2]]; [done|]. cbn [List.map fold_right]. by rewrite IH1, IH2. Qed.

Lemma dec_opt_map {A} (fields : list (string * decoder A)) k m get set a :
  get a = None -> all_ascii k = true -> find_field k fields = Some (field get set dec_map) ->
  dec_members fields (List.map clean_member (opt_map k m)) a =
  (match clean_map m with None => a | m' => set a m' end, None).
Proof.
  intros Hg Hk Hf. unfold opt_map, clean_map. destruct (sorted_entries _) as [|kv l]; [done|].
  rewrite (dec_member _ _ _ _ _ Hk Hf). unfold field. rewrite Hg. cbn [clean_json].
  destruct (clean_entries (kv :: l)) as [H1 H2]. cbn [dec_map default]. by rewrite H1, H2.
Qed.

Lemma opt_map_ok k m : members_ok (opt_map k m).
Proof.
  unfold opt_map. destruct (sorted_entries _) as [|kv l]; repeat constructor.
  apply Forall_map, Forall_true. intros x. constructor.
Qed.

#[export] Hint Resolve opt_map_ok : json.

Lemma codes_FalcoAlert :
  codes_on (fun x => int32 (FalcoAlert_Priority x)) enc_FalcoAlert dec_FalcoAlert zero_FalcoAlert
    clean_FalcoAlert.
Proof.
  intros [r p o m] Hp. split; [unfold enc_FalcoAlert; eauto 10 with json|]. cbn in Hp.
  unfold enc_FalcoAlert, dec_FalcoAlert, clean_FalcoAlert.
  cbn [FalcoAlert_Rule FalcoAlert_Priority FalcoAlert_Output FalcoAlert_OutputFields]. decode_members.
  erewrite dec_opt_int by first [exact Hp|reflexivity]. cbv beta iota zeta. rewrite ?dec_members_app.
  decode_members.
  erewrite dec_opt_map; [| |reflexivity..].
  - destruct (String.eqb_spec r "") as [->|_], (Z.eqb_spec p 0) as [->|_], (String.eqb_spec o "") as [->|_],
      (clean_map m); reflexivity.
  - by destruct (String.eqb r ""), (Z.eqb p 0), (String.eqb o "").
Qed.

(** Writing a map in order and reading it back gives the map, when its
    strings are valid. *)
Lemma fold_put (l : list (string * string)) (m : gmap string string) :
  NoDup l.*1 -> fold_left put l m = list_to_map l ∪ m.
Proof.
  revert m. induction l as [|[k v] l IH]; intros m Hd.
  - cbn. by rewrite (left_id_L ∅ (∪)).
  - rewrite fmap_cons in Hd. apply NoDup_cons in Hd as [Hk Hd]. cbn [fold_left fst snd].
    rewrite IH by done. unfold put. cbn [fst snd list_to_map foldr].
    rewrite <- insert_union_l, <- insert_union_r; [done|]. by apply not_elem_of_list_to_map.
Qed.

Lemma clean_map_id (m : gmap string string) :
  map_Forall (fun k v => utf8 k /\ utf8 v) m -> m <> ∅ -> clean_map (Some m) = Some m.
Proof.
  intros Hm Hne. unfold clean_map. change (default ∅ (Some m)) with m.
  assert (sorted_entries m ≡ₚ map_to_list m) as Hp by apply merge_sort_Permutation.
  assert (List.map (fun kv => (clean kv.1, clean kv.2)) (sorted_entries m) = sorted_entries m) as Hid.
  { assert (Forall (fun kv => utf8 kv.1 /\ utf8 kv.2) (sorted_entries m)) as Hf.
    { rewrite Hp. apply Forall_forall. intros [k v] Hin%elem_of_map_to_list. by apply Hm. }
    clear Hp. induction Hf as [|[k v] l [Hk Hv] _ IH]; [done|]. cbn [List.map fst snd] in *.
    by rewrite IH, !utf8_clean. }
  destruct (sorted_entries m) as [|kv l] eqn:He.
  - symmetry in Hp. apply Permutation_nil_r, map_to_list_empty_iff in Hp. done.
  - cbn [List.map] in Hid |- *. rewrite Hid, fold_put.
    + rewrite (right_id_L ∅ (∪)). f_equal. rewrite (list_to_map_proper _ (map_to_list m)); [apply list_to_map_to_list|..|done].
      rewrite Hp. apply NoDup_fst_map_to_list.
    + rewrite Hp. apply NoDup_fst_map_to_list.
Qed.
