(* ===== verification/K8s.v ===== *)
(** The Kubernetes objects the agents read, with the fields the program uses.
    A pod's label map is a reference: the pods an informer returns share
    their maps with its cache, so a [delete] on such a map is seen by every
    later reader.  The annotations and the two annotation keys are those of
    [pkg/nodeagent/nodeagent.go] and
    [pkg/clusteragent/webhookserver/podagent_injector.go]. *)

From S2P Require Import Prelude GoStrings Types Labels.

(** References to Go maps. *)
Definition map_ref := nat.

Record K8sPod := mkK8sPod {
  K8sPod_Name : string;
  K8sPod_UID : string;
  K8sPod_Namespace : string;
  K8sPod_Labels : map_ref;
  K8sPod_Annotations : gmap string string;
  (** Status: container IDs of the running, init and ephemeral containers. *)
  K8sPod_ContainerStatuses : list string;
  K8sPod_InitContainerStatuses : list string;
  K8sPod_EphemeralContainerStatuses : list string;
}.

Definition ThreatScanAnnotation := "pod-agent.k8s.tarian.dev/threat-scan".
Definition RegisterAnnotation := "pod-agent.k8s.tarian.dev/register".

(** The maps in memory. *)
Notation heap := (gmap map_ref (gmap string string)).

Definition heap_read (l : map_ref) (m : heap) : gmap string string := default ∅ (m !! l).

(** [delete(m, k)]: nothing happens on a nil map. *)
Definition heap_delete (l : map_ref) (k : string) (m : heap) : heap := alter (delete k) l m.

Lemma heap_read_delete l k m : heap_read l (heap_delete l k m) = delete k (heap_read l m).
Proof.
  unfold heap_read, heap_delete. rewrite lookup_alter, decide_True by done.
  destruct (m !! l) as [v|]; simpl; [done|]. by rewrite delete_empty.
Qed.

Lemma heap_read_delete_ne l l' k m :
  l <> l' -> heap_read l' (heap_delete l k m) = heap_read l' m.
Proof. intros Hl. unfold heap_read, heap_delete. by rewrite lookup_alter_ne. Qed.

(** Match labels from a label map, in iteration order
    ([matchLabelsFromPodLabels], declared alike in package nodeagent and in
    package clusteragent). *)
Definition matchLabelsFromPodLabels `{MapRange} (labels : gmap string string)
  : slice (ptr MatchLabel) :=
  Some ((fun kv => Some (mkMatchLabel kv.1 kv.2)) <$> map_range labels).

Lemma elem_of_matchLabels `{MapRange} `{!MapRangeLaws _} (labels : gmap string string) m :
  m ∈ elems (matchLabelsFromPodLabels labels) <->
  exists k v, m = Some (mkMatchLabel k v) /\ labels !! k = Some v.
Proof.
  simpl. rewrite list_elem_of_fmap. split.
  - intros ([k v]&->&Hin). exists k, v. split; [done|]. by apply elem_of_map_range.
  - intros (k&v&->&Hl). exists (k, v). split; [done|]. by apply elem_of_map_range.
Qed.

(** Which registration the [register] annotation asks for: the loop over the
    comma separated rules, shared by the node agent and the cluster agent. *)
Definition register_rules (value : string) : list string := TrimSpace <$> Split value ",".

Definition registers_processes (value : string) : bool :=
  existsb (fun rule => String.eqb rule "processes" || String.eqb rule "all") (register_rules value).

Lemma registers_processes_spec value :
  registers_processes value = true <->
  "processes" ∈ register_rules value \/ "all" ∈ register_rules value.
Proof.
  unfold registers_processes. rewrite existsb_exists. setoid_rewrite orb_true_iff.
  setoid_rewrite String.eqb_eq. setoid_rewrite <- list_elem_of_In. naive_solver.
Qed.
