(* ===== verification/Containers.v ===== *)
(** From a process to its pod ([pkg/nodeagent/enrich_container.go] and
    [enrich_kubernetes.go]): container IDs taken from cgroup paths and from pod
    statuses, the pod index, and the lookup.  Shows the length and prefix
    facts of the extracted IDs and that the lookup is sound and complete for
    the truncated IDs the two sides use. *)

From S2P Require Import Prelude GoStrings Types Labels K8s.

(** * Container IDs from cgroups *)

Definition BpfContainerIDLength : nat := 31.

(** [s[len(s)-1]] of a split, which is never empty. *)
Definition last_of (l : list string) : string := default "" (last l).

Definition procsContainerIDOffset (subdir : string) : string * Z :=
  let p := (LastIndex subdir ":" + 1)%Z in
  let idStr := last_of (Split subdir ":") in
  let off := (LastIndex idStr "-" + 1)%Z in
  (last_of (Split idStr "-"), (off + p)%Z).

Definition lookupContainerID (cgroup : string) : string :=
  let lastSubDir := last_of (Split cgroup "/") in
  let '(container, _) := procsContainerIDOffset lastSubDir in
  if (BpfContainerIDLength <=? String.length container)%nat
  then str_take BpfContainerIDLength container
  else "".

Fixpoint find_container (cgrpPaths : list string) : string :=
  match cgrpPaths with
  | [] => ""
  | s :: rest =>
      if Contains s "pod" || Contains s "docker" || Contains s "libpod"
      then let container := lookupContainerID s in
           if String.eqb container "" then find_container rest else container
      else find_container rest
  end.

Definition newline : string := String (ascii_of_nat 10) "".

Definition findDockerIDFromCgroup (cgroups : string) : string :=
  find_container (Split cgroups newline).

(** * Container IDs of pods *)

Definition containerIDLen : nat := 15.

Definition cleanContainerIDFromPod (podContainerID : string) : string + error :=
  match Split podContainerID "//" with
  | [_; containerID] =>
      inl (if (containerIDLen <? String.length containerID)%nat
           then str_take containerIDLen containerID else containerID)
  | _ => inr (PlainError "unexpected containerID format")
  end.

Fixpoint index_ids (fulls : list string) : list string + error :=
  match fulls with
  | [] => inl []
  | full :: rest =>
      if String.eqb full "" then index_ids rest
      else match cleanContainerIDFromPod full with
           | inr e => inr e
           | inl containerID =>
               match index_ids rest with
               | inl ids => inl (containerID :: ids)
               | inr e => inr e
               end
           end
  end.

(** The index function on an object of the informer ([None]: not a pod). *)
Definition containerIndexFunc (obj : option K8sPod) : list string + error :=
  match obj with
  | Some t =>
      index_ids (K8sPod_InitContainerStatuses t ++ K8sPod_ContainerStatuses t ++
                 K8sPod_EphemeralContainerStatuses t)
  | None => inr (WrapError "object is not a *corev1.Pod" None)
  end.

Definition containerIDContains (containerID prefix : string) : bool :=
  match Split containerID "//" with
  | [_; id] => HasPrefix id prefix
  | _ => false
  end.

Fixpoint findContainer_loop (containerID : string) (pods : list (option K8sPod)) : ptr K8sPod :=
  match pods with
  | [] => None
  | None :: _ => None
  | Some pod :: rest =>
      if existsb (fun c => containerIDContains c containerID) (K8sPod_ContainerStatuses pod) ||
         existsb (fun c => containerIDContains c containerID) (K8sPod_InitContainerStatuses pod) ||
         existsb (fun c => containerIDContains c containerID) (K8sPod_EphemeralContainerStatuses pod)
      then Some pod
      else findContainer_loop containerID rest
  end.

Definition findContainer (containerID : string) (pods : list (option K8sPod)) : ptr K8sPod :=
  if String.eqb containerID "" then None else findContainer_loop containerID pods.

(** The informer's indexer: [ByIndex] on the container index. *)
Class Indexer := ByIndex : string -> list (option K8sPod) + error.

Definition FindPod `{Indexer} (containerID : string) : ptr K8sPod :=
  let indexedContainerID :=
    if (containerIDLen <? String.length containerID)%nat
    then str_take containerIDLen containerID else containerID in
  match ByIndex indexedContainerID with
  | inr _ => None
  | inl pods => findContainer containerID pods
  end.

(** * Facts *)

Lemma lookupContainerID_cases cgroup :
  lookupContainerID cgroup = "" \/
  (String.length (lookupContainerID cgroup) = BpfContainerIDLength /\
   HasPrefix (procsContainerIDOffset (last_of (Split cgroup "/"))).1 (lookupContainerID cgroup) = true).
Proof.
  unfold lookupContainerID. destruct (procsContainerIDOffset _) as [container off]. cbn [fst].
  destruct (_ <=? _)%nat eqn:Hlen; to_prop; [right|by left]. split.
  - by apply str_take_length.
  - apply HasPrefix_spec. exists (str_drop BpfContainerIDLength container).
    by rewrite str_take_drop.
Qed.

(** The container ID holds no path, scope or name separator: it is the text
    after the last '/', ':' and '-'. *)
Lemma last_of_free s c : Contains (last_of (Split s (String c ""))) (String c "") = false.
Proof.
  unfold last_of. pose proof (Split_free s c) as Hf.
  destruct (last (Split s (String c ""))) as [x|] eqn:Hl; simpl; [|done].
  apply last_Some_elem_of in Hl. by eapply Forall_forall in Hf.
Qed.

Lemma Contains_prefix_false s p c :
  HasPrefix s p = true -> Contains s (String c "") = false -> Contains p (String c "") = false.
Proof.
  intros [t ->]%HasPrefix_spec H. apply not_true_iff_false. intros (b&a&Hp)%Contains_spec.
  apply not_true_iff_false in H. apply H, Contains_spec. exists b, (a +:+ t).
  rewrite Hp. by rewrite !app_assoc_s.
Qed.

Lemma find_container_cases paths :
  find_container paths = "" \/
  exists s, s ∈ paths /\ find_container paths = lookupContainerID s /\
            (Contains s "pod" || Contains s "docker" || Contains s "libpod") = true.
Proof.
  induction paths as [|s paths IH]; simpl; [by left|].
  assert (find_container paths = "" \/
    exists s0, s0 ∈ s :: paths /\ find_container paths = lookupContainerID s0 /\
      (Contains s0 "pod" || Contains s0 "docker" || Contains s0 "libpod") = true) as IH'.
  { destruct IH as [|(s0&?&?)]; [by left|right]. exists s0. split; [by right|done]. }
  destruct (_ || _ || _) eqn:Hc; [|done].
  destruct (String.eqb_spec (lookupContainerID s) ""); [done|].
  right. exists s. split; [by left|done].
Qed.

Definition has_container (pod : K8sPod) (containerID : string) : Prop :=
  exists full, full ∈ K8sPod_InitContainerStatuses pod ++ K8sPod_ContainerStatuses pod ++
                      K8sPod_EphemeralContainerStatuses pod /\
               containerIDContains full containerID = true.

(** The three status lists are searched in another order than they are indexed. *)
Lemma pod_matches pod containerID :
  existsb (fun c => containerIDContains c containerID) (K8sPod_ContainerStatuses pod) ||
  existsb (fun c => containerIDContains c containerID) (K8sPod_InitContainerStatuses pod) ||
  existsb (fun c => containerIDContains c containerID) (K8sPod_EphemeralContainerStatuses pod) = true
  <-> has_container pod containerID.
Proof.
  unfold has_container. rewrite !orb_true_iff, !existsb_exists.
  setoid_rewrite elem_of_app. setoid_rewrite elem_of_app.
  setoid_rewrite <- list_elem_of_In. naive_solver.
Qed.

Lemma findContainer_loop_sound containerID pods pod :
  findContainer_loop containerID pods = Some pod ->
  Some pod ∈ pods /\ has_container pod containerID.
Proof.
  induction pods as [|[p|] pods IH]; simpl; [done| |done].
  destruct (_ || _ || _) eqn:Hm.
  - intros [= ->]. split; [left|by apply pod_matches].
  - intros [? ?]%IH. split; [by right|done].
Qed.

Lemma findContainer_loop_complete containerID pods :
  (forall obj, obj ∈ pods -> is_Some obj) ->
  (exists pod, Some pod ∈ pods /\ has_container pod containerID) ->
  is_Some (findContainer_loop containerID pods).
Proof.
  intros Hp (pod&Hin&Hc). induction pods as [|obj pods IH]; [by apply elem_of_nil in Hin|].
  destruct (Hp obj) as [p ->]; [by left|]. simpl.
  destruct (_ || _ || _) eqn:Hm; [eauto|].
  apply elem_of_cons in Hin as [[= ->]|Hin].
  - apply pod_matches in Hc. congruence.
  - apply IH; [|done]. intros obj Ho. apply Hp. by right.
Qed.

(** What client-go documents of an index: [ByIndex] lists the stored objects
    whose index values include the key. *)
Class IndexerLaws (I : Indexer) (store : list K8sPod) : Prop :=
  ByIndex_spec v : exists objs, ByIndex v = inl objs /\
    forall obj, obj ∈ objs <->
      exists pod ids, obj = Some pod /\ pod ∈ store /\
        containerIndexFunc (Some pod) = inl ids /\ v ∈ ids.

(** The indexer the law describes, for a concrete store. *)
Definition indexed_under (v : string) (pod : K8sPod) : bool :=
  match containerIndexFunc (Some pod) with
  | inl ids => bool_decide (v ∈ ids)
  | inr _ => false
  end.

Definition store_indexer (store : list K8sPod) : Indexer := fun v =>
  inl (Some <$> filter (fun pod => indexed_under v pod = true) store).

#[export] Instance store_indexer_laws store : IndexerLaws (store_indexer store) store.
Proof.
  intros v. eexists. split; [done|]. intros obj. rewrite list_elem_of_fmap.
  setoid_rewrite list_elem_of_filter. unfold indexed_under. split.
  - intros (pod&->&Hv&Hin). destruct (containerIndexFunc (Some pod)) as [ids|] eqn:Hi; [|done].
    apply bool_decide_eq_true in Hv. by exists pod, ids.
  - intros (pod&ids&->&Hin&Hi&Hv). exists pod. rewrite Hi. by rewrite bool_decide_eq_true.
Qed.

Definition short_id (id : string) : string :=
  if (containerIDLen <? String.length id)%nat then str_take containerIDLen id else id.

Lemma short_id_take id : short_id id = str_take containerIDLen id.
Proof.
  unfold short_id. destruct (_ <? _)%nat eqn:Hl; to_prop; [done|].
  symmetry. by apply str_take_ge.
Qed.

(** Both sides truncate alike: an ID of at least 15 bytes and any extension of
    it have the same key. *)
Lemma str_take_app n a b : n <= String.length a -> str_take n (a +:+ b) = str_take n a.
Proof.
  revert a. induction n as [|n IH]; intros [|c a]; simpl; intros Hn; try done; [lia|].
  rewrite IH; [done|lia].
Qed.

Lemma index_ids_complete fulls ids full id rt :
  index_ids fulls = inl ids -> full ∈ fulls -> Split full "//" = [rt; id] ->
  short_id id ∈ ids.
Proof.
  revert ids. induction fulls as [|f fulls IH]; intros ids; simpl.
  { intros _ H. by apply elem_of_nil in H. }
  intros Hi [->|Hin]%elem_of_cons Hs.
  - destruct (String.eqb_spec f "") as [->|]; [done|].
    unfold cleanContainerIDFromPod in Hi. rewrite Hs in Hi.
    fold (short_id id) in Hi. destruct (index_ids fulls); [|done]. injection Hi as <-. left.
  - destruct (String.eqb f ""); [by apply IH|].
    destruct (cleanContainerIDFromPod f); [|done].
    destruct (index_ids fulls) as [ids'|] eqn:Hids; [|done]. injection Hi as <-.
    right. by apply IH.
Qed.

Lemma containerIDContains_spec full prefix :
  containerIDContains full prefix = true <->
  exists rt id, Split full "//" = [rt; id] /\ HasPrefix id prefix = true.
Proof.
  unfold containerIDContains. destruct (Split full "//") as [|a [|b [|? ?]]]; naive_solver.
Qed.

Lemma FindPod_short `{Indexer} containerID :
  FindPod containerID =
  match ByIndex (short_id containerID) with
  | inr _ => None
  | inl pods => findContainer containerID pods
  end.
Proof. done. Qed.

(** * Properties *)

(** The container ID found for a process is either empty (no container)
    or exactly 31 bytes long, and is free of the separators '/' ':' and '-'
    that delimit it in the cgroup path it was read from. *)
Lemma findDockerIDFromCgroup_bounds cgroups :
  let id := findDockerIDFromCgroup cgroups in
  id = "" \/
  (String.length id = BpfContainerIDLength /\ Contains id "-" = false /\
   exists path, path ∈ Split cgroups newline /\
     (Contains path "pod" || Contains path "docker" || Contains path "libpod") = true).
Proof.
  intros id; subst id. unfold findDockerIDFromCgroup.
  destruct (find_container_cases (Split cgroups newline)) as [->|(s&Hin&->&Hc)]; [by left|].
  destruct (lookupContainerID_cases s) as [->|[Hlen Hpre]]; [by left|right].
  split_and!; [done| |eauto].
  eapply Contains_prefix_false; [exact Hpre|]. apply last_of_free.
Qed.

(** A pod returned for a container ID is in the informer's store and has,
    among its init, running and ephemeral containers, one whose ID starts
    with that container ID. *)
Lemma FindPod_sound `{I : Indexer} store `{!IndexerLaws I store} containerID pod :
  FindPod containerID = Some pod ->
  pod ∈ store /\ has_container pod containerID /\ containerID <> "".
Proof.
  rewrite FindPod_short. destruct (ByIndex_spec (short_id containerID)) as (objs&->&Hobjs).
  unfold findContainer. destruct (String.eqb_spec containerID ""); [done|].
  intros [Hin Hc]%findContainer_loop_sound.
  apply Hobjs in Hin as (pod'&ids&[= <-]&Hst&_). done.
Qed.

(** Nothing is missed: when some indexed pod of the store has a container
    whose ID extends the given one, and the given one has at least the 15
    bytes of the index keys, a pod with such a container is found, although
    the index keys keep 15 bytes and process IDs keep 31. *)
Lemma FindPod_complete `{I : Indexer} store `{!IndexerLaws I store} containerID pod ids :
  (containerIDLen <= String.length containerID)%nat ->
  pod ∈ store -> containerIndexFunc (Some pod) = inl ids ->
  has_container pod containerID ->
  exists pod', FindPod containerID = Some pod' /\ has_container pod' containerID.
Proof.
  intros Hlen Hst Hids (full&Hfull&Hc). rewrite FindPod_short.
  apply containerIDContains_spec in Hc as (rt&id&Hs&Hp).
  pose proof (index_ids_complete _ _ _ _ _ Hids Hfull Hs) as Hkey.
  apply HasPrefix_spec in Hp as [t ->].
  rewrite short_id_take, str_take_app in Hkey by done. rewrite <- short_id_take in Hkey.
  destruct (ByIndex_spec (short_id containerID)) as (objs&->&Hobjs).
  unfold findContainer. destruct (String.eqb_spec containerID "") as [->|]; [unfold containerIDLen in Hlen; simpl in Hlen; lia|].
  destruct (findContainer_loop_complete containerID objs) as [pod' Hpod'].
  - intros obj Ho. apply Hobjs in Ho as (p&?&->&_). eauto.
  - exists pod. split; [apply Hobjs; eauto 8|].
    exists full. split; [done|]. apply containerIDContains_spec. exists rt, (containerID +:+ t).
    split; [done|]. apply HasPrefix_app.
  - exists pod'. split; [done|]. by apply findContainer_loop_sound in Hpod' as [_ ?].
Qed.

(** Finding the pod of a container.  A pod returned for a container ID is
    in the informer's store and has, among its init, running and ephemeral
    containers, one whose ID starts with that container ID; and nothing is
    missed: when some indexed pod of the store has such a container, and the ID
    has at least the 15 bytes of the index keys, a pod is returned, although
    the index keys keep 15 bytes and the IDs of processes 31. *)
Lemma FindPod_exact `{I : Indexer} store `{!IndexerLaws I store} containerID :
  (forall pod, FindPod containerID = Some pod ->
     pod ∈ store /\ has_container pod containerID /\ containerID <> "") /\
  ((containerIDLen <= String.length containerID)%nat ->
   (exists pod ids, pod ∈ store /\ containerIndexFunc (Some pod) = inl ids /\ has_container pod containerID) ->
   exists pod, FindPod containerID = Some pod).
Proof.
  split; [intros pod; by apply FindPod_sound|].
  intros Hlen (pod&ids&Hin&Hids&Hc).
  destruct (FindPod_complete store containerID pod ids Hlen Hin Hids Hc) as (pod'&Hf&_). by exists pod'.
Qed.

(** * The theorems at concrete inputs *)

Definition web_id := "0123456789abcdef0123456789abcdef0123456789abcdef0123456789abcdef".
Definition web_pod : K8sPod :=
  mkK8sPod "web-1" "uid-1" "default" 0 ∅ ["containerd://" +:+ web_id] [] [].

Example cgroup_ex :
  findDockerIDFromCgroup
    ("11:memory:/x" +:+ newline +:+ "0::/kubepods.slice/pod-1/cri-containerd-" +:+ web_id) =
  "0123456789abcdef0123456789abcde".
Proof. by vm_compute. Qed.

Lemma FindPod_exact_witness :
  has_container web_pod (str_take 31 web_id) /\
  exists pod, FindPod (H := store_indexer [web_pod]) (str_take 31 web_id) = Some pod.
Proof.
  destruct (FindPod_exact (I := store_indexer [web_pod]) [web_pod] (str_take 31 web_id)) as [Hs Hc].
  split.
  - apply Hs. vm_compute. reflexivity.
  - apply Hc; [vm_compute; lia|]. exists web_pod, [str_take 15 web_id].
    split; [left|]. split; [vm_compute; reflexivity|]. eexists. split; [left|vm_compute; reflexivity].
Defined.
