(* ===== verification/Store.v ===== *)
(** The store interfaces of [pkg/store] (ConstraintStore and ActionStore have
    the same shape) and the contract the server relies on: a class of laws
    that relates each call to an abstract view, the list of stored resources.
    A failed mutation may or may not have been applied, as with a request
    that times out.  A plain in-memory store satisfies the contract. *)

From S2P Require Import Prelude GoStrings Types.

(** * Interface *)

Inductive StoreE (T : Type) : Type -> Type :=
| GetAll : StoreE T (slice (ptr T) * option error)
| FindByNamespace (namespace : string) : StoreE T (slice (ptr T) * option error)
| NamespaceAndNameExist (namespace name : string) : StoreE T (bool * option error)
| Add (x : ptr T) : StoreE T (option error)
| RemoveByNamespaceAndName (namespace name : string) : StoreE T (option error).
Arguments GetAll {T}.
Arguments FindByNamespace {T} namespace.
Arguments NamespaceAndNameExist {T} namespace name.
Arguments Add {T} x.
Arguments RemoveByNamespaceAndName {T} namespace name.

(** Resources are identified by namespace and name. *)
Class Keyed (T : Type) := resource_key : T -> string * string.

#[export] Instance Constraint_keyed : Keyed Constraint :=
  fun c => (Constraint_Namespace c, Constraint_Name c).
#[export] Instance Action_keyed : Keyed Action :=
  fun a => (Action_Namespace a, Action_Name a).

(** * Contract *)

(** The calls that only read. *)
Definition store_reads {T X} (e : StoreE T X) : Prop :=
  match e with
  | GetAll | FindByNamespace _ | NamespaceAndNameExist _ _ => True
  | _ => False
  end.

Section laws.
Context {T S : Type} `{!Keyed T}.
(** [norm] is what the store keeps of a resource it is given. *)
Context (h : handler (StoreE T) S) (view : S -> list T) (norm : T -> T).

Definition stored (s : S) (ns n : string) : Prop :=
  (ns, n) ∈ resource_key <$> view s.

(** One resource named [ns]/[n] goes, or there is none and nothing changes. *)
Definition removed (ns n : string) (s s' : S) : Prop :=
  (exists x, resource_key x = (ns, n) /\ view s ≡ₚ x :: view s') \/
  (~ stored s ns n /\ view s' ≡ₚ view s).

(** Names are promised to work when they are not empty.  A name the store can
    look up is a name it keeps. *)
Class StoreLaws : Prop := {
  norm_key ns n s b s' x :
    h _ (NamespaceAndNameExist ns n) s = ((b, None), s') ->
    resource_key x = (ns, n) -> resource_key (norm x) = (ns, n);
  store_read X (e : StoreE T X) s : store_reads e -> view (h X e s).2 = view s;
  store_getall s l s' :
    h _ GetAll s = ((l, None), s') -> elems l ≡ₚ Some <$> view s;
  store_find ns s l s' :
    ns <> "" -> h _ (FindByNamespace ns) s = ((l, None), s') ->
    elems l ≡ₚ Some <$> filter (fun x => (resource_key x).1 = ns) (view s);
  store_find_error ns s l er s' :
    h _ (FindByNamespace ns) s = ((l, Some er), s') -> l = None;
  store_getall_error s l er s' : h _ GetAll s = ((l, Some er), s') -> l = None;
  store_exist ns n s b s' :
    ns <> "" -> n <> "" -> h _ (NamespaceAndNameExist ns n) s = ((b, None), s') -> b = true <-> stored s ns n;
  store_add x s s' :
    h _ (Add (Some x)) s = (None, s') -> view s' ≡ₚ norm x :: view s;
  store_add_error x er s s' :
    h _ (Add (Some x)) s = (Some er, s') ->
    view s' ≡ₚ view s \/ view s' ≡ₚ norm x :: view s;
  store_remove ns n s s' :
    ns <> "" -> n <> "" -> h _ (RemoveByNamespaceAndName ns n) s = (None, s') -> removed ns n s s';
  store_remove_error ns n er s s' :
    ns <> "" -> n <> "" -> h _ (RemoveByNamespaceAndName ns n) s = (Some er, s') ->
    view s' ≡ₚ view s \/ removed ns n s s';
}.
End laws.

(** A store kept inside a larger state. *)
Lemma StoreLaws_lens {T S S' : Type} `{!Keyed T} (h : handler (StoreE T) S)
    (h' : handler (StoreE T) S') (get : S' -> S) (view : S -> list T) (norm : T -> T) :
  (forall X (e : StoreE T X) s,
     (h' X e s).1 = (h X e (get s)).1 /\ get (h' X e s).2 = (h X e (get s)).2) ->
  StoreLaws h view norm -> StoreLaws h' (fun s => view (get s)) norm.
Proof.
  intros Hl [].
  assert (forall X (e : StoreE T X) s x s', h' X e s = (x, s') -> h X e (get s) = (x, get s')) as Hg.
  { intros X e s x s' Hh. destruct (Hl X e s) as [H1 H2]. rewrite Hh in H1, H2. simpl in *.
    subst x. rewrite H2. by destruct (h X e (get s)). }
  split; unfold stored, removed in *; simpl; eauto.
  intros X e s He. destruct (Hl X e s) as [_ ->]. auto.
Qed.

Section law_facts.
Context {T S : Type} `{!Keyed T} (h : handler (StoreE T) S) (view : S -> list T) (norm : T -> T).
Context `{HL : !StoreLaws h view norm}.

Lemma read_view X (e : StoreE T X) s x s' :
  store_reads e -> h X e s = (x, s') -> view s' = view s.
Proof using HL.
  intros He Hh. pose proof (store_read _ _ _ _ e s He) as H. by rewrite Hh in H.
Qed.

Lemma exist_view ns n s found er s' :
  ns <> "" -> n <> "" -> h _ (NamespaceAndNameExist ns n) s = ((found, er), s') ->
  view s' = view s /\ (er = None ->
    (found = true <-> stored view s ns n) /\
    forall x, resource_key x = (ns, n) -> resource_key (norm x) = resource_key x).
Proof using HL.
  intros Hns Hn Hh. split; [by eapply read_view; [|done]|].
  intros ->. split; [by eapply store_exist|]. intros x Hx. rewrite Hx. by eapply norm_key.
Qed.

Lemma removed_cases ns n s s' :
  removed view ns n s s' -> stored view s ns n ->
  exists x, resource_key x = (ns, n) /\ view s ≡ₚ x :: view s'.
Proof. by intros [?|[? _]] ?. Qed.
End law_facts.

(** * An in-memory store *)

Section mem.
Context {T : Type} `{!Keyed T}.

Fixpoint remove_first (k : string * string) (l : list T) : list T :=
  match l with
  | [] => []
  | x :: l' => if decide (resource_key x = k) then l' else x :: remove_first k l'
  end.

Definition mem_store : handler (StoreE T) (list T) := fun X e s =>
  match e in StoreE _ X return X * list T with
  | GetAll => ((Some (Some <$> s), None), s)
  | FindByNamespace ns =>
      ((Some (Some <$> filter (fun x => (resource_key x).1 = ns) s), None), s)
  | NamespaceAndNameExist ns n => ((bool_decide ((ns, n) ∈ resource_key <$> s), None), s)
  | Add (Some x) => (None, s ++ [x])
  | Add None => (None, s)
  | RemoveByNamespaceAndName ns n => (None, remove_first (ns, n) s)
  end.

Lemma remove_first_spec ns n (l : list T) :
  removed (fun s => s) ns n l (remove_first (ns, n) l).
Proof.
  induction l as [|x l IH]; simpl.
  - right. split; [|done]. by intros H%elem_of_nil.
  - case_decide as Hx; [left; by exists x|]. destruct IH as [(y&Hy&Hp)|[Hn Hp]].
    + left. exists y. split; [done|]. exact (perm_trans (perm_skip x Hp) (perm_swap _ _ _)).
    + right. split; [|by apply perm_skip]. unfold stored in *. rewrite fmap_cons, elem_of_cons.
      intros [?|?]; [congruence|done].
Qed.

#[export] Instance mem_store_laws : StoreLaws mem_store (fun s => s) (fun x => x).
Proof.
  split; simpl.
  - done.
  - intros X e s. by destruct e.
  - intros s l s' [= <- <-]. done.
  - intros ns s l s' _ [= <- <-]. done.
  - by intros.
  - by intros.
  - intros ns n s b s' _ _ [= <- <-]. apply bool_decide_eq_true.
  - intros x s s' [= <-]. by rewrite Permutation_app_comm.
  - by intros.
  - intros ns n s s' _ _ [= <-]. apply remove_first_spec.
  - by intros.
Qed.
End mem.
