(* ===== verification/ConfigServer.v ===== *)
(** The Config service of tarian-server ([pkg/server/config_server.go]): the
    six handlers over the constraint and the action store, and the service as
    gRPC clients see it.  Proved against the contract of [Store]: the
    behaviour of every branch, that any client program leaves at most one
    resource per namespace and name, exactness of label filtering, and what
    two overlapping requests can do. *)

From S2P Require Import Prelude GoStrings Types Labels Store.

(** The stores the server is given. *)
Inductive ServerE : Type -> Type :=
| CS {X} (e : StoreE Constraint X) : ServerE X
| AS {X} (e : StoreE Action X) : ServerE X.

Definition invalid (msg : string) : option error := Some (StatusError InvalidArgument msg).
Definition internal : option error := Some (StatusError Internal "internal server error").

Section handlers.
Context `{SS : StrSet}.

(** ** Constraints *)

(** The loop body of the filter: constraints with a nil selector or nil
    match labels are skipped. *)
Definition constraint_label_match (labels : slice (ptr Label)) (c : ptr Constraint) : bool :=
  match Constraint_GetSelector c, Selector_GetMatchLabels (Constraint_GetSelector c) with
  | None, _ => false
  | _, None => false
  | Some _, Some ms =>
      strset_IsSubset (set_of (Label_text <$> elems labels)) (set_of (MatchLabel_text <$> ms))
  end.

Definition ConfigServer_GetConstraints (request : ptr GetConstraintsRequest)
  : prog ServerE (ptr GetConstraintsResponse * option error) :=
  r <- (if String.eqb (GetConstraintsRequest_GetNamespace request) ""
        then call (CS GetAll)
        else call (CS (FindByNamespace (GetConstraintsRequest_GetNamespace request))));;
  let '(constraints, err) := r in
  let matchedConstraints :=
    match GetConstraintsRequest_GetLabels request with
    | Some _ =>
        Some (List.filter (constraint_label_match (GetConstraintsRequest_GetLabels request))
                          (elems constraints))
    | None => constraints
    end in
  Ret (Some {| GetConstraintsResponse_Constraints := matchedConstraints |}, None).

Definition ConfigServer_AddConstraint (request : ptr AddConstraintRequest)
  : prog ServerE (ptr AddConstraintResponse * option error) :=
  let c := AddConstraintRequest_GetConstraint request in
  match c with
  | None => Ret (None, invalid "required constraint is empty")
  | Some _ =>
      if String.eqb (Constraint_GetNamespace c) ""
      then Ret (None, invalid "required field is empty: namespace")
      else if String.eqb (Constraint_GetName c) ""
      then Ret (None, invalid "required field is empty: name")
      else
        r <- call (CS (NamespaceAndNameExist (Constraint_GetNamespace c) (Constraint_GetName c)));;
        let '(found, err) := r in
        match err with
        | Some _ => Ret (None, internal)
        | None =>
            if (found : bool) then Ret (None, invalid "namespace and name already exists")
            else
              err <- call (CS (Add c));;
              match err with
              | Some _ => Ret (Some {| AddConstraintResponse_Success := false |}, None)
              | None => Ret (Some {| AddConstraintResponse_Success := true |}, None)
              end
        end
  end.

Definition ConfigServer_RemoveConstraint (request : ptr RemoveConstraintRequest)
  : prog ServerE (ptr RemoveConstraintResponse * option error) :=
  let ns := RemoveConstraintRequest_GetNamespace request in
  let name := RemoveConstraintRequest_GetName request in
  if String.eqb ns "" || String.eqb name ""
  then Ret (None, invalid "required namespace or name is empty")
  else
    r <- call (CS (NamespaceAndNameExist ns name));;
    let '(found, err) := r in
    match err with
    | Some _ => Ret (None, internal)
    | None =>
        if negb found
        then Ret (Some {| RemoveConstraintResponse_Success := false |},
                  Some (StatusError NotFound "Constraint not found"))
        else
          err <- call (CS (RemoveByNamespaceAndName ns name));;
          match err with
          | Some _ => Ret (None, internal)
          | None => Ret (Some {| RemoveConstraintResponse_Success := true |}, None)
          end
    end.

(** ** Actions *)

Definition action_label_match (labels : slice (ptr Label)) (a : ptr Action) : bool :=
  match Action_GetSelector a, Selector_GetMatchLabels (Action_GetSelector a) with
  | None, _ => false
  | _, None => false
  | Some _, Some ms =>
      strset_IsSubset (set_of (Label_text <$> elems labels)) (set_of (MatchLabel_text <$> ms))
  end.

Definition ConfigServer_GetActions (request : ptr GetActionsRequest)
  : prog ServerE (ptr GetActionsResponse * option error) :=
  r <- (if String.eqb (GetActionsRequest_GetNamespace request) ""
        then call (AS GetAll)
        else call (AS (FindByNamespace (GetActionsRequest_GetNamespace request))));;
  let '(actions, err) := r in
  let matchedActions :=
    match GetActionsRequest_GetLabels request with
    | Some _ =>
        Some (List.filter (action_label_match (GetActionsRequest_GetLabels request))
                          (elems actions))
    | None => actions
    end in
  Ret (Some {| GetActionsResponse_Actions := matchedActions |}, None).

Definition ConfigServer_AddAction (request : ptr AddActionRequest)
  : prog ServerE (ptr AddActionResponse * option error) :=
  let a := AddActionRequest_GetAction request in
  match a with
  | None => Ret (None, invalid "required action is empty")
  | Some _ =>
      if String.eqb (Action_GetNamespace a) ""
      then Ret (None, invalid "required field is empty: namespace")
      else if String.eqb (Action_GetName a) ""
      then Ret (None, invalid "required field is empty: name")
      else
        r <- call (AS (NamespaceAndNameExist (Action_GetNamespace a) (Action_GetName a)));;
        let '(found, err) := r in
        match err with
        | Some _ => Ret (None, internal)
        | None =>
            if (found : bool) then Ret (None, invalid "namespace and name already exists")
            else
              err <- call (AS (Add a));;
              match err with
              | Some _ => Ret (Some {| AddActionResponse_Success := false |}, None)
              | None => Ret (Some {| AddActionResponse_Success := true |}, None)
              end
        end
  end.

Definition ConfigServer_RemoveAction (request : ptr RemoveActionRequest)
  : prog ServerE (ptr RemoveActionResponse * option error) :=
  let ns := RemoveActionRequest_GetNamespace request in
  let name := RemoveActionRequest_GetName request in
  if String.eqb ns "" || String.eqb name ""
  then Ret (None, invalid "required namespace or name is empty")
  else
    r <- call (AS (NamespaceAndNameExist ns name));;
    let '(found, err) := r in
    match err with
    | Some _ => Ret (None, internal)
    | None =>
        if negb found
        then Ret (Some {| RemoveActionResponse_Success := false |},
                  Some (StatusError NotFound "Action not found"))
        else
          err <- call (AS (RemoveByNamespaceAndName ns name));;
          match err with
          | Some _ => Ret (None, internal)
          | None => Ret (Some {| RemoveActionResponse_Success := true |}, None)
          end
    end.

(** ** The service *)

Definition answer {R} (p : prog ServerE (ptr R * option error))
  : prog ServerE (ptr R * option error) :=
  a <- p;; Ret (client_invoke a).

(** What a client's call runs on the server, and what the client gets. *)
Definition config_service : forall X, ConfigE X -> prog ServerE X := fun X e =>
  match e in ConfigE X return prog ServerE X with
  | GetConstraints r => answer (ConfigServer_GetConstraints (Some r))
  | AddConstraint r => answer (ConfigServer_AddConstraint (Some r))
  | RemoveConstraint r => answer (ConfigServer_RemoveConstraint (Some r))
  | AddAction r => answer (ConfigServer_AddAction (Some r))
  | GetActions r => answer (ConfigServer_GetActions (Some r))
  | RemoveAction r => answer (ConfigServer_RemoveAction (Some r))
  end.
End handlers.

(** * Contract of the two stores together *)

Section contract.
Context {S : Type} (h : handler ServerE S).
Context (cview : S -> list Constraint) (aview : S -> list Action).
Context (cnorm : Constraint -> Constraint) (anorm : Action -> Action).

Definition on_constraints : handler (StoreE Constraint) S := fun X e => h X (CS e).
Definition on_actions : handler (StoreE Action) S := fun X e => h X (AS e).

Class ServerLaws : Prop := {
  cs_laws :: StoreLaws on_constraints cview cnorm;
  as_laws :: StoreLaws on_actions aview anorm;
  cs_frame X (e : StoreE Constraint X) s : aview (h X (CS e) s).2 = aview s;
  as_frame X (e : StoreE Action X) s : cview (h X (AS e) s).2 = cview s;
}.
End contract.

(** Two in-memory stores. *)
Definition mem_server : handler ServerE (list Constraint * list Action) := fun X e =>
  match e in ServerE X return list Constraint * list Action -> X * (list Constraint * list Action) with
  | CS e => fun s => let '(x, c') := mem_store _ e s.1 in (x, (c', s.2))
  | AS e => fun s => let '(x, a') := mem_store _ e s.2 in (x, (s.1, a'))
  end.

#[export] Instance mem_server_laws : ServerLaws mem_server fst snd (fun x => x) (fun x => x).
Proof.
  split.
  - apply (StoreLaws_lens mem_store _ fst (fun s => s)); [|apply _].
    intros X e s. unfold on_constraints. simpl. by destruct (mem_store X e s.1).
  - apply (StoreLaws_lens mem_store _ snd (fun s => s)); [|apply _].
    intros X e s. unfold on_actions. simpl. by destruct (mem_store X e s.2).
  - intros X e s. simpl. by destruct (mem_store X e s.1).
  - intros X e s. simpl. by destruct (mem_store X e s.2).
Qed.

(** * Abstract specification of adding and removing *)

(** What an add request may do to the list of resources, and its answer. *)
Inductive add_spec {T} `{!Keyed T} (norm : T -> T) (x : T) (v v' : list T)
  : option bool * option error -> Prop :=
| add_no_namespace :
    (resource_key x).1 = "" -> v' = v ->
    add_spec norm x v v' (None, invalid "required field is empty: namespace")
| add_no_name :
    (resource_key x).1 <> "" -> (resource_key x).2 = "" -> v' = v ->
    add_spec norm x v v' (None, invalid "required field is empty: name")
| add_unknown :
    (resource_key x).1 <> "" -> (resource_key x).2 <> "" -> v' = v ->
    add_spec norm x v v' (None, internal)
| add_duplicate :
    (resource_key x).1 <> "" -> (resource_key x).2 <> "" -> v' = v ->
    resource_key x ∈ resource_key <$> v ->
    add_spec norm x v v' (None, invalid "namespace and name already exists")
| add_done :
    (resource_key x).1 <> "" -> (resource_key x).2 <> "" ->
    resource_key x ∉ resource_key <$> v ->
    resource_key (norm x) = resource_key x -> v' ≡ₚ norm x :: v ->
    add_spec norm x v v' (Some true, None)
| add_failed :
    (resource_key x).1 <> "" -> (resource_key x).2 <> "" ->
    resource_key x ∉ resource_key <$> v ->
    resource_key (norm x) = resource_key x -> v' ≡ₚ v \/ v' ≡ₚ norm x :: v ->
    add_spec norm x v v' (Some false, None).

(** The same for a remove request. *)
Inductive remove_spec {T} `{!Keyed T} (ns n msg : string) (v v' : list T)
  : option bool * option error -> Prop :=
| remove_invalid :
    ns = "" \/ n = "" -> v' = v ->
    remove_spec ns n msg v v' (None, invalid "required namespace or name is empty")
| remove_unknown :
    ns <> "" -> n <> "" -> v' ≡ₚ v \/ (exists x, resource_key x = (ns, n) /\ v ≡ₚ x :: v') ->
    remove_spec ns n msg v v' (None, internal)
| remove_missing :
    ns <> "" -> n <> "" -> (ns, n) ∉ resource_key <$> v -> v' = v ->
    remove_spec ns n msg v v' (Some false, Some (StatusError NotFound msg))
| remove_done x :
    ns <> "" -> n <> "" -> resource_key x = (ns, n) -> v ≡ₚ x :: v' ->
    remove_spec ns n msg v v' (Some true, None).

Definition unique_keys {T} `{!Keyed T} (v : list T) : Prop := NoDup (resource_key <$> v).

Section specs.
Context {T : Type} `{!Keyed T} (norm : T -> T).

Lemma unique_keys_perm (v v' : list T) : v' ≡ₚ v -> unique_keys v -> unique_keys v'.
Proof. unfold unique_keys. by intros ->. Qed.

Lemma unique_keys_cons (v v' : list T) x :
  v ≡ₚ x :: v' -> unique_keys v -> unique_keys v'.
Proof. unfold unique_keys. intros ->. rewrite fmap_cons. by intros [_ ?]%NoDup_cons. Qed.

Lemma unique_keys_add (v v' : list T) x :
  v' ≡ₚ norm x :: v -> resource_key (norm x) = resource_key x ->
  resource_key x ∉ resource_key <$> v -> unique_keys v -> unique_keys v'.
Proof. unfold unique_keys. intros -> Hk Hx Hv. rewrite fmap_cons, Hk. by constructor. Qed.

Lemma add_spec_unique x (v v' : list T) a :
  add_spec norm x v v' a -> unique_keys v -> unique_keys v'.
Proof.
  intros H Hv; destruct H; subst; try done.
  - by eapply unique_keys_add.
  - match goal with H : _ \/ _ |- _ => destruct H end;
      [by eapply unique_keys_perm|by eapply unique_keys_add].
Qed.

Lemma remove_spec_unique ns n msg (v v' : list T) a :
  remove_spec ns n msg v v' a -> unique_keys v -> unique_keys v'.
Proof.
  intros H Hv; destruct H; subst; try done.
  - match goal with H : _ \/ _ |- _ => destruct H as [?|(?&?&?)] end;
      [by eapply unique_keys_perm|by eapply unique_keys_cons].
  - by eapply unique_keys_cons.
Qed.

(** A resource that was just added and is the only one of its name is what
    a removal of that name takes away. *)
Lemma add_remove_spec x (v v1 v2 : list T) msg :
  add_spec norm x v v1 (Some true, None) ->
  remove_spec (resource_key x).1 (resource_key x).2 msg v1 v2 (Some true, None) ->
  v2 ≡ₚ v.
Proof.
  intros Ha Hr. inversion Ha as [| | | |_ _ Hx Hk Hv1|]; subst.
  inversion Hr as [| | |y _ _ Hy Hv2]; subst.
  assert (y = norm x) as ->.
  { assert (y ∈ norm x :: v) as [->|Hin]%elem_of_cons by (rewrite <- Hv1, Hv2; left); [done|].
    exfalso. apply Hx. rewrite (surjective_pairing (resource_key x)), <- Hy.
    by apply list_elem_of_fmap_2. }
  apply (Permutation_cons_inv (a := norm x)). by rewrite <- Hv1, Hv2.
Qed.
End specs.

(** * The shape the handlers share *)

(** Adding and removing, over one store. *)
Section shape.
Context {T : Type} `{!Keyed T}.

Definition add_resource (x : T) : prog (StoreE T) (option bool * option error) :=
  let '(ns, n) := resource_key x in
  if String.eqb ns "" then Ret (None, invalid "required field is empty: namespace")
  else if String.eqb n "" then Ret (None, invalid "required field is empty: name")
  else
    r <- call (NamespaceAndNameExist ns n);;
    match r with
    | (_, Some _) => Ret (None, internal)
    | (true, None) => Ret (None, invalid "namespace and name already exists")
    | (false, None) =>
        err <- call (Add (Some x));;
        match err with
        | Some _ => Ret (Some false, None)
        | None => Ret (Some true, None)
        end
    end.

Definition remove_resource (ns n msg : string) : prog (StoreE T) (option bool * option error) :=
  if String.eqb ns "" || String.eqb n ""
  then Ret (None, invalid "required namespace or name is empty")
  else
    r <- call (NamespaceAndNameExist ns n);;
    match r with
    | (_, Some _) => Ret (None, internal)
    | (false, None) => Ret (Some false, Some (StatusError NotFound msg))
    | (true, None) =>
        err <- call (RemoveByNamespaceAndName ns n);;
        match err with
        | Some _ => Ret (None, internal)
        | None => Ret (Some true, None)
        end
    end.

Context {S : Type} (h : handler (StoreE T) S) (view : S -> list T) (norm : T -> T).
Context `{HL : !StoreLaws h view norm}.

Lemma add_resource_spec x s : exists a s',
  run h (add_resource x) s = (Done a, s') /\ add_spec norm x (view s) (view s') a.
Proof using HL.
  unfold add_resource. destruct (resource_key x) as [ns n] eqn:Hk.
  destruct (String.eqb_spec ns "") as [He|Hne].
  { do 2 eexists. split; [done|]. apply add_no_namespace; by rewrite ?Hk. }
  destruct (String.eqb_spec n "") as [He|Hne'].
  { do 2 eexists. split; [done|]. apply add_no_name; by rewrite ?Hk. }
  simpl. destruct (h _ (NamespaceAndNameExist ns n) s) as [[found er] s1] eqn:H1.
  apply (exist_view h view norm) in H1 as [V1 E1]; [|done..].
  destruct er as [er|]; [destruct found; simpl|].
  1,2: do 2 eexists; split; [done|]; apply add_unknown; rewrite ?Hk; try done.
  destruct (E1 eq_refl) as [E2 K1]. clear E1. rename E2 into E1. specialize (K1 x Hk).
  unfold stored in E1. rewrite <- Hk in E1.
  destruct found; simpl.
  { do 2 eexists. split; [done|]. apply add_duplicate; try by rewrite ?Hk. by apply E1. }
  assert (resource_key x ∉ resource_key <$> view s) by (intros Hin; by apply E1 in Hin).
  destruct (h _ (Add (Some x)) s1) as [[er|] s2] eqn:H2; simpl;
    do 2 eexists; (split; [done|]); rewrite <- V1 in *.
  - apply (store_add_error h view norm) in H2. apply add_failed; first [done|by rewrite Hk].
  - apply (store_add h view norm) in H2. apply add_done; first [done|by rewrite Hk].
Qed.

Lemma remove_resource_spec ns n msg s : exists a s',
  run h (remove_resource ns n msg) s = (Done a, s') /\
  remove_spec ns n msg (view s) (view s') a.
Proof using HL.
  unfold remove_resource.
  destruct (String.eqb_spec ns "") as [He|Hne]; simpl.
  { do 2 eexists. split; [done|]. apply remove_invalid; auto. }
  destruct (String.eqb_spec n "") as [He|Hne']; simpl.
  { do 2 eexists. split; [done|]. apply remove_invalid; auto. }
  destruct (h _ (NamespaceAndNameExist ns n) s) as [[found er] s1] eqn:H1.
  apply (exist_view h view norm) in H1 as [V1 E1]; [|done..].
  destruct er as [er|]; [destruct found; simpl|].
  1,2: do 2 eexists; split; [done|]; apply remove_unknown; auto; left; by rewrite V1.
  destruct (E1 eq_refl) as [E2 _]. clear E1. rename E2 into E1. destruct found; simpl.
  2: { do 2 eexists. split; [done|]. apply remove_missing; auto. intros Hin.
       by apply E1 in Hin. }
  pose proof (proj1 E1 eq_refl) as Hin. unfold stored in Hin. rewrite <- V1 in Hin.
  destruct (h _ (RemoveByNamespaceAndName ns n) s1) as [[er|] s2] eqn:H2; simpl;
    do 2 eexists; (split; [done|]); rewrite <- V1 in *.
  - apply (store_remove_error h view norm) in H2; [|done..]. apply remove_unknown; auto.
    destruct H2 as [H2|H2]; [by left|right]. by apply removed_cases.
  - apply (store_remove h view norm) in H2; [|done..]. apply removed_cases in H2 as (x&Hx&Hp); [|done].
    by eapply remove_done.
Qed.
End shape.

(** * The handlers are these programs *)

(** Step both sides of an equation of runs through the same store answers. *)
Ltac same_calls :=
  simpl;
  repeat (match goal with
          | |- context [if String.eqb ?a ?b then _ else _] => destruct (String.eqb a b)
          | |- context [String.eqb ?a ?b || _] => destruct (String.eqb a b)
          | |- context [?h _ ?e ?s] =>
              lazymatch type of h with handler _ _ => destruct (h _ e s) as [[] ?] end
          | |- context [match ?x with _ => _ end] => is_var x; destruct x
          end; simpl); try done.

Section handlers_shape.
Context `{SS : StrSet} {S : Type} (h : handler ServerE S).
Context (cview : S -> list Constraint) (aview : S -> list Action).
Context (cnorm : Constraint -> Constraint) (anorm : Action -> Action).

Lemma AddConstraint_shape c s :
  run h (ConfigServer_AddConstraint (Some {| AddConstraintRequest_Constraint := Some c |})) s =
  match run (on_constraints h) (add_resource c) s with
  | (Done (b, e), s') => (Done (mkAddConstraintResponse <$> b, e), s')
  | (Crashed cr, s') => (Crashed cr, s')
  end.
Proof.
  unfold ConfigServer_AddConstraint, add_resource, resource_key, Constraint_keyed, on_constraints.
  same_calls.
Qed.

Lemma RemoveConstraint_shape ns n s :
  run h (ConfigServer_RemoveConstraint (Some (mkRemoveConstraintRequest ns n))) s =
  match run (on_constraints h) (remove_resource ns n "Constraint not found") s with
  | (Done (b, e), s') => (Done (mkRemoveConstraintResponse <$> b, e), s')
  | (Crashed cr, s') => (Crashed cr, s')
  end.
Proof.
  unfold ConfigServer_RemoveConstraint, remove_resource, on_constraints.
  same_calls.
Qed.

Lemma AddAction_shape a s :
  run h (ConfigServer_AddAction (Some {| AddActionRequest_Action := Some a |})) s =
  match run (on_actions h) (add_resource a) s with
  | (Done (b, e), s') => (Done (mkAddActionResponse <$> b, e), s')
  | (Crashed cr, s') => (Crashed cr, s')
  end.
Proof.
  unfold ConfigServer_AddAction, add_resource, resource_key, Action_keyed, on_actions.
  same_calls.
Qed.

Lemma RemoveAction_shape ns n s :
  run h (ConfigServer_RemoveAction (Some (mkRemoveActionRequest ns n))) s =
  match run (on_actions h) (remove_resource ns n "Action not found") s with
  | (Done (b, e), s') => (Done (mkRemoveActionResponse <$> b, e), s')
  | (Crashed cr, s') => (Crashed cr, s')
  end.
Proof.
  unfold ConfigServer_RemoveAction, remove_resource, on_actions.
  same_calls.
Qed.

Context `{HL : !ServerLaws h cview aview cnorm anorm}.

(** Programs over one store leave the other alone. *)
Lemma constraints_frame {A} (p : prog (StoreE Constraint) A) s :
  aview (run (on_constraints h) p s).2 = aview s.
Proof using HL.
  revert s. induction p as [a|X e k IH|c]; intros s; simpl; [done| |done].
  pose proof (cs_frame h cview aview cnorm anorm _ e s) as F. unfold on_constraints in *.
  destruct (h X (CS e) s) as [x s']. simpl in F. by rewrite IH.
Qed.

Lemma actions_frame {A} (p : prog (StoreE Action) A) s :
  cview (run (on_actions h) p s).2 = cview s.
Proof using HL.
  revert s. induction p as [a|X e k IH|c]; intros s; simpl; [done| |done].
  pose proof (as_frame h cview aview cnorm anorm _ e s) as F. unfold on_actions in *.
  destruct (h X (AS e) s) as [x s']. simpl in F. by rewrite IH.
Qed.
End handlers_shape.

(** * Reading *)

Section reads.
Context `{SS : StrSet} {S : Type} (h : handler ServerE S).
Context (cview : S -> list Constraint) (aview : S -> list Action).
Context (cnorm : Constraint -> Constraint) (anorm : Action -> Action).
Context `{HL : !ServerLaws h cview aview cnorm anorm}.

(** What the store answers to the read the handler makes: the resources of
    the namespace on success, nothing on failure; the state is kept. *)
Definition in_namespace {T} `{!Keyed T} (ns : string) (x : T) : Prop :=
  ns = "" \/ (resource_key x).1 = ns.

Lemma store_read_spec {T} `{!Keyed T} (g : handler (StoreE T) S) view norm
    `{!StoreLaws g view norm} ns s l er s' :
  g _ (if String.eqb ns "" then GetAll else FindByNamespace ns) s = ((l, er), s') ->
  view s' = view s /\
  (er = None -> forall x, x ∈ elems l <-> exists y, x = Some y /\ y ∈ view s /\ in_namespace ns y) /\
  (er <> None -> l = None).
Proof.
  unfold in_namespace. destruct (String.eqb_spec ns "") as [->|Hne]; intros Hg.
  - split_and!; [refine (read_view g view norm _ _ _ _ _ _ Hg); done| |].
    + intros ->. apply (store_getall g view norm) in Hg. intros x. rewrite Hg, list_elem_of_fmap.
      naive_solver.
    + destruct er as [er|]; [|done]. intros _. by eapply (store_getall_error g view norm).
  - split_and!; [refine (read_view g view norm _ _ _ _ _ _ Hg); done| |].
    + intros ->. apply (store_find g view norm) in Hg; [|done]. intros x. rewrite Hg, list_elem_of_fmap.
      setoid_rewrite list_elem_of_filter. naive_solver.
    + destruct er as [er|]; [|done]. intros _. by eapply (store_find_error g view norm).
Qed.

Lemma GetConstraints_run ns ls s :
  run h (ConfigServer_GetConstraints (Some (mkGetConstraintsRequest ns ls))) s =
  let '((constraints, err), s') :=
    on_constraints h _ (if String.eqb ns "" then GetAll else FindByNamespace ns) s in
  (Done (Some (mkGetConstraintsResponse
     (match ls with
      | Some _ => Some (List.filter (constraint_label_match ls) (elems constraints))
      | None => constraints
      end)), None), s').
Proof.
  unfold ConfigServer_GetConstraints, on_constraints. same_calls.
Qed.

(** A constraint's selector picks the given labels: it has match labels and
    each of them is among the labels. *)
Definition constraint_selects (labels : list (string * string)) (c : Constraint) : Prop :=
  exists ms, Selector_GetMatchLabels (Constraint_Selector c) = Some ms /\ selected ms labels.

Definition request_labels (ls : list (ptr Label)) : list (string * string) :=
  (fun l => (Label_GetKey l, Label_GetValue l)) <$> ls.

(** Keys of the constraint's match labels are free of '='. *)
Definition constraint_keys_ok (c : Constraint) : Prop :=
  keys_ok (MatchLabel_GetKey <$> elems (Selector_GetMatchLabels (Constraint_Selector c))).

Lemma constraint_label_match_spec `{!StrSetLaws SS} ls c :
  keys_ok (Label_GetKey <$> ls) -> constraint_keys_ok c ->
  constraint_label_match (Some ls) (Some c) = true <->
  constraint_selects (request_labels ls) c.
Proof.
  intros Hls Hc. unfold constraint_label_match, constraint_selects, constraint_keys_ok in *.
  simpl in *. destruct (Constraint_Selector c) as [[[ms|]]|]; simpl in *.
  - assert (Label_text <$> ls =
            (fun kv => label_text kv.1 kv.2) <$> request_labels ls) as ->.
    { unfold request_labels. by rewrite <- list_fmap_compose. }
    rewrite subset_selected; [|done|].
    + naive_solver.
    + unfold request_labels. by rewrite <- list_fmap_compose.
  - naive_solver.
  - naive_solver.
Qed.
End reads.

(** * Client programs *)

Section clients.
Context `{SS : StrSet} {S : Type} (h : handler ServerE S).
Context (cview : S -> list Constraint) (aview : S -> list Action).
Context (cnorm : Constraint -> Constraint) (anorm : Action -> Action).
Context `{HL : !ServerLaws h cview aview cnorm anorm}.

Lemma run_answer {R} (p : prog ServerE (ptr R * option error)) s :
  run h (answer p) s =
  match run h p s with
  | (Done a, s') => (Done (client_invoke a), s')
  | (Crashed c, s') => (Crashed c, s')
  end.
Proof. unfold answer. by rewrite run_bind. Qed.

Definition unique_state (s : S) : Prop := unique_keys (cview s) /\ unique_keys (aview s).

Lemma service_keeps_unique X (e : ConfigE X) s :
  unique_state s ->
  exists x, (run h (config_service X e) s).1 = Done x /\
            unique_state (run h (config_service X e) s).2.
Proof using HL.
  unfold unique_state. intros [Hc Ha].
  destruct e as [[ns ls]|[[c|]]|[ns n]|[[a|]]|[ns ls]|[ns n]];
    cbn [config_service]; rewrite run_answer.
  - rewrite GetConstraints_run.
    pose proof (cs_frame h cview aview cnorm anorm _
                  (if String.eqb ns "" then GetAll else FindByNamespace ns) s) as F.
    unfold on_constraints. destruct (h _ (CS _) s) as [[l er] s'] eqn:Hh. simpl in *.
    apply (store_read_spec (on_constraints h) cview cnorm) in Hh as [-> _].
    rewrite F. eauto.
  - rewrite AddConstraint_shape.
    destruct (add_resource_spec (on_constraints h) cview cnorm c s) as ([b er]&s'&Hr&Hsp).
    pose proof (constraints_frame h cview aview cnorm anorm (add_resource c) s) as F.
    rewrite Hr in *. simpl in *. rewrite F. eexists; split_and!; [done| |done].
    by eapply add_spec_unique.
  - simpl. eauto.
  - rewrite RemoveConstraint_shape.
    destruct (remove_resource_spec (on_constraints h) cview cnorm ns n
                "Constraint not found" s) as ([b er]&s'&Hr&Hsp).
    pose proof (constraints_frame h cview aview cnorm anorm
                  (remove_resource ns n "Constraint not found") s) as F.
    rewrite Hr in *. simpl in *. rewrite F. eexists; split_and!; [done| |done].
    by eapply remove_spec_unique.
  - rewrite AddAction_shape.
    destruct (add_resource_spec (on_actions h) aview anorm a s) as ([b er]&s'&Hr&Hsp).
    pose proof (actions_frame h cview aview cnorm anorm (add_resource a) s) as F.
    rewrite Hr in *. simpl in *. rewrite F. eexists; split_and!; [done|done|].
    by eapply add_spec_unique.
  - simpl. eauto.
  - unfold ConfigServer_GetActions. simpl.
    pose proof (as_frame h cview aview cnorm anorm _
                  (if String.eqb ns "" then GetAll else FindByNamespace ns) s) as F.
    pose proof (store_read_spec (on_actions h) aview anorm ns s) as V.
    unfold on_actions in V. destruct (String.eqb ns ""); simpl in *;
      destruct (h _ _ s) as [[l er] s'] eqn:Hh; simpl in *;
      destruct (V _ _ _ eq_refl) as [-> _]; rewrite F; eauto.
  - rewrite RemoveAction_shape.
    destruct (remove_resource_spec (on_actions h) aview anorm ns n
                "Action not found" s) as ([b er]&s'&Hr&Hsp).
    pose proof (actions_frame h cview aview cnorm anorm
                  (remove_resource ns n "Action not found") s) as F.
    rewrite Hr in *. simpl in *. rewrite F. eexists; split_and!; [done|done|].
    by eapply remove_spec_unique.
Qed.
End clients.

(** * Properties *)

Section properties.
Context `{SS : StrSet} {S : Type} (h : handler ServerE S).
Context (cview : S -> list Constraint) (aview : S -> list Action).
Context (cnorm : Constraint -> Constraint) (anorm : Action -> Action).
Context `{HL : !ServerLaws h cview aview cnorm anorm}.

(** C6. Whatever sequence of Config calls a client program makes, with
    store failures in between, the server never leaves two constraints or
    two actions with the same namespace and name. *)
Theorem clients_keep_keys_unique {A} (p : prog ConfigE A) s :
  unique_state cview aview s ->
  unique_state cview aview (run h (interp config_service p) s).2.
Proof using HL.
  apply interp_invariant. intros X e s'. by apply (service_keeps_unique h cview aview cnorm anorm).
Qed.

(** C18. AddConstraint implements its specification on every branch: it
    answers; the empty namespace, the empty name and the duplicate are
    refused with InvalidArgument and no change; a store that cannot be asked
    gives Internal; otherwise the constraint is stored, or the answer says
    it was not; actions are untouched. *)
Theorem AddConstraint_refines c s : exists r er s',
  run h (ConfigServer_AddConstraint
           (Some {| AddConstraintRequest_Constraint := Some c |})) s = (Done (r, er), s') /\
  add_spec cnorm c (cview s) (cview s') (AddConstraintResponse_Success <$> r, er) /\
  aview s' = aview s.
Proof using HL.
  rewrite AddConstraint_shape.
  destruct (add_resource_spec (on_constraints h) cview cnorm c s) as ([b er]&s'&Hr&Hsp).
  pose proof (constraints_frame h cview aview cnorm anorm (add_resource c) s) as F.
  rewrite Hr in *. do 3 eexists. split_and!; [done| |done]. by destruct b.
Qed.

(** C24. RemoveConstraint implements its specification on every branch, and
    leaves the actions alone. *)
Theorem RemoveConstraint_refines ns n s : exists r er s',
  run h (ConfigServer_RemoveConstraint (Some (mkRemoveConstraintRequest ns n))) s =
    (Done (r, er), s') /\
  remove_spec ns n "Constraint not found" (cview s) (cview s')
    (RemoveConstraintResponse_Success <$> r, er) /\
  aview s' = aview s.
Proof using HL.
  rewrite RemoveConstraint_shape.
  destruct (remove_resource_spec (on_constraints h) cview cnorm ns n
              "Constraint not found" s) as ([b er]&s'&Hr&Hsp).
  pose proof (constraints_frame h cview aview cnorm anorm
                (remove_resource ns n "Constraint not found") s) as F.
  rewrite Hr in *. do 3 eexists. split_and!; [done| |done]. by destruct b.
Qed.

(** Adding an action and then removing it by its namespace and name,
    both reported successful, gives the store its actions back. *)
Lemma AddAction_RemoveAction a s s1 s2 :
  run h (ConfigServer_AddAction (Some {| AddActionRequest_Action := Some a |})) s =
    (Done (Some (mkAddActionResponse true), None), s1) ->
  run h (ConfigServer_RemoveAction
           (Some (mkRemoveActionRequest (Action_Namespace a) (Action_Name a)))) s1 =
    (Done (Some (mkRemoveActionResponse true), None), s2) ->
  aview s2 ≡ₚ aview s /\ cview s2 = cview s.
Proof using HL.
  rewrite AddAction_shape, RemoveAction_shape. intros Ha Hr.
  destruct (add_resource_spec (on_actions h) aview anorm a s) as ([b er]&s1'&Ha'&Hsa).
  pose proof (actions_frame h cview aview cnorm anorm (add_resource a) s) as Fa.
  rewrite Ha' in Ha, Fa. simpl in *.
  destruct b as [[]|]; simplify_eq/=.
  destruct (remove_resource_spec (on_actions h) aview anorm (Action_Namespace a)
              (Action_Name a) "Action not found" s1) as ([b er]&s2'&Hr'&Hsr).
  pose proof (actions_frame h cview aview cnorm anorm
                (remove_resource (Action_Namespace a) (Action_Name a) "Action not found") s1) as Fr.
  rewrite Hr' in Hr, Fr. simpl in *. destruct b as [[]|]; simplify_eq/=.
  split; [|congruence]. by eapply (add_remove_spec anorm a).
Qed.

(** C23. GetConstraints with labels returns, when the store answers, exactly
    the stored constraints of the requested namespace (all of them when it
    is empty) that have match labels and whose match labels are all among
    the request's labels, label keys being free of '='. *)
Theorem GetConstraints_exact `{!StrSetLaws SS} ns ls s s' l er :
  keys_ok (Label_GetKey <$> ls) ->
  Forall constraint_keys_ok (cview s) ->
  on_constraints h _ (if String.eqb ns "" then GetAll else FindByNamespace ns) s =
    ((l, er), s') -> er = None ->
  exists matched,
    run h (ConfigServer_GetConstraints (Some (mkGetConstraintsRequest ns (Some ls)))) s =
      (Done (Some (mkGetConstraintsResponse (Some matched)), None), s') /\
    cview s' = cview s /\
    forall x, x ∈ matched <->
      exists c, x = Some c /\ c ∈ cview s /\ in_namespace ns c /\
                constraint_selects (request_labels ls) c.
Proof using HL.
  intros Hls Hcs Hh ->. rewrite GetConstraints_run, Hh.
  apply (store_read_spec (on_constraints h) cview cnorm) in Hh as (HV & HE & _).
  specialize (HE eq_refl). eexists. split_and!; [done|done|]. intros x.
  rewrite list_elem_of_In, filter_In, <- list_elem_of_In, HE. split.
  - intros [(c&->&Hc&Hn) Hm]. exists c. split_and!; try done.
    apply constraint_label_match_spec in Hm; [done|done|].
    by eapply Forall_forall in Hcs.
  - intros (c&->&Hc&Hn&Hm). split; [eauto|].
    apply constraint_label_match_spec; [done| |done]. by eapply Forall_forall in Hcs.
Qed.

(** When the store fails, GetConstraints hides it: it answers with no
    constraint and no error, and that is what the client's stub passes on. *)
Lemma GetConstraints_hides_store_error ns ls s s' l er :
  on_constraints h _ (if String.eqb ns "" then GetAll else FindByNamespace ns) s =
    ((l, Some er), s') ->
  exists cs,
    (run h (config_service _ (GetConstraints (mkGetConstraintsRequest ns ls))) s).1 =
      Done (Some (mkGetConstraintsResponse cs), None) /\
    elems cs = [].
Proof using HL.
  intros Hh. cbn [config_service]. rewrite run_answer, GetConstraints_run, Hh.
  apply (store_read_spec (on_constraints h) cview cnorm) in Hh as (_ & _ & ->); [|done].
  eexists. split; [done|]. by destruct ls.
Qed.
End properties.

(** * Interleaved requests *)

(** Store calls that put only named resources in a namespace in the store. *)
Definition well_named {X} (e : ServerE X) : Prop :=
  match e with
  | CS (Add (Some c)) => Constraint_Namespace c <> "" /\ Constraint_Name c <> ""
  | AS (Add (Some a)) => Action_Namespace a <> "" /\ Action_Name a <> ""
  | CS (Add None) | AS (Add None) => False
  | _ => True
  end.

Lemma service_well_named `{SS : StrSet} X (e : ConfigE X) (Q : outcome X -> Prop) :
  (forall x, Q (Done x)) ->
  sat (fun _ e => well_named e) (fun _ _ _ => True) Q (config_service X e).
Proof.
  intros HQ. destruct e as [[ns ls]|[[c|]]|[ns n]|[[a|]]|[ns ls]|[ns n]];
    cbn [config_service]; unfold answer, ConfigServer_GetConstraints, ConfigServer_AddConstraint,
      ConfigServer_RemoveConstraint, ConfigServer_GetActions, ConfigServer_AddAction,
      ConfigServer_RemoveAction; simpl;
    repeat (match goal with
            | |- Q (Done _) => apply HQ
            | |- True => done
            | |- _ /\ _ => split
            | |- forall x, True -> _ => intros ? _
            | |- _ <> "" => to_prop; done
            | |- context [match ?x with _ => _ end] => destruct x eqn:?
            end; simpl).
Qed.

Definition well_named_state (s : list Constraint * list Action) : Prop :=
  Forall (fun c => Constraint_Namespace c <> "" /\ Constraint_Name c <> "") s.1 /\
  Forall (fun a => Action_Namespace a <> "" /\ Action_Name a <> "") s.2.

Lemma remove_first_sub {T} `{!Keyed T} k (l : list T) (P : T -> Prop) :
  Forall P l -> Forall P (remove_first k l).
Proof.
  induction 1 as [|x l Hx Hl IH]; simpl; [done|]. case_decide; [done|by constructor].
Qed.

Lemma mem_server_well_named X (e : ServerE X) s :
  well_named_state s -> well_named e -> well_named_state (mem_server X e s).2.
Proof.
  unfold well_named_state. destruct s as [cs acts]. intros [Hc Ha] He.
  destruct e as [X e|X e]; destruct e as [| | |[x|]|]; simpl in *;
    auto using remove_first_sub, Forall_app_2.
Qed.

(** A request on the server, its answer dropped. *)
Definition in_flight `{SS : StrSet} (e : {X : Type & ConfigE X}) : prog ServerE unit :=
  bind (config_service (projT1 e) (projT2 e)) (fun _ => Ret tt).

(** However the calls of any number of concurrent Config requests
    interleave on the store, no constraint or action with an empty namespace
    or an empty name is ever stored. *)
Lemma interleaved_requests_keep_names `{SS : StrSet} (es : list {X : Type & ConfigE X}) ps s s' :
  well_named_state s ->
  rtc (pool_step mem_server) (in_flight <$> es, s) (ps, s') ->
  well_named_state s'.
Proof.
  intros Hs Hst.
  apply (pool_invariant mem_server (fun _ e => well_named e) (fun _ _ _ => True)
           (fun _ => True) well_named_state _ _) in Hst as [_ H]; [done| | |done].
  - intros X e s0 Hs0 He. split; [done|]. by apply mem_server_well_named.
  - simpl. apply Forall_fmap, Forall_forall. intros [X e] _. simpl.
    apply sat_bind. by apply service_well_named.
Qed.

(** ** Overlapping additions of one name *)

Section overlap.
Context `{SS : StrSet} {S : Type} (h : handler ServerE S).
Context (cview : S -> list Constraint) (aview : S -> list Action).
Context (cnorm : Constraint -> Constraint) (anorm : Action -> Action).
Context `{HL : !ServerLaws h cview aview cnorm anorm}.

Definition add_answer : Type := ptr AddConstraintResponse * option error.

Definition add_request (c : Constraint) : prog ServerE add_answer :=
  ConfigServer_AddConstraint (Some (mkAddConstraintRequest (Some c))).

(** A request past its existence check. *)
Definition unchecked_add (c : Constraint) : prog ServerE add_answer :=
  err <- call (CS (Add (Some c)));;
  match err with
  | Some _ => Ret (Some {| AddConstraintResponse_Success := false |}, None)
  | None => Ret (Some {| AddConstraintResponse_Success := true |}, None)
  end.

Definition add_succeeds : prog ServerE add_answer := Ret (Some (mkAddConstraintResponse true), None).

Definition add_refused : prog ServerE add_answer :=
  Ret (None, invalid "namespace and name already exists").

Context (ns n : string) (Hns : ns <> "") (Hn : n <> "").

(** Constraints of one name. *)
Definition all_named (cs : list Constraint) : Prop := Forall (fun c => resource_key c = (ns, n)) cs.

Lemma add_request_checks c :
  resource_key c = (ns, n) ->
  add_request c = Vis (CS (NamespaceAndNameExist ns n)) (fun r =>
    let '(found, err) := r in
    match err with
    | Some _ => Ret (None, internal)
    | None => if (found : bool) then add_refused else unchecked_add c
    end).
Proof using Hns Hn.
  destruct c as [k ns' n' sel ps fs]. intros [= -> ->].
  unfold add_request, ConfigServer_AddConstraint. cbn.
  apply String.eqb_neq in Hns as ->. apply String.eqb_neq in Hn as ->. reflexivity.
Qed.

(** The store answers the check of that name. *)
Context (Hcheck : forall s, (h _ (CS (NamespaceAndNameExist ns n)) s).1.2 = None).

(** Requests next to others [l] and [r] make their checks one after the
    other: all find the name, or none does. *)
Lemma checks_run (found : bool) cs l r s :
  all_named cs -> (found = true <-> stored cview s ns n) -> exists s',
    rtc (pool_step h) (l ++ (add_request <$> cs) ++ r, s)
      (l ++ ((fun c => if found then add_refused else unchecked_add c) <$> cs) ++ r, s') /\
    cview s' = cview s.
Proof using Hns Hn Hcheck HL.
  intros Hcs. revert l s. induction Hcs as [|c cs Hc _ IH]; intros l s Hf; [by exists s|].
  destruct (h _ (CS (NamespaceAndNameExist ns n)) s) as [[f err] s1] eqn:Hh.
  pose proof (Hcheck s) as Herr. rewrite Hh in Herr. cbn in Herr. subst err.
  destruct (exist_view (on_constraints h) cview cnorm ns n s f None s1 Hns Hn Hh) as [Hv Hf'].
  destruct (Hf' eq_refl) as [Hfound _]. clear Hf'.
  assert (f = found) as -> by (apply eq_true_iff_eq; by rewrite Hfound).
  destruct (IH (l ++ [if found then add_refused else unchecked_add c]) s1) as (s'&Hr&Hv').
  { unfold stored. by rewrite Hv. }
  exists s'. split; [|congruence]. rewrite <- !app_assoc in Hr. eapply rtc_l; [|exact Hr].
  eapply eq_ind; [apply (pool_call h _ (length l))|].
  - cbn [fmap list_fmap app]. rewrite list_lookup_middle by done. by rewrite (add_request_checks c Hc).
  - rewrite Hh. cbn [fst snd]. by rewrite insert_app_r_alt, Nat.sub_diag by lia.
Qed.

Lemma inserts_run cs l r s :
  (forall c s, c ∈ cs -> (h _ (CS (Add (Some c))) s).1 = None) -> exists s',
    rtc (pool_step h) (l ++ (unchecked_add <$> cs) ++ r, s)
      (l ++ replicate (length cs) add_succeeds ++ r, s') /\
    cview s' ≡ₚ (cnorm <$> cs) ++ cview s.
Proof using HL.
  revert l s. induction cs as [|c cs IH]; intros l s Hadd; [by exists s|].
  pose proof (Hadd c s ltac:(left)) as Herr.
  destruct (h _ (CS (Add (Some c))) s) as [err s1] eqn:Hh. cbn in Herr. subst err.
  pose proof (store_add (on_constraints h) cview cnorm c s s1 Hh) as Hv.
  destruct (IH (l ++ [add_succeeds]) s1) as (s'&Hr&Hv'); [by intros c' s' Hc; apply Hadd; right|].
  exists s'. split.
  - rewrite <- !app_assoc in Hr. eapply rtc_l; [|exact Hr].
    eapply eq_ind; [apply (pool_call h _ (length l)); cbn [fmap list_fmap app]; by rewrite list_lookup_middle by done|].
    rewrite Hh. cbn [fst snd]. by rewrite insert_app_r_alt, Nat.sub_diag by lia.
  - rewrite Hv', Hv, <- Permutation_middle. done.
Qed.

(** C40. The existence check and the insertion are two store calls, so names
    are not unique when requests overlap.  On any store that answers the check
    of a name and takes new constraints, whatever it holds besides, and for any
    requests to add constraints of one name that is free: however they are
    split into a first part [a], not empty, and a rest [b], they can interleave
    so that every request of [a] succeeds and stores its constraint, and every
    request of [b] is refused as a duplicate.  The names stay unique exactly
    when [a] is one request. *)
Theorem overlapping_adds_duplicate a b s :
  a <> [] -> all_named (a ++ b) -> (ns, n) ∉ resource_key <$> cview s ->
  (forall c s, c ∈ a -> (h _ (CS (Add (Some c))) s).1 = None) ->
  exists s',
    rtc (pool_step h) (add_request <$> a ++ b, s)
      (replicate (length a) add_succeeds ++ replicate (length b) add_refused, s') /\
    cview s' ≡ₚ (cnorm <$> a) ++ cview s /\
    Forall (fun c => resource_key (cnorm c) = (ns, n)) a /\
    (unique_keys (cview s) -> unique_keys (cview s') <-> length a = 1).
Proof using Hns Hn Hcheck HL.
  intros Ha [Hna Hnb]%Forall_app Hfree Hadd.
  destruct (checks_run false a [] (add_request <$> b) s Hna) as (s1&Hr1&Hv1); [by split|].
  destruct (inserts_run a [] (add_request <$> b) s1 Hadd) as (s2&Hr2&Hv2). rewrite Hv1 in Hv2.
  assert (Forall (fun c => resource_key (cnorm c) = (ns, n)) a) as Hkeys.
  { eapply Forall_impl; [exact Hna|]. intros c Hc.
    destruct (h _ (CS (NamespaceAndNameExist ns n)) s) as [[found err] s3] eqn:Hh.
    pose proof (Hcheck s) as Herr. rewrite Hh in Herr. cbn in Herr. subst err.
    exact (norm_key (on_constraints h) cview cnorm ns n s found s3 c Hh Hc). }
  assert (stored cview s2 ns n) as Hst.
  { unfold stored. rewrite Hv2. destruct Hkeys as [|c a Hc _]; [done|]. cbn. rewrite Hc. left. }
  destruct (checks_run true b (replicate (length a) add_succeeds) [] s2 Hnb) as (s'&Hr3&Hv3); [done|].
  rewrite !app_nil_r, (const_fmap (fun _ => add_refused) b add_refused) in Hr3 by done.
  exists s'. split_and!; [|by rewrite Hv3|done|].
  { rewrite fmap_app. etrans; [exact Hr1|]. etrans; [exact Hr2|exact Hr3]. }
  intros Hu. rewrite Hv3. unfold unique_keys. rewrite Hv2, fmap_app, NoDup_app.
  destruct Hkeys as [|c a Hc Hkeys]; [done|]. destruct Hkeys as [|c' a Hc' _]; cbn; rewrite ?Hc, ?Hc'.
  - split; [done|]. intros _. split_and!; [apply NoDup_singleton| |done].
    by intros k ->%list_elem_of_singleton.
  - split; [|done]. intros [Hd _]. apply NoDup_cons in Hd as [Hd _]. destruct Hd. left.
Qed.
End overlap.

(** * The theorems at concrete inputs *)

Definition nginx : Constraint := mkConstraint KindConstraint "default" "nginx" None None None.

Definition redis : Constraint :=
  mkConstraint KindConstraint "default" "redis"
    (Some (mkSelector (Some [Some (mkMatchLabel "run" "redis")]))) None None.

Definition kill : Action :=
  mkAction KindAction "default" "kill" None true false false 0%Z "delete-pod".

Definition add_nginx_twice : prog ConfigE unit :=
  call (AddConstraint (mkAddConstraintRequest (Some nginx)));;;
  call (AddConstraint (mkAddConstraintRequest (Some nginx)));;;
  Ret tt.

Lemma clients_keep_keys_unique_witness :
  unique_state fst snd ([], []) /\
  unique_state fst snd (run mem_server (interp config_service add_nginx_twice) ([], [])).2.
Proof.
  assert (unique_state fst snd ([], [])) as H0 by (split; constructor).
  split; [exact H0|].
  exact (clients_keep_keys_unique mem_server fst snd (fun x => x) (fun x => x) add_nginx_twice _ H0).
Defined.

Lemma AddConstraint_refines_witness : exists r er s',
  run mem_server (ConfigServer_AddConstraint
           (Some {| AddConstraintRequest_Constraint := Some nginx |})) ([], []) = (Done (r, er), s') /\
  add_spec (fun x => x) nginx [] s'.1 (AddConstraintResponse_Success <$> r, er) /\ s'.2 = [].
Proof. exact (AddConstraint_refines mem_server fst snd (fun x => x) (fun x => x) nginx ([], [])). Defined.

Lemma RemoveConstraint_refines_witness : exists r er s',
  run mem_server (ConfigServer_RemoveConstraint
           (Some (mkRemoveConstraintRequest "default" "nginx"))) ([nginx], []) = (Done (r, er), s') /\
  remove_spec "default" "nginx" "Constraint not found" [nginx] s'.1
    (RemoveConstraintResponse_Success <$> r, er) /\ s'.2 = [].
Proof.
  exact (RemoveConstraint_refines mem_server fst snd (fun x => x) (fun x => x)
           "default" "nginx" ([nginx], [])).
Defined.

Lemma AddAction_RemoveAction_witness : exists s1 s2 : list Constraint * list Action,
  run mem_server (ConfigServer_AddAction (Some {| AddActionRequest_Action := Some kill |})) ([nginx], []) =
    (Done (Some (mkAddActionResponse true), None), s1) /\ s1.2 = [kill] /\
  s2.2 ≡ₚ [] /\ s2.1 = [nginx].
Proof.
  exists ([nginx], [kill]), ([nginx], []). split_and!; [reflexivity|reflexivity|..].
  all: apply (AddAction_RemoveAction mem_server fst snd (fun x => x) (fun x => x)
                kill ([nginx], []) ([nginx], [kill])); reflexivity.
Defined.

Lemma GetConstraints_exact_witness : exists matched,
  run mem_server (ConfigServer_GetConstraints
     (Some (mkGetConstraintsRequest "default" (Some [Some (mkLabel "run" "redis")]))))
     ([nginx; redis], []) =
    (Done (Some (mkGetConstraintsResponse (Some matched)), None), ([nginx; redis], [])) /\
  Some redis ∈ matched.
Proof.
  destruct (GetConstraints_exact mem_server fst snd (fun x => x) (fun x => x) "default"
              [Some (mkLabel "run" "redis")] ([nginx; redis], []) ([nginx; redis], [])
              (Some [Some nginx; Some redis]) None) as (m&Hm&_&H).
  - by repeat constructor.
  - by repeat constructor.
  - reflexivity.
  - reflexivity.
  - exists m. split; [exact Hm|]. apply H. exists redis. split_and!.
    + reflexivity.
    + right. left.
    + right. reflexivity.
    + eexists. split; [reflexivity|]. intros x Hx. apply list_elem_of_singleton in Hx as ->.
      simpl. left.
Defined.

(** A server whose store is unreachable. *)
Definition broken_server : handler ServerE (list Constraint * list Action) := fun X e =>
  let er := PlainError "unreachable" in
  match e in ServerE X return list Constraint * list Action -> X * (list Constraint * list Action) with
  | CS e => fun s =>
      (match e in StoreE _ X return X with
       | GetAll => (None, Some er) | FindByNamespace _ => (None, Some er)
       | NamespaceAndNameExist _ _ => (false, Some er)
       | Add _ => Some er | RemoveByNamespaceAndName _ _ => Some er
       end, s)
  | AS e => fun s =>
      (match e in StoreE _ X return X with
       | GetAll => (None, Some er) | FindByNamespace _ => (None, Some er)
       | NamespaceAndNameExist _ _ => (false, Some er)
       | Add _ => Some er | RemoveByNamespaceAndName _ _ => Some er
       end, s)
  end.

#[export] Instance broken_server_laws : ServerLaws broken_server fst snd (fun x => x) (fun x => x).
Proof.
  split; [| |intros X e s; by destruct e|intros X e s; by destruct e].
  all: split; try done; try (intros X e s; by destruct e);
    unfold on_constraints, on_actions; simpl; intros; simplify_eq/=; auto.
Qed.

Lemma GetConstraints_hides_store_error_witness : exists cs,
  (run broken_server (config_service _ (GetConstraints (mkGetConstraintsRequest "" None)))
     ([nginx], [])).1 = Done (Some (mkGetConstraintsResponse cs), None) /\ elems cs = [].
Proof.
  apply (GetConstraints_hides_store_error broken_server fst snd (fun x => x) (fun x => x)
           "" None ([nginx], []) ([nginx], []) None (PlainError "unreachable")).
  reflexivity.
Defined.

Definition two_add_calls : list {X : Type & ConfigE X} :=
  replicate 2 (existT _ (AddConstraint (mkAddConstraintRequest (Some nginx)))).

Lemma interleaved_requests_keep_names_witness : exists ps s',
  rtc (pool_step mem_server) (in_flight <$> two_add_calls, ([], [])) (ps, s') /\
  s' = ([nginx; nginx], []) /\ well_named_state s'.
Proof.
  pose proof (run_schedule_reach mem_server [0; 1; 0; 1]
                (in_flight <$> two_add_calls, ([], []))) as H.
  assert (well_named_state ([], [])) as H0 by (split; constructor).
  destruct (run_schedule mem_server [0; 1; 0; 1] _) as [ps s'] eqn:Hrun.
  exists ps, s'. split; [exact H|]. split.
  - vm_compute in Hrun. by injection Hrun.
  - exact (interleaved_requests_keep_names two_add_calls ps ([], []) s' H0 H).
Defined.

(** Three versions of one constraint: two succeed, the third is refused. *)
Lemma overlapping_adds_duplicate_witness : exists s',
  rtc (pool_step mem_server) (add_request <$> [nginx; nginx] ++ [nginx], ([redis], []))
    (replicate 2 add_succeeds ++ replicate 1 add_refused, s') /\
  s'.1 ≡ₚ [nginx; nginx; redis] /\ ~ unique_keys s'.1.
Proof.
  destruct (overlapping_adds_duplicate mem_server fst snd (fun x => x) (fun x => x) "default" "nginx"
    ltac:(done) ltac:(done) ltac:(done) [nginx; nginx] [nginx] ([redis], [])) as (s'&Hr&Hv&_&Hu).
  - done.
  - by repeat constructor.
  - by intros [?|?%elem_of_nil]%elem_of_cons.
  - done.
  - exists s'. split; [exact Hr|]. split; [exact Hv|]. intros H.
    apply Hu in H; [done|]. apply NoDup_singleton.
Defined.
