(* ===== verification/Dgraph.v ===== *)
(** Dgraph as the stores use it ([github.com/dgraph-io/dgo]): query texts with
    variables, mutations, and upserts.  Dgraph itself is a parameter; what its
    documentation promises about such calls is a class of laws over the nodes
    it holds, each query text being given with its meaning.  A Dgraph in
    memory that answers any list of such texts satisfies the laws.

    Timeouts are errors a call may answer. *)

From S2P Require Import Prelude GoStrings Json.

(** * Calls to Dgraph *)

Record Mutation := mkMutation {
  Mutation_SetJson : option string;
  Mutation_DeleteJson : option string;
  Mutation_CommitNow : bool }.

Record Request := mkRequest {
  Request_Query : string;
  Request_Mutations : list Mutation;
  Request_Vars : list (string * string);
  Request_CommitNow : bool }.

Record Response := mkResponse {
  Response_Json : string;
  Response_Uids : list (string * string) }.

(** A query in a read-only transaction answers [resp.GetJson()] or an error;
    a mutation and a request run in a transaction of their own. *)
Inductive DgraphE : Type -> Type :=
| Query (q : string) (vars : list (string * string)) : DgraphE (string * option error)
| Mutate (mu : Mutation) : DgraphE (option error)
| Do (req : Request) : DgraphE (ptr Response * option error).

(** * What Dgraph promises *)

(** The nodes of the types the stores use, newest first: a uid, one type, and
    values of predicates. *)
Record node := mkNode {
  node_uid : string;
  node_type : string;
  node_preds : list (string * json) }.

Definition node_pred (p : string) (n : node) : option json :=
  snd <$> List.find (fun kv => String.eqb kv.1 p) (node_preds n).

(** What a query shows of a node: the predicates it asks for that have a
    value. *)
Definition selected (n : node) (f : string) : list (string * json) :=
  if String.eqb f "uid" then [("uid", JStr (node_uid n))]
  else if String.eqb f "dgraph.type" then [("dgraph.type", JArr [JStr (node_type n)])]
  else match node_pred f n with Some j => [(f, j)] | None => [] end.

Definition node_json (fields : list string) (n : node) : json :=
  JObj (List.concat (List.map (selected n) fields)).

(** A query text with its meaning: the nodes of a type for which each listed
    predicate equals a variable, the first of them or all, with some fields,
    under the name of the block. *)
Record query := mkQuery {
  q_text : string;
  q_block : string;
  q_type : string;
  q_eq : list (string * string);
  q_first : bool;
  q_fields : list string }.

Definition variable (v : string) (vars : list (string * string)) : option string :=
  snd <$> List.find (fun kv => String.eqb kv.1 v) vars.

Definition matches (q : query) (vars : list (string * string)) (n : node) : bool :=
  String.eqb (node_type n) (q_type q) &&
  forallb (fun pv => match node_pred pv.1 n, variable pv.2 vars with
                     | Some (JStr a), Some b => String.eqb a b
                     | _, _ => false
                     end) (q_eq q).

Definition selects (q : query) (vars : list (string * string)) (ns l : list node) : Prop :=
  let all := filter (fun n => matches q vars n = true) ns in
  if q_first q then (all = [] /\ l = []) \/ (exists n, n ∈ all /\ l = [n]) else l ≡ₚ all.

(** Uids are hexadecimal numbers. *)
Definition is_hex (c : ascii) : bool := is_digit c || in_range 97 102 c.
Fixpoint all_hex (s : string) : bool :=
  match s with "" => true | String c s' => is_hex c && all_hex s' end.
Definition uid_ok (u : string) : Prop := exists d, u = "0x" +:+ d /\ all_hex d = true.

(** Values a new node can be given: strings, booleans and numbers. *)
Definition flat (kv : string * json) : Prop :=
  all_ascii kv.1 = true /\
  match kv.2 with
  | JStr s => utf8 s
  | JBool _ => True
  | JNum l => literal_ok l
  | _ => False
  end.

Section laws.
Context {S : Type} (h : handler DgraphE S) (nodes : S -> list node) (queries : list query).

(** A node with a fresh uid. *)
Definition created (t : string) (preds : list (string * json)) (s s' : S) : Prop :=
  exists u, uid_ok u /\ u ∉ node_uid <$> nodes s /\ nodes s' = mkNode u t preds :: nodes s.

Definition deleted (u : string) (s s' : S) : Prop :=
  nodes s' = filter (fun n => node_uid n <> u) (nodes s).

Definition set_mutation (payload : string) : DgraphE (option error) :=
  Mutate (mkMutation (Some payload) None true).
Definition delete_mutation (payload : string) : DgraphE (option error) :=
  Mutate (mkMutation None (Some payload) true).

(** Uids are unique.  Queries change nothing and show nodes of their type;
    variables have to be valid UTF-8, and which nodes match an empty one is
    left open (a predicate is never set to the empty string here).  Setting an object whose uid is a blank node
    creates a node; deleting an object that only has a uid removes the node.
    A mutation that answers an error may have been applied. *)
Class DgraphLaws : Prop := {
  dg_unique s : NoDup (node_uid <$> nodes s);
  dg_uids s : Forall uid_ok (node_uid <$> nodes s);
  dg_query_reads q vars s : nodes (h _ (Query q vars) s).2 = nodes s;
  dg_query q vars s resp s' :
    q ∈ queries -> h _ (Query (q_text q) vars) s = ((resp, None), s') ->
    Forall (fun v => utf8 v.2) vars /\
    exists l, parse resp = Some (JObj [(q_block q, JArr (List.map (node_json (q_fields q)) l))]) /\
      Forall (fun n => n ∈ nodes s /\ node_type n = q_type q) l /\
      (Forall (fun v => v.2 <> "") vars -> selects q vars (nodes s) l);
  dg_set payload b t preds s er s' :
    parse payload = Some (JObj (("uid", JStr ("_:" +:+ b)) :: ("dgraph.type", JArr [JStr t]) :: preds)) ->
    utf8 t -> Forall flat preds -> h _ (set_mutation payload) s = (er, s') ->
    created t preds s s' \/ (er <> None /\ nodes s' = nodes s);
  dg_delete payload u s er s' :
    parse payload = Some (JObj [("uid", JStr u)]) -> uid_ok u ->
    h _ (delete_mutation payload) s = (er, s') ->
    deleted u s s' \/ (er <> None /\ nodes s' = nodes s);
}.
End laws.


(** * A Dgraph in memory *)

(** Nodes by the order they were created in, newest first; a deleted one
    leaves its place.  The place is the uid. *)
Definition raw_node : Type := string * list (string * json).

Definition tidy (j : json) : json :=
  match j with
  | JStr s => JStr (clean s)
  | JBool b => JBool b
  | JNum l => JNum (if number_ok l && String.eqb (fst (span is_number_char l)) l then l else "0")
  | _ => JNull
  end.

Definition node_at (i : nat) (r : raw_node) : node :=
  mkNode ("0x" +:+ pretty (N.of_nat i)) (clean r.1)
    (List.map (fun kv => (clean kv.1, tidy kv.2)) r.2).

Fixpoint mem_nodes (s : list (option raw_node)) : list node :=
  match s with
  | [] => []
  | Some r :: s' => node_at (length s') r :: mem_nodes s'
  | None :: s' => mem_nodes s'
  end.

Fixpoint mem_delete (u : string) (s : list (option raw_node)) : list (option raw_node) :=
  match s with
  | [] => []
  | o :: s' =>
      (if String.eqb ("0x" +:+ pretty (N.of_nat (length s'))) u then None else o) :: mem_delete u s'
  end.

Definition flatb (kv : string * json) : bool :=
  all_ascii kv.1 &&
  match kv.2 with
  | JStr s => String.eqb (clean s) s
  | JBool _ => true
  | JNum l => number_ok l && String.eqb (fst (span is_number_char l)) l
  | _ => false
  end.

Definition dgraph_error : error := PlainError "dgraph".

Definition mem_query (queries : list query) (text : string) (vars : list (string * string))
    (s : list (option raw_node)) : string * option error :=
  match List.find (fun q => String.eqb (q_text q) text) queries with
  | None => ("", Some dgraph_error)
  | Some q =>
      if forallb (fun v => String.eqb (clean v.2) v.2) vars then
        let all := filter (fun n => matches q vars n = true) (mem_nodes s) in
        let l := if q_first q then take 1 all else all in
        (print (JObj [(q_block q, JArr (List.map (node_json (q_fields q)) l))]), None)
      else ("", Some dgraph_error)
  end.

Definition mem_set (payload : string) (s : list (option raw_node))
  : option error * list (option raw_node) :=
  match parse payload with
  | Some (JObj ((k1, JStr u) :: (k2, JArr [JStr t]) :: preds)) =>
      if String.eqb k1 "uid" && HasPrefix u "_:" && String.eqb k2 "dgraph.type" &&
         String.eqb (clean t) t && forallb flatb preds
      then (None, Some (t, preds) :: s)
      else (Some dgraph_error, s)
  | _ => (Some dgraph_error, s)
  end.

Definition mem_remove (payload : string) (s : list (option raw_node))
  : option error * list (option raw_node) :=
  match parse payload with
  | Some (JObj [(k, JStr u)]) =>
      if String.eqb k "uid" then (None, mem_delete u s) else (Some dgraph_error, s)
  | _ => (Some dgraph_error, s)
  end.

Definition mem_dgraph (queries : list query) : handler DgraphE (list (option raw_node)) := fun X e s =>
  match e in DgraphE X return X * list (option raw_node) with
  | Query text vars => (mem_query queries text vars s, s)
  | Mutate (mkMutation (Some payload) None true) => mem_set payload s
  | Mutate (mkMutation None (Some payload) true) => mem_remove payload s
  | Mutate _ => (Some dgraph_error, s)
  | Do _ => ((None, Some dgraph_error), s)
  end.

(** Values that survive being written and read. *)
Definition tidied (j : json) : Prop := json_ok j /\ clean_json j = j.

Lemma literal_okb l :
  number_ok l && String.eqb (fst (span is_number_char l)) l = true <-> literal_ok l.
Proof. unfold literal_ok. by rewrite andb_true_iff, String.eqb_eq. Qed.

Lemma tidied_tidy j : tidied (tidy j).
Proof.
  destruct j as [|b|l|s|l|l]; cbn [tidy]; try by split; [constructor|].
  - split; [|done]. destruct (number_ok l && _) eqn:Hl; constructor; [by apply literal_okb|done].
  - split; [constructor|]. cbn [clean_json]. by rewrite utf8_clean by apply utf8_clean_valid.
Qed.

Lemma flatb_flat kv : flatb kv = true <-> flat kv.
Proof.
  unfold flatb, flat. rewrite andb_true_iff. apply and_iff_compat_l_strong. intros _.
  destruct kv.2 as [| | |s| |]; try done.
  - apply literal_okb.
  - rewrite String.eqb_eq. split; [|apply utf8_clean]. intros <-. apply utf8_clean_valid.
Qed.

Lemma tidy_flat kv : flat kv -> (clean kv.1, tidy kv.2) = kv.
Proof.
  destruct kv as [k j]. intros [Hk Hj]. cbn [fst snd] in *.
  rewrite utf8_clean by by apply utf8_ascii. f_equal.
  destruct j as [| |l|s| |]; try done; cbn [tidy].
  - by apply literal_okb in Hj as ->.
  - by rewrite utf8_clean.
Qed.

Lemma tidy_preds l : Forall flat l -> List.map (fun kv => (clean kv.1, tidy kv.2)) l = l.
Proof. induction 1 as [|kv l Hkv _ IH]; [done|]. cbn [List.map]. by rewrite (tidy_flat kv Hkv), IH. Qed.

(** Whatever a query shows of a tidy node reads as what was shown. *)
Definition tidy_node (n : node) : Prop :=
  utf8 (node_uid n) /\ utf8 (node_type n) /\ Forall (fun kv => tidied kv.2) (node_preds n).

Lemma tidied_obj l : Forall (fun kv => utf8 kv.1 /\ tidied kv.2) l -> tidied (JObj l).
Proof.
  intros Hl. split; [constructor; eapply Forall_impl; [exact Hl|]; by intros kv (_&?&_)|].
  cbn [clean_json]. f_equal. induction Hl as [|[k j] l (Hk&_&Hj) _ IH]; [done|].
  cbn [List.map fst snd] in *. by rewrite utf8_clean, Hj, IH.
Qed.

Lemma tidied_arr l : Forall tidied l -> tidied (JArr l).
Proof.
  intros Hl. split; [constructor; eapply Forall_impl; [exact Hl|]; by intros j [? _]|].
  cbn [clean_json]. f_equal. induction Hl as [|j l [_ Hj] _ IH]; [done|]. cbn [List.map]. by rewrite Hj, IH.
Qed.

Lemma tidied_str s : utf8 s -> tidied (JStr s).
Proof. intros Hs. split; [constructor|]. cbn [clean_json]. by rewrite utf8_clean. Qed.

Lemma tidied_selected fields n :
  Forall (fun f => all_ascii f = true) fields -> tidy_node n ->
  Forall (fun kv => utf8 kv.1 /\ tidied kv.2) (List.concat (List.map (selected n) fields)).
Proof.
  intros Hf (Hu&Ht&Hp). induction Hf as [|f fields Ha _ IH]; [constructor|].
  cbn [List.map List.concat]. apply Forall_app. split; [|done]. unfold selected.
  destruct (String.eqb f "uid"); [repeat constructor; [by apply utf8_ascii|by apply tidied_str..]|].
  destruct (String.eqb f "dgraph.type").
  { repeat constructor; [by apply utf8_ascii|..]; apply tidied_arr; repeat constructor; by apply tidied_str. }
  unfold node_pred. destruct (List.find _ (node_preds n)) as [[k j]|] eqn:Hfind; [|constructor].
  constructor; [|constructor]. split; [by apply utf8_ascii|].
  apply List.find_some in Hfind as [Hin _]. apply list_elem_of_In in Hin.
  exact (proj1 (Forall_forall _ _) Hp (k, j) Hin).
Qed.

Lemma tidied_node fields n :
  Forall (fun f => all_ascii f = true) fields -> tidy_node n -> tidied (node_json fields n).
Proof. intros Hf Hn. by apply tidied_obj, tidied_selected. Qed.

Lemma is_hex_digits s : all_digits s = true -> all_hex s = true.
Proof.
  induction s as [|c s IH]; [done|]. cbn. unfold is_hex. intros [-> Hs]%andb_true_iff. by rewrite IH.
Qed.

Lemma pretty_hex i : all_hex (pretty (N.of_nat i)) = true.
Proof.
  destruct (N.of_nat i) as [|p]; [done|].
  change (pretty (N.pos p)) with (pretty p). destruct (pretty_pos p) as (c&d&->&_&_&_&Ha&_).
  by apply is_hex_digits.
Qed.

Lemma hex_ascii s : all_hex s = true -> all_ascii s = true.
Proof.
  induction s as [|c s IH]; [done|]. cbn [all_hex all_ascii]. intros [Hc Hs]%andb_true_iff. rewrite IH by done.
  by destruct c as [[] [] [] [] [] [] [] []].
Qed.

Lemma uid_ascii u : uid_ok u -> all_ascii u = true.
Proof. intros (d&->&Hd). cbn. by apply hex_ascii. Qed.

Lemma mem_node_elem s n :
  n ∈ mem_nodes s -> exists i r, i < length s /\ n = node_at i r.
Proof.
  induction s as [|[r|] s IH]; cbn [mem_nodes]; [by intros ?%elem_of_nil|..].
  - intros [->|Hin]%elem_of_cons; [exists (length s), r; cbn; split; [lia|done]|].
    destruct (IH Hin) as (i&r'&?&?). exists i, r'. cbn. split; [lia|done].
  - intros Hin. destruct (IH Hin) as (i&r'&?&?). exists i, r'. cbn. split; [lia|done].
Qed.

Lemma mem_uid_fresh i r s : length s <= i -> node_uid (node_at i r) ∉ node_uid <$> mem_nodes s.
Proof.
  intros Hi (n&He&Hn)%list_elem_of_fmap. destruct (mem_node_elem s n Hn) as (j&r'&Hj&->).
  cbn in He. injection He as He. apply (inj pretty) in He. lia.
Qed.

Lemma tidy_node_at i r : tidy_node (node_at i r).
Proof.
  split_and!; cbn.
  - apply utf8_ascii, uid_ascii. eexists. split; [done|apply pretty_hex].
  - apply utf8_clean_valid.
  - apply Forall_map, Forall_true. intros kv. apply tidied_tidy.
Qed.

Lemma mem_delete_length u s : length (mem_delete u s) = length s.
Proof. induction s as [|o s IH]; [done|]. cbn. by rewrite IH. Qed.

Lemma mem_delete_nodes u s :
  mem_nodes (mem_delete u s) = filter (fun n => node_uid n <> u) (mem_nodes s).
Proof.
  induction s as [|o s IH]; [done|]. cbn [mem_delete].
  destruct (String.eqb_spec ("0x" +:+ pretty (N.of_nat (length s))) u) as [He|Hne].
  - cbn [mem_nodes]. rewrite IH. destruct o as [r|]; [|done]. cbn [mem_nodes].
    by rewrite filter_cons_False by (cbn; auto).
  - destruct o as [r|]; cbn [mem_nodes]; [|done]. rewrite mem_delete_length, IH.
    by rewrite filter_cons_True by done.
Qed.

(** The query texts are told apart, and speak of ASCII names. *)
Definition queries_ok (queries : list query) : Prop :=
  NoDup (q_text <$> queries) /\
  Forall (fun q => all_ascii (q_block q) = true /\ Forall (fun f => all_ascii f = true) (q_fields q)) queries.

Lemma find_text queries q :
  NoDup (q_text <$> queries) -> q ∈ queries ->
  List.find (fun q' => String.eqb (q_text q') (q_text q)) queries = Some q.
Proof.
  induction queries as [|q' l IH]; intros Hd Hin; [by apply elem_of_nil in Hin|].
  rewrite fmap_cons in Hd. apply NoDup_cons in Hd as [Hq Hd]. cbn [List.find].
  apply elem_of_cons in Hin as [->|Hin]; [by rewrite String.eqb_refl|].
  destruct (String.eqb_spec (q_text q') (q_text q)) as [He|_]; [|by apply IH].
  destruct Hq. rewrite He. by apply list_elem_of_fmap_2.
Qed.

#[export] Instance mem_dgraph_laws queries :
  queries_ok queries -> DgraphLaws (mem_dgraph queries) mem_nodes queries.
Proof.
  intros [Hd Hq]. split.
  - intros s. induction s as [|[r|] s IH]; cbn [mem_nodes]; [constructor| |done].
    rewrite fmap_cons. constructor; [by apply mem_uid_fresh|done].
  - intros s. apply Forall_fmap, Forall_forall. intros n Hn.
    destruct (mem_node_elem s n Hn) as (i&r&_&->). eexists. split; [done|apply pretty_hex].
  - done.
  - intros q vars s resp s' Hin. cbn [mem_dgraph]. unfold mem_query. rewrite (find_text _ _ Hd Hin).
    destruct (forallb _ vars) eqn:Hv; [|by intros [= <- <-]]. intros [= <- <-].
    rewrite forallb_forall in Hv. split.
    { apply Forall_forall. intros v Hin'%list_elem_of_In. specialize (Hv v Hin').
      apply String.eqb_eq in Hv. rewrite <- Hv. apply utf8_clean_valid. }
    set (all := filter _ (mem_nodes s)). set (l := if q_first q then take 1 all else all).
    assert (l ⊆ all) as Hl.
    { subst l. destruct (q_first q); [|done]. intros x Hx. apply elem_of_take in Hx as (i&?&_).
      by eapply list_elem_of_lookup_2. }
    exists l. split_and!.
    + destruct (proj1 (Forall_forall _ _) Hq q Hin) as [Hb Hf].
      assert (tidied (JObj [(q_block q, JArr (List.map (node_json (q_fields q)) l))])) as [Hok Hcl];
        [|match goal with |- _ = Some ?j => change (parse (print j) = Some j) end;
          by rewrite parse_print, Hcl].
      apply tidied_obj. constructor; [|constructor]. split; [by apply utf8_ascii|]. apply tidied_arr.
      apply Forall_map, Forall_forall. intros n Hn. apply tidied_node; [done|].
      apply Hl, list_elem_of_filter in Hn as [_ Hn]. destruct (mem_node_elem s n Hn) as (i&r&_&->).
      apply tidy_node_at.
    + apply Forall_forall. intros n Hn. apply Hl, list_elem_of_filter in Hn as [Hm Hn]. split; [done|].
      unfold matches in Hm. apply andb_true_iff in Hm as [Hm _]. by apply String.eqb_eq.
    + intros _. unfold selects. fold all. subst l. destruct (q_first q); [|done].
      destruct all as [|n all]; [by left|right]. exists n. split; [left|done].
  - intros payload b t preds s er s' Hp Ht Hf. cbn [mem_dgraph set_mutation]. unfold mem_set. rewrite Hp.
    rewrite !String.eqb_refl, (utf8_clean t Ht), String.eqb_refl.
    assert (forallb flatb preds = true) as ->.
    { apply forallb_forall. intros kv Hin%list_elem_of_In. apply flatb_flat.
      by apply (proj1 (Forall_forall _ _) Hf). }
    cbn. intros [= <- <-]. left. exists (node_uid (node_at (length s) (t, preds))). split_and!.
    + eexists. split; [done|apply pretty_hex].
    + by apply mem_uid_fresh.
    + cbn [mem_nodes]. f_equal. unfold node_at. cbn [fst snd node_uid]. by rewrite (utf8_clean t Ht), tidy_preds.
  - intros payload u s er s' Hp Hu. cbn [mem_dgraph delete_mutation]. unfold mem_remove. rewrite Hp.
    rewrite String.eqb_refl. intros [= <- <-]. left. apply mem_delete_nodes.
Qed.
