(* ===== verification/DgraphStore.v ===== *)
(** The stores of tarian-server on a Dgraph database
    ([pkg/server/dgraphstore]): the records of [types.go] with their JSON
    tags, and the constraint and the action store as programs over the calls
    they make to Dgraph.  Discarding a committed transaction does nothing.

    The theorems: the two stores satisfy the contract of [Store], so all that
    is proved of the Config service holds of a server on Dgraph; and what a
    resource looks like when it comes back. *)

From S2P Require Import Prelude GoStrings Types Json Codec Dgraph Store ConfigServer.

(** * Records *)

(** [int] has 64 bits. *)
Definition min_int : Z := (- 2 ^ 63)%Z.
Definition max_int : Z := (2 ^ 63 - 1)%Z.

Record DConstraint := mkDConstraint {
  DConstraint_UID : string;
  DConstraint_DType : slice string;
  DConstraint_Namespace : string;
  DConstraint_Name : string;
  DConstraint_Selector : string;
  DConstraint_AllowedProcesses : string;
  DConstraint_AllowedFiles : string }.

Definition zero_DConstraint : DConstraint := mkDConstraint "" None "" "" "" "" "".

Definition enc_DConstraint (x : DConstraint) : json := JObj
  (opt_string "uid" (DConstraint_UID x) ++
   opt_slice JStr "dgraph.type" (DConstraint_DType x) ++
   opt_string "constraint_namespace" (DConstraint_Namespace x) ++
   opt_string "constraint_name" (DConstraint_Name x) ++
   opt_string "constraint_selector" (DConstraint_Selector x) ++
   opt_string "constraint_allowed_processes" (DConstraint_AllowedProcesses x) ++
   opt_string "constraint_allowed_files" (DConstraint_AllowedFiles x)).

Definition dec_DConstraint : decoder DConstraint := dec_struct
  [ ("uid", field DConstraint_UID
       (fun '(mkDConstraint u t ns n s p f) v => mkDConstraint v t ns n s p f) dec_string);
    ("dgraph.type", field DConstraint_DType
       (fun '(mkDConstraint u t ns n s p f) v => mkDConstraint u v ns n s p f) (dec_slice "" dec_string));
    ("constraint_namespace", field DConstraint_Namespace
       (fun '(mkDConstraint u t ns n s p f) v => mkDConstraint u t v n s p f) dec_string);
    ("constraint_name", field DConstraint_Name
       (fun '(mkDConstraint u t ns n s p f) v => mkDConstraint u t ns v s p f) dec_string);
    ("constraint_selector", field DConstraint_Selector
       (fun '(mkDConstraint u t ns n s p f) v => mkDConstraint u t ns n v p f) dec_string);
    ("constraint_allowed_processes", field DConstraint_AllowedProcesses
       (fun '(mkDConstraint u t ns n s p f) v => mkDConstraint u t ns n s v f) dec_string);
    ("constraint_allowed_files", field DConstraint_AllowedFiles
       (fun '(mkDConstraint u t ns n s p f) v => mkDConstraint u t ns n s p v) dec_string) ].

Record DAction := mkDAction {
  DAction_UID : string;
  DAction_DType : slice string;
  DAction_Namespace : string;
  DAction_Name : string;
  DAction_Selector : string;
  DAction_OnViolatedProcess : bool;
  DAction_OnViolatedFile : bool;
  DAction_OnFalcoAlert : bool;
  DAction_FalcoAlertPriority : Z;
  DAction_Action : string }.

Definition zero_DAction : DAction := mkDAction "" None "" "" "" false false false 0%Z "".

Definition enc_DAction (x : DAction) : json := JObj
  (opt_string "uid" (DAction_UID x) ++
   opt_slice JStr "dgraph.type" (DAction_DType x) ++
   opt_string "action_namespace" (DAction_Namespace x) ++
   opt_string "action_name" (DAction_Name x) ++
   opt_string "action_selector" (DAction_Selector x) ++
   opt_bool "action_on_violated_process" (DAction_OnViolatedProcess x) ++
   opt_bool "action_on_violated_file" (DAction_OnViolatedFile x) ++
   opt_bool "action_on_falco_alert" (DAction_OnFalcoAlert x) ++
   opt_int "action_falco_alert_priority" (DAction_FalcoAlertPriority x) ++
   opt_string "action_action" (DAction_Action x)).

Definition dec_DAction : decoder DAction := dec_struct
  [ ("uid", field DAction_UID
       (fun '(mkDAction u t ns n s p f a pr act) v => mkDAction v t ns n s p f a pr act) dec_string);
    ("dgraph.type", field DAction_DType
       (fun '(mkDAction u t ns n s p f a pr act) v => mkDAction u v ns n s p f a pr act) (dec_slice "" dec_string));
    ("action_namespace", field DAction_Namespace
       (fun '(mkDAction u t ns n s p f a pr act) v => mkDAction u t v n s p f a pr act) dec_string);
    ("action_name", field DAction_Name
       (fun '(mkDAction u t ns n s p f a pr act) v => mkDAction u t ns v s p f a pr act) dec_string);
    ("action_selector", field DAction_Selector
       (fun '(mkDAction u t ns n s p f a pr act) v => mkDAction u t ns n v p f a pr act) dec_string);
    ("action_on_violated_process", field DAction_OnViolatedProcess
       (fun '(mkDAction u t ns n s p f a pr act) v => mkDAction u t ns n s v f a pr act) dec_bool);
    ("action_on_violated_file", field DAction_OnViolatedFile
       (fun '(mkDAction u t ns n s p f a pr act) v => mkDAction u t ns n s p v a pr act) dec_bool);
    ("action_on_falco_alert", field DAction_OnFalcoAlert
       (fun '(mkDAction u t ns n s p f a pr act) v => mkDAction u t ns n s p f v pr act) dec_bool);
    ("action_falco_alert_priority", field DAction_FalcoAlertPriority
       (fun '(mkDAction u t ns n s p f a pr act) v => mkDAction u t ns n s p f a v act) (dec_int min_int max_int));
    ("action_action", field DAction_Action
       (fun '(mkDAction u t ns n s p f a pr act) v => mkDAction u t ns n s p f a pr v) dec_string) ].

(** The result lists: one untagged field. *)
Definition dgraphConstraintList : Type := slice DConstraint.
Definition dec_dgraphConstraintList : decoder dgraphConstraintList := dec_struct
  [("Constraints", field (fun x : dgraphConstraintList => x) (fun _ v => v)
                     (dec_slice zero_DConstraint dec_DConstraint))].

Definition dgraphActionList : Type := slice DAction.
Definition dec_dgraphActionList : decoder dgraphActionList := dec_struct
  [("Actions", field (fun x : dgraphActionList => x) (fun _ v => v)
                 (dec_slice zero_DAction dec_DAction))].

(** * Query texts *)

Definition constraintFields : string := "
	uid
	dgraph.type
	constraint_namespace
	constraint_name
	constraint_selector
	constraint_allowed_processes
	constraint_allowed_files
".

Definition constraints_query : string := "
		{
			constraints(func: type(Constraint)) {
				" +:+ constraintFields +:+ "
			}
		}
	".

Definition constraints_by_namespace_query : string := "
		query constraintQuery($namespace: string) {
			constraints(func: type(Constraint)) @filter(eq(constraint_namespace, $namespace)) {
				" +:+ constraintFields +:+ "
			}
		}
	".

Definition constraint_uid_query : string := "
		query constraintQuery($namespace: string, $name: string) {
			constraints(func: type(Constraint), first: 1) @filter(eq(constraint_namespace, $namespace) AND eq(constraint_name, $name)) {
				uid
			}
		}
	".

Definition actionFields : string := "
	uid
	dgraph.type
	action_namespace
	action_name
	action_selector
	action_on_violated_process
	action_on_violated_file
	action_on_falco_alert
	action_falco_alert_priority
	action_action
".

Definition actions_query : string := "
		{
			actions(func: type(Action)) {
				" +:+ actionFields +:+ "
			}
		}
	".

Definition actions_by_namespace_query : string := "
		query actionQuery($namespace: string) {
			actions(func: type(Action)) @filter(eq(action_namespace, $namespace)) {
				" +:+ actionFields +:+ "
			}
		}
	".

Definition action_uid_query : string := "
		query actionQuery($namespace: string, $name: string) {
			actions(func: type(Action), first: 1) @filter(eq(action_namespace, $namespace) AND eq(action_name, $name)) {
				uid
			}
		}
	".

(** [fmt.Sprintf] of the deletion, a JSON object with the uid. *)
Definition delete_json (uid : string) : string :=
  "{" +:+ String dquote ("uid" +:+ String dquote (": " +:+ String dquote (uid +:+ String dquote "}"))).

(** * The constraint store *)

(** One turn of the loop of [toPbConstraints]. *)
Definition toPbConstraint (c : DConstraint) : Constraint :=
  let constraint := NewConstraint in
  {| Constraint_Kind := Constraint_Kind constraint;
     Constraint_Namespace := DConstraint_Namespace c;
     Constraint_Name := DConstraint_Name c;
     Constraint_Selector :=
       (Unmarshal (dec_ptr zero_Selector dec_Selector) (DConstraint_Selector c)
          (Constraint_Selector constraint)).1;
     Constraint_AllowedProcesses :=
       (Unmarshal (dec_slice None (dec_ptr zero_AllowedProcessRule dec_AllowedProcessRule))
          (DConstraint_AllowedProcesses c) (Constraint_AllowedProcesses constraint)).1;
     Constraint_AllowedFiles :=
       (Unmarshal (dec_slice None (dec_ptr zero_AllowedFileRule dec_AllowedFileRule))
          (DConstraint_AllowedFiles c) (Constraint_AllowedFiles constraint)).1 |}.

Definition toPbConstraints (l : dgraphConstraintList) : slice (ptr Constraint) :=
  Some ((fun c => Some (toPbConstraint c)) <$> elems l).

Definition dgraphConstraintFromPb (pb : ptr Constraint) : DConstraint :=
  {| DConstraint_UID := "_:constraint";
     DConstraint_DType := Some ["Constraint"];
     DConstraint_Namespace := Constraint_GetNamespace pb;
     DConstraint_Name := Constraint_GetName pb;
     DConstraint_Selector := Marshal (enc_ptr enc_Selector (Constraint_GetSelector pb));
     DConstraint_AllowedProcesses :=
       Marshal (enc_slice (enc_ptr enc_AllowedProcessRule) (Constraint_GetAllowedProcesses pb));
     DConstraint_AllowedFiles :=
       Marshal (enc_slice (enc_ptr enc_AllowedFileRule) (Constraint_GetAllowedFiles pb)) |}.

Definition dgraphConstraintStore_GetAll : prog DgraphE (slice (ptr Constraint) * option error) :=
  r <- call (Query constraints_query []);;
  match r with
  | (_, Some err) => Ret (None, Some err)
  | (resp, None) =>
      match Unmarshal dec_dgraphConstraintList resp None with
      | (_, Some err) => Ret (None, Some err)
      | (result, None) => Ret (toPbConstraints result, None)
      end
  end.

Definition dgraphConstraintStore_FindByNamespace (namespace : string)
  : prog DgraphE (slice (ptr Constraint) * option error) :=
  r <- call (Query constraints_by_namespace_query [("$namespace", namespace)]);;
  match r with
  | (_, Some err) => Ret (None, Some err)
  | (resp, None) =>
      match Unmarshal dec_dgraphConstraintList resp None with
      | (_, Some err) => Ret (None, Some err)
      | (result, None) => Ret (toPbConstraints result, None)
      end
  end.

Definition findConstraintUIDByNamespaceAndName (namespace name : string)
  : prog DgraphE (string * option error) :=
  r <- call (Query constraint_uid_query [("$namespace", namespace); ("$name", name)]);;
  match r with
  | (_, Some err) => Ret ("", Some err)
  | (resp, None) =>
      match Unmarshal dec_dgraphConstraintList resp None with
      | (_, Some err) => Ret ("", Some err)
      | (result, None) =>
          match elems result with
          | [] => Ret ("", None)
          | c :: _ => Ret (DConstraint_UID c, None)
          end
      end
  end.

Definition dgraphConstraintStore_NamespaceAndNameExist (namespace name : string)
  : prog DgraphE (bool * option error) :=
  r <- findConstraintUIDByNamespaceAndName namespace name;;
  match r with
  | (_, Some err) => Ret (false, Some err)
  | (uid, None) => Ret (negb (String.eqb uid ""), None)
  end.

Definition dgraphConstraintStore_Add (constraint : ptr Constraint) : prog DgraphE (option error) :=
  let payload := Marshal (enc_DConstraint (dgraphConstraintFromPb constraint)) in
  call (Mutate {| Mutation_SetJson := Some payload; Mutation_DeleteJson := None;
                  Mutation_CommitNow := true |}).

Definition dgraphConstraintStore_RemoveByNamespaceAndName (namespace name : string)
  : prog DgraphE (option error) :=
  r <- findConstraintUIDByNamespaceAndName namespace name;;
  match r with
  | (_, Some err) => Ret (Some err)
  | (uid, None) =>
      if String.eqb uid "" then Ret None
      else call (Mutate {| Mutation_SetJson := None; Mutation_DeleteJson := Some (delete_json uid);
                           Mutation_CommitNow := true |})
  end.

Definition dgraphConstraintStore : forall X, StoreE Constraint X -> prog DgraphE X := fun X e =>
  match e in StoreE _ X return prog DgraphE X with
  | GetAll => dgraphConstraintStore_GetAll
  | FindByNamespace ns => dgraphConstraintStore_FindByNamespace ns
  | NamespaceAndNameExist ns n => dgraphConstraintStore_NamespaceAndNameExist ns n
  | Add c => dgraphConstraintStore_Add c
  | RemoveByNamespaceAndName ns n => dgraphConstraintStore_RemoveByNamespaceAndName ns n
  end.

(** * The action store *)

(** One turn of the loop of [toPbActions]; the conversion to FalcoPriority
    keeps the low 32 bits. *)
Definition toPbAction (a : DAction) : Action :=
  let pbAction := NewAction in
  {| Action_Kind := Action_Kind pbAction;
     Action_Namespace := DAction_Namespace a;
     Action_Name := DAction_Name a;
     Action_Selector :=
       (Unmarshal (dec_ptr zero_Selector dec_Selector) (DAction_Selector a)
          (Action_Selector pbAction)).1;
     Action_OnViolatedProcess := DAction_OnViolatedProcess a;
     Action_OnViolatedFile := DAction_OnViolatedFile a;
     Action_OnFalcoAlert := DAction_OnFalcoAlert a;
     Action_FalcoPriority := to_int32 (DAction_FalcoAlertPriority a);
     Action_Action := DAction_Action a |}.

Definition toPbActions (l : dgraphActionList) : slice (ptr Action) :=
  Some ((fun a => Some (toPbAction a)) <$> elems l).

Definition dgraphActionFromPb (pb : ptr Action) : DAction :=
  {| DAction_UID := "_:action";
     DAction_DType := Some ["Action"];
     DAction_Namespace := Action_GetNamespace pb;
     DAction_Name := Action_GetName pb;
     DAction_Selector := Marshal (enc_ptr enc_Selector (Action_GetSelector pb));
     DAction_OnViolatedProcess := Action_GetOnViolatedProcess pb;
     DAction_OnViolatedFile := Action_GetOnViolatedFile pb;
     DAction_OnFalcoAlert := Action_GetOnFalcoAlert pb;
     DAction_FalcoAlertPriority := Action_GetFalcoPriority pb;
     DAction_Action := Action_GetAction pb |}.

Definition dgraphActionStore_GetAll : prog DgraphE (slice (ptr Action) * option error) :=
  r <- call (Query actions_query []);;
  match r with
  | (_, Some err) => Ret (None, Some err)
  | (resp, None) =>
      match Unmarshal dec_dgraphActionList resp None with
      | (_, Some err) => Ret (None, Some err)
      | (result, None) => Ret (toPbActions result, None)
      end
  end.

Definition dgraphActionStore_FindByNamespace (namespace : string)
  : prog DgraphE (slice (ptr Action) * option error) :=
  r <- call (Query actions_by_namespace_query [("$namespace", namespace)]);;
  match r with
  | (_, Some err) => Ret (None, Some err)
  | (resp, None) =>
      match Unmarshal dec_dgraphActionList resp None with
      | (_, Some err) => Ret (None, Some err)
      | (result, None) => Ret (toPbActions result, None)
      end
  end.

Definition findActionUIDByNamespaceAndName (namespace name : string)
  : prog DgraphE (string * option error) :=
  r <- call (Query action_uid_query [("$namespace", namespace); ("$name", name)]);;
  match r with
  | (_, Some err) => Ret ("", Some err)
  | (resp, None) =>
      match Unmarshal dec_dgraphActionList resp None with
      | (_, Some err) => Ret ("", Some err)
      | (result, None) =>
          match elems result with
          | [] => Ret ("", None)
          | a :: _ => Ret (DAction_UID a, None)
          end
      end
  end.

Definition dgraphActionStore_NamespaceAndNameExist (namespace name : string)
  : prog DgraphE (bool * option error) :=
  r <- findActionUIDByNamespaceAndName namespace name;;
  match r with
  | (_, Some err) => Ret (false, Some err)
  | (uid, None) => Ret (negb (String.eqb uid ""), None)
  end.

Definition dgraphActionStore_Add (action : ptr Action) : prog DgraphE (option error) :=
  let payload := Marshal (enc_DAction (dgraphActionFromPb action)) in
  call (Mutate {| Mutation_SetJson := Some payload; Mutation_DeleteJson := None;
                  Mutation_CommitNow := true |}).

Definition dgraphActionStore_RemoveByNamespaceAndName (namespace name : string)
  : prog DgraphE (option error) :=
  r <- findActionUIDByNamespaceAndName namespace name;;
  match r with
  | (_, Some err) => Ret (Some err)
  | (uid, None) =>
      if String.eqb uid "" then Ret None
      else call (Mutate {| Mutation_SetJson := None; Mutation_DeleteJson := Some (delete_json uid);
                           Mutation_CommitNow := true |})
  end.

Definition dgraphActionStore : forall X, StoreE Action X -> prog DgraphE X := fun X e =>
  match e in StoreE _ X return prog DgraphE X with
  | GetAll => dgraphActionStore_GetAll
  | FindByNamespace ns => dgraphActionStore_FindByNamespace ns
  | NamespaceAndNameExist ns n => dgraphActionStore_NamespaceAndNameExist ns n
  | Add a => dgraphActionStore_Add a
  | RemoveByNamespaceAndName ns n => dgraphActionStore_RemoveByNamespaceAndName ns n
  end.

(** * Both stores at once *)

(** What differs between the two stores. *)
Record kind (T D : Type) := mkKind {
  k_type : string;
  k_block : string;
  k_ns : string;
  k_name : string;
  k_fields : list string;
  k_all_text : string;
  k_by_namespace_text : string;
  k_uid_text : string;
  k_zero : D;
  k_dec : decoder D;
  k_dec_list : decoder (slice D);
  k_uid : D -> string;
  k_toPb : D -> T;
  k_payload : ptr T -> json }.
Arguments k_type {T D}. Arguments k_block {T D}. Arguments k_ns {T D}. Arguments k_name {T D}.
Arguments k_fields {T D}. Arguments k_all_text {T D}. Arguments k_by_namespace_text {T D}.
Arguments k_uid_text {T D}. Arguments k_zero {T D}. Arguments k_dec {T D}. Arguments k_dec_list {T D}.
Arguments k_uid {T D}. Arguments k_toPb {T D}. Arguments k_payload {T D}.

Section kinds.
Context {T D : Type} `{!Keyed T} (K : kind T D).

Definition all_query : query :=
  mkQuery (k_all_text K) (k_block K) (k_type K) [] false (k_fields K).
Definition by_namespace_query : query :=
  mkQuery (k_by_namespace_text K) (k_block K) (k_type K) [(k_ns K, "$namespace")] false (k_fields K).
Definition uid_query : query :=
  mkQuery (k_uid_text K) (k_block K) (k_type K) [(k_ns K, "$namespace"); (k_name K, "$name")] true ["uid"].

(** The store, written once. *)
Definition list_resources (q : string) (vars : list (string * string))
  : prog DgraphE (slice (ptr T) * option error) :=
  r <- call (Query q vars);;
  match r with
  | (_, Some err) => Ret (None, Some err)
  | (resp, None) =>
      match Unmarshal (k_dec_list K) resp None with
      | (_, Some err) => Ret (None, Some err)
      | (result, None) => Ret (Some ((fun d => Some (k_toPb K d)) <$> elems result), None)
      end
  end.

Definition find_uid (ns n : string) : prog DgraphE (string * option error) :=
  r <- call (Query (k_uid_text K) [("$namespace", ns); ("$name", n)]);;
  match r with
  | (_, Some err) => Ret ("", Some err)
  | (resp, None) =>
      match Unmarshal (k_dec_list K) resp None with
      | (_, Some err) => Ret ("", Some err)
      | (result, None) =>
          match elems result with [] => Ret ("", None) | d :: _ => Ret (k_uid K d, None) end
      end
  end.

Definition dgraph_store : forall X, StoreE T X -> prog DgraphE X := fun X e =>
  match e in StoreE _ X return prog DgraphE X with
  | GetAll => list_resources (k_all_text K) []
  | FindByNamespace ns => list_resources (k_by_namespace_text K) [("$namespace", ns)]
  | NamespaceAndNameExist ns n =>
      r <- find_uid ns n;;
      match r with
      | (_, Some err) => Ret (false, Some err)
      | (uid, None) => Ret (negb (String.eqb uid ""), None)
      end
  | Add x => call (set_mutation (Marshal (k_payload K x)))
  | RemoveByNamespaceAndName ns n =>
      r <- find_uid ns n;;
      match r with
      | (_, Some err) => Ret (Some err)
      | (uid, None) =>
          if String.eqb uid "" then Ret None else call (delete_mutation (delete_json uid))
      end
  end.

(** The resource a node holds, and what the store keeps of a resource. *)
Definition read_node (n : node) : T :=
  k_toPb K (k_dec K (k_zero K) (node_json (k_fields K) n)).1.

Definition payload_preds (x : ptr T) : list (string * json) :=
  match clean_json (k_payload K x) with JObj (_ :: _ :: l) => l | _ => [] end.

Definition dgraph_norm (x : T) : T := read_node (mkNode "" (k_type K) (payload_preds (Some x))).

Definition resources (ns : list node) : list T :=
  read_node <$> filter (fun n => node_type n = k_type K) ns.

(** The string value of a predicate, empty when it has none. *)
Definition string_pred (p : string) (n : node) : string :=
  match node_pred p n with Some (JStr s) => s | _ => "" end.

Class KindLaws : Prop := {
  kl_type : utf8 (k_type K);
  kl_list l : k_dec_list K None (JObj [(k_block K, JArr l)]) =
              dec_slice (k_zero K) (k_dec K) None (JArr l);
  kl_uid n : k_uid K (k_dec K (k_zero K) (node_json ["uid"] n)).1 = node_uid n;
  kl_key n : resource_key (read_node n) = (string_pred (k_ns K) n, string_pred (k_name K) n);
  kl_read u t preds : read_node (mkNode u t preds) = read_node (mkNode "" t preds);
  kl_payload x : json_ok (k_payload K x) /\ Forall flat (payload_preds x) /\
    exists b, clean_json (k_payload K x) =
      JObj (("uid", JStr ("_:" +:+ b)) :: ("dgraph.type", JArr [JStr (k_type K)]) :: payload_preds x);
  kl_payload_key x :
    resource_key (dgraph_norm x) = (clean (resource_key x).1, clean (resource_key x).2);
}.
End kinds.

(** * The deletion text *)

Lemma escape_ascii_hex c : is_hex c = true -> escape_ascii c = String c "" /\ in_range 0 127 c = true.
Proof.
  destruct c as [b0 b1 b2 b3 b4 b5 b6 b7].
  by destruct b0, b1, b2, b3, b4, b5, b6, b7; intros H; try discriminate H.
Qed.

Lemma escape_hex d n : all_hex d = true -> String.length d <= n -> escape n d = d /\ all_ascii d = true.
Proof.
  revert n. induction d as [|c d IH]; intros n; [by destruct n|]. cbn [all_hex].
  intros [Hc Hd]%andb_true_iff Hn. destruct n as [|n]; [cbn in Hn; lia|].
  destruct (escape_ascii_hex c Hc) as [He Hr]. cbn [escape all_ascii]. rewrite Hr, He.
  destruct (IH n Hd) as [IH1 IH2]; [cbn in Hn; lia|]. by rewrite IH1, IH2.
Qed.

Lemma quoted_uid u : uid_ok u -> quoted u = String dquote (u +:+ String dquote "") /\ clean u = u.
Proof.
  intros (d&->&Hd). unfold quoted. cbn [String.append String.length escape].
  change (in_range 0 127 "0") with true. change (in_range 0 127 "x") with true. cbv iota.
  destruct (escape_hex d (String.length d) Hd) as [-> Ha]; [done|].
  split; [done|]. by apply utf8_clean, utf8_ascii.
Qed.

Lemma parse_uid_member k u :
  uid_ok u ->
  parse_member (parse_value (S k)) (quoted "uid" +:+ ": " +:+ quoted u +:+ "}") = Some ("uid", JStr u, "}").
Proof.
  intros Hu. destruct (quoted_uid u Hu) as [_ Hcl]. unfold parse_member.
  unfold quoted at 1. change (String dquote ?a +:+ ?b) with (String dquote (a +:+ b)).
  rewrite skip_start by done. rewrite Ascii.eqb_refl, app_assoc_s, parse_quoted.
  change (": " +:+ ?x) with (String ":" (String " " x)). rewrite skip_start by done.
  cbn [parse_value]. unfold quoted. change (String dquote ?a +:+ ?b) with (String dquote (a +:+ b)).
  change (skip_space (String " " ?x)) with (skip_space x). rewrite skip_start by done.
  by rewrite Ascii.eqb_refl, app_assoc_s, parse_quoted, Hcl.
Qed.

(** The text is the object it looks like. *)
Lemma parse_delete_json u : uid_ok u -> parse (delete_json u) = Some (JObj [("uid", JStr u)]).
Proof.
  intros Hu. destruct (quoted_uid u Hu) as [Hq _].
  assert (delete_json u = String "{" (quoted "uid" +:+ ": " +:+ quoted u +:+ "}")) as ->.
  { rewrite Hq. unfold delete_json. cbn [String.append]. by rewrite app_assoc_s. }
  unfold parse. set (n := String.length _).
  assert (2 * n + 2 = S (S (S (2 * n - 1)))) as -> by (subst n; cbn [String.length]; lia).
  rewrite parse_object. unfold quoted at 1. change (String dquote ?a +:+ ?b) with (String dquote (a +:+ b)).
  rewrite skip_start by done. cbv iota.
  change (String dquote (?a +:+ ?b)) with (String dquote a +:+ b).
  change (String dquote (escape (String.length "uid") "uid" +:+ String dquote "")) with (quoted "uid").
  cbn [parse_members]. by rewrite parse_uid_member.
Qed.

(** * The contract of the stores *)

Definition no_answer {T X} (e : StoreE T X) : X :=
  match e in StoreE _ X return X with
  | GetAll => (None, None)
  | FindByNamespace _ => (None, None)
  | NamespaceAndNameExist _ _ => (false, None)
  | Add _ => None
  | RemoveByNamespaceAndName _ _ => None
  end.

(** A store as its callers see it; the programs never crash. *)
Definition answers {T S} (h : handler DgraphE S) (p : forall X, StoreE T X -> prog DgraphE X)
  : handler (StoreE T) S := fun X e s =>
  match run h (p X e) s with
  | (Done x, s') => (x, s')
  | (Crashed _, s') => (no_answer e, s')
  end.

Section refinement.
Context {T D : Type} `{!Keyed T} (K : kind T D).
Context {S : Type} (h : handler DgraphE S) (nodes : S -> list node) (queries : list query).
Context `{HD : !DgraphLaws h nodes queries} `{HK : !KindLaws K}.
Context (Hall : all_query K ∈ queries) (Hns : by_namespace_query K ∈ queries).
Context (Huid : uid_query K ∈ queries).

Definition view (s : S) : list T := resources K (nodes s).

Lemma dec_list_text resp l :
  parse resp = Some (JObj [(k_block K, JArr l)]) ->
  Unmarshal (k_dec_list K) resp None = dec_slice (k_zero K) (k_dec K) None (JArr l).
Proof using HK. intros Hp. unfold Unmarshal. rewrite Hp. exact (kl_list K l). Qed.

Lemma list_resources_run q vars s :
  q ∈ queries -> q_block q = k_block K -> q_first q = false -> q_fields q = k_fields K ->
  Forall (fun v => v.2 <> "") vars ->
  exists r er s', run h (list_resources K (q_text q) vars) s = (Done (r, er), s') /\
    nodes s' = nodes s /\ (er <> None -> r = None) /\
    (er = None -> elems r ≡ₚ
       Some <$> (read_node K <$> filter (fun n => matches q vars n = true) (nodes s))).
Proof using HD HK.
  intros Hq Hb Hf Hfi Hv. unfold list_resources. cbn [run bind call].
  pose proof (dg_query_reads h nodes queries (q_text q) vars s) as Hr.
  destruct (h _ (Query (q_text q) vars) s) as [[resp er] s1] eqn:Hh. cbn in Hr.
  destruct er as [er|]; [by do 3 eexists|].
  destruct (dg_query h nodes queries q vars s resp s1 Hq Hh) as (_&l&Hp&_&Hl). specialize (Hl Hv).
  rewrite Hb, Hfi in Hp. rewrite (dec_list_text _ _ Hp). cbn [dec_slice].
  destruct (fold_right _ _ _) as [er|]; [by do 3 eexists|].
  do 3 eexists. split; [done|]. split_and!; [done|done|]. intros _. cbn [elems default].
  unfold selects in Hl. rewrite Hf in Hl. rewrite <- Hl.
  apply Permutation_refl'. clear. induction l as [|nd l IH]; [done|]. cbn. f_equal. exact IH.
Qed.

Lemma find_uid_run ns n s :
  exists uid er s', run h (find_uid K ns n) s = (Done (uid, er), s') /\ nodes s' = nodes s /\
    (uid = "" \/ exists nd, nd ∈ nodes s /\ node_type nd = k_type K /\ uid = node_uid nd) /\
    (er = None -> utf8 ns /\ utf8 n /\ (ns <> "" -> n <> "" ->
       let vars := [("$namespace", ns); ("$name", n)] in
       (uid = "" /\ forall nd, nd ∈ nodes s -> matches (uid_query K) vars nd = false) \/
       (exists nd, nd ∈ nodes s /\ matches (uid_query K) vars nd = true /\ uid = node_uid nd))).
Proof using HD HK Huid.
  unfold find_uid. cbn [run bind call]. set (vars := [("$namespace", ns); ("$name", n)]).
  pose proof (dg_query_reads h nodes queries (q_text (uid_query K)) vars s) as Hr. cbn in Hr.
  destruct (h _ (Query (k_uid_text K) vars) s) as [[resp er] s1] eqn:Hh. cbn in Hr.
  destruct er as [er|]; [by exists "", (Some er), s1; split_and!; [done|done|left|]|].
  destruct (dg_query h nodes queries (uid_query K) vars s resp s1 Huid Hh) as (Hutf&l&Hp&Hty&Hl).
  rewrite (dec_list_text _ _ Hp). cbn [dec_slice].
  destruct (fold_right _ _ _) as [er|]; [by exists "", (Some er), s1; split_and!; [done|done|left|]|].
  cbn [elems default uid_query q_fields]. destruct l as [|nd l].
  - do 3 eexists. split; [done|]. split_and!; [done|by left|]. intros _.
    inversion Hutf as [|? ? U1 Hutf']; subst. inversion Hutf' as [|? ? U2 _]; subst.
    split; [done|]. split; [done|]. intros Hne Hne'. left. split; [done|]. intros nd Hin. apply not_true_iff_false. intros Hm.
    specialize (Hl ltac:(by repeat constructor)). destruct Hl as [[Hno _]|(?&_&?)]; [|done].
    assert (nd ∈ filter (fun n => matches (uid_query K) vars n = true) (nodes s)) as Hin'
      by (by apply list_elem_of_filter).
    rewrite Hno in Hin'. by apply elem_of_nil in Hin'.
  - cbn [List.map]. do 3 eexists. split; [done|]. rewrite (kl_uid K nd). apply Forall_cons in Hty as [[Hin Ht] _].
    split_and!; [done|right; by exists nd|]. intros _.
    inversion Hutf as [|? ? U1 Hutf']; subst. inversion Hutf' as [|? ? U2 _]; subst.
    split; [done|]. split; [done|]. intros Hne Hne'. right.
    specialize (Hl ltac:(by repeat constructor)). destruct Hl as [[_ ?]|(nd'&Hnd&[= <- ->])]; [done|].
    apply list_elem_of_filter in Hnd as [Hm _]. by exists nd.
Qed.

(** A node matches by namespace and name when its resource has this key. *)
Lemma matches_uid ns n nd :
  ns <> "" -> n <> "" ->
  matches (uid_query K) [("$namespace", ns); ("$name", n)] nd = true <->
  node_type nd = k_type K /\ resource_key (read_node K nd) = (ns, n).
Proof using HK.
  intros Hns' Hn. rewrite (kl_key K). unfold matches, string_pred. cbn [uid_query q_type q_eq forallb fst snd].
  unfold variable. cbn [List.find fst snd String.eqb]. cbn.
  rewrite !andb_true_iff, String.eqb_eq.
  destruct (node_pred (k_ns K) nd) as [[]|], (node_pred (k_name K) nd) as [[]|];
    rewrite ?String.eqb_eq; naive_solver.
Qed.

Lemma matches_namespace ns nd :
  ns <> "" ->
  matches (by_namespace_query K) [("$namespace", ns)] nd = true <->
  node_type nd = k_type K /\ (resource_key (read_node K nd)).1 = ns.
Proof using HK.
  intros Hns'. rewrite (kl_key K). unfold matches, string_pred. cbn [by_namespace_query q_type q_eq forallb fst snd].
  cbn. rewrite !andb_true_iff, String.eqb_eq.
  destruct (node_pred (k_ns K) nd) as [[]|]; rewrite ?String.eqb_eq; naive_solver.
Qed.

Lemma matches_all nd : matches (all_query K) [] nd = true <-> node_type nd = k_type K.
Proof. unfold matches. cbn. by rewrite andb_true_r, String.eqb_eq. Qed.

Lemma stored_view s ns n :
  stored view s ns n <->
  exists nd, nd ∈ nodes s /\ node_type nd = k_type K /\ resource_key (read_node K nd) = (ns, n).
Proof.
  unfold stored, view, resources. rewrite <- list_fmap_compose, list_elem_of_fmap.
  setoid_rewrite list_elem_of_filter. cbn. naive_solver.
Qed.

(** The view after a node was created or deleted. *)
Lemma created_view x s s' :
  created nodes (k_type K) (payload_preds K (Some x)) s s' -> view s' = dgraph_norm K x :: view s.
Proof using HK.
  intros (u&_&_&Hn). unfold view, resources. rewrite Hn, filter_cons_True by done.
  rewrite fmap_cons. f_equal. exact (kl_read K u _ _).
Qed.

Lemma filter_deleted nd (l : list node) :
  NoDup (node_uid <$> l) -> nd ∈ l -> l ≡ₚ nd :: filter (fun n => node_uid n <> node_uid nd) l.
Proof.
  induction l as [|x l IH]; intros Hd Hin; [by apply elem_of_nil in Hin|].
  rewrite fmap_cons in Hd. apply NoDup_cons in Hd as [Hx Hd]. apply elem_of_cons in Hin as [->|Hin].
  - rewrite filter_cons_False by auto. rewrite filter_all; [done|]. apply Forall_forall.
    intros y Hy He. apply Hx. rewrite <- He. by apply list_elem_of_fmap_2.
  - rewrite filter_cons_True.
    + rewrite (IH Hd Hin) at 1. apply perm_swap.
    + intros He. apply Hx. rewrite He. by apply list_elem_of_fmap_2.
Qed.

Lemma filter_other nd t (l : list node) :
  NoDup (node_uid <$> l) -> nd ∈ l -> t <> node_type nd ->
  filter (fun n => node_type n = t) (filter (fun n => node_uid n <> node_uid nd) l) =
  filter (fun n => node_type n = t) l.
Proof.
  intros Hd Hin Ht. induction l as [|x l IH]; [by apply elem_of_nil in Hin|].
  rewrite fmap_cons in Hd. apply NoDup_cons in Hd as [Hx Hd]. apply elem_of_cons in Hin as [->|Hin].
  - rewrite filter_cons_False by auto. rewrite (filter_cons_False _ _ l) by congruence.
    rewrite (filter_all _ l); [done|]. apply Forall_forall. intros y Hy He. apply Hx. rewrite <- He.
    by apply list_elem_of_fmap_2.
  - rewrite (filter_cons_True (fun n => node_uid n <> node_uid nd)).
    + destruct (decide (node_type x = t)).
      * by rewrite !filter_cons_True, IH.
      * by rewrite !(filter_cons_False (fun n => node_type n = t)), IH.
    + intros He. apply Hx. rewrite He. by apply list_elem_of_fmap_2.
Qed.

Lemma deleted_view nd ns n s s' :
  nd ∈ nodes s -> node_type nd = k_type K -> resource_key (read_node K nd) = (ns, n) ->
  deleted nodes (node_uid nd) s s' -> removed view ns n s s'.
Proof using HD.
  intros Hin Ht Hk Hd. left. exists (read_node K nd). split; [done|]. unfold view, resources.
  rewrite Hd, <- fmap_cons. apply fmap_Permutation.
  rewrite (filter_deleted nd (nodes s)) at 1; [|by eapply dg_unique|done].
  by rewrite filter_cons_True.
Qed.

Lemma answers_add x s er s' :
  answers h (dgraph_store K) _ (Add (Some x)) s = (er, s') ->
  view s' = dgraph_norm K x :: view s \/ (er <> None /\ view s' = view s).
Proof using HD HK.
  unfold answers. cbn [dgraph_store run call bind]. destruct (kl_payload K (Some x)) as (Hok&Hflat&b&Hb).
  destruct (h _ (set_mutation _) s) as [er1 s1] eqn:Hh. intros [= <- <-].
  destruct (dg_set h nodes queries (Marshal (k_payload K (Some x))) b (k_type K)
              (payload_preds K (Some x)) s er1 s1) as [Hc|[He Hn]]; [|exact (kl_type K)|done|done|by left; apply created_view|].
  - unfold Marshal. by rewrite parse_print, Hb.
  - right. split; [done|]. unfold view. by rewrite Hn.
Qed.

Lemma answers_remove ns n s er s' :
  ns <> "" -> n <> "" ->
  answers h (dgraph_store K) _ (RemoveByNamespaceAndName ns n) s = (er, s') ->
  removed view ns n s s' \/ (er <> None /\ view s' = view s).
Proof using HD HK Huid.
  intros Hns' Hn. unfold answers. cbn [dgraph_store]. rewrite run_bind.
  destruct (find_uid_run ns n s) as (uid&er1&s1&->&Hv&_&Hf).
  destruct er1 as [er1|]; cbn.
  { intros [= <- <-]. right. split; [done|]. unfold view. by rewrite Hv. }
  destruct (Hf eq_refl) as (_&_&Hcase). destruct (Hcase Hns' Hn) as [[-> Hno]|(nd&Hin&Hm&->)].
  - cbn. intros [= <- <-]. left. right. split; [|unfold view; by rewrite Hv].
    rewrite stored_view. intros (nd&Hin&Hk). apply (matches_uid ns n nd Hns' Hn) in Hk.
    by rewrite (Hno nd Hin) in Hk.
  - assert (uid_ok (node_uid nd)) as Hu.
    { apply (proj1 (Forall_forall _ _) (dg_uids h nodes queries s)). by apply list_elem_of_fmap_2. }
    assert (String.eqb (node_uid nd) "" = false) as ->.
    { destruct Hu as (d&->&_). done. }
    cbn [run call bind]. destruct (h _ (delete_mutation _) s1) as [er2 s2] eqn:Hh. intros [= <- <-].
    destruct (dg_delete h nodes queries (delete_json (node_uid nd)) (node_uid nd) s1 er2 s2
                (parse_delete_json _ Hu) Hu Hh) as [Hd|[He Hn2]].
    + left. apply (matches_uid ns n nd Hns' Hn) in Hm as [Ht Hk].
      apply (deleted_view nd); [done..|]. unfold deleted in *. by rewrite Hd, Hv.
    + right. split; [done|]. unfold view. by rewrite Hn2, Hv.
Qed.

Lemma answers_exist ns n s b er s' :
  answers h (dgraph_store K) _ (NamespaceAndNameExist ns n) s = ((b, er), s') ->
  nodes s' = nodes s /\ (er = None -> utf8 ns /\ utf8 n /\
    (ns <> "" -> n <> "" -> b = true <-> stored view s ns n)).
Proof using HD HK Huid.
  unfold answers. cbn [dgraph_store]. rewrite run_bind.
  destruct (find_uid_run ns n s) as (uid&er1&s1&->&Hv&_&Hf).
  destruct er1 as [er1|]; cbn; intros [= <- <- <-]; (split; [done|]); intros Her; [done|].
  destruct (Hf eq_refl) as (U1&U2&Hcase). split; [done|]. split; [done|]. intros Hns' Hn.
  rewrite stored_view. destruct (Hcase Hns' Hn) as [[-> Hno]|(nd&Hin&Hm&->)].
  - split; [done|]. intros (nd&Hin&Hk). apply (matches_uid ns n nd Hns' Hn) in Hk.
    by rewrite (Hno nd Hin) in Hk.
  - apply (matches_uid ns n nd Hns' Hn) in Hm. split; [eauto|]. intros _.
    assert (uid_ok (node_uid nd)) as (d&->&_); [|done].
    apply (proj1 (Forall_forall _ _) (dg_uids h nodes queries s)). by apply list_elem_of_fmap_2.
Qed.

Lemma answers_list e q vars s l er s' :
  dgraph_store K _ e = list_resources K (q_text q) vars ->
  q ∈ queries -> q_block q = k_block K -> q_first q = false -> q_fields q = k_fields K ->
  Forall (fun v => v.2 <> "") vars ->
  answers h (dgraph_store K) _ e s = ((l, er), s') ->
  nodes s' = nodes s /\ (er <> None -> l = None) /\
  (er = None -> elems l ≡ₚ
     Some <$> (read_node K <$> filter (fun n => matches q vars n = true) (nodes s))).
Proof using HD HK.
  intros He Hq Hb Hf Hfi Hv. unfold answers. rewrite He.
  destruct (list_resources_run q vars s Hq Hb Hf Hfi Hv) as (r&er1&s1&->&H1&H2&H3).
  intros [= <- <- <-]. done.
Qed.

(** Reading keeps the nodes, also when a name is empty. *)
Lemma list_resources_reads text vars s :
  exists r s', run h (list_resources K text vars) s = (Done r, s') /\ nodes s' = nodes s /\
    (r.2 <> None -> r.1 = None).
Proof using HD.
  unfold list_resources. cbn [run bind call].
  pose proof (dg_query_reads h nodes queries text vars s) as Hr.
  destruct (h _ (Query text vars) s) as [[resp [er|]] s1]; [by do 2 eexists|].
  destruct (Unmarshal (k_dec_list K) resp None) as [result [er|]]; by do 2 eexists.
Qed.

(** Reads keep all nodes. *)
Lemma answers_keep X (e : StoreE T X) s :
  store_reads e -> nodes (answers h (dgraph_store K) X e s).2 = nodes s.
Proof using HD HK Huid.
  intros He. unfold answers. destruct e as [|ns|ns n|x|ns n]; try done; cbn [dgraph_store].
  - by destruct (list_resources_reads (k_all_text K) [] s) as (r&s'&->&Hv&_).
  - by destruct (list_resources_reads (k_by_namespace_text K) [("$namespace", ns)] s) as (r&s'&->&Hv&_).
  - rewrite run_bind. destruct (find_uid_run ns n s) as (uid&er&s1&->&Hv&_). by destruct er.
Qed.

(** A call keeps every node of another type. *)
Lemma answers_frame t X (e : StoreE T X) s :
  t <> k_type K ->
  filter (fun n => node_type n = t) (nodes (answers h (dgraph_store K) X e s).2) =
  filter (fun n => node_type n = t) (nodes s).
Proof using HD HK Huid.
  intros Ht. destruct e as [|ns|ns n|x|ns n]; unfold answers; cbn [dgraph_store].
  - destruct (list_resources_reads (k_all_text K) [] s) as (r&s'&->&Hv&_). cbn. by rewrite Hv.
  - destruct (list_resources_reads (k_by_namespace_text K) [("$namespace", ns)] s) as (r&s'&->&Hv&_).
    cbn. by rewrite Hv.
  - rewrite run_bind. destruct (find_uid_run ns n s) as (uid&er&s1&->&Hv&_).
    destruct er; cbn; by rewrite Hv.
  - cbn [run call]. destruct (kl_payload K x) as (Hok&Hflat&b&Hb).
    destruct (h _ (set_mutation _) s) as [er1 s1] eqn:Hh. cbn.
    destruct (dg_set h nodes queries (Marshal (k_payload K x)) b (k_type K) (payload_preds K x)
                s er1 s1) as [(u&_&_&->)|[He ->]]; [|exact (kl_type K)|done|done| |done].
    + unfold Marshal. by rewrite parse_print, Hb.
    + by rewrite filter_cons_False.
  - rewrite run_bind. destruct (find_uid_run ns n s) as (uid&er&s1&->&Hv&Hu&_).
    destruct er as [er|]; cbn; [by rewrite Hv|]. destruct Hu as [->|(nd&Hin&Hty&->)]; [cbn; by rewrite Hv|].
    assert (uid_ok (node_uid nd)) as Hu.
    { apply (proj1 (Forall_forall _ _) (dg_uids h nodes queries s)). by apply list_elem_of_fmap_2. }
    assert (String.eqb (node_uid nd) "" = false) as -> by (by destruct Hu as (d&->&_)).
    cbn [run call]. destruct (h _ (delete_mutation _) s1) as [er2 s2] eqn:Hh. cbn. rewrite <- Hv.
    destruct (dg_delete h nodes queries (delete_json (node_uid nd)) (node_uid nd) s1 er2 s2
                (parse_delete_json _ Hu) Hu Hh) as [->|[_ ->]]; [|done].
    rewrite <- Hv in Hin. apply (filter_other nd); [by eapply dg_unique|done|congruence].
Qed.

#[export] Instance dgraph_store_laws : StoreLaws (answers h (dgraph_store K)) view (dgraph_norm K).
Proof using HD HK Hall Hns Huid.
  split.
  - intros ns n s b s' x Hh Hx. apply answers_exist in Hh as [_ Hu].
    destruct (Hu eq_refl) as (U1&U2&_). rewrite (kl_payload_key K x), Hx. cbn [fst snd]. by rewrite !utf8_clean.
  - intros X e s He. unfold view. by rewrite answers_keep.
  - intros s l s' Hh. apply (answers_list _ (all_query K) []) in Hh as (_&_&Hl); try done.
    rewrite (Hl eq_refl). unfold view, resources. 
    apply fmap_Permutation, fmap_Permutation, Permutation_refl', list_filter_iff. intros nd. by rewrite matches_all.
  - intros ns s l s' Hne Hh.
    apply (answers_list _ (by_namespace_query K) [("$namespace", ns)]) in Hh as (_&_&Hl); try done;
      [|by repeat constructor].
    rewrite (Hl eq_refl). unfold view, resources. rewrite filter_fmap, list_filter_filter.
    apply fmap_Permutation, fmap_Permutation, Permutation_refl', list_filter_iff. intros nd. cbn.
    rewrite matches_namespace by done. tauto.
  - intros ns s l er s' Hh. unfold answers in Hh. cbn [dgraph_store] in Hh.
    destruct (list_resources_reads (k_by_namespace_text K) [("$namespace", ns)] s) as ([l' er']&s1&Hr&_&Hl).
    rewrite Hr in Hh. injection Hh as -> -> ->. by apply Hl.
  - intros s l er s' Hh. unfold answers in Hh. cbn [dgraph_store] in Hh.
    destruct (list_resources_reads (k_all_text K) [] s) as ([l' er']&s1&Hr&_&Hl).
    rewrite Hr in Hh. injection Hh as -> -> ->. by apply Hl.
  - intros ns n s b s' Hne Hne' Hh. apply answers_exist in Hh as [_ Hu].
    by destruct (Hu eq_refl) as (_&_&?); auto.
  - intros x s s' Hh. apply answers_add in Hh as [->|[? _]]; done.
  - intros x er s s' Hh. apply answers_add in Hh as [->|[_ ->]]; auto.
  - intros ns n s s' Hne Hne' Hh. apply answers_remove in Hh as [?|[? _]]; done.
  - intros ns n er s s' Hne Hne' Hh. apply answers_remove in Hh as [?|[_ ->]]; auto.
Qed.
End refinement.

(** * The two kinds *)

Definition constraint_kind : kind Constraint DConstraint :=
  {| k_type := "Constraint";
     k_block := "constraints";
     k_ns := "constraint_namespace";
     k_name := "constraint_name";
     k_fields := ["uid"; "dgraph.type"; "constraint_namespace"; "constraint_name";
                  "constraint_selector"; "constraint_allowed_processes"; "constraint_allowed_files"];
     k_all_text := constraints_query;
     k_by_namespace_text := constraints_by_namespace_query;
     k_uid_text := constraint_uid_query;
     k_zero := zero_DConstraint;
     k_dec := dec_DConstraint;
     k_dec_list := dec_dgraphConstraintList;
     k_uid := DConstraint_UID;
     k_toPb := toPbConstraint;
     k_payload := fun x => enc_DConstraint (dgraphConstraintFromPb x) |}.

Definition action_kind : kind Action DAction :=
  {| k_type := "Action";
     k_block := "actions";
     k_ns := "action_namespace";
     k_name := "action_name";
     k_fields := ["uid"; "dgraph.type"; "action_namespace"; "action_name"; "action_selector";
                  "action_on_violated_process"; "action_on_violated_file"; "action_on_falco_alert";
                  "action_falco_alert_priority"; "action_action"];
     k_all_text := actions_query;
     k_by_namespace_text := actions_by_namespace_query;
     k_uid_text := action_uid_query;
     k_zero := zero_DAction;
     k_dec := dec_DAction;
     k_dec_list := dec_dgraphActionList;
     k_uid := DAction_UID;
     k_toPb := toPbAction;
     k_payload := fun x => enc_DAction (dgraphActionFromPb x) |}.

(** The fields the queries name are the lines of the field texts. *)
Lemma fields_of_texts :
  k_fields constraint_kind =
    List.filter (fun f => negb (String.eqb f "")) (List.map TrimSpace (Split constraintFields (String "010" ""))) /\
  k_fields action_kind =
    List.filter (fun f => negb (String.eqb f "")) (List.map TrimSpace (Split actionFields (String "010" ""))).
Proof. by vm_compute. Qed.

Lemma constraint_store_shape X (e : StoreE Constraint X) :
  dgraphConstraintStore X e = dgraph_store constraint_kind X e.
Proof. by destruct e. Qed.

Lemma action_store_shape X (e : StoreE Action X) :
  dgraphActionStore X e = dgraph_store action_kind X e.
Proof. by destruct e. Qed.

(** Reading one predicate of a node. *)
Section reading.
Context {A : Type} (fields : list (string * decoder A)) (n : node).

Lemma dec_members_app_fst l1 l2 a :
  (dec_members fields (l1 ++ l2) a).1 = (dec_members fields l2 (dec_members fields l1 a).1).1.
Proof.
  rewrite dec_members_app. destruct (dec_members fields l1 a) as [a1 e1]. cbn.
  by destruct (dec_members fields l2 a1).
Qed.

Definition bool_pred (p : string) : bool :=
  match node_pred p n with Some (JBool b) => b | _ => false end.
Definition int_pred (p : string) : Z :=
  match node_pred p n with
  | Some (JNum l) => default 0%Z (int_of_literal min_int max_int l)
  | _ => 0%Z
  end.

Lemma dec_selected {B} f (get : A -> B) set d zero a :
  String.eqb f "uid" = false -> String.eqb f "dgraph.type" = false ->
  find_field f fields = Some (field get set d) -> get a = zero -> set a zero = a ->
  (dec_members fields (selected n f) a).1 =
  set a (match node_pred f n with Some j => (d zero j).1 | None => zero end).
Proof.
  intros H1 H2 Hf Hg Hs. unfold selected. rewrite H1, H2. destruct (node_pred f n) as [j|]; [|done].
  cbn [dec_members]. rewrite Hf. unfold field. rewrite Hg. by destruct (d zero j).
Qed.

Lemma dec_selected_string f (get : A -> string) set a :
  String.eqb f "uid" = false -> String.eqb f "dgraph.type" = false ->
  find_field f fields = Some (field get set dec_string) -> get a = "" -> set a "" = a ->
  (dec_members fields (selected n f) a).1 = set a (string_pred f n).
Proof.
  intros H1 H2 Hf Hg Hs. rewrite (dec_selected f get set dec_string "" a) by done. f_equal.
  unfold string_pred. by destruct (node_pred f n) as [[]|].
Qed.

Lemma dec_selected_bool f (get : A -> bool) set a :
  String.eqb f "uid" = false -> String.eqb f "dgraph.type" = false ->
  find_field f fields = Some (field get set dec_bool) -> get a = false -> set a false = a ->
  (dec_members fields (selected n f) a).1 = set a (bool_pred f).
Proof.
  intros H1 H2 Hf Hg Hs. rewrite (dec_selected f get set dec_bool false a) by done. f_equal.
  unfold bool_pred. by destruct (node_pred f n) as [[]|].
Qed.

Lemma dec_selected_int f (get : A -> Z) set a :
  String.eqb f "uid" = false -> String.eqb f "dgraph.type" = false ->
  find_field f fields = Some (field get set (dec_int min_int max_int)) -> get a = 0%Z -> set a 0%Z = a ->
  (dec_members fields (selected n f) a).1 = set a (int_pred f).
Proof.
  intros H1 H2 Hf Hg Hs. rewrite (dec_selected f get set (dec_int min_int max_int) 0%Z a) by done. f_equal.
  unfold int_pred. destruct (node_pred f n) as [[]|]; try done. cbn [dec_int].
  by destruct (int_of_literal min_int max_int literal).
Qed.

Lemma dec_selected_uid (get : A -> string) set a :
  find_field "uid" fields = Some (field get set dec_string) ->
  (dec_members fields (selected n "uid") a).1 = set a (node_uid n).
Proof. intros Hf. cbn [selected String.eqb Ascii.eqb Bool.eqb dec_members]. by rewrite Hf. Qed.

Lemma dec_selected_type (get : A -> slice string) set a :
  find_field "dgraph.type" fields = Some (field get set (dec_slice "" dec_string)) ->
  (dec_members fields (selected n "dgraph.type") a).1 = set a (Some [node_type n]).
Proof. intros Hf. unfold selected. cbn [String.eqb Ascii.eqb Bool.eqb dec_members]. by rewrite Hf. Qed.
End reading.

(** Read the predicates of a node one after the other. *)
Ltac read_predicates :=
  repeat (rewrite dec_members_app_fst || rewrite app_nil_r;
    first [ erewrite dec_selected_uid by reflexivity
          | erewrite dec_selected_type by reflexivity
          | erewrite dec_selected_string by reflexivity
          | erewrite dec_selected_bool by reflexivity
          | erewrite dec_selected_int by reflexivity ]; cbv beta iota zeta).

(** The records a query answers, read. *)
Lemma dec_constraint_node n :
  (dec_DConstraint zero_DConstraint (node_json (k_fields constraint_kind) n)).1 =
  mkDConstraint (node_uid n) (Some [node_type n])
    (string_pred "constraint_namespace" n) (string_pred "constraint_name" n)
    (string_pred "constraint_selector" n) (string_pred "constraint_allowed_processes" n)
    (string_pred "constraint_allowed_files" n).
Proof.
  unfold node_json, dec_DConstraint. cbn [k_fields constraint_kind List.map List.concat dec_struct].
  read_predicates. reflexivity.
Qed.

Lemma dec_action_node n :
  (dec_DAction zero_DAction (node_json (k_fields action_kind) n)).1 =
  mkDAction (node_uid n) (Some [node_type n])
    (string_pred "action_namespace" n) (string_pred "action_name" n)
    (string_pred "action_selector" n) (bool_pred n "action_on_violated_process")
    (bool_pred n "action_on_violated_file") (bool_pred n "action_on_falco_alert")
    (int_pred n "action_falco_alert_priority") (string_pred "action_action" n).
Proof.
  unfold node_json, dec_DAction. cbn [k_fields action_kind List.map List.concat dec_struct].
  read_predicates. reflexivity.
Qed.

(** ** Payloads *)

(** The value a written predicate gets. *)
Definition written (k : string) (l : list (string * json)) : option json :=
  snd <$> List.find (fun kv => String.eqb kv.1 k) (List.map clean_member l).

Definition string_value (j : option json) : string := match j with Some (JStr s) => s | _ => "" end.

Lemma written_skip k l1 l2 :
  Forall (fun kv => all_ascii kv.1 = true /\ kv.1 <> k) l1 -> written k (l1 ++ l2) = written k l2.
Proof.
  unfold written. rewrite List.map_app. induction 1 as [|[k' j] l1 [Ha Hne] _ IH]; [done|].
  cbn [List.map app List.find clean_member fst snd] in *. rewrite utf8_clean by by apply utf8_ascii.
  by apply String.eqb_neq in Hne as ->.
Qed.

Lemma string_value_written k v l :
  all_ascii k = true -> written k l = None -> string_value (written k (opt_string k v ++ l)) = clean v.
Proof.
  intros Hk Hl. unfold opt_string. destruct (String.eqb_spec v "") as [->|_]; [by cbn [app]; rewrite Hl|].
  unfold written. cbn [List.map app List.find clean_member fst snd clean_json].
  rewrite utf8_clean by by apply utf8_ascii. by rewrite String.eqb_refl.
Qed.

Definition bool_value (j : option json) : bool := match j with Some (JBool b) => b | _ => false end.
Definition int_value (j : option json) : Z :=
  match j with Some (JNum l) => default 0%Z (int_of_literal min_int max_int l) | _ => 0%Z end.

Lemma bool_value_written k b l :
  all_ascii k = true -> written k l = None -> bool_value (written k (opt_bool k b ++ l)) = b.
Proof.
  intros Hk Hl. destruct b; [|by cbn [app opt_bool]; rewrite Hl].
  unfold written. cbn [opt_bool List.map app List.find clean_member fst snd clean_json].
  rewrite utf8_clean by by apply utf8_ascii. by rewrite String.eqb_refl.
Qed.

Lemma int_value_written k z l :
  (min_int <= z <= max_int)%Z -> all_ascii k = true -> written k l = None ->
  int_value (written k (opt_int k z ++ l)) = z.
Proof.
  intros Hz Hk Hl. unfold opt_int. destruct (Z.eqb_spec z 0) as [->|_]; [by cbn [app]; rewrite Hl|].
  unfold written. cbn [List.map app List.find clean_member fst snd clean_json].
  rewrite utf8_clean by by apply utf8_ascii. rewrite String.eqb_refl.
  change (default 0%Z (int_of_literal min_int max_int (Itoa z)) = z). by rewrite int_of_literal_Itoa.
Qed.

Lemma keys_opt_string k k' v : all_ascii k' = true -> k' <> k ->
  Forall (fun kv : string * json => all_ascii kv.1 = true /\ kv.1 <> k) (opt_string k' v).
Proof. intros Ha Hk. unfold opt_string. destruct (String.eqb v ""); by repeat constructor. Qed.
Lemma keys_opt_bool k k' b : all_ascii k' = true -> k' <> k ->
  Forall (fun kv : string * json => all_ascii kv.1 = true /\ kv.1 <> k) (opt_bool k' b).
Proof. intros Ha Hk. destruct b; by repeat constructor. Qed.
Lemma keys_opt_int k k' z : all_ascii k' = true -> k' <> k ->
  Forall (fun kv : string * json => all_ascii kv.1 = true /\ kv.1 <> k) (opt_int k' z).
Proof. intros Ha Hk. unfold opt_int. destruct (Z.eqb z 0); by repeat constructor. Qed.

Lemma flat_opt_string k v : all_ascii k = true -> Forall flat (List.map clean_member (opt_string k v)).
Proof.
  intros Hk. unfold opt_string. destruct (String.eqb v ""); repeat constructor; cbn [clean_member fst snd].
  - by rewrite utf8_clean by by apply utf8_ascii.
  - apply utf8_clean_valid.
Qed.
Lemma flat_opt_bool k b : all_ascii k = true -> Forall flat (List.map clean_member (opt_bool k b)).
Proof.
  intros Hk. destruct b; repeat constructor; cbn [clean_member fst snd].
  by rewrite utf8_clean by by apply utf8_ascii.
Qed.
Lemma flat_opt_int k z : all_ascii k = true -> Forall flat (List.map clean_member (opt_int k z)).
Proof.
  intros Hk. unfold opt_int. destruct (Z.eqb z 0); repeat constructor; cbn [clean_member fst snd clean_json];
    [by rewrite utf8_clean by by apply utf8_ascii|apply Itoa_literal..].
Qed.
Lemma flat_app l1 l2 :
  Forall flat (List.map clean_member l1) -> Forall flat (List.map clean_member l2) ->
  Forall flat (List.map clean_member (l1 ++ l2)).
Proof. intros H1 H2. rewrite List.map_app. by apply Forall_app. Qed.

Create HintDb dgraph.
#[export] Hint Resolve keys_opt_string keys_opt_bool keys_opt_int flat_opt_string flat_opt_bool
  flat_opt_int flat_app : dgraph.
#[export] Hint Extern 1 (all_ascii _ = true) => reflexivity : dgraph.
#[export] Hint Extern 1 (_ <> _) => discriminate : dgraph.

(** What is sent after the uid and the type. *)
Definition constraint_members (x : DConstraint) : list (string * json) :=
  opt_string "constraint_namespace" (DConstraint_Namespace x) ++
  opt_string "constraint_name" (DConstraint_Name x) ++
  opt_string "constraint_selector" (DConstraint_Selector x) ++
  opt_string "constraint_allowed_processes" (DConstraint_AllowedProcesses x) ++
  opt_string "constraint_allowed_files" (DConstraint_AllowedFiles x) ++ [].

Definition action_members (x : DAction) : list (string * json) :=
  opt_string "action_namespace" (DAction_Namespace x) ++
  opt_string "action_name" (DAction_Name x) ++
  opt_string "action_selector" (DAction_Selector x) ++
  opt_bool "action_on_violated_process" (DAction_OnViolatedProcess x) ++
  opt_bool "action_on_violated_file" (DAction_OnViolatedFile x) ++
  opt_bool "action_on_falco_alert" (DAction_OnFalcoAlert x) ++
  opt_int "action_falco_alert_priority" (DAction_FalcoAlertPriority x) ++
  opt_string "action_action" (DAction_Action x) ++ [].

Lemma constraint_payload x :
  clean_json (k_payload constraint_kind x) =
  JObj (("uid", JStr ("_:" +:+ "constraint")) :: ("dgraph.type", JArr [JStr "Constraint"]) ::
        List.map clean_member (constraint_members (dgraphConstraintFromPb x))).
Proof.
  unfold constraint_members. rewrite app_nil_r. cbn [k_payload constraint_kind]. unfold enc_DConstraint.
  cbn [clean_json]. f_equal.
Qed.

Lemma action_payload x :
  clean_json (k_payload action_kind x) =
  JObj (("uid", JStr ("_:" +:+ "action")) :: ("dgraph.type", JArr [JStr "Action"]) ::
        List.map clean_member (action_members (dgraphActionFromPb x))).
Proof.
  unfold action_members. rewrite app_nil_r. cbn [k_payload action_kind]. unfold enc_DAction.
  cbn [clean_json]. f_equal.
Qed.

Lemma constraint_preds x :
  payload_preds constraint_kind x = List.map clean_member (constraint_members (dgraphConstraintFromPb x)).
Proof. unfold payload_preds. by rewrite constraint_payload. Qed.

Lemma action_preds x :
  payload_preds action_kind x = List.map clean_member (action_members (dgraphActionFromPb x)).
Proof. unfold payload_preds. by rewrite action_payload. Qed.

(** What the written predicates read as. *)
Ltac find_written :=
  repeat (rewrite written_skip by eauto with dgraph);
  first [apply string_value_written | apply bool_value_written | apply int_value_written; [done|..]];
  [reflexivity|];
  repeat (rewrite written_skip by eauto with dgraph); reflexivity.

Lemma written_constraint u t x :
  let n := mkNode u t (List.map clean_member (constraint_members x)) in
  string_pred "constraint_namespace" n = clean (DConstraint_Namespace x) /\
  string_pred "constraint_name" n = clean (DConstraint_Name x) /\
  string_pred "constraint_selector" n = clean (DConstraint_Selector x) /\
  string_pred "constraint_allowed_processes" n = clean (DConstraint_AllowedProcesses x) /\
  string_pred "constraint_allowed_files" n = clean (DConstraint_AllowedFiles x).
Proof.
  split_and!; match goal with |- string_pred ?k _ = ?v =>
      change (string_value (written k (constraint_members x)) = v) end;
    unfold constraint_members; find_written.
Qed.

Lemma written_action u t x :
  let n := mkNode u t (List.map clean_member (action_members x)) in
  string_pred "action_namespace" n = clean (DAction_Namespace x) /\
  string_pred "action_name" n = clean (DAction_Name x) /\
  string_pred "action_selector" n = clean (DAction_Selector x) /\
  string_pred "action_action" n = clean (DAction_Action x) /\
  bool_pred n "action_on_violated_process" = DAction_OnViolatedProcess x /\
  bool_pred n "action_on_violated_file" = DAction_OnViolatedFile x /\
  bool_pred n "action_on_falco_alert" = DAction_OnFalcoAlert x /\
  ((min_int <= DAction_FalcoAlertPriority x <= max_int)%Z ->
   int_pred n "action_falco_alert_priority" = DAction_FalcoAlertPriority x).
Proof.
  split_and!; [..|intros Hz]; match goal with
    | |- string_pred ?k _ = ?v => change (string_value (written k (action_members x)) = v)
    | |- bool_pred _ ?k = ?v => change (bool_value (written k (action_members x)) = v)
    | |- int_pred _ ?k = ?v => change (int_value (written k (action_members x)) = v)
    end; unfold action_members; find_written.
Qed.

(** ** The laws of both kinds *)

Lemma flat_constraint x : Forall flat (List.map clean_member (constraint_members x)).
Proof. unfold constraint_members. eauto 20 with dgraph. Qed.

Lemma flat_action x : Forall flat (List.map clean_member (action_members x)).
Proof. unfold action_members. eauto 20 with dgraph. Qed.

Lemma json_ok_constraint x : json_ok (enc_DConstraint x).
Proof. unfold enc_DConstraint. apply json_ok_obj. eauto 20 with json. Qed.

Lemma json_ok_action x : json_ok (enc_DAction x).
Proof. unfold enc_DAction. apply json_ok_obj. eauto 20 with json. Qed.

#[export] Instance constraint_kind_laws : KindLaws constraint_kind.
Proof.
  split.
  - by apply utf8_ascii.
  - intros l. cbn -[dec_slice find_field]. change (find_field "constraints" _) with
      (Some (field (fun x : dgraphConstraintList => x) (fun _ v => v) (dec_slice zero_DConstraint dec_DConstraint))).
    cbv beta iota. unfold field. by destruct (dec_slice _ _ _ _) as [v []].
  - intros n. reflexivity.
  - intros n. unfold read_node. cbn [k_dec k_zero k_toPb constraint_kind]. by rewrite dec_constraint_node.
  - intros u t preds. unfold read_node. cbn [k_dec k_zero k_toPb constraint_kind]. by rewrite !dec_constraint_node.
  - intros x. rewrite constraint_payload, constraint_preds. split_and!.
    + apply json_ok_constraint.
    + apply flat_constraint.
    + by exists "constraint".
  - intros x. unfold dgraph_norm, read_node. cbn [k_dec k_zero k_toPb k_type constraint_kind].
    rewrite dec_constraint_node, constraint_preds.
    destruct (written_constraint "" "Constraint" (dgraphConstraintFromPb (Some x))) as (->&->&_).
    reflexivity.
Qed.

#[export] Instance action_kind_laws : KindLaws action_kind.
Proof.
  split.
  - by apply utf8_ascii.
  - intros l. cbn -[dec_slice find_field]. change (find_field "actions" _) with
      (Some (field (fun x : dgraphActionList => x) (fun _ v => v) (dec_slice zero_DAction dec_DAction))).
    cbv beta iota. unfold field. by destruct (dec_slice _ _ _ _) as [v []].
  - intros n. reflexivity.
  - intros n. unfold read_node. cbn [k_dec k_zero k_toPb action_kind]. by rewrite dec_action_node.
  - intros u t preds. unfold read_node. cbn [k_dec k_zero k_toPb action_kind]. by rewrite !dec_action_node.
  - intros x. rewrite action_payload, action_preds. split_and!.
    + apply json_ok_action.
    + apply flat_action.
    + by exists "action".
  - intros x. unfold dgraph_norm, read_node. cbn [k_dec k_zero k_toPb k_type action_kind].
    rewrite dec_action_node, action_preds.
    destruct (written_action "" "Action" (dgraphActionFromPb (Some x))) as (->&->&_).
    reflexivity.
Qed.

(** * The server on Dgraph *)

(** The queries the program asks. *)
Definition dgraph_queries : list query :=
  [ all_query constraint_kind; by_namespace_query constraint_kind; uid_query constraint_kind;
    all_query action_kind; by_namespace_query action_kind; uid_query action_kind ].

(** The stores of [NewServer], both on one Dgraph client. *)
Definition dgraph_server {S} (h : handler DgraphE S) : handler ServerE S := fun X e =>
  match e in ServerE X return S -> X * S with
  | CS e => answers h dgraphConstraintStore _ e
  | AS e => answers h dgraphActionStore _ e
  end.

(** What the stores keep of a resource: an absent list of match labels in
    place of an empty one, the kind, and valid UTF-8. *)
Definition stored_constraint (c : Constraint) : Constraint :=
  {| Constraint_Kind := KindConstraint;
     Constraint_Namespace := clean (Constraint_Namespace c);
     Constraint_Name := clean (Constraint_Name c);
     Constraint_Selector := clean_Selector <$> Constraint_Selector c;
     Constraint_AllowedProcesses :=
       List.map (fmap (M := option) clean_AllowedProcessRule) <$> Constraint_AllowedProcesses c;
     Constraint_AllowedFiles := List.map (fmap (M := option) clean_AllowedFileRule) <$> Constraint_AllowedFiles c |}.

Definition stored_action (a : Action) : Action :=
  {| Action_Kind := KindAction;
     Action_Namespace := clean (Action_Namespace a);
     Action_Name := clean (Action_Name a);
     Action_Selector := clean_Selector <$> Action_Selector a;
     Action_OnViolatedProcess := Action_OnViolatedProcess a;
     Action_OnViolatedFile := Action_OnViolatedFile a;
     Action_OnFalcoAlert := Action_OnFalcoAlert a;
     Action_FalcoPriority := Action_FalcoPriority a;
     Action_Action := clean (Action_Action a) |}.

Lemma clean_Marshal {A} (enc : A -> json) dec zero f x :
  codes enc dec zero f -> clean (Marshal (enc x)) = Marshal (enc x).
Proof. intros Hc. apply utf8_clean, utf8_print. apply Hc. Qed.

Lemma codes_selector :
  codes (enc_ptr enc_Selector) (dec_ptr zero_Selector dec_Selector) None (fmap (M := option) clean_Selector).
Proof. by apply codes_ptr; [apply codes_Selector|]. Qed.

Lemma codes_processes :
  codes (enc_slice (enc_ptr enc_AllowedProcessRule))
    (dec_slice None (dec_ptr zero_AllowedProcessRule dec_AllowedProcessRule)) None
    (fmap (M := option) (List.map (fmap (M := option) clean_AllowedProcessRule))).
Proof. apply codes_slice, codes_ptr; [apply codes_AllowedProcessRule|done]. Qed.

Lemma codes_files :
  codes (enc_slice (enc_ptr enc_AllowedFileRule))
    (dec_slice None (dec_ptr zero_AllowedFileRule dec_AllowedFileRule)) None
    (fmap (M := option) (List.map (fmap (M := option) clean_AllowedFileRule))).
Proof. apply codes_slice, codes_ptr; [apply codes_AllowedFileRule|done]. Qed.

Lemma constraint_norm c : dgraph_norm constraint_kind c = stored_constraint c.
Proof.
  unfold dgraph_norm, read_node. cbn [k_dec k_zero k_toPb k_type constraint_kind].
  rewrite dec_constraint_node, constraint_preds.
  destruct (written_constraint "" "Constraint" (dgraphConstraintFromPb (Some c))) as (->&->&->&->&->).
  unfold toPbConstraint, stored_constraint.
  cbn [dgraphConstraintFromPb DConstraint_Namespace DConstraint_Name DConstraint_Selector
       DConstraint_AllowedProcesses DConstraint_AllowedFiles NewConstraint Constraint_Selector
       Constraint_AllowedProcesses Constraint_AllowedFiles].
  by rewrite (clean_Marshal _ _ _ _ _ codes_selector), (clean_Marshal _ _ _ _ _ codes_processes),
    (clean_Marshal _ _ _ _ _ codes_files), (Unmarshal_Marshal _ _ _ _ _ codes_selector),
    (Unmarshal_Marshal _ _ _ _ _ codes_processes), (Unmarshal_Marshal _ _ _ _ _ codes_files).
Qed.

Lemma action_norm a :
  (- 2 ^ 31 <= Action_FalcoPriority a < 2 ^ 31)%Z -> dgraph_norm action_kind a = stored_action a.
Proof.
  intros Hp. unfold dgraph_norm, read_node. cbn [k_dec k_zero k_toPb k_type action_kind].
  rewrite dec_action_node, action_preds.
  destruct (written_action "" "Action" (dgraphActionFromPb (Some a)))
    as (->&->&->&->&->&->&->&Hint).
  rewrite Hint by (cbn; unfold min_int, max_int; lia).
  unfold toPbAction, stored_action.
  cbn [dgraphActionFromPb DAction_Namespace DAction_Name DAction_Selector DAction_OnViolatedProcess
       DAction_OnViolatedFile DAction_OnFalcoAlert DAction_FalcoAlertPriority DAction_Action NewAction
       Action_Selector Action_GetFalcoPriority].
  by rewrite (clean_Marshal _ _ _ _ _ codes_selector), (Unmarshal_Marshal _ _ _ _ _ codes_selector),
    to_int32_id by lia.
Qed.

Section server.
Context {S : Type} (h : handler DgraphE S) (nodes : S -> list node).
Context `{HD : !DgraphLaws h nodes dgraph_queries}.

Definition dgraph_constraints (s : S) : list Constraint := resources constraint_kind (nodes s).
Definition dgraph_actions (s : S) : list Action := resources action_kind (nodes s).

Lemma answers_shape {T} (p q : forall X, StoreE T X -> prog DgraphE X) X (e : StoreE T X) s :
  p X e = q X e -> answers h p X e s = answers h q X e s.
Proof. unfold answers. by intros ->. Qed.

#[export] Instance dgraph_server_laws :
  ServerLaws (dgraph_server h) dgraph_constraints dgraph_actions
    (dgraph_norm constraint_kind) (dgraph_norm action_kind).
Proof using HD.
  assert (all_query constraint_kind ∈ dgraph_queries /\ by_namespace_query constraint_kind ∈ dgraph_queries /\
          uid_query constraint_kind ∈ dgraph_queries /\ all_query action_kind ∈ dgraph_queries /\
          by_namespace_query action_kind ∈ dgraph_queries /\ uid_query action_kind ∈ dgraph_queries)
    as (C1&C2&C3&A1&A2&A3) by (split_and!; repeat constructor).
  split.
  - apply (StoreLaws_lens (answers h (dgraph_store constraint_kind)) _ (fun s => s) (view constraint_kind nodes));
      [|by apply (dgraph_store_laws _ _ _ dgraph_queries)].
    intros X e s. unfold on_constraints. cbn [dgraph_server].
    by rewrite (answers_shape _ _ _ e s (constraint_store_shape X e)).
  - apply (StoreLaws_lens (answers h (dgraph_store action_kind)) _ (fun s => s) (view action_kind nodes));
      [|by apply (dgraph_store_laws _ _ _ dgraph_queries)].
    intros X e s. unfold on_actions. cbn [dgraph_server].
    by rewrite (answers_shape _ _ _ e s (action_store_shape X e)).
  - intros X e s. cbn [dgraph_server]. rewrite (answers_shape _ _ _ e s (constraint_store_shape X e)).
    unfold dgraph_actions, resources. f_equal. by apply (answers_frame _ _ _ dgraph_queries).
  - intros X e s. cbn [dgraph_server]. rewrite (answers_shape _ _ _ e s (action_store_shape X e)).
    unfold dgraph_constraints, resources. f_equal. by apply (answers_frame _ _ _ dgraph_queries).
Qed.
End server.

(** Constraints as messages carry them: valid UTF-8, the kind of
    [NewConstraint], no list of match labels that is present and empty. *)
Definition plain_label (m : ptr MatchLabel) : Prop :=
  match m with Some v => utf8 (MatchLabel_Key v) /\ utf8 (MatchLabel_Value v) | None => True end.
Definition plain_selector (x : ptr Selector) : Prop :=
  match x with
  | Some v => Selector_MatchLabels v <> Some [] /\ Forall plain_label (elems (Selector_MatchLabels v))
  | None => True
  end.
Definition plain_process (r : ptr AllowedProcessRule) : Prop := utf8 (AllowedProcessRule_GetRegex r).
Definition plain_file (r : ptr AllowedFileRule) : Prop :=
  utf8 (AllowedFileRule_GetName r) /\ utf8 (AllowedFileRule_GetSha256Sum r).
Definition plain_constraint (c : Constraint) : Prop :=
  Constraint_Kind c = KindConstraint /\ utf8 (Constraint_Namespace c) /\ utf8 (Constraint_Name c) /\
  plain_selector (Constraint_Selector c) /\
  Forall plain_process (elems (Constraint_AllowedProcesses c)) /\
  Forall plain_file (elems (Constraint_AllowedFiles c)).

Lemma map_id {A} (P : A -> Prop) (f : A -> A) (l : list A) :
  (forall x, P x -> f x = x) -> Forall P l -> List.map f l = l.
Proof. intros Hf. induction 1 as [|x l Hx _ IH]; [done|]. cbn [List.map]. by rewrite Hf, IH. Qed.

Lemma slice_id {A} (P : A -> Prop) (f : A -> A) (s : slice A) :
  (forall x, P x -> f x = x) -> Forall P (elems s) -> fmap (M := option) (List.map f) s = s.
Proof. intros Hf Hs. destruct s as [l|]; [|done]. cbn. f_equal. by apply (map_id P). Qed.

Lemma clean_plain_label m : plain_label m -> fmap (M := option) clean_MatchLabel m = m.
Proof.
  destruct m as [[k v]|]; [|done]. intros [Hk Hv]. cbn in Hk, Hv. unfold clean_MatchLabel.
  cbn [fmap option_fmap option_map MatchLabel_Key MatchLabel_Value]. by rewrite !utf8_clean.
Qed.

Lemma clean_plain_selector x : plain_selector x -> fmap (M := option) clean_Selector x = x.
Proof.
  destruct x as [[ms]|]; [|done]. intros [Hne Hms]. cbn in Hne, Hms. unfold clean_Selector, kept_slice.
  cbn [fmap option_fmap option_map Selector_MatchLabels]. do 2 f_equal.
  destruct ms as [[|m ms]|]; [done| |done]. cbn [elems default] in *. f_equal.
  by apply (map_id plain_label); [apply clean_plain_label|].
Qed.

Lemma clean_plain_process r : plain_process r -> fmap (M := option) clean_AllowedProcessRule r = r.
Proof.
  destruct r as [[[r|]]|]; [|done|done]. unfold plain_process. cbn. intros Hr.
  unfold clean_AllowedProcessRule. cbn [AllowedProcessRule_Regex fmap option_fmap option_map].
  by rewrite utf8_clean.
Qed.

Lemma clean_plain_file r : plain_file r -> fmap (M := option) clean_AllowedFileRule r = r.
Proof.
  destruct r as [[n [h|]]|]; [..|done]; intros [Hn Hh]; cbn in Hn, Hh; unfold clean_AllowedFileRule;
    cbn [AllowedFileRule_Name AllowedFileRule_Sha256Sum fmap option_fmap option_map]; by rewrite !utf8_clean.
Qed.

Lemma stored_plain c : plain_constraint c -> stored_constraint c = c.
Proof.
  destruct c as [k ns n sel ps fs]. intros (Hk&Hns&Hn&Hsel&Hps&Hfs). cbn in *. unfold stored_constraint.
  cbn [Constraint_Namespace Constraint_Name Constraint_Selector Constraint_AllowedProcesses
       Constraint_AllowedFiles].
  by rewrite Hk, !utf8_clean, clean_plain_selector, (slice_id plain_process), (slice_id plain_file)
    by (try done; apply clean_plain_process || apply clean_plain_file).
Qed.

(** * Properties *)

Section properties.
Context {S : Type} (h : handler DgraphE S) (nodes : S -> list node).
Context `{HD : !DgraphLaws h nodes dgraph_queries}.

(** C9. The stores on Dgraph keep the contract of the stores.  With the
    constraints and actions that the nodes of a Dgraph database describe as
    the abstract view, every call of the two stores is a transition of the
    contract; a resource is kept with its strings made valid UTF-8 and with
    no match labels in place of an empty list of them. *)
Theorem dgraph_stores_refine :
  ServerLaws (dgraph_server h) (dgraph_constraints nodes) (dgraph_actions nodes)
    (dgraph_norm constraint_kind) (dgraph_norm action_kind) /\
  (forall c, dgraph_norm constraint_kind c = stored_constraint c) /\
  (forall a, (- 2 ^ 31 <= Action_FalcoPriority a < 2 ^ 31)%Z ->
     dgraph_norm action_kind a = stored_action a).
Proof using HD.
  split; [by apply dgraph_server_laws|]. split; [apply constraint_norm|apply action_norm].
Qed.

(** C25. A constraint comes back.  When tarian-server on Dgraph has answered
    that a constraint was added, reading its namespace finds it as it was
    stored, and a constraint of valid UTF-8 whose selector is not empty is
    stored as it was sent. *)
Theorem added_constraint_comes_back c s s1 l s2 :
  run (dgraph_server h)
    (ConfigServer_AddConstraint (Some {| AddConstraintRequest_Constraint := Some c |})) s =
    (Done (Some (mkAddConstraintResponse true), None), s1) ->
  on_constraints (dgraph_server h) _ (FindByNamespace (Constraint_Namespace c)) s1 = ((l, None), s2) ->
  Some (stored_constraint c) ∈ elems l /\ (plain_constraint c -> stored_constraint c = c).
Proof using HD.
  intros Ha Hf. split; [|apply stored_plain]. rewrite AddConstraint_shape in Ha.
  destruct (add_resource_spec (on_constraints (dgraph_server h)) (dgraph_constraints nodes)
              (dgraph_norm constraint_kind) c s) as ([b er]&s'&Hr&Hsp).
  rewrite Hr in Ha. destruct b as [[]|]; simplify_eq/=.
  inversion Hsp as [| | | |Hns _ _ Hk Hv|]; subst.
  apply (store_find (on_constraints (dgraph_server h)) (dgraph_constraints nodes)
           (dgraph_norm constraint_kind)) in Hf; [|done].
  rewrite Hf, Hv, <- constraint_norm. apply list_elem_of_fmap_2, list_elem_of_filter.
  split; [by rewrite Hk|left].
Qed.
End properties.

(** * A server on a Dgraph in memory *)

Lemma dgraph_queries_ok : queries_ok dgraph_queries.
Proof.
  split.
  - apply (bool_decide_unpack _). by vm_compute.
  - by repeat constructor.
Qed.

Definition ex_dgraph : handler DgraphE (list (option raw_node)) := mem_dgraph dgraph_queries.

#[export] Instance ex_dgraph_laws : DgraphLaws ex_dgraph mem_nodes dgraph_queries.
Proof. apply mem_dgraph_laws, dgraph_queries_ok. Qed.

Definition ex_constraint : Constraint :=
  mkConstraint KindConstraint "default" "nginx"
    (Some (mkSelector (Some [Some (mkMatchLabel "run" "nginx")])))
    (Some [Some (mkAllowedProcessRule (Some "nginx.*")); None])
    (Some [Some (mkAllowedFileRule "/etc/nginx.conf" (Some "ab"))]).

Lemma dgraph_stores_refine_witness :
  ServerLaws (dgraph_server ex_dgraph) (dgraph_constraints mem_nodes) (dgraph_actions mem_nodes)
    (dgraph_norm constraint_kind) (dgraph_norm action_kind) /\
  dgraph_norm constraint_kind ex_constraint = ex_constraint.
Proof.
  destruct (dgraph_stores_refine ex_dgraph mem_nodes) as (H1&H2&_).
  split; [exact H1|]. rewrite H2. reflexivity.
Defined.

(** Adding a constraint, in full: what Dgraph holds, and what is read. *)
Example ex_add :
  let s := (run (dgraph_server ex_dgraph) (ConfigServer_AddConstraint
     (Some {| AddConstraintRequest_Constraint := Some ex_constraint |})) []).2 in
  mem_nodes s = [ mkNode "0x0" "Constraint"
    [ ("constraint_namespace", JStr "default"); ("constraint_name", JStr "nginx");
      ("constraint_selector", JStr (Marshal (enc_ptr enc_Selector (Constraint_Selector ex_constraint))));
      ("constraint_allowed_processes", JStr (Marshal (JArr [JObj [("regex", JStr "nginx.*")]; JNull])));
      ("constraint_allowed_files",
       JStr (Marshal (JArr [JObj [("name", JStr "/etc/nginx.conf"); ("sha256sum", JStr "ab")]]))) ] ] /\
  (dgraph_server ex_dgraph _ (CS GetAll) s).1 = (Some [Some ex_constraint], None).
Proof. by vm_compute. Qed.

Lemma added_constraint_comes_back_witness : exists l s2,
  let s1 := (run (dgraph_server ex_dgraph) (ConfigServer_AddConstraint
     (Some {| AddConstraintRequest_Constraint := Some ex_constraint |})) []).2 in
  on_constraints (dgraph_server ex_dgraph) _ (FindByNamespace "default") s1 = ((l, None), s2) /\
  Some (stored_constraint ex_constraint) ∈ elems l.
Proof.
  eexists _, _. cbv zeta. split; [by vm_compute|].
  apply (added_constraint_comes_back ex_dgraph mem_nodes ex_constraint []
           (run (dgraph_server ex_dgraph) (ConfigServer_AddConstraint
              (Some {| AddConstraintRequest_Constraint := Some ex_constraint |})) []).2 _
           (run (dgraph_server ex_dgraph) (ConfigServer_AddConstraint
              (Some {| AddConstraintRequest_Constraint := Some ex_constraint |})) []).2);
    by vm_compute.
Defined.
