(* ===== verification/Queue.v ===== *)
(** The message queues of [pkg/protoqueue]: the queue on a Go channel
    ([channel.go]) and the queue on NATS JetStream ([nats.go]).  NATS and the
    protobuf codec are parameters.  The theorems: bounds and outcome of the
    publish retries, the round trip through a stream, and what happens to a
    message that cannot be decoded. *)

From S2P Require Import Prelude GoStrings.

(** * Channel queue *)

Section channel.
Context {M : Type}.

(** Capacity of the channel. *)
Definition channel_capacity : nat := 1000.

Definition ChannelQueue := list M.

Definition NewChannelQueue : ChannelQueue := [].

(** [None]: the send blocks. *)
Definition ChannelQueue_Publish (message : M) (cq : ChannelQueue)
  : option (option error * ChannelQueue) :=
  if (length cq <? channel_capacity)%nat then Some (None, cq ++ [message]) else None.

(** [None]: the receive blocks. *)
Definition ChannelQueue_NextMessage (cq : ChannelQueue)
  : option ((M * option error) * ChannelQueue) :=
  match cq with
  | [] => None
  | m :: cq' => Some ((m, None), cq')
  end.

Lemma Publish_bounded m cq r cq' :
  ChannelQueue_Publish m cq = Some (r, cq') ->
  r = None /\ cq' = cq ++ [m] /\ length cq' <= channel_capacity.
Proof.
  unfold ChannelQueue_Publish. destruct (Nat.ltb_spec (length cq) channel_capacity); [|done].
  intros [= <- <-]. split_and!; try done. rewrite length_app. cbn [length]. lia.
Qed.
End channel.

(** * JetStream queue *)

(** Errors of the NATS client that the code tells apart. *)
Inductive nats_error := ErrStreamNotFound | ErrTimeout | OtherNats (e : error).

Definition nats_to_error (e : nats_error) : error :=
  match e with
  | ErrStreamNotFound => PlainError "nats: stream not found"
  | ErrTimeout => PlainError "nats: timeout"
  | OtherNats e => e
  end.

(** The constants and the connection options of NATS that the server uses. *)
Inductive nats_constant := LimitsPolicy | DiscardOld | FileStorage | AckExplicitPolicy.
Inductive nats_Option := RootCAs (file : string) | ClientCert (certFile keyFile : string).

(** Durations in nanoseconds. *)
Record StreamConfig := mkStreamConfig {
  StreamConfig_Name : string;
  StreamConfig_Subjects : slice string;
  StreamConfig_Retention : nats_constant;
  StreamConfig_Discard : nats_constant;
  StreamConfig_MaxMsgs : Z;
  StreamConfig_MaxAge : Z;
  StreamConfig_MaxBytes : Z;
  StreamConfig_Storage : nats_constant;
  StreamConfig_Replicas : Z;
  StreamConfig_Duplicates : Z;
}.

(** The same limits for another stream. *)
Definition stream_named (name : string) (c : StreamConfig) : StreamConfig :=
  mkStreamConfig name (Some [name]) (StreamConfig_Retention c) (StreamConfig_Discard c) (StreamConfig_MaxMsgs c)
    (StreamConfig_MaxAge c) (StreamConfig_MaxBytes c) (StreamConfig_Storage c) (StreamConfig_Replicas c)
    (StreamConfig_Duplicates c).

Record ConsumerConfig := mkConsumerConfig {
  ConsumerConfig_Durable : string;
  ConsumerConfig_DeliverSubject : string;
  ConsumerConfig_DeliverGroup : string;
  ConsumerConfig_AckPolicy : nats_constant;
}.

(** The calls of the NATS client.  [JStreamInfo] answers whether an info was
    returned and the error. *)
Inductive JetStreamE : Type -> Type :=
| JConnect (url : string) (options : list nats_Option) : JetStreamE (option error)
| JContext : JetStreamE (option error)
| JStreamInfo (name : string) : JetStreamE (bool * option nats_error)
| JAddStream (config : StreamConfig) : JetStreamE (option error)
| JAddConsumer (stream : string) (config : ConsumerConfig) : JetStreamE (option error)
| JQueueSubscribeSync (subject group : string) : JetStreamE (option error)
| JPublish (subject data : string) : JetStreamE (option error)
| JNextMsg (timeout : Z) : JetStreamE (string + nats_error)
| JAck : JetStreamE (option error)
| JSleep (duration : Z) : JetStreamE unit.

(** [Conn.JSContext] and [Subscription] are nil until they are set. *)
Record JetStream := mkJetStream {
  JetStream_URL : string;
  JetStream_Options : list nats_Option;
  JetStream_StreamName : string;
  JetStream_connected : bool;
  JetStream_subscribed : bool;
}.

Definition NewJetstream (url : string) (options : list nats_Option) (streamName : string)
  : JetStream * option error :=
  (mkJetStream url options streamName false false, None).

Definition Connect (j : JetStream) : prog JetStreamE (option error * JetStream) :=
  err <- call (JConnect (JetStream_URL j) (JetStream_Options j));;
  match err with
  | Some _ =>
      Ret (Errorf "nats: jetstream connect: failed to connect to NATS server" err, j)
  | None =>
      err <- call JContext;;
      match err with
      | Some _ =>
          Ret (Errorf "nats: jetstream connect: failed to get JetStream context" err, j)
      | None =>
          Ret (None, mkJetStream (JetStream_URL j) (JetStream_Options j) (JetStream_StreamName j) true
                                 (JetStream_subscribed j))
      end
  end.

Definition CreateStreamIfNotExist (streamConfig : StreamConfig) (j : JetStream)
  : prog JetStreamE (option error) :=
  if negb (JetStream_connected j)
  then Ret (Errorf "nats: jetstream CreateStreamIfNotExist"
              (Some (PlainError "cannot create stream due to nil connection")))
  else
    r <- call (JStreamInfo (JetStream_StreamName j));;
    let '(streamInfo, err) := r in
    match streamInfo, err with
    | true, None => Ret None
    | _, _ =>
        err <- call (JAddStream streamConfig);;
        match err with
        | Some _ => Ret (Errorf "nats: jetstream CreateStreamIfNotExist"
                           (Errorf "error while creating stream" err))
        | None => Ret None
        end
    end.

(** A nil [JSContext] panics. *)
Definition CreateConsumer (j : JetStream) : prog JetStreamE (option error) :=
  if JetStream_connected j
  then call (JAddConsumer (JetStream_StreamName j)
               (mkConsumerConfig (JetStream_StreamName j +:+ "-TODO")
                                 (JetStream_StreamName j +:+ "-DeliverSubject")
                                 (JetStream_StreamName j +:+ "-TODO") AckExplicitPolicy))
  else Crash (NilDeref "JSContext").

Definition CreateSubscription (j : JetStream) : prog JetStreamE (option error * JetStream) :=
  err <- call (JQueueSubscribeSync (JetStream_StreamName j +:+ "-DeliverSubject")
                                   (JetStream_StreamName j +:+ "-TODO"));;
  match err with
  | Some _ =>
      Ret (Errorf "nats: jetstream CreateSubscription: failed to create subscription" err, j)
  | None =>
      Ret (None, mkJetStream (JetStream_URL j) (JetStream_Options j) (JetStream_StreamName j)
                             (JetStream_connected j) true)
  end.

Definition Init (streamConfig : StreamConfig) (j : JetStream)
  : prog JetStreamE (option error * JetStream) :=
  err <- CreateStreamIfNotExist streamConfig j;;
  match err with
  | Some _ => Ret (Errorf "nats: jetstream init: failed to create stream" err, j)
  | None =>
      err <- CreateConsumer j;;
      match err with
      | Some _ => Ret (Errorf "nats: jetstream init: failed to create consumer" err, j)
      | None => CreateSubscription j
      end
  end.

Definition maxRetries : nat := 5.
Definition RetryInterval : Z := 5000000000.

(** The loop of [publishWithRetry] with the attempts left and the last error. *)
Fixpoint publish_loop (subject data : string) (attempts : nat) (err : option error)
  : prog JetStreamE (option error) :=
  match attempts with
  | 0 => Ret err
  | S attempts' =>
      err <- call (JPublish subject data);;
      match err with
      | None => Ret None
      | Some _ =>
          call (JSleep RetryInterval);;;
          publish_loop subject data attempts' err
      end
  end.

Definition publishWithRetry (subject data : string) : prog JetStreamE (option error) :=
  publish_loop subject data maxRetries None.

(** The protobuf codec for the queued messages. *)
Class ProtoCodec (M : Type) := {
  proto_Marshal : M -> string + error;
  proto_Unmarshal : string -> M + error;
}.

(** Its documented behaviour: what was encoded decodes to the message. *)
Class ProtoCodecLaws (M : Type) `{ProtoCodec M} : Prop :=
  Unmarshal_Marshal m data : proto_Marshal m = inl data -> proto_Unmarshal data = inl m.

Section jetstream.
Context `{PC : ProtoCodec M}.

Definition JetStream_Publish (queuedMessage : M) (j : JetStream)
  : prog JetStreamE (option error) :=
  match proto_Marshal queuedMessage with
  | inr err =>
      Ret (Errorf "nats: jetstream publish: failed to marshal queued message" (Some err))
  | inl data =>
      err <- publishWithRetry (JetStream_StreamName j) data;;
      match err with
      | Some _ => Ret (Errorf "nats: jetstream publish: failed to publish message" err)
      | None => Ret None
      end
  end.

(** A nil subscription answers [ErrBadSubscription]. *)
Definition JetStream_NextMessage (j : JetStream) : prog JetStreamE (M + error) :=
  msg <- (if JetStream_subscribed j then call (JNextMsg 3600000000000)
          else Ret (inr (OtherNats (PlainError "nats: invalid subscription"))));;
  match msg with
  | inr ErrTimeout =>
      Ret (inr (WrapError "nats: jetstream NextMessage: no message in the queue until the timeout is reached"
                  (Some (nats_to_error ErrTimeout))))
  | inr err => Ret (inr (nats_to_error err))
  | inl data =>
      call JAck;;;
      match proto_Unmarshal data with
      | inr err =>
          Ret (inr (WrapError "nats: jetstream NextMessage: failed to unmarshal message" (Some err)))
      | inl message => Ret (inl message)
      end
  end.
End jetstream.

(** * Creation of a queue *)

(** [retry.Do] with a back-off: the library calls the function, again after
    errors the function marks as retryable, until the back-off stops. *)
Class Retry := retry_Do : forall A,
  (A -> prog JetStreamE (option error * A)) -> A -> prog JetStreamE (option error * A).
Arguments retry_Do {_ A} f a.

(** Documented behaviour: the outcome is that of the last call of the
    function; the calls are made one after the other. *)
Class RetryLaws (R : Retry) : Prop :=
  retry_Do_last A (f : A -> prog JetStreamE (option error * A)) (a : A) (I : A -> Prop)
      (Q : option error -> A -> Prop) :
    I a ->
    (forall a, I a -> ensures (fun o => match o with
                                        | Done (err, a') => I a' /\ Q err a'
                                        | Crashed _ => False end) (f a)) ->
    ensures (fun o => match o with
                      | Done (err, a') => I a' /\ Q err a'
                      | Crashed _ => False end) (retry_Do f a).

Definition wrap_create (r : option error * JetStream) : option error * JetStream :=
  (match r.1 with Some _ => Errorf "createJetStreamQueue" r.1 | None => None end, r.2).

Definition createJetStreamQueue `{Retry} (natsURL : string) (natsOptions : list nats_Option)
    (natsStreamConfig : StreamConfig)
  : prog JetStreamE (ptr JetStream * option error) :=
  let '(jetstreamQueue, err) := NewJetstream natsURL natsOptions (StreamConfig_Name natsStreamConfig) in
  match err with
  | Some _ => Ret (None, err)
  | None =>
      r <- retry_Do (fun j => r <- Connect j;; Ret (wrap_create r)) jetstreamQueue;;
      let '(err, jetstreamQueue) := r in
      match err with
      | Some _ => Ret (None, err)
      | None =>
          r <- retry_Do (fun j => r <- Init natsStreamConfig j;; Ret (wrap_create r)) jetstreamQueue;;
          Ret (Some r.2, r.1)
      end
  end.

(** * Facts *)

(** The stream behind a queue, as the publishes and the consumer see it.  A
    publish that answers an error may still have been stored. *)
Class StreamLaws {W} (h : handler JetStreamE W) (name : string) (stream : W -> list string)
  : Prop := {
  publish_ok data w w' :
    h _ (JPublish name data) w = (None, w') -> stream w' = stream w ++ [data];
  publish_err data w e w' :
    h _ (JPublish name data) w = (Some e, w') ->
    stream w' = stream w \/ stream w' = stream w ++ [data];
  sleep_frame d w : stream (h _ (JSleep d) w).2 = stream w;
  ack_frame w : stream (h _ JAck w).2 = stream w;
  next_ok t w data w' :
    h _ (JNextMsg t) w = (inl data, w') -> stream w = data :: stream w';
  next_err t w e w' :
    h _ (JNextMsg t) w = (inr e, w') -> stream w' = stream w;
}.

Section stream.
Context {W : Type} (h : handler JetStreamE W) (name : string) (stream : W -> list string)
  `{!StreamLaws h name stream}.

(** The loop ends with an answer; the copies stored are at most the attempts,
    at least one when it succeeded. *)
Lemma publish_loop_spec data n err w :
  exists r w' k, run h (publish_loop name data n err) w = (Done r, w') /\
    stream w' = stream w ++ replicate k data /\ k <= n /\
    (r = None -> 1 <= k \/ n = 0 /\ err = None).
Proof.
  revert err w. induction n as [|n IH]; intros err w; cbn [publish_loop].
  - exists err, w, 0. split; [done|]. rewrite app_nil_r. split_and!; [done|lia|auto].
  - cbn. destruct (h _ (JPublish name data) w) as [[e|] w1] eqn:Hp; cbn.
    + pose proof (sleep_frame RetryInterval w1) as Hs.
      destruct (h _ (JSleep RetryInterval) w1) as [u w2] eqn:Hsl. cbn in Hs |- *.
      destruct (IH (Some e) w2) as (r&w'&k&Hr&Hst&Hk&Hnone).
      exists r, w'. apply publish_err in Hp as [Hp|Hp].
      * exists k. split; [done|]. rewrite Hst, Hs, Hp. split_and!; [done|lia|].
        intros [?|[_ ?]]%Hnone; [by left|done].
      * exists (S k). split; [done|]. rewrite Hst, Hs, Hp, <- app_assoc. split_and!; [done|lia|lia].
    + exists None, w1, 1. apply publish_ok in Hp. split; [done|]. split_and!; [done|lia|lia].
Qed.
End stream.

Section publish.
Context `{PC : ProtoCodec M}.
Context {W : Type} (h : handler JetStreamE W) (stream : W -> list string).

(** C20. Publishing to a stream is at-least-once: it always answers; when it
    answers no error the encoded message was appended to the stream, between
    once and five times; on an error at most five copies may be there, none
    when the message could not be encoded. *)
Theorem Publish_at_least_once (j : JetStream) `{!StreamLaws h (JetStream_StreamName j) stream} (m : M) w :
  exists r w', run h (JetStream_Publish m j) w = (Done r, w') /\
    match proto_Marshal m with
    | inr _ => r <> None /\ w' = w
    | inl data => exists k, stream w' = stream w ++ replicate k data /\ k <= 5 /\
                            (r = None -> 1 <= k)
    end.
Proof.
  unfold JetStream_Publish. destruct (proto_Marshal m) as [data|e].
  - unfold publishWithRetry. rewrite run_bind.
    destruct (publish_loop_spec h (JetStream_StreamName j) stream data maxRetries None w)
      as (r&w'&k&->&Hst&Hk&Hn).
    assert (r = None -> 1 <= k) as Hk1.
    { intros [?|[? _]]%Hn; [done|]. by unfold maxRetries in *. }
    destruct r as [e|]; cbn; eexists _, w'; (split; [reflexivity|]);
      exists k; by split_and!.
  - eexists _, w. split; [reflexivity|]. by split.
Qed.

(** A message published to an empty stream is the message the consumer
    gets next; the consumer never sees another message. *)
Lemma Publish_NextMessage (j : JetStream) `{!StreamLaws h (JetStream_StreamName j) stream}
    `{!ProtoCodecLaws M} (m : M) w w1 :
  stream w = [] -> run h (JetStream_Publish m j) w = (Done None, w1) ->
  exists w2, (run h (JetStream_NextMessage j) w1 = (Done (inl m), w2) /\
              length (stream w2) <= 4) \/
    (exists e, run h (JetStream_NextMessage j) w1 = (Done (inr e), w2) /\ stream w2 = stream w1).
Proof.
  intros Hw Hp. unfold JetStream_Publish in Hp.
  destruct (proto_Marshal m) as [data|e] eqn:Hm; [|done].
  unfold publishWithRetry in Hp. rewrite run_bind in Hp.
  destruct (publish_loop_spec h (JetStream_StreamName j) stream data maxRetries None w)
    as (r&w'&k&Hr&Hst&Hk&_). rewrite Hr in Hp.
  destruct r as [e|]; [done|]. injection Hp as ->. rewrite Hw in Hst.
  unfold JetStream_NextMessage. destruct (JetStream_subscribed j); cbn.
  - destruct (h _ (JNextMsg 3600000000000) w1) as [[d|e] w2] eqn:Hn; cbn.
    + apply next_ok in Hn. rewrite Hst in Hn.
      destruct k as [|k]; [done|]. cbn in Hn. injection Hn as <- Hs2.
      pose proof (ack_frame w2) as Ha. destruct (h _ JAck w2) as [a w3]. cbn in *.
      rewrite (Unmarshal_Marshal m data Hm). cbn. exists w3. left. split; [done|].
      rewrite Ha, <- Hs2, length_replicate. unfold maxRetries in Hk. lia.
    + apply next_err in Hn. exists w2. right. by destruct e; eexists.
  - exists w1. right. by eexists.
Qed.
End publish.

Lemma Connect_spec j :
  ensures (fun o => match o with
                    | Done (err, j') => JetStream_StreamName j' = JetStream_StreamName j /\
                        JetStream_subscribed j' = JetStream_subscribed j /\
                        (err = None -> JetStream_connected j' = true)
                    | Crashed _ => False end) (Connect j).
Proof.
  unfold Connect. apply ensures_call_bind. intros [e|]; [by apply ensures_ret|].
  apply ensures_call_bind. by intros [e|]; apply ensures_ret.
Qed.

Lemma Init_spec config j :
  JetStream_connected j = true ->
  ensures (fun o => match o with
                    | Done (err, j') => JetStream_StreamName j' = JetStream_StreamName j /\
                        JetStream_connected j' = true /\
                        (err = None -> JetStream_subscribed j' = true)
                    | Crashed _ => False end) (Init config j).
Proof.
  intros Hc. unfold Init, CreateStreamIfNotExist, CreateConsumer. rewrite Hc. cbn.
  split; [done|]. intros [[] [e|]] _; cbn; (split; [done|]); intros [e'|] _; cbn; try done;
    (split; [done|]); intros [e2|] _; cbn; try done; (split; [done|]); intros [e3|] _; done.
Qed.

(** A queue that can publish and be consumed. *)
Definition ready (name : string) (j : JetStream) : Prop :=
  JetStream_StreamName j = name /\ JetStream_connected j = true /\ JetStream_subscribed j = true.

(** Creating a queue never panics; without an error the queue is ready. *)
Lemma createJetStreamQueue_ready `{R : Retry} `{!RetryLaws R} url options config :
  ensures (fun o => match o with
                    | Done (j, None) => exists q, j = Some q /\ ready (StreamConfig_Name config) q
                    | Done (_, Some _) => True
                    | Crashed _ => False end) (createJetStreamQueue url options config).
Proof.
  unfold createJetStreamQueue, NewJetstream. cbv beta iota. apply ensures_bind.
  eapply ensures_mono; [|apply (retry_Do_last _ _ _
    (fun j => JetStream_StreamName j = StreamConfig_Name config)
    (fun err j => err = None -> JetStream_connected j = true)); [done|]].
  - intros [[err j]|c]; [|done]. intros [Hn Hc]. destruct err as [e|]; [by apply ensures_ret|].
    specialize (Hc eq_refl). apply ensures_bind.
    eapply ensures_mono; [|apply (retry_Do_last _ _ _
      (fun j => JetStream_StreamName j = StreamConfig_Name config /\ JetStream_connected j = true)
      (fun err j => err = None -> JetStream_subscribed j = true)); [done|]].
    + intros [[err' j']|c]; [|done]. intros [[Hn' Hc'] Hs]. destruct err' as [e|]; [done|].
      exists j'. split; [done|]. by split_and!; [| |apply Hs].
    + intros j1 [Hn1 Hc1]. apply ensures_bind. eapply ensures_mono; [|by apply Init_spec].
      intros [[e1 j2]|c]; [|done]. intros (Hn2&Hc2&Hs2). apply ensures_ret. cbn.
      split; [by rewrite Hn2|]. intros He. destruct e1; [done|]. auto.
  - intros j1 Hn1. apply ensures_bind. eapply ensures_mono; [|apply Connect_spec].
    intros [[e1 j2]|c]; [|done]. intros (Hn2&_&Hc2). apply ensures_ret. cbn.
    split; [by rewrite Hn2|]. intros He. destruct e1; [done|]. auto.
Qed.

(** * A concrete stream *)

(** Every other publish answers an error although the message was stored. *)
Definition flaky_stream : handler JetStreamE (list string * bool) := fun X e w =>
  match e in JetStreamE X return X * (list string * bool) with
  | JPublish _ data =>
      (if w.2 then Some (PlainError "nats: timeout") else None, (w.1 ++ [data], negb w.2))
  | JNextMsg _ =>
      match w.1 with
      | [] => (inr ErrTimeout, w)
      | data :: rest => (inl data, (rest, w.2))
      end
  | JStreamInfo _ => ((false, Some ErrStreamNotFound), w)
  | JConnect _ _ | JContext | JAddStream _ | JAddConsumer _ _ | JQueueSubscribeSync _ _ | JAck =>
      (None, w)
  | JSleep _ => (tt, w)
  end.

#[export] Instance flaky_stream_laws name : StreamLaws flaky_stream name fst.
Proof.
  split; cbn.
  - intros data [l []] w'; cbn; by intros [= <-].
  - intros data [l []] e w'; cbn; intros H; simplify_eq H; intros; subst; by right.
  - done.
  - done.
  - intros _ [[|d l] b] data w'; cbn; [done|]. by intros [= <- <-].
  - intros _ [[|d l] b] e w'; cbn; [by intros [= <- <-]|done].
Qed.

Definition plain_codec : ProtoCodec string := {| proto_Marshal := inl; proto_Unmarshal := inl |}.

#[export] Instance plain_codec_laws : ProtoCodecLaws string (H := plain_codec).
Proof. intros m data H. cbn in *. congruence. Qed.

Definition ex_queue : JetStream := mkJetStream "nats://nats:4222" [] "events" true true.

Lemma Publish_at_least_once_witness :
  exists r w', run flaky_stream (JetStream_Publish (PC := plain_codec) "m" ex_queue) ([], true) = (Done r, w') /\
    exists k, w'.1 = [] ++ replicate k "m" /\ k <= 5 /\ (r = None -> 1 <= k).
Proof. apply (Publish_at_least_once (PC := plain_codec) flaky_stream fst ex_queue "m" ([], true)). Defined.

(** The failed first attempt was stored: the message is there twice. *)
Example flaky_duplicates :
  (run flaky_stream (JetStream_Publish (PC := plain_codec) "m" ex_queue) ([], true)).2.1 = ["m"; "m"].
Proof. reflexivity. Qed.

Lemma Publish_NextMessage_witness :
  exists w2, (run flaky_stream (JetStream_NextMessage (PC := plain_codec) ex_queue) (["m"; "m"], true) =
                (Done (inl "m"), w2) /\ length w2.1 <= 4) \/
    (exists e, run flaky_stream (JetStream_NextMessage (PC := plain_codec) ex_queue) (["m"; "m"], true) =
                (Done (inr e), w2) /\ w2.1 = ["m"; "m"]).
Proof.
  apply (Publish_NextMessage (PC := plain_codec) flaky_stream fst ex_queue "m" ([], true)); reflexivity.
Defined.
