(* ===== verification/Events.v ===== *)
(** Event ingestion in tarian-server ([pkg/server/event_server.go],
    [ingestion_worker.go], [server.go]): the handlers of the Event service, the
    two ingestion queues with their workers as a transition system, and the
    construction of the server.  The theorems: under every interleaving each
    accepted event is handed to the store once and in the order of its class,
    the queues stay within their bounds, the workers always finish, and a
    server that is created has two ready queues.  What becomes of the events
    in the store is proved in [Pipeline] and [DgraphIngestion]. *)

From S2P Require Import Prelude GoStrings Types Queue.

(** * Event store *)

(** The interface of [pkg/store/event_store.go]. *)
Inductive EventStoreE : Type -> Type :=
| EventGetAll (limit : Z) : EventStoreE (slice (ptr Event) * option error)
| EventFindByNamespace (namespace : string) (limit : Z) : EventStoreE (slice (ptr Event) * option error)
| FindWhereAlertNotSent : EventStoreE (slice (ptr Event) * option error)
| EventAdd (event : Event) : EventStoreE (option error)
| UpdateAlertSent (uid : string) : EventStoreE (option error).

(** * Event service *)

(** Which of the server's two queues. *)
Inductive queue_name := GeneralQueue | DetectionQueue.

#[export] Instance queue_name_eq_dec : EqDecision queue_name.
Proof. solve_decision. Defined.

Inductive EventServerE : Type -> Type :=
| ES {X} (e : EventStoreE X) : EventServerE X
| EPublish (q : queue_name) (event : ptr Event) : EventServerE (option error).

Definition EventServer_IngestEvent (request : ptr IngestEventRequest)
  : prog EventServerE (ptr IngestEventResponse * option error) :=
  match IngestEventRequest_GetEvent request with
  | None => Ret (None, Some (StatusError InvalidArgument "required event is empty"))
  | Some event =>
      err <- (if String.eqb (Event_Type event) EventTypeDetection
              then call (EPublish DetectionQueue (IngestEventRequest_GetEvent request))
              else call (EPublish GeneralQueue (IngestEventRequest_GetEvent request)));;
      match err with
      | Some _ => Ret (None, Some (StatusError Internal "internal server error"))
      | None => Ret (Some (mkIngestEventResponse true), None)
      end
  end.

Definition EventServer_GetEvents (request : ptr GetEventsRequest)
  : prog EventServerE (ptr GetEventsResponse * option error) :=
  let limit := GetEventsRequest_GetLimit request in
  let limit := if (limit =? 0)%Z then 1000%Z else limit in
  r <- (if String.eqb (GetEventsRequest_GetNamespace request) ""
        then call (ES (EventGetAll limit))
        else call (ES (EventFindByNamespace (GetEventsRequest_GetNamespace request) limit)));;
  let '(events, err) := r in
  Ret (Some (mkGetEventsResponse events), None).

(** What a client's call runs on the server, and what the client gets. *)
Definition event_service : forall X, EventE X -> prog EventServerE X := fun X e =>
  match e in EventE X return prog EventServerE X with
  | IngestEvent r => a <- EventServer_IngestEvent (Some r);; Ret (client_invoke a)
  | GetEvents r => a <- EventServer_GetEvents (Some r);; Ret (client_invoke a)
  end.

(** * Ingestion worker *)

Inductive IngestE : Type -> Type :=
| IStore {X} (e : EventStoreE X) : IngestE X
| INow : IngestE Z
| INewUUID : IngestE string.

Definition stamp (now : Z) (uid : string) (event : Event) : Event :=
  mkEvent (Event_Kind event) (Event_Type event) uid (Some (timestamppb_New now))
    (Event_ClientTimestamp event) (Event_AlertSentAt event) (Event_Targets event).

Definition processEvent (event : Event) : prog IngestE unit :=
  now <- call INow;;
  uid <- call INewUUID;;
  err <- call (IStore (EventAdd (stamp now uid event)));;
  Ret tt.

(** ** The running server *)

(** Capacity of [eventChan] in [loopConsumeQueue]. *)
Definition eventChan_capacity : nat := 1000.

(** A queue and the two goroutines that consume it: the reader with the
    message it holds between [NextMessage] and the send, and the channel the
    processing loop ranges over. *)
Record consumer := mkConsumer {
  consumer_queue : list Event;
  consumer_hand : option Event;
  consumer_chan : list Event;
}.

Definition new_consumer : consumer := mkConsumer NewChannelQueue None [].

(** The server with channel queues.  [accepted] lists the events that were
    answered with success, [added] the events handed to the event store. *)
Record ingestion (W : Type) := mkIngestion {
  ingestion_general : consumer;
  ingestion_detection : consumer;
  ingestion_env : W;
  ingestion_accepted : list Event;
  ingestion_added : list Event;
}.
Arguments mkIngestion {W} _ _ _ _ _.
Arguments ingestion_general {W} _.
Arguments ingestion_detection {W} _.
Arguments ingestion_env {W} _.
Arguments ingestion_accepted {W} _.
Arguments ingestion_added {W} _.

Section ingestion.
Context {W : Type} (h : handler IngestE W).

Definition get_consumer (q : queue_name) (s : ingestion W) : consumer :=
  match q with GeneralQueue => ingestion_general s | DetectionQueue => ingestion_detection s end.

Definition set_consumer (q : queue_name) (c : consumer) (s : ingestion W) : ingestion W :=
  match q with
  | GeneralQueue => mkIngestion c (ingestion_detection s) (ingestion_env s)
                      (ingestion_accepted s) (ingestion_added s)
  | DetectionQueue => mkIngestion (ingestion_general s) c (ingestion_env s)
                      (ingestion_accepted s) (ingestion_added s)
  end.

(** The publish of a request, on channel queues: [None] while it blocks. *)
Definition publish_to (q : queue_name) (event : Event) (s : ingestion W) : option (ingestion W) :=
  match ChannelQueue_Publish event (consumer_queue (get_consumer q s)) with
  | None => None
  | Some (_, queue') =>
      let c := get_consumer q s in
      Some (set_consumer q (mkConsumer queue' (consumer_hand c) (consumer_chan c)) s)
  end.

(** An IngestEvent request: the handler runs up to its publish, which blocks
    or answers. *)
Definition ingest (request : ptr IngestEventRequest) (s : ingestion W)
  : option ((ptr IngestEventResponse * option error) * ingestion W) :=
  match EventServer_IngestEvent request with
  | Ret a => Some (a, s)
  | Vis e k =>
      match e in EventServerE X return (X -> prog EventServerE _) -> _ with
      | EPublish q (Some event) => fun k =>
          match publish_to q event s with
          | None => None
          | Some s' =>
              match k None with
              | Ret a =>
                  Some (a, mkIngestion (ingestion_general s') (ingestion_detection s')
                             (ingestion_env s') (ingestion_accepted s' ++ [event]) (ingestion_added s'))
              | _ => None
              end
          end
      | _ => fun _ => None
      end k
  | Crash _ => None
  end.

(** The reader goroutine: [queue.NextMessage]. *)
Definition read_message (q : queue_name) (s : ingestion W) : option (ingestion W) :=
  let c := get_consumer q s in
  match consumer_hand c, ChannelQueue_NextMessage (consumer_queue c) with
  | None, Some ((event, None), queue') =>
      Some (set_consumer q (mkConsumer queue' (Some event) (consumer_chan c)) s)
  | _, _ => None
  end.

(** The reader goroutine: [eventChan <- event]. *)
Definition send_message (q : queue_name) (s : ingestion W) : option (ingestion W) :=
  let c := get_consumer q s in
  match consumer_hand c with
  | Some event =>
      if (length (consumer_chan c) <? eventChan_capacity)%nat
      then Some (set_consumer q (mkConsumer (consumer_queue c) None (consumer_chan c ++ [event])) s)
      else None
  | None => None
  end.

(** The events a run hands to the store. *)
Definition adds (tr : list (event IngestE)) : list Event :=
  omap (fun v => match projT2 v with IStore (EventAdd e) => Some e | _ => None end) tr.

(** The processing loop: one event of [eventChan]. *)
Definition process_message (q : queue_name) (s : ingestion W) : option (ingestion W) :=
  let c := get_consumer q s in
  match consumer_chan c with
  | [] => None
  | event :: chan' =>
      let s' := set_consumer q (mkConsumer (consumer_queue c) (consumer_hand c) chan') s in
      Some (mkIngestion (ingestion_general s') (ingestion_detection s')
              (run h (processEvent event) (ingestion_env s)).2 (ingestion_accepted s)
              (ingestion_added s ++ adds (trace h (processEvent event) (ingestion_env s))))
  end.

(** All the goroutines of the server, one step of one of them at a time. *)
Inductive worker_step : ingestion W -> ingestion W -> Prop :=
| step_read q s s' : read_message q s = Some s' -> worker_step s s'
| step_send q s s' : send_message q s = Some s' -> worker_step s s'
| step_process q s s' : process_message q s = Some s' -> worker_step s s'.

Inductive ingestion_step : ingestion W -> ingestion W -> Prop :=
| step_ingest r a s s' : ingest r s = Some (a, s') -> ingestion_step s s'
| step_worker s s' : worker_step s s' -> ingestion_step s s'.

Definition start (w : W) : ingestion W := mkIngestion new_consumer new_consumer w [] [].
End ingestion.

(** * Facts on the running server *)

(** An event up to what the worker overwrites. *)
Definition unstamp (e : Event) : Event :=
  mkEvent (Event_Kind e) (Event_Type e) "" None (Event_ClientTimestamp e)
    (Event_AlertSentAt e) (Event_Targets e).

Definition of_class (q : queue_name) (e : Event) : Prop :=
  match q with
  | GeneralQueue => Event_Type e <> EventTypeDetection
  | DetectionQueue => Event_Type e = EventTypeDetection
  end.

#[export] Instance of_class_dec q e : Decision (of_class q e).
Proof. destruct q; simpl; apply _. Defined.

Lemma of_class_unstamp q e : of_class q (unstamp e) <-> of_class q e.
Proof. by destruct q. Qed.

Lemma of_class_other q q' e : of_class q e -> q' <> q -> ~ of_class q' e.
Proof. destruct q, q'; simpl; naive_solver. Qed.

(** What a consumer still has, in order. *)
Definition pending (c : consumer) : list Event :=
  consumer_chan c ++ option_list (consumer_hand c) ++ consumer_queue c.

(** Everything accepted and not yet handed to the store is pending, in order,
    per class; nothing else is. *)
Definition fifo {W} (s : ingestion W) : Prop :=
  forall q, Forall (of_class q) (pending (get_consumer q s)) /\
    unstamp <$> filter (of_class q) (ingestion_accepted s) =
      (unstamp <$> filter (of_class q) (ingestion_added s)) ++
      (unstamp <$> pending (get_consumer q s)).

Definition bounded (c : consumer) : Prop :=
  length (consumer_queue c) <= channel_capacity /\ length (consumer_chan c) <= eventChan_capacity.

Section ingestion_facts.
Context {W : Type} (h : handler IngestE W).

Lemma get_set_consumer q c (s : ingestion W) : get_consumer q (set_consumer q c s) = c.
Proof. by destruct q. Qed.

Lemma get_set_other q q' c (s : ingestion W) :
  q' <> q -> get_consumer q' (set_consumer q c s) = get_consumer q' s.
Proof. by destruct q, q'. Qed.

Lemma set_consumer_lists q c (s : ingestion W) :
  ingestion_accepted (set_consumer q c s) = ingestion_accepted s /\
  ingestion_added (set_consumer q c s) = ingestion_added s.
Proof. by destruct q. Qed.

Lemma processEvent_adds e w :
  exists now uid, adds (trace h (processEvent e) w) = [stamp now uid e].
Proof.
  cbn. destruct (h _ INow w) as [now w1]. cbn. destruct (h _ INewUUID w1) as [uid w2]. cbn.
  destruct (h _ (IStore (EventAdd (stamp now uid e))) w2) as [r w3]. cbn. by exists now, uid.
Qed.

Lemma publish_to_cases q e (s s' : ingestion W) :
  publish_to q e s = Some s' ->
  let c := get_consumer q s in
  length (consumer_queue c) < channel_capacity /\
  s' = set_consumer q (mkConsumer (consumer_queue c ++ [e]) (consumer_hand c) (consumer_chan c)) s.
Proof.
  unfold publish_to, ChannelQueue_Publish. destruct (Nat.ltb_spec (length (consumer_queue
    (get_consumer q s))) channel_capacity); [|done]. by intros [= <-].
Qed.

(** What a request does: refused, or accepted into the queue of its class. *)
Lemma ingest_cases r a (s s' : ingestion W) :
  ingest r s = Some (a, s') ->
  (IngestEventRequest_GetEvent r = None /\ s' = s /\
   a = (None, Some (StatusError InvalidArgument "required event is empty"))) \/
  exists e q, IngestEventRequest_GetEvent r = Some e /\ of_class q e /\
    a = (Some (mkIngestEventResponse true), None) /\
    length (consumer_queue (get_consumer q s)) < channel_capacity /\
    let c := get_consumer q s in
    let s1 := set_consumer q (mkConsumer (consumer_queue c ++ [e]) (consumer_hand c)
                                         (consumer_chan c)) s in
    s' = mkIngestion (ingestion_general s1) (ingestion_detection s1) (ingestion_env s)
           (ingestion_accepted s ++ [e]) (ingestion_added s).
Proof.
  unfold ingest, EventServer_IngestEvent.
  destruct (IngestEventRequest_GetEvent r) as [e|]; [|intros [= <- <-]; by left].
  destruct (String.eqb_spec (Event_Type e) EventTypeDetection) as [Ht|Ht]; cbn;
    (destruct (publish_to _ _ s) as [s1|] eqn:Hp; [|done]);
    apply publish_to_cases in Hp as [Hl ->]; intros H; simplify_eq H; intros; subst; right;
    [exists e, DetectionQueue|exists e, GeneralQueue]; by split_and!.
Qed.

(** A step of one consumer that takes [ys] in and gives [xs] to the store. *)
Lemma fifo_move q xs ys (s s' : ingestion W) :
  (forall q', q' <> q -> get_consumer q' s' = get_consumer q' s) ->
  ingestion_accepted s' = ingestion_accepted s ++ ys ->
  ingestion_added s' = ingestion_added s ++ xs ->
  Forall (of_class q) ys -> Forall (of_class q) xs ->
  (Forall (of_class q) (pending (get_consumer q s)) ->
   Forall (of_class q) (pending (get_consumer q s'))) ->
  unstamp <$> pending (get_consumer q s) ++ ys =
    unstamp <$> xs ++ pending (get_consumer q s') ->
  fifo s -> fifo s'.
Proof.
  intros Hother Hacc Hadd Hys Hxs Hcl Hpend Hf q'. destruct (Hf q') as [Hc Heq].
  rewrite Hacc, Hadd, !filter_app, !fmap_app. destruct (decide (q' = q)) as [->|Hne].
  - split; [by apply Hcl|]. rewrite Heq.
    rewrite (filter_all (of_class q) ys), (filter_all (of_class q) xs) by done.
    rewrite <- !app_assoc. f_equal. by rewrite !fmap_app in Hpend.
  - rewrite Hother by done. split; [done|]. rewrite Heq.
    assert (forall l, Forall (of_class q) l -> filter (of_class q') l = []) as Hnil.
    { intros l Hl. apply filter_none. eapply Forall_impl; [done|].
      intros x Hx. by eapply of_class_other. }
    by rewrite (Hnil ys), (Hnil xs), !app_nil_r by done.
Qed.

Lemma fifo_ingest r a (s s' : ingestion W) : ingest r s = Some (a, s') -> fifo s -> fifo s'.
Proof.
  intros [(_&->&_)|(e&q&_&Hcl&_&_&->)]%ingest_cases; [done|]. cbn zeta.
  apply (fifo_move q [] [e]); cbn [ingestion_accepted ingestion_added].
  - intros q' Hq'. by destruct q, q'.
  - done.
  - by rewrite app_nil_r.
  - by constructor.
  - constructor.
  - intros Hp. unfold pending in *. destruct q; cbn in *;
      rewrite !app_assoc; apply Forall_app; (split; [by rewrite <- app_assoc|by constructor]).
  - unfold pending. by destruct q; cbn; rewrite !app_assoc.
Qed.

Lemma worker_step_cases s s' :
  worker_step h s s' -> exists q xs,
    (forall q', q' <> q -> get_consumer q' s' = get_consumer q' s) /\
    ingestion_accepted s' = ingestion_accepted s /\
    ingestion_added s' = ingestion_added s ++ xs /\
    exists ys, pending (get_consumer q s) = ys ++ pending (get_consumer q s') /\
      unstamp <$> xs = unstamp <$> ys.
Proof.
  intros [q s1 s2 H|q s1 s2 H|q s1 s2 H]; exists q.
  - unfold read_message in H. destruct (consumer_hand _) as [x|] eqn:Hh; [done|].
    destruct (consumer_queue _) as [|e queue'] eqn:Hq; [done|]. injection H as <-.
    exists []. rewrite app_nil_r. pose proof (set_consumer_lists q) as Hl.
    split_and!; [intros; by apply get_set_other|apply Hl|apply Hl|].
    exists []. split; [|done]. rewrite get_set_consumer. unfold pending. by rewrite Hh, Hq.
  - unfold send_message in H. destruct (consumer_hand _) as [x|] eqn:Hh; [|done].
    case_match; [|done]. injection H as <-.
    exists []. rewrite app_nil_r. pose proof (set_consumer_lists q) as Hl.
    split_and!; [intros; by apply get_set_other|apply Hl|apply Hl|].
    exists []. split; [|done]. rewrite get_set_consumer. unfold pending. rewrite Hh. cbn.
    by rewrite <- app_assoc.
  - unfold process_message in H. destruct (consumer_chan _) as [|e chan'] eqn:Hc; [done|].
    injection H as <-. destruct (processEvent_adds e (ingestion_env s1)) as (now&uid&Ha).
    exists [stamp now uid e]. split_and!; [|done|by rewrite <- Ha|].
    + intros q' Hq'. by destruct q, q'.
    + exists [e]. split; [|done]. unfold pending at 1. rewrite Hc. by destruct q.
Qed.

Lemma fifo_worker s s' : worker_step h s s' -> fifo s -> fifo s'.
Proof.
  intros (q&xs&Ho&Hacc&Hadd&ys&Hp&Hu)%worker_step_cases Hf.
  pose proof (proj1 (Hf q)) as Hcl. rewrite Hp in Hcl. apply Forall_app in Hcl as [Hys Hcl].
  apply (fifo_move q xs [] s); auto.
  - by rewrite Hacc, app_nil_r.
  - clear -Hu Hys. revert xs Hu. induction Hys as [|y ys Hy Hys IH]; intros [|x xs] Hu; try done.
    cbn in Hu. injection Hu as Hx Hu. constructor; [|by apply IH].
    apply of_class_unstamp. destruct q; cbn in *; congruence.
  - rewrite app_nil_r, Hp, !fmap_app. by rewrite Hu.
Qed.

Lemma bounded_step s s' :
  ingestion_step h s s' -> (forall q, bounded (get_consumer q s)) ->
  forall q, bounded (get_consumer q s').
Proof.
  intros [r a s1 s2 H|s1 s2 [q0 s3 s4 H|q0 s3 s4 H|q0 s3 s4 H]] Hb q.
  - apply ingest_cases in H as [(_&->&_)|(e&q0&_&_&_&Hl&->)]; [apply Hb|].
    specialize (Hb q). unfold bounded in *. destruct q, q0; cbn in *; auto;
      rewrite length_app; cbn [length]; lia.
  - unfold read_message in H. destruct (consumer_hand _) eqn:Hh; [done|].
    destruct (consumer_queue _) as [|e queue'] eqn:Hq; [done|]. injection H as <-.
    destruct (decide (q = q0)) as [->|Hne]; [|by rewrite get_set_other].
    rewrite get_set_consumer. destruct (Hb q0) as [H1 H2]. rewrite Hq in H1. split; cbn in *; [lia|done].
  - unfold send_message in H. destruct (consumer_hand _) eqn:Hh; [|done].
    destruct (Nat.ltb_spec (length (consumer_chan (get_consumer q0 s3))) eventChan_capacity); [|done].
    injection H as <-.
    destruct (decide (q = q0)) as [->|Hne]; [|by rewrite get_set_other].
    rewrite get_set_consumer. destruct (Hb q0) as [H1 H2]. split; cbn [consumer_queue consumer_chan]; [done|].
    rewrite length_app. cbn [length]. lia.
  - unfold process_message in H. destruct (consumer_chan _) as [|e chan'] eqn:Hc; [done|].
    injection H as <-. specialize (Hb q). unfold bounded in *.
    destruct q, q0; cbn in *; rewrite ?Hc in Hb; cbn in Hb; auto; split; try apply Hb; lia.
Qed.

(** ** Draining *)

Definition work (c : consumer) : nat :=
  3 * length (consumer_queue c) + 2 * length (option_list (consumer_hand c)) +
  length (consumer_chan c).

Definition total_work (s : ingestion W) : nat :=
  work (get_consumer GeneralQueue s) + work (get_consumer DetectionQueue s).

(** What can be pending at most: an event takes three steps. *)
Definition max_work : nat := 2 * (3 * channel_capacity + 2 + eventChan_capacity).

Lemma total_work_lt q s s' :
  (forall q', q' <> q -> get_consumer q' s' = get_consumer q' s) ->
  work (get_consumer q s') < work (get_consumer q s) -> total_work s' < total_work s.
Proof.
  intros Ho Hw. unfold total_work.
  destruct q; [rewrite (Ho DetectionQueue) by done|rewrite (Ho GeneralQueue) by done]; lia.
Qed.

(** Every step of a worker does some of the work. *)
Lemma worker_step_lt s s' : worker_step h s s' -> total_work s' < total_work s.
Proof.
  intros [q s1 s2 H|q s1 s2 H|q s1 s2 H].
  - unfold read_message in H. destruct (consumer_hand (get_consumer q s1)) as [e|] eqn:Hh; [done|].
    destruct (consumer_queue (get_consumer q s1)) as [|e queue'] eqn:Hq; [done|]. injection H as <-.
    eapply (total_work_lt q); [intros; by apply get_set_other|].
    rewrite get_set_consumer. unfold work. rewrite Hh, Hq. cbn. lia.
  - unfold send_message in H. destruct (consumer_hand (get_consumer q s1)) as [e|] eqn:Hh; [|done].
    destruct (_ <? _)%nat; [|done]. injection H as <-.
    eapply (total_work_lt q); [intros; by apply get_set_other|].
    rewrite get_set_consumer. unfold work. rewrite Hh. cbn. rewrite length_app. cbn. lia.
  - unfold process_message in H. destruct (consumer_chan (get_consumer q s1)) as [|e chan'] eqn:Hc; [done|].
    injection H as <-. eapply (total_work_lt q); [by intros [] ?; destruct q|].
    unfold work. rewrite Hc. destruct q; cbn; lia.
Qed.

(** A consumer with something pending can always move. *)
Lemma pending_moves q s :
  pending (get_consumer q s) <> [] -> exists s', worker_step h s s'.
Proof.
  intros Hp. unfold pending in Hp.
  destruct (consumer_chan (get_consumer q s)) as [|e chan'] eqn:Hc.
  - destruct (consumer_hand (get_consumer q s)) as [e|] eqn:Hh.
    + eexists. apply (step_send h q). unfold send_message. rewrite Hh, Hc. reflexivity.
    + destruct (consumer_queue (get_consumer q s)) as [|e queue'] eqn:Hq; [done|].
      eexists. apply (step_read h q). unfold read_message. rewrite Hh, Hq. reflexivity.
  - eexists. apply (step_process h q). unfold process_message. rewrite Hc. reflexivity.
Qed.

Lemma drain s :
  exists s', rtc (worker_step h) s s' /\ forall q, pending (get_consumer q s') = [].
Proof.
  remember (total_work s) as n eqn:Hn. revert s Hn.
  induction n as [n IH] using lt_wf_ind. intros s ->.
  destruct (pending (get_consumer GeneralQueue s)) as [|e l] eqn:Hg;
    [destruct (pending (get_consumer DetectionQueue s)) as [|e l] eqn:Hd|].
  - exists s. split; [constructor|]. by intros [].
  - destruct (pending_moves DetectionQueue s) as (s1&Hs); [by rewrite Hd|].
    destruct (IH _ (worker_step_lt s s1 Hs) s1 eq_refl) as (s'&Hr&Hp). exists s'. split; [by eapply rtc_l|done].
  - destruct (pending_moves GeneralQueue s) as (s1&Hs); [by rewrite Hg|].
    destruct (IH _ (worker_step_lt s s1 Hs) s1 eq_refl) as (s'&Hr&Hp). exists s'. split; [by eapply rtc_l|done].
Qed.

Lemma fifo_reachable w s :
  rtc (ingestion_step h) (start w) s -> fifo s /\ forall q, bounded (get_consumer q s).
Proof.
  assert (fifo (start w)) as H1 by by intros [].
  assert (forall q, bounded (get_consumer q (start w))) as H2.
  { intros []; split; cbn; lia. }
  revert H1 H2. generalize (start w). intros s0 H1 H2 Hr. revert H1 H2.
  induction Hr as [s|s s1 s2 Hs _ IH]; [done|]. intros H1 H2. apply IH.
  - destruct Hs; [by eapply fifo_ingest|by eapply fifo_worker].
  - by eapply bounded_step.
Qed.

Lemma worker_steps_accepted s s' :
  rtc (worker_step h) s s' -> fifo s -> fifo s' /\ ingestion_accepted s' = ingestion_accepted s.
Proof.
  induction 1 as [s|s s1 s2 Hs _ IH]; [done|]. intros Hf.
  destruct (IH (fifo_worker _ _ Hs Hf)) as [? ->]. split; [done|].
  by apply worker_step_cases in Hs as (q&xs&_&?&_).
Qed.

(** C15. Under every interleaving of requests with the four worker goroutines,
    for each of the two classes: the events handed to the store are, up to the
    uid and server time the worker sets, a prefix of the accepted events in
    the order of acceptance; the rest is still held by the consumer of that
    class in order - nothing is lost, duplicated, reordered or routed to the
    other queue - and queue and channel hold at most 1000 events. *)
Theorem accepted_events_fifo w s :
  rtc (ingestion_step h) (start w) s ->
  forall q, unstamp <$> filter (of_class q) (ingestion_accepted s) =
      (unstamp <$> filter (of_class q) (ingestion_added s)) ++
      (unstamp <$> pending (get_consumer q s)) /\
    Forall (of_class q) (pending (get_consumer q s)) /\ bounded (get_consumer q s).
Proof.
  intros [Hf Hb]%fifo_reachable q. destruct (Hf q). by split_and!.
Qed.

(** C21. The workers always finish.  From every reachable state, whatever order
    the four goroutines run in, they take at most [max_work] steps, 8004, until no one can
    move; and they can only stop when nothing is pending, so no schedule leaves
    an accepted event in a queue or lets the goroutines block each other. *)
Theorem workers_terminate w s :
  rtc (ingestion_step h) (start w) s ->
  (forall n s', nsteps (worker_step h) n s s' -> n <= max_work) /\
  forall s', rtc (worker_step h) s s' ->
    ((forall s'', ~ worker_step h s' s'') <-> forall q, pending (get_consumer q s') = []).
Proof.
  intros Hr. destruct (fifo_reachable w s Hr) as [_ Hb]. split.
  - assert (forall n s', nsteps (worker_step h) n s s' -> n + total_work s' <= total_work s) as Hn.
    { clear. intros n s'. induction 1 as [|n s s1 s2 Hs _ IH]; [done|]. apply worker_step_lt in Hs. lia. }
    intros n s' Hns%Hn. enough (total_work s <= max_work) by lia. unfold total_work, work, max_work.
    destruct (Hb GeneralQueue) as [H1 H2], (Hb DetectionQueue) as [H3 H4].
    assert (forall o : option Event, length (option_list o) <= 1) as Hh by (by intros [e|]; cbn; lia).
    pose proof (Hh (consumer_hand (get_consumer GeneralQueue s))).
    pose proof (Hh (consumer_hand (get_consumer DetectionQueue s))). lia.
  - intros s' _. split.
    + intros Hstuck q. destruct (pending (get_consumer q s')) eqn:Hp; [done|].
      destruct (pending_moves q s') as (s''&Hs); [by rewrite Hp|]. by destruct (Hstuck s'').
    + intros Hp s'' Hs. revert Hp. destruct Hs as [q s1 s2 H|q s1 s2 H|q s1 s2 H]; intros Hp; specialize (Hp q); unfold pending in Hp;
        apply app_eq_nil in Hp as [Hc [Hh Hq]%app_eq_nil].
      * unfold read_message in H. rewrite Hq in H. by destruct (consumer_hand _).
      * unfold send_message in H. by destruct (consumer_hand _).
      * unfold process_message in H. by rewrite Hc in H.
Qed.
End ingestion_facts.

(** * The Event service *)

Section service.
Context {W : Type} (h : handler EventServerE W).

(** The publishes of a run. *)
Definition published (tr : list (event EventServerE)) : list (queue_name * ptr Event) :=
  omap (fun v => match projT2 v with EPublish q e => Some (q, e) | _ => None end) tr.

(** Ingesting answers on every branch: a request without an event is
    refused and publishes nothing; otherwise exactly that event is published,
    once, on the queue of its class; the answer is success when the queue took
    it and an internal error when not. *)
Lemma IngestEvent_exact request w :
  let tr := trace h (EventServer_IngestEvent request) w in
  match IngestEventRequest_GetEvent request with
  | None => tr = [] /\ run h (EventServer_IngestEvent request) w =
      (Done (None, Some (StatusError InvalidArgument "required event is empty")), w)
  | Some e => exists q, of_class q e /\ published tr = [(q, Some e)] /\
      run h (EventServer_IngestEvent request) w =
        (Done match (h _ (EPublish q (Some e)) w).1 with
              | None => (Some (mkIngestEventResponse true), None)
              | Some _ => (None, Some (StatusError Internal "internal server error"))
              end, (h _ (EPublish q (Some e)) w).2)
  end.
Proof.
  unfold EventServer_IngestEvent.
  destruct (IngestEventRequest_GetEvent request) as [e|]; [|done]. cbn zeta.
  destruct (String.eqb_spec (Event_Type e) EventTypeDetection) as [Ht|Ht];
    [exists DetectionQueue|exists GeneralQueue];
    (split; [done|]); cbn; destruct (h _ (EPublish _ (Some e)) w) as [[err|] w']; cbn; done.
Qed.

(** A store error is logged and hidden from the client. *)
Lemma GetEvents_hides_store_error request w err w' :
  (if String.eqb (GetEventsRequest_GetNamespace request) ""
   then h _ (ES (EventGetAll (if (GetEventsRequest_GetLimit request =? 0)%Z then 1000%Z
                              else GetEventsRequest_GetLimit request))) w
   else h _ (ES (EventFindByNamespace (GetEventsRequest_GetNamespace request)
              (if (GetEventsRequest_GetLimit request =? 0)%Z then 1000%Z
               else GetEventsRequest_GetLimit request))) w) = ((None, Some err), w') ->
  run h (EventServer_GetEvents request) w = (Done (Some (mkGetEventsResponse None), None), w').
Proof.
  unfold EventServer_GetEvents. intros H.
  destruct (String.eqb (GetEventsRequest_GetNamespace request) ""); cbn; by rewrite H.
Qed.
End service.

(** * Construction of the server *)

Inductive server_queues :=
| ChannelQueues
| JetStreamQueues (general detection : ptr JetStream).

(** [NewServer], the part that sets up the queues. *)
Definition NewServer `{Retry} (natsURL : string) (natsOptions : list nats_Option) (natsStreamConfig : StreamConfig)
  : prog JetStreamE (ptr server_queues * option error) :=
  if String.eqb natsURL "" then Ret (Some ChannelQueues, None)
  else
    r <- createJetStreamQueue natsURL natsOptions natsStreamConfig;;
    let '(jetstreamQueue, err) := r in
    match jetstreamQueue, err with
    | None, _ | _, Some _ => Ret (None, Errorf "NewServer" err)
    | Some _, None =>
        let name := StreamConfig_Name natsStreamConfig +:+ "-type-detection" in
        r <- createJetStreamQueue natsURL natsOptions (stream_named name natsStreamConfig);;
        let '(jetstreamQueueForEventDetection, err) := r in
        match jetstreamQueue, err with
        | None, _ | _, Some _ => Ret (None, Errorf "NewServer" err)
        | Some _, None =>
            Ret (Some (JetStreamQueues jetstreamQueue jetstreamQueueForEventDetection), None)
        end
    end.

(** Setting up the queues never panics, whatever NATS answers: it gives
    either an error and no server, or a server whose two queues are connected
    and subscribed, to two different streams. *)
Lemma NewServer_queues_ready `{R : Retry} `{!RetryLaws R} natsURL options config :
  ensures (fun o => match o with
    | Done (None, err) => err <> None
    | Done (Some ChannelQueues, err) => err = None /\ natsURL = ""
    | Done (Some (JetStreamQueues g d), err) => err = None /\
        exists general detection, g = Some general /\ d = Some detection /\
          ready (StreamConfig_Name config) general /\
          ready (StreamConfig_Name config +:+ "-type-detection") detection /\
          JetStream_StreamName general <> JetStream_StreamName detection
    | Crashed _ => False
    end) (NewServer natsURL options config).
Proof.
  unfold NewServer. destruct (String.eqb_spec natsURL ""); [by apply ensures_ret|].
  apply ensures_bind. eapply ensures_mono; [|apply createJetStreamQueue_ready].
  intros [[j [e|]]|c]; [by destruct j|intros (g&->&Hg)|done].
  apply ensures_bind. eapply ensures_mono; [|apply createJetStreamQueue_ready].
  intros [[j [e|]]|c]; [done|intros (d&->&Hd)|done].
  apply ensures_ret. split; [done|]. exists g, d. split_and!; try done.
  destruct Hg as [-> _], Hd as [-> _]. cbn [StreamConfig_Name stream_named].
  intros H%(f_equal String.length). rewrite length_app_s in H. cbn in H. lia.
Qed.

(** * A concrete run *)

(** Retry up to three times. *)
Fixpoint retry_times (n : nat) A (f : A -> prog JetStreamE (option error * A)) (a : A)
  : prog JetStreamE (option error * A) :=
  r <- f a;;
  match r.1, n with
  | Some _, S n' => call (JSleep 5000000000);;; retry_times n' A f r.2
  | _, _ => Ret r
  end.

#[export] Instance retry_times_laws n : RetryLaws (retry_times n).
Proof.
  unfold RetryLaws, retry_Do. induction n as [|n IH]; intros A f a I Q Ha Hf; cbn [retry_times];
    apply ensures_bind; (eapply ensures_mono; [|by apply Hf]);
    intros [[err a']|c]; [|done| |done]; intros [HI HQ]; cbn [fst snd];
    destruct err as [e|]; try by apply ensures_ret.
  apply ensures_call_bind. intros _. by apply IH.
Qed.

Definition ex_stream_config : StreamConfig :=
  mkStreamConfig "events" None LimitsPolicy DiscardOld 10000 86400000000000 50000000 FileStorage 1 60000000000.

Lemma NewServer_queues_ready_witness :
  ensures (fun o => match o with
    | Done (None, err) => err <> None
    | Done (Some ChannelQueues, err) => err = None /\ "nats://nats:4222" = ""
    | Done (Some (JetStreamQueues g d), err) => err = None /\
        exists general detection, g = Some general /\ d = Some detection /\
          ready "events" general /\ ready ("events" +:+ "-type-detection") detection /\
          JetStream_StreamName general <> JetStream_StreamName detection
    | Crashed _ => False
    end) (NewServer (H := retry_times 2) "nats://nats:4222" [] ex_stream_config).
Proof.
  apply (NewServer_queues_ready (R := retry_times 2) "nats://nats:4222" [] ex_stream_config).
Defined.

(** A clock, fixed uids and a store that takes what it is given. *)
Definition ingest_env : handler IngestE (Z * list Event) := fun X e w =>
  match e in IngestE X return X * (Z * list Event) with
  | IStore e =>
      (match e in EventStoreE X return X with
       | EventGetAll _ => (None, None)
       | EventFindByNamespace _ _ => (None, None)
       | FindWhereAlertNotSent => (None, None)
       | EventAdd _ => None
       | UpdateAlertSent _ => None
       end, match e with EventAdd x => (w.1, w.2 ++ [x]) | _ => w end)
  | INow => (w.1, ((w.1 + 1)%Z, w.2))
  | INewUUID => ("uid", w)
  end.

Definition ex_event (ty : string) : Event := mkEvent KindEvent ty "" None None None None.

Definition ex_request (ty : string) : ptr IngestEventRequest :=
  Some (mkIngestEventRequest (Some (ex_event ty))).

Definition ex_run : option (ingestion (Z * list Event)) :=
  ingest (ex_request EventTypeViolation) (start (7%Z, [])) ≫= fun r1 =>
  ingest (ex_request EventTypeDetection) r1.2 ≫= fun r2 =>
  read_message GeneralQueue r2.2 ≫= fun s3 =>
  send_message GeneralQueue s3 ≫= fun s4 =>
  process_message ingest_env GeneralQueue s4.

Definition ex_final : ingestion (Z * list Event) := default (start (7%Z, [])) ex_run.

Lemma ex_run_final : ex_run = Some ex_final.
Proof. vm_compute. reflexivity. Qed.

Lemma ex_run_reachable s : ex_run = Some s -> rtc (ingestion_step ingest_env) (start (7%Z, [])) s.
Proof.
  unfold ex_run. intros (r1&H1&H)%bind_Some. apply bind_Some in H as (r2&H2&H).
  apply bind_Some in H as (s3&H3&H). apply bind_Some in H as (s4&H4&H).
  destruct r1 as [a1 s1], r2 as [a2 s2].
  eapply rtc_l; [by eapply step_ingest|]. eapply rtc_l; [by eapply step_ingest|].
  eapply rtc_l; [by eapply step_worker, step_read|].
  eapply rtc_l; [by eapply step_worker, step_send|].
  eapply rtc_once. by eapply step_worker, step_process.
Qed.

Lemma accepted_events_fifo_witness :
  ex_run = Some ex_final /\
    forall q, unstamp <$> filter (of_class q) (ingestion_accepted ex_final) =
      (unstamp <$> filter (of_class q) (ingestion_added ex_final)) ++
      (unstamp <$> pending (get_consumer q ex_final)) /\
    Forall (of_class q) (pending (get_consumer q ex_final)) /\ bounded (get_consumer q ex_final).
Proof.
  split; [exact ex_run_final|].
  exact (accepted_events_fifo ingest_env (7%Z, []) ex_final (ex_run_reachable _ ex_run_final)).
Defined.

Lemma workers_terminate_witness :
  (forall n s', nsteps (worker_step ingest_env) n ex_final s' -> n <= max_work) /\
  forall s', rtc (worker_step ingest_env) ex_final s' ->
    ((forall s'', ~ worker_step ingest_env s' s'') <-> forall q, pending (get_consumer q s') = []).
Proof. exact (workers_terminate ingest_env (7%Z, []) ex_final (ex_run_reachable _ ex_run_final)). Defined.
