(* ===== verification/Streams.v ===== *)
(** Ingestion over NATS JetStream: tarian-server started with a NATS URL
    ([event_server.go], [ingestion_worker.go] of [pkg/server], [nats.go] of
    [pkg/protoqueue]).  Requests publish to two durable streams, attempt by
    attempt; a reader per stream takes a message, acknowledges it and sends
    its event over a channel to a worker; the process may stop at any moment
    and be started again.  NATS is a parameter with documented laws, the
    protobuf codec a parameter.  Theorems in [StreamFacts]. *)

From S2P Require Import Prelude Guards GoStrings Types Queue Events.

(** * The goroutines *)

(** What they call: the NATS client of a queue, and what a worker calls. *)
Inductive StreamsE : Type -> Type :=
| SQueue (q : queue_name) {X} (e : JetStreamE X) : StreamsE X
| SWorker {X} (e : IngestE X) : StreamsE X.

(** A queue in the memory of the process: the reader in a call of
    [NextMessage] or with what it answered, [eventChan], and the event the
    worker is processing. *)
Record js_consumer := mkJsConsumer {
  js_reader : prog StreamsE (Event + error);
  js_chan : list Event;
  js_doing : option Event;
}.

Definition answer_of : Type := ptr IngestEventResponse * option error.

(** The server.  [requested] lists the events clients sent, [accepted] those
    answered with success, [added] what was handed to the event store,
    [lost] what was in the memory of a process that stopped. *)
Record streams (W : Type) := mkStreams {
  streams_requests : list (Event * prog StreamsE answer_of);
  streams_general : js_consumer;
  streams_detection : js_consumer;
  streams_env : W;
  streams_requested : list Event;
  streams_accepted : list Event;
  streams_added : list Event;
  streams_lost : list Event;
  streams_restarts : nat;
}.
Arguments mkStreams {W} _ _ _ _ _ _ _ _ _.
Arguments streams_requests {W} _.
Arguments streams_general {W} _.
Arguments streams_detection {W} _.
Arguments streams_env {W} _.
Arguments streams_requested {W} _.
Arguments streams_accepted {W} _.
Arguments streams_added {W} _.
Arguments streams_lost {W} _.
Arguments streams_restarts {W} _.

Section server.
Context `{PC : ProtoCodec Event} (jets : queue_name -> JetStream).

(** A nil event is encoded as an empty one; the handler never publishes it. *)
Definition request_backend X (e : EventServerE X) : prog StreamsE X :=
  match e in EventServerE X return prog StreamsE X with
  | ES e => call (SWorker (IStore e))
  | EPublish q event =>
      interp (fun _ e => call (SQueue q e))
        (JetStream_Publish (default (mkEvent "" "" "" None None None None) event) (jets q))
  end.

(** The goroutine of an IngestEvent request. *)
Definition request_thread (event : Event) : prog StreamsE answer_of :=
  interp request_backend (EventServer_IngestEvent (Some (mkIngestEventRequest (Some event)))).

(** The reader: [queue.NextMessage]. *)
Definition next_message (q : queue_name) : prog StreamsE (Event + error) :=
  interp (fun _ e => call (SQueue q e)) (JetStream_NextMessage (jets q)).

Definition fresh (q : queue_name) : js_consumer := mkJsConsumer (next_message q) [] None.

(** What a consumer holds that is nowhere else. *)
Definition memory (c : js_consumer) : list Event :=
  option_list (js_doing c) ++ js_chan c ++
  match js_reader c with Ret (inl event) => [event] | _ => [] end.

Section steps.
Context {W : Type} (h : handler StreamsE W).

Definition js_consumer_of (q : queue_name) (s : streams W) : js_consumer :=
  match q with GeneralQueue => streams_general s | DetectionQueue => streams_detection s end.

(** The consumer of a queue and the surroundings change, and events are added. *)
Definition with_consumer (q : queue_name) (c : js_consumer) (w : W) (xs : list Event) (s : streams W) : streams W :=
  mkStreams (streams_requests s)
    (match q with GeneralQueue => c | DetectionQueue => streams_general s end)
    (match q with GeneralQueue => streams_detection s | DetectionQueue => c end)
    w (streams_requested s) (streams_accepted s) (streams_added s ++ xs) (streams_lost s) (streams_restarts s).

Definition with_requests (rs : list (Event * prog StreamsE answer_of)) (w : W) (req acc : list Event) (s : streams W)
  : streams W :=
  mkStreams rs (streams_general s) (streams_detection s) w (streams_requested s ++ req) (streams_accepted s ++ acc)
    (streams_added s) (streams_lost s) (streams_restarts s).

(** One step of one goroutine; [None] while it cannot run. *)
Inductive action :=
| Request (event : Event)
| CallOf (i : nat)
| AnswerOf (i : nat)
| ReadOf (q : queue_name)
| SendOf (q : queue_name)
| TakeOf (q : queue_name)
| WorkOf (q : queue_name)
| Restart.

(** A request arrives. *)
Definition act_request (event : Event) (s : streams W) : option (streams W) :=
  Some (with_requests (streams_requests s ++ [(event, request_thread event)]) (streams_env s) [event] [] s).

(** A request makes its next call. *)
Definition act_call (i : nat) (s : streams W) : option (streams W) :=
  match streams_requests s !! i with
  | Some (event, @Vis _ _ X e k) =>
      let '(x, w') := h X e (streams_env s) in
      Some (with_requests (<[i := (event, k x)]> (streams_requests s)) w' [] [] s)
  | _ => None
  end.

(** A request is answered. *)
Definition act_answer (i : nat) (s : streams W) : option (streams W) :=
  match streams_requests s !! i with
  | Some (event, Ret a) =>
      Some (with_requests (delete i (streams_requests s)) (streams_env s) []
              (match a.2 with None => [event] | Some _ => [] end) s)
  | _ => None
  end.

(** The reader makes its next call; after an error it asks again. *)
Definition act_read (q : queue_name) (s : streams W) : option (streams W) :=
  let c := js_consumer_of q s in
  match js_reader c with
  | @Vis _ _ X e k =>
      let '(x, w') := h X e (streams_env s) in
      Some (with_consumer q (mkJsConsumer (k x) (js_chan c) (js_doing c)) w' [] s)
  | Ret (inr err) =>
      Some (with_consumer q (mkJsConsumer (next_message q) (js_chan c) (js_doing c)) (streams_env s) [] s)
  | _ => None
  end.

(** The reader sends its event over the channel. *)
Definition act_send (q : queue_name) (s : streams W) : option (streams W) :=
  let c := js_consumer_of q s in
  match js_reader c with
  | Ret (inl event) =>
      if (length (js_chan c) <? eventChan_capacity)%nat
      then Some (with_consumer q (mkJsConsumer (next_message q) (js_chan c ++ [event]) (js_doing c))
                   (streams_env s) [] s)
      else None
  | _ => None
  end.

(** The worker takes an event from the channel, ... *)
Definition act_take (q : queue_name) (s : streams W) : option (streams W) :=
  let c := js_consumer_of q s in
  match js_doing c, js_chan c with
  | None, event :: chan' =>
      Some (with_consumer q (mkJsConsumer (js_reader c) chan' (Some event)) (streams_env s) [] s)
  | _, _ => None
  end.

(** ... and processes it. *)
Definition worker_side : handler IngestE W := fun X e => h X (SWorker e).

Definition act_work (q : queue_name) (s : streams W) : option (streams W) :=
  let c := js_consumer_of q s in
  match js_doing c with
  | Some event =>
      Some (with_consumer q (mkJsConsumer (js_reader c) (js_chan c) None)
              (run worker_side (processEvent event) (streams_env s)).2
              (adds (trace worker_side (processEvent event) (streams_env s))) s)
  | None => None
  end.

(** The process stops and is started again: what NATS keeps is still there,
    the rest is gone.  The two queues are set up again, which [NewServer] of
    [Events] does and [NewServer_queues_ready] is about. *)
Definition act_restart (s : streams W) : option (streams W) :=
  Some (mkStreams [] (fresh GeneralQueue) (fresh DetectionQueue) (streams_env s) (streams_requested s)
          (streams_accepted s) (streams_added s)
          (streams_lost s ++ memory (streams_general s) ++ memory (streams_detection s)) (S (streams_restarts s))).

Definition act (a : action) (s : streams W) : option (streams W) :=
  match a with
  | Request event => act_request event s
  | CallOf i => act_call i s
  | AnswerOf i => act_answer i s
  | ReadOf q => act_read q s
  | SendOf q => act_send q s
  | TakeOf q => act_take q s
  | WorkOf q => act_work q s
  | Restart => act_restart s
  end.

Fixpoint acts (l : list action) (s : streams W) : option (streams W) :=
  match l with [] => Some s | a :: l' => act a s ≫= acts l' end.

Definition streams_boot (w : W) : streams W :=
  mkStreams [] (fresh GeneralQueue) (fresh DetectionQueue) w [] [] [] [] 0.
End steps.
End server.

(** * What NATS promises *)

(** How the streams look.  [stored] is every message a stream ever took, in
    order, so that its index is the sequence number; [open] are the numbers it
    still delivers until they are acknowledged, [gone] those it discarded at
    its limits; [delivered] is the number of the message that [NextMsg] gave
    last, the one an acknowledgement is about. *)
Record stream_view (W : Type) := mkStreamView {
  stored : queue_name -> W -> list string;
  open : queue_name -> W -> gset nat;
  gone : queue_name -> W -> gset nat;
  delivered : queue_name -> W -> option nat;
}.
Arguments stored {W} _ _ _.
Arguments open {W} _ _ _.
Arguments gone {W} _ _ _.
Arguments delivered {W} _ _ _.

(** A message is only lost by being discarded. *)
Definition keeps {W} (V : stream_view W) (q : queue_name) (ns : gset nat) (w w' : W) : Prop :=
  ns ⊆ open V q w' ∪ gone V q w' /\ gone V q w ⊆ gone V q w'.

Definition quiet {W} (V : stream_view W) (q : queue_name) (w w' : W) : Prop :=
  stored V q w' = stored V q w /\ delivered V q w' = delivered V q w /\ keeps V q (open V q w) w w'.

Definition took {W} (V : stream_view W) (q : queue_name) (data : string) (w w' : W) : Prop :=
  stored V q w' = stored V q w ++ [data] /\ delivered V q w' = delivered V q w /\
  keeps V q ({[length (stored V q w)]} ∪ open V q w) w w'.

(** Which queue a call is about. *)
Definition queue_of {X} (e : StreamsE X) : option queue_name :=
  match e with SQueue q _ => Some q | SWorker _ => None end.

Section laws.
Context (jets : queue_name -> JetStream).

(** What is documented of JetStream: a publish that is acknowledged is stored
    in order, one that fails may be; [NextMsg] gives stored messages, and may
    give one again; an acknowledged message need not be delivered any more; and
    a limit discards messages at any time. *)
Class StreamsLaws {W} (h : handler StreamsE W) (V : stream_view W) : Prop := {
  js_publish q data w r w' :
    h _ (SQueue q (JPublish (JetStream_StreamName (jets q)) data)) w = (r, w') ->
    took V q data w w' \/ (r <> None /\ quiet V q w w');
  js_sleep q d w u w' : h _ (SQueue q (JSleep d)) w = (u, w') -> quiet V q w w';
  js_next q t w r w' :
    h _ (SQueue q (JNextMsg t)) w = (r, w') ->
    stored V q w' = stored V q w /\ keeps V q (open V q w) w w' /\
    match r with
    | inl data => exists i, delivered V q w' = Some i /\ stored V q w !! i = Some data
    | inr _ => True
    end;
  js_ack q w r w' :
    h _ (SQueue q JAck) w = (r, w') ->
    stored V q w' = stored V q w /\ delivered V q w' = delivered V q w /\
    keeps V q (match delivered V q w with Some i => open V q w ∖ {[i]} | None => open V q w end) w w';
  js_other q X (e : StreamsE X) w x w' : queue_of e <> Some q -> h X e w = (x, w') -> quiet V q w w';
}.
End laws.

(** A step of a goroutine, or NATS on its own. *)
Inductive streams_step `{PC : ProtoCodec Event} (jets : queue_name -> JetStream) {W} (h : handler StreamsE W)
    (V : stream_view W) : streams W -> streams W -> Prop :=
| step_act a s s' : act jets h a s = Some s' -> streams_step jets h V s s'
| step_nats w s : (forall q, quiet V q (streams_env s) w) ->
    streams_step jets h V s (mkStreams (streams_requests s) (streams_general s) (streams_detection s) w
      (streams_requested s) (streams_accepted s) (streams_added s) (streams_lost s) (streams_restarts s)).
