(* ===== verification/StreamFacts.v ===== *)
(** Theorems on [Streams], ingestion over NATS JetStream: where every event
    that was answered with success is, what a restart can lose, and that the
    streams can always be drained into the event store; with a broker in
    memory that satisfies the laws. *)

From S2P Require Import Prelude Guards GoStrings Types Queue Events Streams.

(** * The invariant *)

Section facts.
Context `{PC : ProtoCodec Event} `{!ProtoCodecLaws Event} (jets : queue_name -> JetStream).
Context (ready_queues : forall q, JetStream_subscribed (jets q) = true).
Context {W : Type} (h : handler StreamsE W) (V : stream_view W) `{!StreamsLaws jets h V}.

(** ** The programs of the goroutines *)

Definition decoded (data : string) : Event + error :=
  match proto_Unmarshal data with
  | inr err => inr (WrapError "nats: jetstream NextMessage: failed to unmarshal message" (Some err))
  | inl message => inl message
  end.

(** A reader between two calls. *)
Definition reader_at (q : queue_name) (w : W) (p : prog StreamsE (Event + error)) : Prop :=
  p = next_message jets q \/
  (exists k i data, p = Vis (SQueue q JAck) k /\ (forall x, k x = Ret (decoded data)) /\
     delivered V q w = Some i /\ stored V q w !! i = Some data) \/
  exists r, p = Ret r.

Lemma next_message_call q : exists k, next_message jets q = Vis (SQueue q (JNextMsg 3600000000000)) k /\
  (forall e, exists err, k (inr e) = Ret (inr err)) /\
  forall data, exists k', k (inl data) = Vis (SQueue q JAck) k' /\ forall x, k' x = Ret (decoded data).
Proof.
  unfold next_message, JetStream_NextMessage. rewrite ready_queues. cbn. eexists. split; [reflexivity|]. split.
  - intros [| |e]; by eexists.
  - intros data. eexists. split; [reflexivity|]. intros x. unfold decoded. cbn. by destruct (proto_Unmarshal data).
Qed.

(** What a request calls, and what it has done when it answers success. *)
Definition request_call (e : Event) (past : list (answered StreamsE)) X (c : StreamsE X) : Prop :=
  match c with
  | SQueue q (JPublish subject data) =>
      of_class q e /\ subject = JetStream_StreamName (jets q) /\ proto_Marshal e = inl data
  | SQueue q (JSleep _) => True
  | _ => False
  end.

(** A publish that NATS acknowledged. *)
Definition is_published (q : queue_name) (data : string) (v : answered StreamsE) : Prop :=
  match projT2 v with
  | (c, x) =>
      match c in StreamsE X return X -> Prop with
      | SQueue q' c =>
          match c in JetStreamE X return X -> Prop with
          | JPublish _ data' => fun r => q' = q /\ data' = data /\ r = None
          | _ => fun _ => False
          end
      | SWorker _ => fun _ => False
      end x
  end.

Definition request_answer (e : Event) (past : list (answered StreamsE)) (a : answer_of) : Prop :=
  a.2 = None -> exists q data, of_class q e /\ proto_Marshal e = inl data /\ Exists (is_published q data) past.

Lemma publish_loop_guarded q e data n err past :
  of_class q e -> proto_Marshal e = inl data ->
  guarded (request_call e) (fun past' (r : option error) => r = None ->
      n = 0 /\ err = None \/ Exists (is_published q data) past') past
    (interp (fun _ e => call (SQueue q e)) (publish_loop (JetStream_StreamName (jets q)) data n err)).
Proof.
  intros Hq Hm. revert err past. induction n as [|n IH]; intros err past; cbn; [by left|].
  split; [done|]. intros [e'|]; cbn.
  - split; [done|].
    intros u. eapply guarded_mono; [|apply IH]. cbn. intros past' r _ Hr Hn. right. by destruct (Hr Hn) as [[_ ?]|?].
  - intros _. right. apply Exists_app. right. by left.
Qed.

Lemma request_thread_guarded e : guarded (request_call e) (request_answer e) [] (request_thread jets e).
Proof.
  unfold request_thread, EventServer_IngestEvent. cbn [IngestEventRequest_GetEvent IngestEventRequest_Event].
  set (q := if String.eqb (Event_Type e) EventTypeDetection then DetectionQueue else GeneralQueue).
  assert (of_class q e) as Hq.
  { unfold q. by destruct (String.eqb_spec (Event_Type e) EventTypeDetection). }
  assert ((if String.eqb (Event_Type e) EventTypeDetection then call (EPublish DetectionQueue (Some e))
     else call (EPublish GeneralQueue (Some e))) = call (EPublish q (Some e))) as ->
    by (unfold q; by destruct (String.eqb (Event_Type e) EventTypeDetection)).
  cbn. apply guarded_bind. unfold JetStream_Publish.
  destruct (proto_Marshal e) as [data|err] eqn:Hm; [|by cbn]. apply guarded_interp_bind.
  eapply guarded_mono; [|by apply publish_loop_guarded]. unfold maxRetries. cbn.
  intros past r _ Hr. destruct r as [err|]; [by cbn|]. intros _. exists q, data.
  by destruct (Hr eq_refl) as [[? _]|?].
Qed.

(** ** One queue *)

(** What is said of an event that was taken from a stream. *)
Definition handed (added : list Event) (e : Event) : Prop := exists x, x ∈ added /\ unstamp x = unstamp e.

(** Every message of a stream was requested, and is still to be delivered,
    discarded, in memory, handed to the store, or lost with a process. *)
Record queue_inv (q : queue_name) (w : W) (c : js_consumer) (req added lost : list Event) : Prop := {
  qi_stored data : data ∈ stored V q w -> exists e, e ∈ req /\ of_class q e /\ proto_Marshal e = inl data;
  qi_place i data e : stored V q w !! i = Some data -> proto_Marshal e = inl data ->
    i ∈ open V q w \/ i ∈ gone V q w \/ e ∈ memory c \/ handed added e \/ e ∈ lost;
  qi_memory e : e ∈ memory c -> e ∈ req;
  qi_chan : length (js_chan c) <= eventChan_capacity;
}.

Lemma sub_app {A} (l k : list A) : l ⊆ l ++ k.
Proof. intros x Hx. apply elem_of_app. by left. Qed.

Lemma handed_mono added added' e : added ⊆ added' -> handed added e -> handed added' e.
Proof. intros Hs (x&Hx&Hu). exists x. by split; [apply Hs|]. Qed.

(** The streams keep what they have. *)
Lemma queue_inv_env q w w' c req added lost :
  stored V q w' = stored V q w -> keeps V q (open V q w) w w' ->
  queue_inv q w c req added lost -> queue_inv q w' c req added lost.
Proof.
  intros Hst [Hk Hg] [H1 H2 H3 H4]. split; rewrite ?Hst; [done| |done|done].
  intros i data e Hi He. destruct (H2 i data e Hi He) as [Ho|[Ho|Ho]]; [|by right; left; apply Hg|by right; right].
  apply Hk, elem_of_union in Ho as [?|?]; [by left|by right; left].
Qed.

(** A stream takes a message. *)
Lemma queue_inv_took q data w w' c req added lost :
  took V q data w w' -> (exists e, e ∈ req /\ of_class q e /\ proto_Marshal e = inl data) ->
  queue_inv q w c req added lost -> queue_inv q w' c req added lost.
Proof.
  intros (Hst&_&Hk&Hg) He [H1 H2 H3 H4]. split; rewrite ?Hst; [| |done|done].
  - intros d [Hd| ->%list_elem_of_singleton]%elem_of_app; [by apply H1|done].
  - assert (forall i, i = length (stored V q w) \/ i ∈ open V q w -> i ∈ open V q w' \/ i ∈ gone V q w') as Hk'.
    { intros i Hi. apply elem_of_union, Hk. destruct Hi as [->|?]; set_solver. }
    intros i d e [Hi|[Hi Hd]]%lookup_app_Some He'.
    + destruct (H2 i d e Hi He') as [Ho|[Ho|Ho]]; [|by right; left; apply Hg|by right; right].
      destruct (Hk' i (or_intror Ho)) as [?|?]; [by left|by right; left].
    + destruct (Hk' i) as [?|?]; [|by left|by right; left]. left.
      apply lookup_lt_Some in Hd. cbn in Hd. lia.
Qed.

(** The consumer changes. *)
Lemma queue_inv_consumer q w c c' req req' added added' lost lost' :
  req ⊆ req' -> added ⊆ added' -> lost ⊆ lost' -> length (js_chan c') <= eventChan_capacity ->
  (forall e, e ∈ memory c' -> e ∈ memory c) ->
  (forall e, e ∈ memory c -> e ∈ memory c' \/ handed added' e \/ e ∈ lost') ->
  queue_inv q w c req added lost -> queue_inv q w c' req' added' lost'.
Proof.
  intros Hr Ha Hl Hc Hin Hout [H1 H2 H3 H4]. split; [| |by intros e ?%Hin%H3; apply Hr|done].
  - intros data Hd. destruct (H1 data Hd) as (e&He&?). exists e. by split; [apply Hr|].
  - intros i data e Hi He. destruct (H2 i data e Hi He) as [?|[?|[Hm|[Hh|Hls]]]]; [by left|by right; left|..].
    + right. right. by apply Hout.
    + right. right. right. left. by eapply handed_mono.
    + right. right. right. right. by apply Hl.
Qed.

Lemma queue_inv_mono q w c req req' added added' lost lost' :
  req ⊆ req' -> added ⊆ added' -> lost ⊆ lost' ->
  queue_inv q w c req added lost -> queue_inv q w c req' added' lost'.
Proof.
  intros Hr Ha Hl H. eapply queue_inv_consumer; try done; [by destruct H|by intros e He; left].
Qed.

(** The acknowledgement of a message: it may go, for it is in memory. *)
Lemma queue_inv_ack q w w' c k i data req added lost x :
  h _ (SQueue q JAck) w = (x, w') -> delivered V q w = Some i -> stored V q w !! i = Some data ->
  js_reader c = Vis (SQueue q JAck) k ->
  queue_inv q w c req added lost ->
  queue_inv q w' (mkJsConsumer (Ret (decoded data)) (js_chan c) (js_doing c)) req added lost.
Proof.
  intros Hack Hd Hi Hc [H1 H2 H3 H4]. apply (js_ack jets (V := V)) in Hack as (Hst&_&[Hk Hg]). rewrite Hd in Hk.
  assert (forall e, proto_Marshal e = inl data -> decoded data = inl e) as Hdec.
  { intros e He. unfold decoded. by rewrite (Unmarshal_Marshal e data He). }
  assert (forall e, e ∈ memory c -> e ∈ memory (mkJsConsumer (Ret (decoded data)) (js_chan c) (js_doing c))) as Hm.
  { unfold memory. rewrite Hc. cbn [js_reader js_chan js_doing]. intros e. rewrite app_nil_r. set_solver. }
  split; rewrite ?Hst; [done| | |done].
  - intros j d e Hj He. destruct (decide (j = i)) as [->|Hne].
    + assert (d = data) as -> by congruence. right. right. left. unfold memory. cbn [js_reader js_chan js_doing].
      rewrite (Hdec e He), !elem_of_app. right. right. by left.
    + destruct (H2 j d e Hj He) as [Ho|[Ho|[Ho|Ho]]].
      * assert (j ∈ open V q w ∖ {[i]}) as Hin by set_solver.
        apply Hk, elem_of_union in Hin as [?|?]; [by left|by right; left].
      * right. left. by apply Hg.
      * right. right. left. by apply Hm.
      * by right; right; right.
  - intros e He. destruct (H1 data) as (e'&He'&_&Hm'); [by eapply list_elem_of_lookup_2|].
    unfold memory in He. cbn [js_reader js_chan js_doing] in He. rewrite (Hdec e' Hm') in He.
    rewrite !elem_of_app in He. destruct He as [He|[He| ->%list_elem_of_singleton]]; [..|done];
      apply H3; unfold memory; rewrite Hc, !elem_of_app; auto.
Qed.

(** ** The whole server *)

Definition request_inv (s : streams W) (r : Event * prog StreamsE answer_of) : Prop :=
  r.1 ∈ streams_requested s /\ exists past,
    guarded (request_call r.1) (request_answer r.1) past r.2 /\
    forall q data, Exists (is_published q data) past -> data ∈ stored V q (streams_env s).

(** What a process can hold: a full channel, an event on either side of it,
    and that for both queues. *)
Definition process_memory : nat := 2 * (eventChan_capacity + 2).

Record streams_inv (s : streams W) : Prop := {
  si_queue q : queue_inv q (streams_env s) (js_consumer_of q s)
    (streams_requested s) (streams_added s) (streams_lost s);
  si_reader q : reader_at q (streams_env s) (js_reader (js_consumer_of q s));
  si_requests : Forall (request_inv s) (streams_requests s);
  si_accepted e : e ∈ streams_accepted s -> exists q data,
    of_class q e /\ proto_Marshal e = inl data /\ data ∈ stored V q (streams_env s);
  si_added x : x ∈ streams_added s -> exists e, e ∈ streams_requested s /\ unstamp x = unstamp e;
  si_lost : length (streams_lost s) <= process_memory * streams_restarts s;
}.

(** The messages of the streams stay. *)
Definition grows (w w' : W) : Prop := forall q, stored V q w ⊆ stored V q w'.

Lemma request_inv_grows s s' r :
  grows (streams_env s) (streams_env s') -> streams_requested s ⊆ streams_requested s' ->
  request_inv s r -> request_inv s' r.
Proof.
  intros Hg Hr (He&past&Hp&Hpast). split; [by apply Hr|]. exists past. split; [done|].
  intros q data Hin. by eapply Hg, Hpast.
Qed.

Lemma requests_inv_grows s s' rs :
  grows (streams_env s) (streams_env s') -> streams_requested s ⊆ streams_requested s' ->
  Forall (request_inv s) rs -> Forall (request_inv s') rs.
Proof. intros Hg Hr Hrs. eapply Forall_impl; [exact Hrs|]. intros r. by apply request_inv_grows. Qed.

Lemma quiet_grows w w' : (forall q, quiet V q w w') -> grows w w'.
Proof. intros Hq q. by destruct (Hq q) as [-> _]. Qed.

Lemma reader_at_quiet q w w' p : quiet V q w w' -> reader_at q w p -> reader_at q w' p.
Proof.
  intros (Hst&Hd&_) [?|[(k&i&data&Hp&Hk&Hi&Hs)|?]]; [by left| |by right; right].
  right. left. exists k, i, data. by rewrite Hst, Hd.
Qed.

Lemma reader_at_took q data w w' p : took V q data w w' -> reader_at q w p -> reader_at q w' p.
Proof.
  intros (Hst&Hd&_) [?|[(k&i&d&Hp&Hk&Hi&Hs)|?]]; [by left| |by right; right].
  right. left. exists k, i, d. rewrite Hst, Hd. split_and!; try done. by apply lookup_app_l_Some.
Qed.

(** A step of the requests. *)
Lemma inv_with_requests s rs w req acc :
  (forall q, quiet V q (streams_env s) w \/ exists data, took V q data (streams_env s) w /\
     exists e, e ∈ streams_requested s /\ of_class q e /\ proto_Marshal e = inl data) ->
  Forall (request_inv (with_requests rs w req acc s)) rs ->
  (forall e, e ∈ acc -> exists q data, of_class q e /\ proto_Marshal e = inl data /\ data ∈ stored V q w) ->
  streams_inv s -> streams_inv (with_requests rs w req acc s).
Proof.
  intros Hw Hrs Hacc [H1 H2 H3 H4 H5 H6].
  assert (grows (streams_env s) w) as Hg.
  { intros q. destruct (Hw q) as [(->&_)|(d&(->&_)&_)]; [done|]. intros x Hx. apply elem_of_app. by left. }
  split; cbn [with_requests streams_env streams_requested streams_accepted streams_added streams_lost streams_restarts];
    [| |done| | |done].
  - intros q. apply (queue_inv_mono q w _ (streams_requested s) _ (streams_added s) _ (streams_lost s)); [apply sub_app|done|done|].
    replace (js_consumer_of q (with_requests rs w req acc s)) with (js_consumer_of q s) by (by destruct q).
    destruct (Hw q) as [(Hst&_&Hk)|(d&Ht&He)]; [by eapply queue_inv_env|by eapply queue_inv_took].
  - intros q. replace (js_consumer_of q (with_requests rs w req acc s)) with (js_consumer_of q s) by (by destruct q).
    destruct (Hw q) as [Hq|(d&Ht&_)]; [by eapply reader_at_quiet|by eapply reader_at_took].
  - intros e [He|He]%elem_of_app; [|by apply Hacc]. destruct (H4 e He) as (q&d&?&?&Hd). exists q, d.
    split_and!; [done..|by apply Hg].
  - intros x Hx. destruct (H5 x Hx) as (e&He&?). exists e. split; [|done]. apply elem_of_app. by left.
Qed.

(** A step of the goroutines of a queue. *)
Lemma inv_with_consumer s q c w xs :
  (forall q', q' <> q -> quiet V q' (streams_env s) w) -> grows (streams_env s) w ->
  queue_inv q w c (streams_requested s) (streams_added s ++ xs) (streams_lost s) -> reader_at q w (js_reader c) ->
  (forall x, x ∈ xs -> exists e, e ∈ streams_requested s /\ unstamp x = unstamp e) ->
  streams_inv s -> streams_inv (with_consumer q c w xs s).
Proof.
  intros Hw Hg Hq Hrd Hxs [H1 H2 H3 H4 H5 H6].
  assert (forall q', js_consumer_of q' (with_consumer q c w xs s) = if decide (q' = q) then c else js_consumer_of q' s) as Hc
    by (by intros []; destruct q).
  split; cbn [with_consumer streams_env streams_requested streams_accepted streams_added streams_lost streams_restarts
              streams_requests].
  - intros q'. rewrite Hc. case_decide as Hd; [by subst|]. destruct (Hw q' Hd) as (Hst&_&Hk).
    eapply queue_inv_env; [done..|].
    eapply queue_inv_mono; [..|apply H1]; [done|apply sub_app|done].
  - intros q'. rewrite Hc. case_decide as Hd; [by subst|]. eapply reader_at_quiet; [by apply Hw|apply H2].
  - by apply (requests_inv_grows s).
  - intros e He. destruct (H4 e He) as (q'&d&?&?&Hd). exists q', d. split_and!; [done..|by apply Hg].
  - intros x [Hx|Hx]%elem_of_app; [by apply H5|by apply Hxs].
  - done.
Qed.

Lemma act_request_inv e s s' : act_request jets e s = Some s' -> streams_inv s -> streams_inv s'.
Proof.
  intros [= <-] Hi. apply inv_with_requests; [| |by intros ? ?%elem_of_nil|done].
  - intros q. left. split; [done|]. split; [done|]. split; set_solver.
  - apply Forall_app. split.
    + apply (requests_inv_grows s); [by intros q|apply sub_app|by destruct Hi].
    + constructor; [|constructor]. split; [cbn; set_solver|]. exists []. split; [apply request_thread_guarded|].
      by intros q d ?%Exists_nil.
Qed.

(** The calls of a request. *)
Lemma request_call_quiet e past X (c : StreamsE X) w x w' :
  request_call e past X c -> h X c w = (x, w') ->
  (forall q, quiet V q w w' \/ exists data, took V q data w w' /\ of_class q e /\ proto_Marshal e = inl data) /\
  forall q data, is_published q data (got c x) -> data ∈ stored V q w'.
Proof.
  assert (forall q c, h X (SQueue q c) w = (x, w') -> forall q', q' <> q -> quiet V q' w w') as Ho.
  { intros q c' Hh q' Hq'. eapply (js_other jets); [|exact Hh]. cbn. congruence. }
  intros Hc Hh. destruct c as [q X c|]; [|done]. pose proof (Ho q c Hh) as Hoth.
  destruct c as [| | | | | |subject data| | |d]; cbn in Hc; try done.
  - destruct Hc as (Hq&->&Hm). apply (js_publish jets (V := V)) in Hh as Hp. split.
    + intros q'. destruct (decide (q' = q)) as [->|Hne]; [|left; by apply Hoth].
      destruct Hp as [Ht|[_ Ht]]; [right; by exists data|by left].
    + intros q' d (->&->&->). destruct Hp as [(->&_)|[? _]]; [|done]. apply elem_of_app. right. by left.
  - split; [|done]. intros q'. left. destruct (decide (q' = q)) as [->|Hne]; [by eapply (js_sleep jets)|by apply Hoth].
Qed.

Lemma act_call_inv i s s' : act_call h i s = Some s' -> streams_inv s -> streams_inv s'.
Proof.
  unfold act_call. intros H Hi. pose proof (si_requests s Hi) as Hrs.
  destruct (streams_requests s !! i) as [[e [a|X c k|cr]]|] eqn:Hr; try done.
  destruct (h X c (streams_env s)) as [x w'] eqn:Hh. injection H as <-.
  pose proof (Forall_lookup_1 _ _ _ _ Hrs Hr) as (He&past&[Hc Hk]&Hpast). cbn [fst snd] in He, Hc, Hk.
  destruct (request_call_quiet e past X c _ x w' Hc Hh) as [Hw Hpub].
  apply inv_with_requests; [| |by intros ? ?%elem_of_nil|done].
  { intros q. destruct (Hw q) as [?|(d&Ht&?&?)]; [by left|right]. exists d. split; [done|]. by exists e. }
  assert (grows (streams_env s) w') as Hg.
  { intros q. destruct (Hw q) as [(->&_)|(d&(->&_)&_)]; [done|]. intros y Hy. apply elem_of_app. by left. }
  apply Forall_insert.
  - apply (requests_inv_grows s); [exact Hg|apply sub_app|exact Hrs].
  - split; [cbn; set_solver|]. exists (past ++ [got c x]). split; [apply Hk|].
    intros q d [Hd|Hd]%Exists_app; [by apply Hg, Hpast|]. apply Hpub. by inversion Hd as [? ? Hx|? ? Hx]; [|inversion Hx].
Qed.

Lemma act_answer_inv i s s' : act_answer i s = Some s' -> streams_inv s -> streams_inv s'.
Proof.
  unfold act_answer. intros H Hi. pose proof (si_requests s Hi) as Hrs.
  destruct (streams_requests s !! i) as [[e [a|X c k|cr]]|] eqn:Hr; try done. injection H as <-.
  pose proof (Forall_lookup_1 _ _ _ _ Hrs Hr) as (He&past&Ha&Hpast). cbn [fst snd guarded] in He, Ha.
  apply inv_with_requests; [| | |done].
  - intros q. left. split; [done|]. split; [done|]. split; set_solver.
  - apply Forall_delete. apply (requests_inv_grows s); [by intros q|apply sub_app|exact Hrs].
  - intros e'. destruct a as [r [err|]]; cbn; [by intros ?%elem_of_nil|]. intros ->%list_elem_of_singleton.
    destruct (Ha eq_refl) as (q&d&?&?&Hd). exists q, d. split_and!; [done..|by apply Hpast].
Qed.

Lemma quiet_refl q w : quiet V q w w.
Proof. split; [done|]. split; [done|]. split; set_solver. Qed.

Lemma other_quiet q q' X (c : JetStreamE X) w x w' : h _ (SQueue q c) w = (x, w') -> q' <> q -> quiet V q' w w'.
Proof. intros Hh Hq. eapply (js_other jets); [|exact Hh]. cbn. congruence. Qed.

(** A reader that has no event holds nothing. *)
Lemma memory_reader c p : (forall e, js_reader c <> Ret (inl e)) -> (forall e, p <> Ret (inl e)) ->
  memory (mkJsConsumer p (js_chan c) (js_doing c)) = memory c.
Proof.
  intros H1 H2. unfold memory. cbn [js_reader js_chan js_doing]. do 2 f_equal.
  assert (forall p : prog StreamsE (Event + error), (forall e, p <> Ret (inl e)) ->
    match p with Ret (inl event) => [event] | _ => [] end = []) as Hn.
  { intros [[e|er]|X e k|cr] Hp; try done. by destruct (Hp e). }
  by rewrite !Hn.
Qed.

Lemma queue_inv_same q w c c' req added lost :
  memory c' = memory c -> js_chan c' = js_chan c -> queue_inv q w c req added lost -> queue_inv q w c' req added lost.
Proof.
  intros Hm Hc H. eapply queue_inv_consumer; [done|done|done| | | |exact H].
  - rewrite Hc. by destruct H.
  - by rewrite Hm.
  - intros e He. left. by rewrite Hm.
Qed.

Lemma act_read_inv q s s' : act_read jets h q s = Some s' -> streams_inv s -> streams_inv s'.
Proof.
  unfold act_read. intros H Hi. pose proof (si_reader s Hi q) as Hrd. pose proof (si_queue s Hi q) as Hq.
  set (c := js_consumer_of q s) in *. destruct (next_message_call q) as (kn&Hn&Herr&Hok).
  destruct Hrd as [Hrd|[(k&i&data&Hrd&Hk&Hd&Hs)|[[e|err] Hrd]]].
  - rewrite Hrd, Hn in H. destruct (h _ (SQueue q (JNextMsg 3600000000000)) (streams_env s)) as [r w'] eqn:Hh.
    injection H as <-. apply (js_next jets (V := V)) in Hh as Hp. destruct Hp as (Hst&Hk&Hr).
    assert (forall e, kn r <> Ret (inl e)) as Hkn.
    { intros e. destruct r as [d|e']; [by destruct (Hok d) as (k'&->&_)|by destruct (Herr e') as (err&->)]. }
    apply inv_with_consumer; [intros; by eapply other_quiet| | | |by intros ? ?%elem_of_nil|done].
    { intros q'. destruct (decide (q' = q)) as [->|Hne]; [by rewrite Hst|]. by destruct (other_quiet _ _ _ _ _ _ _ Hh Hne) as [-> _]. }
    + rewrite app_nil_r. apply (queue_inv_same q _ c); [|done|by eapply queue_inv_env].
      apply memory_reader; [by rewrite Hrd, Hn|done].
    + cbn [js_reader]. destruct r as [d|e']; [|destruct (Herr e') as (err&->); right; right; by eexists].
      destruct (Hok d) as (k'&->&Hk'). destruct Hr as (i&Hi'&Hs'). right. left. exists k', i, d. by rewrite Hst.
  - rewrite Hrd in H. destruct (h _ (SQueue q JAck) (streams_env s)) as [r w'] eqn:Hh. injection H as <-.
    rewrite Hk. apply (js_ack jets (V := V)) in Hh as Hp. destruct Hp as (Hst&_&_).
    apply inv_with_consumer; [intros; by eapply other_quiet| | | |by intros ? ?%elem_of_nil|done].
    { intros q'. destruct (decide (q' = q)) as [->|Hne]; [by rewrite Hst|]. by destruct (other_quiet _ _ _ _ _ _ _ Hh Hne) as [-> _]. }
    + rewrite app_nil_r. by eapply queue_inv_ack.
    + cbn [js_reader]. right. right. by eexists.
  - by rewrite Hrd in H.
  - rewrite Hrd in H. injection H as <-.
    apply inv_with_consumer; [intros; apply quiet_refl|by intros q'| |by left|by intros ? ?%elem_of_nil|done].
    rewrite app_nil_r. apply (queue_inv_same q _ c); [|done|exact Hq]. apply memory_reader; [by rewrite Hrd|by rewrite Hn].
Qed.

(** A step inside the memory of a queue. *)
Lemma inv_in_memory s q c :
  length (js_chan c) <= eventChan_capacity -> memory c ≡ₚ memory (js_consumer_of q s) ->
  reader_at q (streams_env s) (js_reader c) ->
  streams_inv s -> streams_inv (with_consumer q c (streams_env s) [] s).
Proof.
  intros Hc Hm Hr Hi. apply inv_with_consumer; [intros; apply quiet_refl|by intros q'| |done|by intros ? ?%elem_of_nil|done].
  rewrite app_nil_r. eapply queue_inv_consumer; [done|done|done|done| | |by apply si_queue].
  - intros e. by rewrite Hm.
  - intros e He. left. by rewrite Hm.
Qed.

Lemma act_send_inv q s s' : act_send jets q s = Some s' -> streams_inv s -> streams_inv s'.
Proof.
  unfold act_send. intros H Hi. destruct (next_message_call q) as (kn&Hn&_).
  destruct (js_reader (js_consumer_of q s)) as [[e|err]|X c k|cr] eqn:Hrd; try done.
  destruct (Nat.ltb_spec (length (js_chan (js_consumer_of q s))) eventChan_capacity) as [Hl|]; [|done]. injection H as <-.
  apply inv_in_memory; [cbn; rewrite length_app; cbn; lia| |by left|done].
  unfold memory. rewrite Hrd. cbn [js_reader js_chan js_doing]. rewrite Hn. by rewrite <- app_assoc.
Qed.

Lemma act_take_inv q s s' : act_take q s = Some s' -> streams_inv s -> streams_inv s'.
Proof.
  unfold act_take. intros H Hi. pose proof (qi_chan _ _ _ _ _ _ (si_queue s Hi q)) as Hl.
  destruct (js_doing (js_consumer_of q s)) eqn:Hd; [done|].
  destruct (js_chan (js_consumer_of q s)) as [|e chan'] eqn:Hc; [done|]. injection H as <-.
  apply inv_in_memory; [cbn in *; lia| |by apply si_reader|done]. unfold memory. by rewrite Hd, Hc.
Qed.

Lemma worker_run_quiet {A} (p : prog IngestE A) w q : quiet V q w (run (worker_side h) p w).2.
Proof.
  revert w. induction p as [a|X e k IH|cr]; intros w; cbn; [apply quiet_refl| |apply quiet_refl].
  unfold worker_side at 1. destruct (h X (SWorker e) w) as [x w1] eqn:Hh.
  assert (quiet V q w w1) as (Hs1&Hd1&[Hk1 Hg1]) by (by eapply (js_other jets); [|exact Hh]).
  destruct (IH x w1) as (Hs2&Hd2&[Hk2 Hg2]). split; [congruence|]. split; [congruence|]. split; [set_solver|set_solver].
Qed.

Lemma act_work_inv q s s' : act_work h q s = Some s' -> streams_inv s -> streams_inv s'.
Proof.
  unfold act_work. intros H Hi. destruct (js_doing (js_consumer_of q s)) as [e|] eqn:Hd; [|done]. apply (inj Some) in H as <-.
  destruct (processEvent_adds (worker_side h) e (streams_env s)) as (now&uid&->).
  assert (unstamp (stamp now uid e) = unstamp e) as Hu by done.
  assert (forall q', quiet V q' (streams_env s) (run (worker_side h) (processEvent e) (streams_env s)).2) as Hw
    by (intros; apply worker_run_quiet).
  assert (e ∈ memory (js_consumer_of q s)) as Hin by (unfold memory; rewrite Hd; set_solver).
  apply inv_with_consumer; [done|by apply quiet_grows| | | |done].
  - destruct (Hw q) as (Hst&_&Hk). eapply queue_inv_env; [done..|].
    apply (queue_inv_consumer q _ (js_consumer_of q s) _ (streams_requested s) _ (streams_added s) _ (streams_lost s)); [done|set_solver|done| | | |by apply si_queue].
    + by apply (qi_chan _ _ _ _ _ _ (si_queue s Hi q)).
    + intros e' He'. unfold memory in *. rewrite Hd. cbn [js_reader js_chan js_doing option_list app] in *. by right.
    + intros e' He'. unfold memory in He'. rewrite Hd in He'. apply elem_of_cons in He' as [->|He']; [|by left].
      right. left. exists (stamp now uid e). split; [set_solver|done].
  - cbn [js_reader]. eapply reader_at_quiet; [apply Hw|by apply si_reader].
  - intros x ->%list_elem_of_singleton. exists e. split; [|done]. by apply (qi_memory _ _ _ _ _ _ (si_queue s Hi q)).
Qed.

Lemma memory_bound q s : streams_inv s -> length (memory (js_consumer_of q s)) <= eventChan_capacity + 2.
Proof.
  intros Hi. pose proof (qi_chan _ _ _ _ _ _ (si_queue s Hi q)) as Hl. unfold memory. rewrite !length_app.
  assert (length (option_list (js_doing (js_consumer_of q s))) <= 1) by (destruct (js_doing _); cbn; lia).
  assert (length match js_reader (js_consumer_of q s) with Ret (inl event) => [event] | _ => [] end <= 1)
    by (destruct (js_reader _) as [[]| |]; cbn; lia).
  lia.
Qed.

Lemma act_restart_inv s s' : act_restart jets s = Some s' -> streams_inv s -> streams_inv s'.
Proof.
  intros [= <-] Hi. assert (forall q, memory (fresh jets q) = []) as Hf.
  { intros q. unfold fresh, memory. cbn [js_reader js_chan js_doing]. by destruct (next_message_call q) as (k&->&_). }
  pose proof (memory_bound GeneralQueue s Hi) as Hg. pose proof (memory_bound DetectionQueue s Hi) as Hd.
  split; cbn [streams_env streams_requested streams_accepted streams_added streams_lost streams_restarts streams_requests].
  - intros q. replace (js_consumer_of q _) with (fresh jets q) by (by destruct q).
    apply (queue_inv_consumer q _ (js_consumer_of q s) _ (streams_requested s) _ (streams_added s) _ (streams_lost s)); [done|done| | | | |by apply (si_queue s Hi q)]; [set_solver|cbn; lia| |].
    + intros e. rewrite Hf. by intros ?%elem_of_nil.
    + intros e He. right. right. rewrite !elem_of_app. destruct q; auto.
  - intros q. left. by destruct q.
  - constructor.
  - apply si_accepted, Hi.
  - apply si_added, Hi.
  - rewrite !length_app. pose proof (si_lost s Hi). unfold process_memory in *. cbn [js_consumer_of] in *. lia.
Qed.

Lemma step_inv s s' : streams_step jets h V s s' -> streams_inv s -> streams_inv s'.
Proof.
  intros [a s1 s2 H|w s1 Hw].
  - destruct a; eauto using act_request_inv, act_call_inv, act_answer_inv, act_read_inv, act_send_inv, act_take_inv,
      act_work_inv, act_restart_inv.
  - intros [H1 H2 H3 H4 H5 H6]. pose proof (quiet_grows _ _ Hw) as Hg.
    split; cbn [streams_env streams_requested streams_accepted streams_added streams_lost streams_restarts streams_requests]; try done.
    + intros q. replace (js_consumer_of q _) with (js_consumer_of q s1) by (by destruct q).
      destruct (Hw q) as (Hst&_&Hk). by eapply queue_inv_env.
    + intros q. replace (js_consumer_of q _) with (js_consumer_of q s1) by (by destruct q). by eapply reader_at_quiet.
    + by apply (requests_inv_grows s1).
    + intros e He. destruct (H4 e He) as (q&d&?&?&Hd). exists q, d. split_and!; [done..|by apply Hg].
Qed.

Lemma steps_inv s s' : rtc (streams_step jets h V) s s' -> streams_inv s -> streams_inv s'.
Proof. induction 1; eauto using step_inv. Qed.

Lemma boot_inv w : (forall q, stored V q w = []) -> streams_inv (streams_boot jets w).
Proof.
  intros Hw. split; cbn [streams_boot streams_env streams_requested streams_accepted streams_added streams_lost streams_restarts streams_requests].
  - intros q. assert (memory (js_consumer_of q (streams_boot jets w)) = []) as Hm.
    { unfold streams_boot. destruct (next_message_call q) as (k&Hn&_). destruct q; cbn; unfold memory, fresh; cbn; by rewrite Hn. }
    split; rewrite ?Hw, ?Hm; [by intros ? ?%elem_of_nil|by intros i|by intros ? ?%elem_of_nil|destruct q; cbn; lia].
  - intros q. left. by destruct q.
  - constructor.
  - by intros ? ?%elem_of_nil.
  - by intros ? ?%elem_of_nil.
  - cbn. lia.
Qed.

(** ** Where an accepted event is *)

Definition on_stream (q : queue_name) (e : Event) (w : W) (ns : gset nat) : Prop :=
  exists i data, stored V q w !! i = Some data /\ proto_Marshal e = inl data /\ i ∈ ns.

Lemma accepted_place s e :
  streams_inv s -> e ∈ streams_accepted s -> exists q, of_class q e /\
    (on_stream q e (streams_env s) (open V q (streams_env s)) \/
     on_stream q e (streams_env s) (gone V q (streams_env s)) \/
     e ∈ memory (js_consumer_of q s) \/ handed (streams_added s) e \/ e ∈ streams_lost s).
Proof.
  intros Hi He. destruct (si_accepted s Hi e He) as (q&d&Hq&Hm&[i Hd]%list_elem_of_lookup). exists q. split; [done|].
  destruct (qi_place _ _ _ _ _ _ (si_queue s Hi q) i d e Hd Hm) as [?|[?|?]]; [left|right; left|by right; right];
    by exists i, d.
Qed.

(** C13. With JetStream every event that was answered with success is accounted
    for.  At every moment, whatever the goroutines did in which order, however
    often publishes failed, messages came again or the process was stopped and
    started: the event is still to be delivered by the stream of its class,
    was discarded there at a limit, is in the memory of the server, was handed
    to the store, or was in the memory of a process that stopped.  What is
    handed to the store was requested; and a stop loses at most 2004 events
    that NATS no longer delivers. *)
Theorem accepted_events_accounted w s :
  (forall q, stored V q w = []) -> rtc (streams_step jets h V) (streams_boot jets w) s ->
  (forall e, e ∈ streams_accepted s -> exists q, of_class q e /\
     (on_stream q e (streams_env s) (open V q (streams_env s)) \/
      on_stream q e (streams_env s) (gone V q (streams_env s)) \/
      e ∈ memory (js_consumer_of q s) \/ handed (streams_added s) e \/ e ∈ streams_lost s)) /\
  (forall x, x ∈ streams_added s -> exists e, e ∈ streams_requested s /\ unstamp x = unstamp e) /\
  length (streams_lost s) <= process_memory * streams_restarts s.
Proof.
  intros Hw Hr. assert (streams_inv s) as Hi by (eapply steps_inv; [exact Hr|by apply boot_inv]).
  split_and!; [by intros; apply accepted_place|by apply si_added|by apply si_lost].
Qed.

(** * Draining the streams *)

(** NATS as long as nothing goes wrong: it gives a message that is open while
    there is one, takes acknowledgements, and discards nothing. *)
Class Prompt : Prop := {
  prompt_next q t w r w' : h _ (SQueue q (JNextMsg t)) w = (r, w') ->
    open V q w' = open V q w /\ gone V q w' = gone V q w /\
    (open V q w <> ∅ -> exists data i, r = inl data /\ delivered V q w' = Some i /\ i ∈ open V q w);
  prompt_ack q w r w' : h _ (SQueue q JAck) w = (r, w') -> gone V q w' = gone V q w /\
    open V q w' = match delivered V q w with Some i => open V q w ∖ {[i]} | None => open V q w end;
  prompt_other q X (e : StreamsE X) w x w' : queue_of e <> Some q -> h X e w = (x, w') ->
    open V q w' = open V q w /\ gone V q w' = gone V q w;
}.

Section drain.
Context `{!Prompt}.

(** The goroutines of a queue run, and leave the rest alone. *)
Record drained (q : queue_name) (s s' : streams W) : Prop := {
  dr_steps : rtc (streams_step jets h V) s s';
  dr_accepted : streams_accepted s' = streams_accepted s;
  dr_lost : streams_lost s' = streams_lost s;
  dr_other q' : q' <> q -> js_consumer_of q' s' = js_consumer_of q' s;
  dr_open q' : open V q' (streams_env s') ⊆ open V q' (streams_env s);
  dr_other_open q' : q' <> q -> open V q' (streams_env s') = open V q' (streams_env s);
  dr_gone q' : gone V q' (streams_env s') = gone V q' (streams_env s);
  dr_stored q' : stored V q' (streams_env s') = stored V q' (streams_env s);
}.

#[local] Instance drained_preorder q : PreOrder (drained q).
Proof.
  split; [by intros s; split|]. intros s1 s2 s3 H1 H2. destruct H1, H2. split; [by etrans|congruence|congruence| | | | |]; intros q'.
  - intros Hq. etrans; auto.
  - etrans; auto.
  - intros Hq. etrans; auto.
  - etrans; auto.
  - etrans; auto.
Qed.

Definition calm (q : queue_name) (w w' : W) : Prop :=
  open V q w' = open V q w /\ gone V q w' = gone V q w /\ stored V q w' = stored V q w.

Lemma calm_refl q w : calm q w w.
Proof. done. Qed.

Lemma calm_other q X (e : StreamsE X) w x w' : queue_of e <> Some q -> h X e w = (x, w') -> calm q w w'.
Proof.
  intros Hq Hh. destruct (prompt_other q X e w x w' Hq Hh). split_and!; [done..|].
  by destruct (js_other jets (V := V) q X e w x w' Hq Hh).
Qed.

Lemma calm_worker {A} (p : prog IngestE A) w q : calm q w (run (worker_side h) p w).2.
Proof.
  revert w. induction p as [a|X e k IH|cr]; intros w; [done| |done]. cbn [run].
  unfold worker_side at 1. destruct (h X (SWorker e) w) as [x w1] eqn:Hh.
  destruct (calm_other q X (SWorker e) w x w1) as (Ho&Hg&Hs); [done|done|].
  destruct (IH x w1) as (Ho2&Hg2&Hs2). split_and!; congruence.
Qed.

Lemma drained_act q a s c w xs :
  act jets h a s = Some (with_consumer q c w xs s) ->
  (forall q', q' <> q -> calm q' (streams_env s) w) -> open V q w ⊆ open V q (streams_env s) ->
  gone V q w = gone V q (streams_env s) -> stored V q w = stored V q (streams_env s) ->
  drained q s (with_consumer q c w xs s).
Proof.
  intros Ha Hc Ho Hg Hs.
  assert (forall q', open V q' w ⊆ open V q' (streams_env s) /\ gone V q' w = gone V q' (streams_env s) /\
    stored V q' w = stored V q' (streams_env s)) as Hall.
  { intros q'. destruct (decide (q' = q)) as [->|Hq]; [done|]. by destruct (Hc q' Hq) as (->&->&->). }
  split; try done; [by eapply rtc_once, step_act|..]; intros q'; [by intros ?; destruct q, q'|apply Hall|apply Hc|apply Hall..].
Qed.

(** The environment stays as it is for the streams. *)
Lemma drained_calm q a s c w xs :
  act jets h a s = Some (with_consumer q c w xs s) -> (forall q', calm q' (streams_env s) w) ->
  drained q s (with_consumer q c w xs s).
Proof. intros Ha Hc. destruct (Hc q) as (Ho&Hg&Hs). eapply drained_act; [done|intros; apply Hc|by rewrite Ho|done|done]. Qed.

(** What is in the channel gets processed. *)
Lemma flush q s : exists s', drained q s s' /\ js_chan (js_consumer_of q s') = [] /\
  js_doing (js_consumer_of q s') = None /\ js_reader (js_consumer_of q s') = js_reader (js_consumer_of q s).
Proof.
  remember (js_chan (js_consumer_of q s)) as l eqn:Hl. revert s Hl. induction l as [|e l IH]; intros s Hl.
  - destruct (js_doing (js_consumer_of q s)) as [e|] eqn:Hd.
    + eexists. split.
      { eapply (drained_calm q (WorkOf q)); [cbn [act]; unfold act_work; by rewrite Hd|]. intros q'. apply calm_worker. }
      destruct q; by cbn in *.
    + exists s. by split_and!.
  - assert (exists s1, drained q s s1 /\ js_chan (js_consumer_of q s1) = e :: l /\ js_doing (js_consumer_of q s1) = None /\
      js_reader (js_consumer_of q s1) = js_reader (js_consumer_of q s)) as (s1&H1&Hc1&Hd1&Hr1).
    { destruct (js_doing (js_consumer_of q s)) as [e'|] eqn:Hd.
      - eexists. split.
        { eapply (drained_calm q (WorkOf q)); [cbn [act]; unfold act_work; by rewrite Hd|]. intros q'. apply calm_worker. }
        rewrite Hl. by destruct q.
      - exists s. by split_and!. }
    pose (s2 := with_consumer q (mkJsConsumer (js_reader (js_consumer_of q s1)) l (Some e)) (streams_env s1) [] s1).
    assert (drained q s1 s2) as H2.
    { eapply (drained_calm q (TakeOf q)); [|intros q'; apply calm_refl]. cbn [act]. unfold act_take. by rewrite Hd1, Hc1. }
    destruct (IH s2) as (s3&H3&Hc3&Hd3&Hr3); [by destruct q|]. exists s3. split; [by etrans; [exact H1|etrans]|].
    split_and!; [done..|]. rewrite Hr3, <- Hr1. by destruct q.
Qed.

(** A queue at rest: its goroutines wait for the next message. *)
Definition at_rest (q : queue_name) (s : streams W) : Prop := js_consumer_of q s = fresh jets q.

Lemma rest_of_flushed q s :
  js_chan (js_consumer_of q s) = [] -> js_doing (js_consumer_of q s) = None ->
  js_reader (js_consumer_of q s) = next_message jets q -> at_rest q s.
Proof. unfold at_rest, fresh. intros <- <- <-. by destruct (js_consumer_of q s). Qed.

(** An answer of [NextMessage] is dealt with. *)
Lemma settle_answer q s r : js_reader (js_consumer_of q s) = Ret r -> exists s', drained q s s' /\ at_rest q s'.
Proof.
  intros Hr. destruct (flush q s) as (s1&H1&Hc1&Hd1&Hr1). rewrite Hr in Hr1.
  assert (exists s2, drained q s1 s2 /\ js_reader (js_consumer_of q s2) = next_message jets q) as (s2&H2&Hr2).
  { destruct r as [e|err].
    - eexists. split.
      { eapply (drained_calm q (SendOf q)); [|intros q'; apply calm_refl]. cbn [act]. unfold act_send. by rewrite Hr1, Hc1. }
      by destruct q.
    - eexists. split.
      { eapply (drained_calm q (ReadOf q)); [|intros q'; apply calm_refl]. cbn [act]. unfold act_read. by rewrite Hr1. }
      by destruct q. }
  destruct (flush q s2) as (s3&H3&Hc3&Hd3&Hr3). exists s3. split; [by etrans; [exact H1|etrans]|].
  apply rest_of_flushed; [done..|]. by rewrite Hr3.
Qed.

(** An acknowledgement, and what follows. *)
Lemma settle_ack q s k i data :
  js_reader (js_consumer_of q s) = Vis (SQueue q JAck) k -> (forall x, k x = Ret (decoded data)) ->
  delivered V q (streams_env s) = Some i ->
  exists s', drained q s s' /\ at_rest q s' /\ i ∉ open V q (streams_env s').
Proof.
  intros Hr Hk Hd. destruct (h _ (SQueue q JAck) (streams_env s)) as [x w'] eqn:Hh.
  destruct (prompt_ack q _ x w' Hh) as [Hg Ho]. rewrite Hd in Ho. pose proof (js_ack jets (V := V) q _ x w' Hh) as (Hs&_).
  set (s1 := with_consumer q (mkJsConsumer (k x) (js_chan (js_consumer_of q s)) (js_doing (js_consumer_of q s))) w' [] s).
  assert (drained q s s1) as H1.
  { apply (drained_act q (ReadOf q)); [|intros; by eapply calm_other; [|exact Hh]; cbn; congruence|set_solver|done|done].
    cbn [act]. unfold act_read. by rewrite Hr, Hh. }
  destruct (settle_answer q s1 (decoded data)) as (s2&H2&Hrest); [rewrite <- (Hk x); by destruct q|].
  exists s2. split; [by etrans|]. split; [done|]. intros Hi%(dr_open _ _ _ H2). cbn in Hi. set_solver.
Qed.

Lemma settle q s : streams_inv s -> exists s', drained q s s' /\ at_rest q s'.
Proof.
  intros Hi. destruct (si_reader s Hi q) as [Hr|[(k&i&data&Hr&Hk&Hd&_)|[r Hr]]].
  - destruct (flush q s) as (s1&H1&Hc1&Hd1&Hr1). exists s1. split; [done|]. apply rest_of_flushed; [done..|]. by rewrite Hr1.
  - destruct (settle_ack q s k i data Hr Hk Hd) as (s'&?&?&_). by exists s'.
  - by eapply settle_answer.
Qed.

(** One message after the other. *)
Lemma drain_queue q s : streams_inv s -> at_rest q s ->
  exists s', drained q s s' /\ at_rest q s' /\ open V q (streams_env s') = ∅.
Proof.
  remember (size (open V q (streams_env s))) as n eqn:Hn. revert s Hn.
  induction n as [n IH] using lt_wf_ind. intros s -> Hi Hrest.
  destruct (decide (open V q (streams_env s) = ∅)) as [He|Hne]; [by exists s|].
  destruct (next_message_call q) as (kn&Hnm&_&Hok). assert (js_reader (js_consumer_of q s) = next_message jets q) as Hr
    by (unfold at_rest in Hrest; by rewrite Hrest).
  destruct (h _ (SQueue q (JNextMsg 3600000000000)) (streams_env s)) as [x w'] eqn:Hh.
  destruct (prompt_next q _ _ x w' Hh) as (Ho&Hg&Hp). destruct (Hp Hne) as (data&i&->&Hd&Hin).
  pose proof (js_next jets (V := V) q _ _ _ w' Hh) as (Hs&_).
  set (s1 := with_consumer q (mkJsConsumer (kn (inl data)) (js_chan (js_consumer_of q s)) (js_doing (js_consumer_of q s))) w' [] s).
  assert (drained q s s1) as H1.
  { apply (drained_act q (ReadOf q)); [|intros; by eapply calm_other; [|exact Hh]; cbn; congruence|by rewrite Ho|done|done].
    cbn [act]. unfold act_read. by rewrite Hr, Hnm, Hh. }
  destruct (Hok data) as (k'&Hk1&Hk2).
  destruct (settle_ack q s1 k' i data) as (s2&H2&Hrest2&Hout); [by rewrite <- Hk1; destruct q|done|done|].
  assert (streams_inv s2) as Hi2 by (eapply steps_inv; [|exact Hi]; etrans; [apply H1|apply H2]).
  destruct (IH (size (open V q (streams_env s2)))) with (s := s2) as (s3&H3&?&?); [|done|done|done|].
  - apply subset_size. split; [etrans; [apply H2|apply H1]|]. intros Hsub. by apply Hout, Hsub.
  - exists s3. split; [by etrans; [exact H1|etrans]|done].
Qed.

Lemma drain_streams s : streams_inv s -> exists s', rtc (streams_step jets h V) s s' /\
  streams_accepted s' = streams_accepted s /\ streams_lost s' = streams_lost s /\
  forall q, at_rest q s' /\ open V q (streams_env s') = ∅ /\
    gone V q (streams_env s') = gone V q (streams_env s) /\ stored V q (streams_env s') = stored V q (streams_env s).
Proof.
  assert (forall q s, streams_inv s -> exists s', drained q s s' /\ at_rest q s' /\ open V q (streams_env s') = ∅) as Hone.
  { intros q s1 Hi. destruct (settle q s1 Hi) as (s2&H2&Hr2).
    destruct (drain_queue q s2) as (s3&H3&?&?); [by eapply steps_inv; [apply H2|]|done|].
    exists s3. split; [by etrans|done]. }
  intros Hi. destruct (Hone GeneralQueue s Hi) as (s1&H1&Hr1&Ho1).
  destruct (Hone DetectionQueue s1) as (s2&H2&Hr2&Ho2); [by eapply steps_inv; [apply H1|]|].
  exists s2. split; [etrans; [apply H1|apply H2]|]. destruct H1, H2. split; [congruence|]. split; [congruence|].
  intros []; (split; [|split; [|split; etrans; auto]]); try done.
  - unfold at_rest. rewrite dr_other1 by done. exact Hr1.
  - by rewrite dr_other_open1.
Qed.
End drain.
End facts.

(** * From acceptance to the store *)

Section delivery.
Context `{PC : ProtoCodec Event} `{!ProtoCodecLaws Event} (jets : queue_name -> JetStream).
Context (ready_queues : forall q, JetStream_subscribed (jets q) = true).
Context {W : Type} (V : stream_view W).

(** C14. Accepted events reach the store through JetStream.  Whatever happened -
    failed publishes, duplicates, restarts - once NATS delivers what it has,
    the workers can run on, with no further request, until every event that
    was answered with success has been handed to the store, except for those
    NATS had discarded at a limit and those a stopped process took with it. *)
Theorem streams_can_be_drained (h h' : handler StreamsE W)
    `{!StreamsLaws jets h V} `{!StreamsLaws jets h' V} `{!Prompt h' V} w s :
  (forall q, stored V q w = []) -> rtc (streams_step jets h V) (streams_boot jets w) s ->
  exists s', rtc (streams_step jets h' V) s s' /\ streams_accepted s' = streams_accepted s /\
    forall e, e ∈ streams_accepted s ->
      handed (streams_added s') e \/ e ∈ streams_lost s \/
      exists q, of_class q e /\ on_stream V q e (streams_env s) (gone V q (streams_env s)).
Proof.
  intros Hw Hr. assert (streams_inv jets V s) as Hi
    by (eapply (steps_inv jets ready_queues h V); [exact Hr|by apply boot_inv]).
  destruct (drain_streams jets ready_queues h' V s Hi) as (s'&Hs&Ha&Hl&Hq). exists s'. split; [done|]. split; [done|].
  intros e He. assert (streams_inv jets V s') as Hi'
    by by eapply (steps_inv jets ready_queues h' V).
  rewrite <- Ha in He. destruct (accepted_place jets V s' e Hi' He) as (q&Hc&Hp). destruct (Hq q) as (Hrest&Ho&Hg&Hst).
  destruct Hp as [(i&d&_&_&Hin)|[(i&d&Hd&Hm&Hin)|[Hm|[Hh|Hls]]]].
  - rewrite Ho in Hin. by apply elem_of_empty in Hin.
  - right. right. exists q. split; [done|]. exists i, d. rewrite <- Hst, <- Hg. by split_and!.
  - unfold at_rest in Hrest. rewrite Hrest in Hm. unfold fresh, memory in Hm. cbn in Hm.
    destruct (next_message_call jets ready_queues q) as (k&Hn&_). rewrite Hn in Hm. by apply elem_of_nil in Hm.
  - by left.
  - right. left. by rewrite <- Hl.
Qed.
End delivery.

(** * A broker in memory *)

Inductive msg_state := MsgOpen | MsgAcked | MsgGone.

#[export] Instance msg_state_eq_dec : EqDecision msg_state.
Proof. solve_decision. Defined.

Record broker_stream := mkBrokerStream {
  bs_msgs : list (string * msg_state);
  bs_last : option nat;
}.

(** Two streams; whether the next publish is answered with an error although
    the message is stored; and the clock and store of the worker. *)
Record broker := mkBroker {
  broker_streams : queue_name -> broker_stream;
  broker_flaky : bool;
  broker_ingest : Z * list Event;
}.

Definition set_stream (q : queue_name) (b : broker_stream) (w : broker) : broker :=
  mkBroker (fun q' => if decide (q' = q) then b else broker_streams w q') (broker_flaky w) (broker_ingest w).

Definition first_open (b : broker_stream) : option (nat * (string * msg_state)) :=
  list_find (fun m => m.2 = MsgOpen) (bs_msgs b).

Definition acknowledge (b : broker_stream) : broker_stream :=
  match bs_last b with
  | Some i => mkBrokerStream (alter (fun m => (m.1, match m.2 with MsgGone => MsgGone | _ => MsgAcked end)) i (bs_msgs b)) (bs_last b)
  | None => b
  end.

Definition broker_queue (q : queue_name) X (e : JetStreamE X) (w : broker) : X * broker :=
  let b := broker_streams w q in
  match e in JetStreamE X return X * broker with
  | JPublish _ data =>
      let w' := set_stream q (mkBrokerStream (bs_msgs b ++ [(data, MsgOpen)]) (bs_last b)) w in
      (if broker_flaky w then Some (PlainError "nats: timeout") else None,
       mkBroker (broker_streams w') (negb (broker_flaky w)) (broker_ingest w'))
  | JNextMsg _ =>
      match first_open b with
      | Some (i, (data, _)) => (inl data, set_stream q (mkBrokerStream (bs_msgs b) (Some i)) w)
      | None => (inr ErrTimeout, w)
      end
  | JAck => (None, set_stream q (acknowledge b) w)
  | JStreamInfo _ => ((true, None), w)
  | JConnect _ _ | JContext | JAddStream _ | JAddConsumer _ _ | JQueueSubscribeSync _ _ => (None, w)
  | JSleep _ => (tt, w)
  end.

Definition broker_env : handler StreamsE broker := fun X e w =>
  match e in StreamsE X return X * broker with
  | SQueue q e => broker_queue q _ e w
  | SWorker e =>
      let '(x, i) := ingest_env _ e (broker_ingest w) in (x, mkBroker (broker_streams w) (broker_flaky w) i)
  end.

Definition numbers (st : msg_state) (l : list (string * msg_state)) : gset nat :=
  dom (filter (fun kv => kv.2.2 = st) (map_seq 0 l : gmap nat (string * msg_state))).

Definition broker_view : stream_view broker := {|
  stored q w := (bs_msgs (broker_streams w q)).*1;
  open q w := numbers MsgOpen (bs_msgs (broker_streams w q));
  gone q w := numbers MsgGone (bs_msgs (broker_streams w q));
  delivered q w := bs_last (broker_streams w q);
|}.

Lemma elem_of_numbers st l i : i ∈ numbers st l <-> exists d, l !! i = Some (d, st).
Proof.
  unfold numbers. rewrite elem_of_dom. split.
  - intros [[d st'] [Hl Hs]%map_lookup_filter_Some]. rewrite lookup_map_seq_0 in Hl. cbn in Hs. subst. by exists d.
  - intros [d Hl]. exists (d, st). apply map_lookup_filter_Some. by rewrite lookup_map_seq_0.
Qed.

Lemma set_stream_same q b w : broker_streams (set_stream q b w) q = b.
Proof. cbn. by rewrite decide_True. Qed.

Lemma set_stream_other q q' b w : q' <> q -> broker_streams (set_stream q b w) q' = broker_streams w q'.
Proof. intros Hq. cbn. by rewrite decide_False. Qed.

(** A queue that stays as it is. *)
Lemma broker_quiet q w w' :
  broker_streams w' q = broker_streams w q -> quiet broker_view q w w' /\
    open broker_view q w' = open broker_view q w /\ gone broker_view q w' = gone broker_view q w.
Proof. intros H. cbn. rewrite H. split; [|done]. split; cbn; rewrite H; [done|]. split; [done|]. split; cbn; rewrite H; set_solver. Qed.

Lemma broker_other q X (e : StreamsE X) w x w' :
  queue_of e <> Some q -> broker_env X e w = (x, w') -> broker_streams w' q = broker_streams w q.
Proof.
  intros Hq. destruct e as [q' X e|X e]; cbn in Hq |- *.
  - assert (q <> q') as Hne by congruence.
    destruct e; cbn; try (by intros [= <- <-]); try (intros [= <- <-]; by apply set_stream_other).
    destruct (first_open (broker_streams w q')) as [[i [d st]]|]; intros [= <- <-]; [by apply set_stream_other|done].
  - destruct (ingest_env X e (broker_ingest w)) as [y i]. by intros [= <- <-].
Qed.

Lemma first_open_Some b i d st : first_open b = Some (i, (d, st)) -> bs_msgs b !! i = Some (d, MsgOpen).
Proof. intros (Hi&Hst&_)%list_find_Some. cbn in Hst. by subst. Qed.

Lemma acknowledge_numbers b :
  numbers MsgOpen (bs_msgs (acknowledge b)) =
    match bs_last b with
    | Some i => numbers MsgOpen (bs_msgs b) ∖ {[i]}
    | None => numbers MsgOpen (bs_msgs b)
    end /\
  numbers MsgGone (bs_msgs (acknowledge b)) = numbers MsgGone (bs_msgs b).
Proof.
  unfold acknowledge. destruct (bs_last b) as [i|]; [|done]. cbn [bs_msgs].
  split; apply set_eq; intros j; rewrite ?elem_of_difference, ?elem_of_singleton, !elem_of_numbers, list_lookup_alter;
    case_decide as Hj; try (naive_solver; fail); subst j; destruct (bs_msgs b !! i) as [[d []]|]; cbn; naive_solver.
Qed.

Lemma acknowledge_stored b : (bs_msgs (acknowledge b)).*1 = (bs_msgs b).*1.
Proof.
  unfold acknowledge. destruct (bs_last b) as [i|]; [|done]. cbn [bs_msgs].
  apply list_eq. intros j. rewrite !list_lookup_fmap, list_lookup_alter. case_decide as Hj; [|done].
  subst. by destruct (bs_msgs b !! j).
Qed.

#[export] Instance broker_laws jets : StreamsLaws jets broker_env broker_view.
Proof.
  split.
  - intros q data w r w' [= <- <-]. left. unfold took, keeps.
    cbn [stored open gone delivered broker_view broker_streams set_stream]. rewrite decide_True by done. cbn [bs_msgs bs_last].
    set (l := bs_msgs (broker_streams w q)).
    split; [by rewrite fmap_app|]. split; [done|]. split; intros i.
    + rewrite !elem_of_union, elem_of_singleton, length_fmap, !elem_of_numbers. intros [->|[d Hd]]; left.
      * exists data. by rewrite lookup_app_r, Nat.sub_diag.
      * exists d. by apply lookup_app_l_Some.
    + rewrite !elem_of_numbers. intros [d Hd]. exists d. by apply lookup_app_l_Some.
  - intros q d w u w' [= <- <-]. by apply broker_quiet.
  - intros q t w r w'. cbn [broker_env broker_queue].
    destruct (first_open (broker_streams w q)) as [[i [d st]]|] eqn:Hf; intros [= <- <-].
    + apply first_open_Some in Hf. unfold keeps. cbn [stored open gone delivered broker_view]. rewrite set_stream_same.
      split; [done|]. split; [split; set_solver|]. exists i. by rewrite list_lookup_fmap, Hf.
    + split; [done|]. split; [|done]. split; set_solver.
  - intros q w r w' [= <- <-]. unfold keeps. cbn [stored open gone delivered broker_view]. rewrite set_stream_same.
    destruct (acknowledge_numbers (broker_streams w q)) as [-> ->]. rewrite acknowledge_stored. split; [done|].
    split; [by unfold acknowledge; destruct (bs_last (broker_streams w q)) eqn:Hl|].
    destruct (bs_last (broker_streams w q)); split; set_solver.
  - intros q X e w x w' Hq Hh. by eapply broker_quiet, broker_other.
Qed.

#[export] Instance broker_prompt : Prompt broker_env broker_view.
Proof.
  split.
  - intros q t w r w'. cbn [broker_env broker_queue].
    destruct (first_open (broker_streams w q)) as [[i [d st]]|] eqn:Hf; intros [= <- <-].
    + apply first_open_Some in Hf. cbn [stored open gone delivered broker_view]. rewrite set_stream_same.
      split; [done|]. split; [done|]. intros _. exists d, i. split_and!; [done..|]. apply elem_of_numbers. by exists d.
    + split; [done|]. split; [done|]. intros Hne. destruct Hne. apply elem_of_equiv_empty_L. intros i [d Hd]%elem_of_numbers.
      apply list_find_None in Hf. by pose proof (Forall_lookup_1 _ _ _ _ Hf Hd).
  - intros q w r w' [= <- <-]. cbn [stored open gone delivered broker_view]. rewrite set_stream_same.
    by destruct (acknowledge_numbers (broker_streams w q)) as [-> ->].
  - intros q X e w x w' Hq Hh. pose proof (broker_other q X e w x w' Hq Hh) as Hs. by destruct (broker_quiet q w w' Hs) as [_ ?].
Qed.

(** ** A run *)

(** A codec for events of which only the type is set. *)
Definition type_codec : ProtoCodec Event := {|
  proto_Marshal e :=
    match e with
    | mkEvent k ty "" None None None None => if String.eqb k KindEvent then inl ty else inr (PlainError "too much")
    | _ => inr (PlainError "too much")
    end;
  proto_Unmarshal s := inl (ex_event s);
|}.

#[export] Instance type_codec_laws : ProtoCodecLaws Event (H := type_codec).
Proof.
  intros [k ty [|] [] [] [] []] data; cbn; try done.
  destruct (String.eqb_spec k KindEvent) as [->|]; [|done]. by intros [= <-].
Qed.

Definition ex_jets (q : queue_name) : JetStream :=
  mkJetStream "nats://nats:4222" []
    (match q with GeneralQueue => "events" | DetectionQueue => "events-type-detection" end) true true.

Definition ex_broker : broker := mkBroker (fun _ => mkBrokerStream [] None) true (7%Z, []).

(** A violation is published twice, for the first answer got lost; the server
    stops while its first copy is in the channel; then a detection follows, and
    the second copy of the violation is read. *)
Definition ex_actions : list action :=
  [Request (ex_event EventTypeViolation); CallOf 0; CallOf 0; CallOf 0; AnswerOf 0;
   ReadOf GeneralQueue; ReadOf GeneralQueue; SendOf GeneralQueue; Restart;
   Request (ex_event EventTypeDetection); CallOf 0; CallOf 0; CallOf 0; AnswerOf 0;
   ReadOf GeneralQueue; ReadOf GeneralQueue; SendOf GeneralQueue; TakeOf GeneralQueue].

Definition ex_boot : streams broker := streams_boot (PC := type_codec) ex_jets ex_broker.

Definition ex_streams : streams broker :=
  default ex_boot (acts (PC := type_codec) ex_jets broker_env ex_actions ex_boot).

Example ex_streams_state :
  streams_accepted ex_streams = [ex_event EventTypeViolation; ex_event EventTypeDetection] /\
  streams_lost ex_streams = [ex_event EventTypeViolation] /\
  memory (streams_general ex_streams) = [ex_event EventTypeViolation] /\
  elements (open broker_view DetectionQueue (streams_env ex_streams)) = [1; 0].
Proof. vm_compute. done. Qed.

Lemma acts_reach `{PC : ProtoCodec Event} jets {W} (h : handler StreamsE W) V l s s' :
  acts jets h l s = Some s' -> rtc (streams_step jets h V) s s'.
Proof.
  revert s. induction l as [|a l IH]; intros s; cbn; [by intros [= ->]|].
  intros (s1&Ha&Hl)%bind_Some. eapply rtc_l; [by eapply step_act|by apply IH].
Qed.

Lemma ex_streams_reachable : rtc (streams_step (PC := type_codec) ex_jets broker_env broker_view) ex_boot ex_streams.
Proof.
  apply (acts_reach (PC := type_codec) ex_jets broker_env broker_view ex_actions).
  assert (exists s, acts (PC := type_codec) ex_jets broker_env ex_actions ex_boot = Some s) as [s Hs]
    by (eexists; vm_compute; reflexivity).
  unfold ex_streams. by rewrite Hs.
Qed.

Lemma ex_jets_subscribed q : JetStream_subscribed (ex_jets q) = true.
Proof. done. Qed.

Lemma ex_broker_empty q : stored broker_view q ex_broker = [].
Proof. done. Qed.

Lemma accepted_events_accounted_witness :
  (forall e, e ∈ streams_accepted ex_streams -> exists q, of_class q e /\
     (on_stream (PC := type_codec) broker_view q e (streams_env ex_streams) (open broker_view q (streams_env ex_streams)) \/
      on_stream (PC := type_codec) broker_view q e (streams_env ex_streams) (gone broker_view q (streams_env ex_streams)) \/
      e ∈ memory (js_consumer_of q ex_streams) \/ handed (streams_added ex_streams) e \/ e ∈ streams_lost ex_streams)) /\
  length (streams_lost ex_streams) <= process_memory * 1.
Proof.
  destruct (accepted_events_accounted (PC := type_codec) ex_jets ex_jets_subscribed broker_env broker_view ex_broker
    ex_streams ex_broker_empty ex_streams_reachable) as (H1&_&H3).
  exact (conj H1 H3).
Defined.

Lemma streams_can_be_drained_witness :
  exists s', rtc (streams_step (PC := type_codec) ex_jets broker_env broker_view) ex_streams s' /\
    forall e, e ∈ streams_accepted ex_streams ->
      handed (streams_added s') e \/ e ∈ streams_lost ex_streams \/
      exists q, of_class q e /\
        on_stream (PC := type_codec) broker_view q e (streams_env ex_streams) (gone broker_view q (streams_env ex_streams)).
Proof.
  destruct (streams_can_be_drained (PC := type_codec) ex_jets ex_jets_subscribed broker_view broker_env broker_env
    ex_broker ex_streams ex_broker_empty ex_streams_reachable) as (s'&Hs&_&H).
  exists s'. exact (conj Hs H).
Defined.
