(* ===== verification/Alerts.v ===== *)
(** The alert dispatcher of tarian-server ([pkg/server/alert_dispatcher.go]):
    turns stored events into alerts for the Alertmanager.  The theorems: the
    texts of violated processes and files, which target an alert is about, and
    that no alert is lost: an event counts as sent only after its alert was
    posted. *)

From S2P Require Import Prelude GoStrings Types Events Json GoTime.

Inductive AlertE : Type -> Type :=
| AStore {X} (e : EventStoreE X) : AlertE X
| PostAlerts (labels : gmap string string) : AlertE (option error).

(** * Texts *)

(** The loop of [violatedProcessesToString] and [violatedFilesToString], at
    index [i] of [n] items. *)
Fixpoint items_loop (i n : nat) (items : list string) : string :=
  match items with
  | [] => ""
  | item :: items' =>
      item +:+
      (if (Z.of_nat i <? Z.of_nat n - 1)%Z then ", " else "") +:+
      (if (10 <=? i)%nat
       then "... " +:+ Itoa (Z.of_nat n - Z.of_nat i - 1) +:+ " more"
       else items_loop (S i) n items')
  end.

Definition process_text (p : ptr Process) : string :=
  Itoa (Process_GetPid p) +:+ ":" +:+ Process_GetName p.

Definition violatedProcessesToString (processes : list (ptr Process)) : string :=
  items_loop 0 (length processes) (process_text <$> processes).

Definition violatedFilesToString (violatedFiles : list (ptr ViolatedFile)) : string :=
  items_loop 0 (length violatedFiles) (ViolatedFile_GetName <$> violatedFiles).

(** * Sending *)

(** The label set built for a target. *)
Definition alert_labels (event : ptr Event) (target : ptr Target) : gmap string string :=
  let labels : gmap string string := ∅ in
  let labels := <["type" := Event_GetType event]> labels in
  let labels := <["serverTimestamp" :=
                    Format_RFC3339 (AsTime (Event_GetServerTimestamp event))]> labels in
  let labels := <["pod_namespace" := Pod_GetNamespace (Target_GetPod target)]> labels in
  let labels := <["pod_name" := Pod_GetName (Target_GetPod target)]> labels in
  let labels := <["pod_uid" := Pod_GetUid (Target_GetPod target)]> labels in
  let labels := match Target_GetViolatedProcesses target with
                | Some ps => <["violated_processes" := violatedProcessesToString ps]> labels
                | None => labels end in
  let labels := match Target_GetViolatedFiles target with
                | Some fs => <["violated_files" := violatedFilesToString fs]> labels
                | None => labels end in
  match Target_GetFalcoAlert target with
  | Some _ => <["falco_alert" := FalcoAlert_GetOutput (Target_GetFalcoAlert target)]> labels
  | None => labels
  end.

Definition SendAlert (event : ptr Event) : prog AlertE (option error) :=
  r <- for_range (elems (Event_GetTargets event)) tt (fun target _ =>
         match Target_GetPod target with
         | None => Ret (Next tt)
         | Some _ =>
             err <- call (PostAlerts (alert_labels event target));;
             Ret (Return err)
         end);;
  match r with
  | inr err => Ret err
  | inl _ => Ret None
  end.

Definition alertable (event : ptr Event) : bool :=
  String.eqb (Event_GetType event) EventTypeViolation ||
  String.eqb (Event_GetType event) EventTypeFalcoAlert.

(** One event of a round. *)
Definition dispatch (event : ptr Event) : prog AlertE unit :=
  if alertable event then
    err <- SendAlert event;;
    match err with
    | None => call (AStore (UpdateAlertSent (Event_GetUid event)));;; Ret tt
    | Some _ => Ret tt
    end
  else Ret tt.

(** One round of the loop; [LoopSendAlerts] repeats it after a pause until its
    context is done. *)
Definition LoopSendAlerts_round : prog AlertE unit :=
  r <- call (AStore FindWhereAlertNotSent);;
  let '(events, err) := r in
  for_each (elems events) tt (fun event _ => dispatch event).

Fixpoint LoopSendAlerts (rounds : nat) : prog AlertE unit :=
  match rounds with
  | 0 => Ret tt
  | S rounds' => LoopSendAlerts_round;;; LoopSendAlerts rounds'
  end.

(** * Facts on the texts *)

Lemma items_loop_short i n items :
  i + length items = n -> n <= 10 -> items_loop i n items = Join items ", ".
Proof.
  revert i. induction items as [|x items IH]; intros i Hn Hle; [done|].
  cbn [items_loop length] in *. destruct (Nat.leb_spec 10 i); [lia|].
  rewrite IH by lia. destruct items as [|y items].
  - cbn in *. destruct (Z.ltb_spec (Z.of_nat i) (Z.of_nat n - 1)); [lia|]. by rewrite !app_empty_r.
  - cbn [length] in Hn. destruct (Z.ltb_spec (Z.of_nat i) (Z.of_nat n - 1)); [|lia]. done.
Qed.

Lemma items_loop_long i n items :
  i + length items = n -> 10 < n -> i <= 10 ->
  items_loop i n items =
    Join (take (11 - i) items) ", " +:+ (if (11 <? n)%nat then ", " else "") +:+
    "... " +:+ Itoa (Z.of_nat n - 11) +:+ " more".
Proof.
  revert i. induction items as [|x items IH]; intros i Hn Hle Hi; cbn [length] in Hn; [lia|].
  cbn [items_loop]. destruct (Nat.leb_spec 10 i).
  - assert (i = 10) as -> by lia.
    replace (Z.of_nat n - Z.of_nat 10 - 1)%Z with (Z.of_nat n - 11)%Z by lia.
    replace (Z.of_nat 10 <? Z.of_nat n - 1)%Z with (11 <? n)%nat.
    2: { destruct (Nat.ltb_spec 11 n), (Z.ltb_spec (Z.of_nat 10) (Z.of_nat n - 1)); lia. }
    done.
  - destruct (Z.ltb_spec (Z.of_nat i) (Z.of_nat n - 1)); [|lia].
    rewrite (IH (S i)) by lia. replace (11 - i) with (S (11 - S i)) by lia.
    destruct items as [|y items]; cbn [length] in Hn; [lia|].
    replace (11 - S i) with (S (11 - S (S i))) by lia.
    cbn [take Join]. by rewrite !app_assoc_s.
Qed.

(** The texts of an alert: up to ten items are listed completely; of more
    the first eleven are listed and the rest is counted - also when nothing
    is left, where the text ends in "... 0 more". *)
Lemma violated_texts (ps : list (ptr Process)) (fs : list (ptr ViolatedFile)) :
  let text items :=
    if (length items <=? 10)%nat then Join items ", "
    else Join (take 11 items) ", " +:+ (if (11 <? length items)%nat then ", " else "") +:+
         "... " +:+ Itoa (Z.of_nat (length items) - 11) +:+ " more" in
  violatedProcessesToString ps = text (process_text <$> ps) /\
  violatedFilesToString fs = text (ViolatedFile_GetName <$> fs).
Proof.
  assert (forall A (f : A -> string) (l : list A),
    items_loop 0 (length l) (f <$> l) =
    (if (length (f <$> l) <=? 10)%nat then Join (f <$> l) ", "
     else Join (take 11 (f <$> l)) ", " +:+ (if (11 <? length (f <$> l))%nat then ", " else "") +:+
          "... " +:+ Itoa (Z.of_nat (length (f <$> l)) - 11) +:+ " more")) as H.
  { intros A f l. rewrite length_fmap. destruct (Nat.leb_spec (length l) 10).
    - apply items_loop_short; [by rewrite length_fmap|done].
    - apply (items_loop_long 0); [by rewrite length_fmap|lia|lia]. }
  split; apply H.
Qed.

(** * Facts on sending *)

(** The target an alert is about: the first one with a pod. *)
Definition alert_target (event : ptr Event) : option (ptr Target) :=
  List.find (fun t => match Target_GetPod t with Some _ => true | None => false end)
            (elems (Event_GetTargets event)).

Definition posted (tr : list (event AlertE)) : list (gmap string string) :=
  omap (fun v => match projT2 v with PostAlerts l => Some l | _ => None end) tr.

Lemma SendAlert_unfold event :
  SendAlert event =
  match alert_target event with
  | Some t => Vis (PostAlerts (alert_labels event t)) (fun err => Ret err)
  | None => Ret None
  end.
Proof.
  unfold SendAlert, alert_target. induction (elems (Event_GetTargets event)) as [|t l IH]; [done|].
  cbn. destruct (Target_GetPod t); [done|]. exact IH.
Qed.

(** An event gives at most one alert: of its targets only the first one
    with a pod is posted, whatever the others hold; an event without such a
    target is answered as sent although nothing was posted. *)
Lemma SendAlert_first_pod_only {W} (h : handler AlertE W) event w :
  posted (trace h (SendAlert event) w) = alert_labels event <$> option_list (alert_target event) /\
  (alert_target event = None -> run h (SendAlert event) w = (Done None, w)).
Proof.
  rewrite SendAlert_unfold. destruct (alert_target event) as [t|]; cbn; [|done].
  by destruct (h _ (PostAlerts (alert_labels event t)) w).
Qed.

(** ** Rounds against a store *)

(** The unsent events of the store, listed in any order, and the alerts the
    Alertmanager has.  Marking an event as sent touches no event with another
    uid.  A failed post may have been received, a failed update may have been
    applied. *)
Class AlertLaws {W} (h : handler AlertE W) (unsent : W -> list Event)
    (alerts : W -> list (gmap string string)) : Prop := {
  find_unsent l err w w' :
    h _ (AStore FindWhereAlertNotSent) w = ((l, err), w') ->
    (err = None -> elems l ≡ₚ Some <$> unsent w) /\
    (forall e, e ∈ elems l -> exists e', e = Some e' /\ e' ∈ unsent w) /\
    unsent w' = unsent w /\ alerts w' = alerts w;
  update_sent uid err w w' :
    h _ (AStore (UpdateAlertSent uid)) w = (err, w') ->
    alerts w' = alerts w /\
    (forall e, e ∈ unsent w' -> e ∈ unsent w) /\
    (forall e, e ∈ unsent w -> Event_Uid e <> uid -> e ∈ unsent w') /\
    (err = None -> uid <> "" -> Forall (fun e => Event_Uid e <> uid) (unsent w'));
  post_alert labels err w w' :
    h _ (PostAlerts labels) w = (err, w') ->
    unsent w' = unsent w /\
    (alerts w' = alerts w ++ [labels] \/ err <> None /\ alerts w' = alerts w);
}.

(** The alert of an event is not due, or the Alertmanager has it. *)
Definition alerted (alerts : list (gmap string string)) (e : Event) : Prop :=
  alertable (Some e) = true /\
  forall t, alert_target (Some e) = Some t -> alert_labels (Some e) t ∈ alerts.

Lemma alerted_mono l l' e : l ⊆ l' -> alerted l e -> alerted l' e.
Proof. intros Hl [Ha Hp]. split; [done|]. intros t Ht. by apply Hl, Hp. Qed.

Section rounds.
Context {W : Type} (h : handler AlertE W) (unsent : W -> list Event)
  (alerts : W -> list (gmap string string)) `{!AlertLaws h unsent alerts}.

(** Every event of [es] is still unsent or alerted. *)
Definition covered (es : list Event) (w : W) : Prop :=
  forall e, e ∈ es -> e ∈ unsent w \/ alerted (alerts w) e.

Lemma dispatch_covered es e w :
  NoDup (Event_Uid <$> es) -> e ∈ es -> covered es w -> (forall e, e ∈ unsent w -> e ∈ es) ->
  exists w', run h (dispatch (Some e)) w = (Done tt, w') /\
    covered es w' /\ (forall e, e ∈ unsent w' -> e ∈ es).
Proof.
  intros Hnd Hin Hcov Hsub. unfold dispatch.
  destruct (alertable (Some e)) eqn:Hal; [|by exists w]. rewrite SendAlert_unfold.
  assert (forall w1, covered es w1 -> (forall e, e ∈ unsent w1 -> e ∈ es) ->
    alerted (alerts w1) e ->
    exists w', run h (call (AStore (UpdateAlertSent (Event_Uid e)));;; Ret tt) w1 = (Done tt, w') /\
      covered es w' /\ (forall e, e ∈ unsent w' -> e ∈ es)) as Hupd.
  { intros w1 Hcov1 Hsub1 Hale. cbn.
    destruct (h _ (AStore (UpdateAlertSent (Event_Uid e))) w1) as [err w2] eqn:Hu. cbn.
    apply update_sent in Hu as (Ha2&Hsub2&Hrest&_). exists w2. split; [done|]. unfold covered. rewrite Ha2.
    split; [|by eauto].
    intros e' He'. destruct (decide (Event_Uid e' = Event_Uid e)) as [Huid|Hne].
    - right. assert (e' = e) as ->; [|done].
      apply list_elem_of_lookup in He' as [i Hi], Hin as [j Hj].
      assert (i = j) as ->; [|congruence].
      eapply NoDup_lookup; [done|..]; rewrite list_lookup_fmap, ?Hi, ?Hj; cbn; by rewrite ?Huid.
    - destruct (Hcov1 e' He') as [?|?]; [left; by apply Hrest|by right]. }
  destruct (alert_target (Some e)) as [t|] eqn:Ht.
  - cbn. destruct (h _ (PostAlerts (alert_labels (Some e) t)) w) as [err w1] eqn:Hp.
    apply post_alert in Hp as [Hu1 Ha1].
    assert (alerts w ⊆ alerts w1) as Hmono.
    { destruct Ha1 as [->|[_ ->]]; [|done]. intros x Hx. apply elem_of_app. by left. }
    assert (covered es w1) as Hcov1.
    { intros e' He'. destruct (Hcov e' He') as [?|?]; [left; by rewrite Hu1|right].
      by eapply alerted_mono. }
    assert (forall e, e ∈ unsent w1 -> e ∈ es) as Hsub1 by (rewrite Hu1; done).
    destruct err as [err|]; cbn; [by exists w1|]. apply Hupd; [done|done|].
    split; [done|]. intros t'. rewrite Ht. intros [= <-].
    destruct Ha1 as [->|[? _]]; [|done]. apply elem_of_app. right. by left.
  - cbn. apply Hupd; [done|done|]. split; [done|]. intros t'. by rewrite Ht.
Qed.

(** No alert is lost: the rounds never fail, and whatever the store and
    the Alertmanager answer, an event leaves the unsent ones only when it is a
    violation or a Falco alert and the alert for its pod target, if it has
    one, has been posted. *)
Lemma LoopSendAlerts_loses_nothing rounds w :
  NoDup (Event_Uid <$> unsent w) ->
  exists w', run h (LoopSendAlerts rounds) w = (Done tt, w') /\
    (forall e, e ∈ unsent w' -> e ∈ unsent w) /\
    forall e, e ∈ unsent w -> e ∈ unsent w' \/ alerted (alerts w') e.
Proof.
  intros Hnd.
  assert (forall w1, covered (unsent w) w1 -> (forall e, e ∈ unsent w1 -> e ∈ unsent w) ->
    exists w', run h (LoopSendAlerts rounds) w1 = (Done tt, w') /\
      covered (unsent w) w' /\ (forall e, e ∈ unsent w' -> e ∈ unsent w)) as H.
  { induction rounds as [|rounds IH]; intros w1 Hcov Hsub; [by exists w1|].
    cbn [LoopSendAlerts]. rewrite run_bind. unfold LoopSendAlerts_round. cbn [bind call run].
    destruct (h _ (AStore FindWhereAlertNotSent) w1) as [[l err] w2] eqn:Hf.
    apply find_unsent in Hf as (_&Hl&Hu2&Ha2).
    destruct (run_for_each h (fun _ s => covered (unsent w) s /\
        (forall e, e ∈ unsent s -> e ∈ unsent w)) (elems l) tt w2 (fun event _ => dispatch event))
      as ([]&w3&->&Hcov3&Hsub3).
    - split; unfold covered in *; rewrite Hu2, ?Ha2; done.
    - intros e [] s He [Hcov' Hsub']. destruct (Hl e He) as (e'&->&He').
      destruct (dispatch_covered (unsent w) e' s) as (s'&Hr&?&?); auto.
      exists tt, s'. auto.
    - by apply IH. }
  destruct (H w) as (w'&Hr&Hcov&Hsub); [by left|done|]. by exists w'.
Qed.
End rounds.

(** * A concrete store and Alertmanager *)

(** The Alertmanager refuses every second alert. *)
Definition alert_env : handler AlertE (list Event * list (gmap string string) * bool) :=
  fun X e w =>
  match e in AlertE X return X * (list Event * list (gmap string string) * bool) with
  | AStore e =>
      match e in EventStoreE X return X * (list Event * list (gmap string string) * bool) with
      | EventGetAll _ => ((Some (Some <$> w.1.1), None), w)
      | EventFindByNamespace _ _ => ((None, None), w)
      | FindWhereAlertNotSent => ((Some (Some <$> w.1.1), None), w)
      | EventAdd e => (None, (w.1.1 ++ [e], w.1.2, w.2))
      | UpdateAlertSent uid => (None, (filter (fun e => Event_Uid e <> uid) w.1.1, w.1.2, w.2))
      end
  | PostAlerts labels =>
      if w.2 then (None, (w.1.1, w.1.2 ++ [labels], false))
      else (Some (PlainError "connection refused"), (w.1.1, w.1.2, true))
  end.

#[export] Instance alert_env_laws : AlertLaws alert_env (fun w => w.1.1) (fun w => w.1.2).
Proof.
  split.
  - intros l err w w' [= <- <- <-]. split_and!; try done.
    intros e (e'&->&He)%list_elem_of_fmap. by exists e'.
  - intros uid err w w' [= <- <-]. split; [done|]. cbn. split_and!.
    + by intros e [_ ?]%list_elem_of_filter.
    + intros e He Hne. by apply list_elem_of_filter.
    + intros _ _. apply Forall_forall. by intros e [? _]%list_elem_of_filter.
  - intros labels err [[es al] []] w' [= <- <-]; (split; [done|]); [by left|by right].
Qed.

Definition ex_violation (uid : string) : Event :=
  mkEvent KindEvent EventTypeViolation uid None None None
    (Some [Some (mkTarget (Some (mkPod "u" "default" "web" None))
                   (Some [Some (mkProcess 7 "sh")]) None None "" "")]).

Lemma LoopSendAlerts_loses_nothing_witness :
  exists w', run alert_env (LoopSendAlerts 2) ([ex_violation "1"; ex_violation "2"], [], true)
      = (Done tt, w') /\
    (forall e, e ∈ w'.1.1 -> e ∈ [ex_violation "1"; ex_violation "2"]) /\
    forall e, e ∈ [ex_violation "1"; ex_violation "2"] -> e ∈ w'.1.1 \/ alerted w'.1.2 e.
Proof.
  apply (LoopSendAlerts_loses_nothing alert_env (fun w => w.1.1) (fun w => w.1.2) 2
    ([ex_violation "1"; ex_violation "2"], [], true)).
  apply (bool_decide_unpack _). by vm_compute.
Defined.

(** The refused alert is sent in the next round. *)
Example ex_second_round :
  (run alert_env (LoopSendAlerts 1) ([ex_violation "1"; ex_violation "2"], [], true)).2.1.1
    = [ex_violation "2"] /\
  (run alert_env (LoopSendAlerts 2) ([ex_violation "1"; ex_violation "2"], [], true)).2.1.1 = [].
Proof. by vm_compute. Qed.
