(* ===== verification/Pipeline.v ===== *)
(** The path of an event through tarian-server, all goroutines together: the
    requests and the workers of [Events] and the dispatcher of [Alerts] share
    the event store and run interleaved, the dispatcher one call at a time.
    The theorems: an accepted event is in a queue, was refused by the store,
    or can be seen - unsent in the store or posted to the Alertmanager -
    whatever the order of the steps and whatever fails; and the server can
    always go on until every accepted violation is posted.

    The contract of the store leaves room for one that rewrites what events
    share, as the one on Dgraph does with pods. *)

From S2P Require Import Prelude Guards GoStrings Types Queue Events Json GoTime Alerts.

(** * The server *)

(** The calls of the workers and of the dispatcher. *)
Inductive PipelineE : Type -> Type :=
| PWorker {X} (e : IngestE X) : PipelineE X
| PDispatcher {X} (e : AlertE X) : PipelineE X.

(** The surroundings, with the events the store took and those it refused. *)
Record world (W : Type) := mkWorld {
  world_env : W;
  world_stored : list Event;
  world_dropped : list Event;
}.
Arguments mkWorld {W} _ _ _.
Arguments world_env {W} _.
Arguments world_stored {W} _.
Arguments world_dropped {W} _.

(** Requests, queues and workers; what the dispatcher has asked so far, and
    what it has yet to do in its round. *)
Record pipeline (W : Type) := mkPipeline {
  pipeline_ingestion : ingestion (world W);
  pipeline_past : list (answered AlertE);
  pipeline_round : prog AlertE unit;
}.
Arguments mkPipeline {W} _ _ _.
Arguments pipeline_ingestion {W} _.
Arguments pipeline_past {W} _.
Arguments pipeline_round {W} _.

Section server.
Context {W : Type} (h : handler PipelineE W).

Definition record_add {X} (e : IngestE X) : X -> W -> list Event -> list Event -> world W :=
  match e in IngestE X return X -> W -> list Event -> list Event -> world W with
  | IStore e =>
      match e in EventStoreE X return X -> W -> list Event -> list Event -> world W with
      | EventAdd event => fun err w stored dropped =>
          match err with
          | None => mkWorld w (stored ++ [event]) dropped
          | Some _ => mkWorld w stored (dropped ++ [event])
          end
      | _ => fun _ => mkWorld
      end
  | _ => fun _ => mkWorld
  end.

Definition worker_side : handler IngestE (world W) := fun X e w =>
  let '(x, w') := h X (PWorker e) (world_env w) in
  (x, record_add e x w' (world_stored w) (world_dropped w)).

Definition dispatcher_side : handler AlertE W := fun X e w => h X (PDispatcher e) w.

Definition pipeline_world (s : pipeline W) : world W := ingestion_env (pipeline_ingestion s).

Definition set_env (w : W) (i : ingestion (world W)) : ingestion (world W) :=
  mkIngestion (ingestion_general i) (ingestion_detection i)
    (mkWorld w (world_stored (ingestion_env i)) (world_dropped (ingestion_env i)))
    (ingestion_accepted i) (ingestion_added i).

(** One step of one goroutine: a request or a worker; a call of the
    dispatcher; or its next round, after the pause. *)
Inductive pipeline_step : pipeline W -> pipeline W -> Prop :=
| step_ingestion i i' past p :
    ingestion_step worker_side i i' -> pipeline_step (mkPipeline i past p) (mkPipeline i' past p)
| step_dispatch i past X (e : AlertE X) k x w' :
    dispatcher_side X e (world_env (ingestion_env i)) = (x, w') ->
    pipeline_step (mkPipeline i past (Vis e k)) (mkPipeline (set_env w' i) (past ++ [got e x]) (k x))
| step_round i past :
    pipeline_step (mkPipeline i past (Ret tt)) (mkPipeline i past LoopSendAlerts_round).

Definition boot (w : W) : pipeline W := mkPipeline (Events.start (mkWorld w [] [])) [] LoopSendAlerts_round.
End server.

(** * What the server relies on *)

(** Two targets with the same report, and the same pod if the first has one. *)
Definition same_report (t t' : ptr Target) : Prop :=
  (is_Some (Target_GetPod t) -> is_Some (Target_GetPod t') /\
     Pod_GetUid (Target_GetPod t') = Pod_GetUid (Target_GetPod t)) /\
  elems (Target_GetViolatedProcesses t') = elems (Target_GetViolatedProcesses t) /\
  elems (Target_GetViolatedFiles t') = elems (Target_GetViolatedFiles t).

(** How the surroundings look.  [unsent] lists the events without an alert as
    the store shows them now, [alerts] is what the Alertmanager has, [issued]
    the uids given out.  The promises of the store are about [fine] events;
    those of them that are [okay] are shown as unsent.  [kept e x]: the store
    shows the event [e] as [x], with the targets in an order of its own; an
    addition may show other events anew ([renewed]). *)
Record view (W : Type) := mkView {
  unsent : W -> list Event;
  alerts : W -> list (gmap string string);
  issued : W -> list string;
  fine : Event -> Prop;
  okay : Event -> Prop;
  good_uid : string -> Prop;
  kept : Event -> Event -> Prop;
  renewed : Event -> Event -> Prop;
}.
Arguments unsent {W} _ _.
Arguments alerts {W} _ _.
Arguments issued {W} _ _.
Arguments fine {W} _ _.
Arguments okay {W} _ _.
Arguments good_uid {W} _ _.
Arguments kept {W} _ _ _.
Arguments renewed {W} _ _ _.

Class PipelineLaws {W} (h : handler PipelineE W) (V : view W) : Prop := {
  pl_alerts :: AlertLaws (dispatcher_side h) (unsent V) (alerts V);
  pl_dispatcher_issued X (e : AlertE X) w x w' : dispatcher_side h X e w = (x, w') -> issued V w' = issued V w;
  pl_now t w w' : h _ (PWorker INow) w = (t, w') ->
    unsent V w' = unsent V w /\ alerts V w' = alerts V w /\ issued V w' = issued V w;
  pl_uuid u w w' : h _ (PWorker INewUUID) w = (u, w') ->
    unsent V w' = unsent V w /\ alerts V w' = alerts V w /\
    (u ∉ issued V w) /\ good_uid V u /\ (forall v, v ∈ issued V w' <-> v = u \/ v ∈ issued V w);
  pl_add e err w w' : fine V e -> good_uid V (Event_Uid e) ->
    h _ (PWorker (IStore (EventAdd e))) w = (err, w') ->
    alerts V w' = alerts V w /\ issued V w' = issued V w /\
    (forall x, x ∈ unsent V w -> exists x', x' ∈ unsent V w' /\ renewed V x x') /\
    (forall x', x' ∈ unsent V w' -> (exists x, x ∈ unsent V w /\ renewed V x x') \/
       (Event_Uid x' = Event_Uid e /\ (okay V e -> kept V e x'))) /\
    (err = None -> okay V e -> exists x', x' ∈ unsent V w' /\ kept V e x');
  pl_fine e e' : unstamp e' = unstamp e -> fine V e -> fine V e';
  pl_okay e e' : unstamp e' = unstamp e -> okay V e -> okay V e';
  pl_renewed_uid x x' : renewed V x x' -> Event_Uid x' = Event_Uid x;
  pl_kept_uid e x : kept V e x -> Event_Uid x = Event_Uid e;
  pl_kept_renewed e x x' : kept V e x -> renewed V x x' -> kept V e x';
  pl_kept_type e x : kept V e x -> Event_Type x = Event_Type e;
  pl_kept_target e x : kept V e x -> is_Some (alert_target (Some e)) -> exists t t',
    t ∈ elems (Event_Targets e) /\ alert_target (Some x) = Some t' /\ same_report t t';
}.

(** * The dispatcher, whatever it is answered *)

(** The events an answer lists, and the alerts it confirms. *)
Definition answer_events (v : answered AlertE) : list Event :=
  let '(existT _ (e, x)) := v in
  match e in AlertE X return X -> list Event with
  | AStore e =>
      match e in EventStoreE X return X -> list Event with
      | FindWhereAlertNotSent => fun r => omap id (elems r.1)
      | _ => fun _ => []
      end
  | PostAlerts _ => fun _ => []
  end x.

Definition answer_alerts (v : answered AlertE) : list (gmap string string) :=
  let '(existT _ (e, x)) := v in
  match e in AlertE X return X -> list (gmap string string) with
  | AStore _ => fun _ => []
  | PostAlerts labels => fun err => match err with None => [labels] | Some _ => [] end
  end x.

Definition listed_in (past : list (answered AlertE)) : list Event := past ≫= answer_events.
Definition confirmed_in (past : list (answered AlertE)) : list (gmap string string) := past ≫= answer_alerts.

Lemma listed_mono past past' : past ⊆ past' -> listed_in past ⊆ listed_in past'.
Proof. intros Hs x (v&Hx&Hv)%list_elem_of_bind. apply list_elem_of_bind. eauto. Qed.

Lemma confirmed_mono past past' : past ⊆ past' -> confirmed_in past ⊆ confirmed_in past'.
Proof. intros Hs x (v&Hx&Hv)%list_elem_of_bind. apply list_elem_of_bind. eauto. Qed.

Lemma listed_snoc past v : listed_in (past ++ [v]) = listed_in past ++ answer_events v.
Proof. unfold listed_in. by rewrite bind_app, bind_singleton. Qed.

Lemma confirmed_snoc past v : confirmed_in (past ++ [v]) = confirmed_in past ++ answer_alerts v.
Proof. unfold confirmed_in. by rewrite bind_app, bind_singleton. Qed.

(** It marks an event only when it has listed it and, if a target of it has a
    pod, posted its alert. *)
Definition careful (past : list (answered AlertE)) X (e : AlertE X) : Prop :=
  match e with
  | AStore (UpdateAlertSent uid) => exists x,
      x ∈ listed_in past /\ Event_Uid x = uid /\ alerted (confirmed_in past) x
  | AStore FindWhereAlertNotSent | PostAlerts _ => True
  | AStore _ => False
  end.

Lemma guarded_for_each {E A T} (P : list (answered E) -> forall X, E X -> Prop) past (l : list T) (a : A) body :
  (forall past' t a, past ⊆ past' -> t ∈ l -> guarded P (fun past'' _ => past' ⊆ past'') past' (body t a)) ->
  guarded P (fun past' _ => past ⊆ past') past (for_each l a body).
Proof.
  revert past a. induction l as [|t l IH]; intros past a Hb; [cbn; reflexivity|]. cbn [for_each]. apply guarded_bind.
  eapply guarded_mono; [|apply Hb; [reflexivity|left]]. intros past1 a1 _ Hs.
  eapply guarded_mono; [|apply IH]; [intros past2 a2 _ Hs2; cbn in *; by etrans|].
  intros past2 t' a2 Hs2 Hin. apply Hb; [cbn in *; by etrans|by right].
Qed.

Lemma dispatch_guarded past x :
  x ∈ listed_in past -> guarded careful (fun past' _ => past ⊆ past') past (dispatch (Some x)).
Proof.
  intros Hin. unfold dispatch. destruct (alertable (Some x)) eqn:Hal; [|cbn; reflexivity].
  rewrite SendAlert_unfold. destruct (alert_target (Some x)) as [t|] eqn:Ht; cbn -[alerted].
  - split; [done|]. intros [er|]; cbn -[alerted]; [set_solver|]. split; [|set_solver].
    exists x. split; [eapply listed_mono; [|done]; set_solver|]. split; [done|]. split; [done|].
    rewrite Ht. intros t' [= <-]. rewrite confirmed_snoc. apply elem_of_app. right. by left.
  - split; [|set_solver]. exists x. split; [done|]. split; [done|]. split; [done|]. by rewrite Ht.
Qed.

Lemma round_guarded past : guarded careful (fun past' _ => past ⊆ past') past LoopSendAlerts_round.
Proof.
  split; [done|]. intros [l err]. cbn [bind].
  assert (past ⊆ past ++ [got (AStore FindWhereAlertNotSent) (l, err)]) as Hp by set_solver.
  eapply guarded_mono; [|apply guarded_for_each]; [intros past' [] _ Hs; cbn in *; by etrans|].
  intros past1 [x|] [] Hs Hin; [|cbn; reflexivity]. apply dispatch_guarded. apply (listed_mono _ _ Hs).
  rewrite listed_snoc. apply elem_of_app. right. apply list_elem_of_omap. by exists (Some x).
Qed.

Lemma round_careful past : guarded careful (fun _ _ => True) past LoopSendAlerts_round.
Proof. by eapply guarded_mono; [|apply round_guarded]. Qed.

Lemma dispatch_ends x : ensures (fun o => match o with Done _ => True | Crashed _ => False end) (dispatch x).
Proof.
  unfold dispatch. destruct (alertable x); [|done]. rewrite SendAlert_unfold.
  destruct (alert_target x) as [t|]; [|by split]. split; [done|]. intros [er|] _; [done|]. by split.
Qed.

Lemma round_ends : ensures (fun o => match o with Done _ => True | Crashed _ => False end) LoopSendAlerts_round.
Proof.
  split; [done|]. intros [l err] _. cbn [bind].
  apply (sat_for_each _ _ (fun _ => True) (fun _ => False)); [done|]. intros x [] _ _. apply dispatch_ends.
Qed.

(** * What every step keeps *)

Section facts.
Context {W : Type} (h : handler PipelineE W) (V : view W) `{PL : !PipelineLaws h V}.

(** The store shows [x] for no event that [x] does not keep. *)
Definition true_to (w : world W) (x : Event) : Prop :=
  Event_Uid x ∈ issued V (world_env w) /\
  forall e, e ∈ world_stored w -> okay V e -> Event_Uid e = Event_Uid x -> kept V e x.

(** The event can be seen: without an alert in the store, or as an alert. *)
Definition visible (w : world W) (e : Event) : Prop :=
  exists x, kept V e x /\ (x ∈ unsent V (world_env w) \/ alerted (alerts V (world_env w)) x).

Record sound (w : world W) (past : list (answered AlertE)) : Prop := {
  sound_stored e : e ∈ world_stored w -> Event_Uid e ∈ issued V (world_env w);
  sound_unsent x : x ∈ unsent V (world_env w) -> true_to w x;
  sound_listed x : x ∈ listed_in past -> true_to w x;
  sound_posted labels : labels ∈ confirmed_in past -> labels ∈ alerts V (world_env w);
  sound_visible e : e ∈ world_stored w -> okay V e -> visible w e;
}.

(** ** The dispatcher *)

Lemma true_to_env w w' x :
  issued V w' = issued V (world_env w) -> true_to w x -> true_to (mkWorld w' (world_stored w) (world_dropped w)) x.
Proof. intros Hi [? ?]. split; cbn; [by rewrite Hi|done]. Qed.

Lemma sound_env w w' past past' :
  issued V w' = issued V (world_env w) ->
  (forall x, x ∈ unsent V w' -> x ∈ unsent V (world_env w)) ->
  (forall x, x ∈ listed_in past' -> x ∈ listed_in past \/ x ∈ unsent V (world_env w)) ->
  (forall labels, labels ∈ confirmed_in past' -> labels ∈ confirmed_in past \/ labels ∈ alerts V w') ->
  alerts V (world_env w) ⊆ alerts V w' ->
  (forall e x, e ∈ world_stored w -> okay V e -> kept V e x -> x ∈ unsent V (world_env w) ->
     exists x', kept V e x' /\ (x' ∈ unsent V w' \/ alerted (alerts V w') x')) ->
  sound w past -> sound (mkWorld w' (world_stored w) (world_dropped w)) past'.
Proof.
  intros Hi Hu Hl Hc Ha Hv [S1 S2 S3 S4 S5]. split; cbn.
  - intros e He. rewrite Hi. by apply S1.
  - intros x Hx. by apply true_to_env, S2, Hu.
  - intros x [Hx|Hx]%Hl; (apply true_to_env; [done|]); [by apply S3|by apply S2].
  - intros labels [Hx|Hx]%Hc; [by apply Ha, S4|done].
  - intros e He Hok. destruct (S5 e He Hok) as (x&Hk&[Hx|Hx]); [by eapply Hv|].
    exists x. split; [done|]. right. by eapply alerted_mono.
Qed.

Lemma sound_dispatch w past X (e : AlertE X) x w' :
  careful past X e -> dispatcher_side h X e (world_env w) = (x, w') -> sound w past ->
  sound (mkWorld w' (world_stored w) (world_dropped w)) (past ++ [got e x]).
Proof using PL.
  intros Hc Hh Hs. pose proof (pl_dispatcher_issued X e _ _ _ Hh) as Hi.
  assert (listed_in past ⊆ listed_in (past ++ [got e x])) as Hlp by (apply listed_mono; set_solver).
  destruct e as [X e|labels]; [destruct e as [?|? ?| |?|uid]; try done|].
  - destruct x as [l err]. apply find_unsent in Hh as (_&Hl&Hu&Ha).
    apply (sound_env w w' past); [done|by rewrite Hu| | |by rewrite Ha| |done].
    + intros x. rewrite listed_snoc. intros [Hx|Hx]%elem_of_app; [by left|right].
      cbn in Hx. apply list_elem_of_omap in Hx as (o&Ho&Hox). destruct (Hl o Ho) as (y&->&Hy). cbn in Hox. by simplify_eq.
    + intros labels. rewrite confirmed_snoc, app_nil_r. by left.
    + intros e x He Hok Hk Hx. exists x. split; [done|]. left. by rewrite Hu.
  - destruct Hc as (y&Hy&<-&Hya). apply update_sent in Hh as (Ha&Hsub&Hrest&_).
    apply (sound_env w w' past); [done|done| | |by rewrite Ha| |done].
    + intros x'. rewrite listed_snoc, app_nil_r. by left.
    + intros labels. rewrite confirmed_snoc, app_nil_r. by left.
    + intros e x' He Hok Hk Hx. destruct (decide (Event_Uid x' = Event_Uid y)) as [Heq|Hne].
      * exists y. split; [|right].
        -- apply (sound_listed _ _ Hs y Hy); [done|done|]. by rewrite <- Heq, (pl_kept_uid e x').
        -- eapply alerted_mono; [|exact Hya]. rewrite Ha. intros labels. apply (sound_posted _ _ Hs).
      * exists x'. split; [done|]. left. by apply Hrest.
  - apply post_alert in Hh as [Hu Ha].
    assert (alerts V (world_env w) ⊆ alerts V w') as Hmono by (destruct Ha as [->|[_ ->]]; set_solver).
    apply (sound_env w w' past); [done|by rewrite Hu| | |done| |done].
    + intros x'. rewrite listed_snoc, app_nil_r. by left.
    + intros l. rewrite confirmed_snoc. intros [Hl|Hl]%elem_of_app; [by left|right].
      destruct x as [err|]; [by apply elem_of_nil in Hl|]. apply list_elem_of_singleton in Hl as ->.
      destruct Ha as [->|[? _]]; [|done]. set_solver.
    + intros e x' He Hok Hk Hx. exists x'. split; [done|]. left. by rewrite Hu.
Qed.

(** ** The workers *)

Lemma run_processEvent e w : fine V e -> exists now u w1 err w3,
  run (worker_side h) (processEvent e) w =
    (Done tt, record_add (IStore (EventAdd (stamp now u e))) err w3 (world_stored w) (world_dropped w)) /\
  adds (trace (worker_side h) (processEvent e) w) = [stamp now u e] /\
  h _ (PWorker (IStore (EventAdd (stamp now u e)))) w1 = (err, w3) /\ fine V (stamp now u e) /\
  unsent V w1 = unsent V (world_env w) /\ alerts V w1 = alerts V (world_env w) /\
  (u ∉ issued V (world_env w)) /\ good_uid V u /\
  (forall v, v ∈ issued V w3 <-> v = u \/ v ∈ issued V (world_env w)).
Proof using PL.
  intros Hfine. destruct w as [w stored dropped]. cbn [world_env world_stored world_dropped].
  destruct (h _ (PWorker INow) w) as [now w1] eqn:H1.
  destruct (h _ (PWorker INewUUID) w1) as [u w2] eqn:H2.
  destruct (h _ (PWorker (IStore (EventAdd (stamp now u e)))) w2) as [err w3] eqn:H3.
  exists now, u, w2, err, w3. split.
  { unfold processEvent. cbn [bind call run]. unfold worker_side. cbn [world_env world_stored world_dropped].
    rewrite H1. cbn [record_add world_env world_stored world_dropped]. rewrite H2.
    cbn [record_add world_env world_stored world_dropped]. by rewrite H3. }
  split.
  { unfold processEvent. cbn [bind call trace]. unfold worker_side. cbn [world_env world_stored world_dropped].
    rewrite H1. cbn [record_add world_env world_stored world_dropped]. rewrite H2.
    cbn [record_add world_env world_stored world_dropped]. by rewrite H3. }
  assert (fine V (stamp now u e)) as Hfine' by by apply (pl_fine e).
  split; [done|]. split; [done|].
  destruct (pl_now _ _ _ H1) as (Hu1&Ha1&Hi1). destruct (pl_uuid _ _ _ H2) as (Hu2&Ha2&Hf&Hok&Hi2).
  destruct (pl_add _ _ _ _ Hfine' Hok H3) as (_&Hi3&_). cbn in *.
  rewrite Hi1 in Hf, Hi2. rewrite Hi3. split_and!; [congruence|congruence|done..].
Qed.

(** What becomes of the event: stored or refused. *)
Lemma sound_process e w past :
  fine V e -> sound w past -> sound (run (worker_side h) (processEvent e) w).2 past.
Proof using PL.
  intros Hfine [S1 S2 S3 S4 S5].
  destruct (run_processEvent e w Hfine) as (now&u&w1&err&w3&->&_&Hadd&Hfine'&Hu&Ha&Hfresh&Huid&Hiss).
  set (e' := stamp now u e) in *. cbn [snd].
  destruct (pl_add _ _ _ _ Hfine' Huid Hadd) as (Ha3&_&Hkeep&Hfrom&Hin). rewrite Hu in *. rewrite Ha in *. clear Hadd.
  assert (forall st dr x, true_to w x -> (st = world_stored w \/ st = world_stored w ++ [e']) ->
    true_to (mkWorld w3 st dr) x) as Htrue.
  { intros st dr x [Hx Hk] Hst. split; cbn; [apply Hiss; by right|]. intros e0 He0 Hok Heq.
    assert (e0 ∈ world_stored w \/ e0 = e') as [? | ->] by (destruct Hst as [-> | ->]; set_solver); [by apply Hk|].
    destruct Hfresh. cbn in Heq. by rewrite Heq. }
  assert (forall st dr x, x ∈ unsent V w3 -> (st = world_stored w \/ st = world_stored w ++ [e']) ->
    true_to (mkWorld w3 st dr) x) as Hnew.
  { intros st dr x Hx Hst. destruct (Hfrom x Hx) as [(x0&Hx0&Hr)|Hown].
    - destruct (Htrue st dr x0 (S2 x0 Hx0) Hst) as [H1 H2]. split; [by rewrite (pl_renewed_uid _ _ Hr)|].
      intros e0 He0 Hok Heq. eapply pl_kept_renewed; [|done]. apply H2; [done|done|].
      by rewrite <- (pl_renewed_uid _ _ Hr).
    - destruct Hown as [Hux Hkx]. split; cbn; [apply Hiss; left; by rewrite Hux|]. intros e0 He0 Hok Heq.
      assert (e0 ∈ world_stored w \/ e0 = e') as [He | ->] by (destruct Hst as [-> | ->]; set_solver); [|by apply Hkx].
      destruct Hfresh. change u with (Event_Uid e'). rewrite <- Hux, <- Heq. by apply S1. }
  assert (forall e0, e0 ∈ world_stored w -> okay V e0 ->
    exists x, kept V e0 x /\ (x ∈ unsent V w3 \/ alerted (alerts V w3) x)) as Hvis.
  { intros e0 He0 Hok. destruct (S5 e0 He0 Hok) as (x&Hk&[Hx|Hx]).
    - destruct (Hkeep x Hx) as (x'&Hx'&Hr). exists x'. split; [by eapply pl_kept_renewed|by left].
    - exists x. split; [done|right]. by rewrite Ha3. }
  destruct err as [err|]; cbn; split; cbn; rewrite ?Ha3; auto.
  - intros e0 He0. apply Hiss. right. by apply S1.
  - intros e0 [He0 | ->%list_elem_of_singleton]%elem_of_app; apply Hiss; [right; by apply S1|by left].
  - intros e0 [He0 | ->%list_elem_of_singleton]%elem_of_app Hok; [by apply Hvis|].
    destruct Hin as (x&Hx&Hk); [done|done|]. exists x. split; [done|by left].
Qed.

(** ** Every step *)

Record kept_by_steps (s : pipeline W) : Prop := {
  ks_sound : sound (pipeline_world s) (pipeline_past s);
  ks_careful : guarded careful (fun past _ => True) (pipeline_past s) (pipeline_round s);
  ks_ends : ensures (fun o => match o with Done _ => True | Crashed _ => False end) (pipeline_round s);
  ks_added : ingestion_added (pipeline_ingestion s) ≡ₚ
    world_stored (pipeline_world s) ++ world_dropped (pipeline_world s);
  ks_fifo : fifo (pipeline_ingestion s);
}.

Lemma ingestion_step_env (i i' : ingestion (world W)) :
  ingestion_step (worker_side h) i i' ->
  (ingestion_env i' = ingestion_env i /\ ingestion_added i' = ingestion_added i) \/
  exists q e, e ∈ pending (get_consumer q i) /\
    ingestion_env i' = (run (worker_side h) (processEvent e) (ingestion_env i)).2 /\
    ingestion_added i' = ingestion_added i ++ adds (trace (worker_side h) (processEvent e) (ingestion_env i)).
Proof.
  intros [r a i1 i2 H|i1 i2 [q i3 i4 H|q i3 i4 H|q i3 i4 H]].
  - left. apply ingest_cases in H as [(_&->&_)|(e&q&_&_&_&_&->)]; [done|]. by destruct q.
  - left. unfold read_message in H. repeat case_match; simplify_eq. by destruct q.
  - left. unfold send_message in H. repeat case_match; simplify_eq. by destruct q.
  - right. unfold process_message in H. destruct (consumer_chan (get_consumer q i3)) as [|e chan'] eqn:Hc; [done|].
    simplify_eq. exists q, e. split; [unfold pending; rewrite Hc; left|]. by destruct q.
Qed.

Lemma step_accepts s s' :
  pipeline_step h s s' -> ingestion_accepted (pipeline_ingestion s) ⊆ ingestion_accepted (pipeline_ingestion s').
Proof using Type.
  clear PL V.
  intros [i i' past p [r a i1 i2 H|i1 i2 H]|i past X e k x w' Hh|i past]; cbn [pipeline_ingestion]; try done.
  - apply ingest_cases in H as [(_&->&_)|(e&q&_&_&_&_&->)]; [done|]. cbn. set_solver.
  - by apply worker_step_cases in H as (q&xs&_&->&_).
Qed.

Lemma steps_accept s s' :
  rtc (pipeline_step h) s s' -> ingestion_accepted (pipeline_ingestion s) ⊆ ingestion_accepted (pipeline_ingestion s').
Proof using Type. induction 1 as [s|s s1 s2 Hs _ IH]; [done|]. etrans; [by apply step_accepts|done]. Qed.

(** Everything accepted is [fine]; so is what is pending. *)
Definition all_fine (i : ingestion (world W)) : Prop := forall e, e ∈ ingestion_accepted i -> fine V e.

Lemma all_fine_before s s' :
  rtc (pipeline_step h) s s' -> all_fine (pipeline_ingestion s') -> all_fine (pipeline_ingestion s).
Proof using Type. intros Hr Hf e He. by apply Hf, (steps_accept s s' Hr). Qed.

Lemma pending_accepted (i : ingestion (world W)) q e :
  fifo i -> e ∈ pending (get_consumer q i) -> exists e0, e0 ∈ ingestion_accepted i /\ unstamp e = unstamp e0.
Proof using Type.
  intros Hf He. destruct (Hf q) as [_ Heq].
  assert (unstamp e ∈ unstamp <$> filter (of_class q) (ingestion_accepted i)) as Hin.
  { rewrite Heq. apply elem_of_app. right. by apply list_elem_of_fmap_2. }
  apply list_elem_of_fmap in Hin as (e0&Hu&[_ He0]%list_elem_of_filter). by exists e0.
Qed.

Lemma fine_pending i q e : all_fine i -> fifo i -> e ∈ pending (get_consumer q i) -> fine V e.
Proof using PL.
  intros Ha Hf He. destruct (pending_accepted i q e Hf He) as (e0&He0&Hu). by apply (pl_fine e0), Ha.
Qed.

Lemma fifo_set_env w (i : ingestion (world W)) : fifo i -> fifo (set_env w i).
Proof. intros Hf q. specialize (Hf q). by destruct q. Qed.

Lemma fifo_step (i i' : ingestion (world W)) : ingestion_step (worker_side h) i i' -> fifo i -> fifo i'.
Proof. intros [r a i1 i2 H|i1 i2 H]; [by eapply fifo_ingest|by eapply fifo_worker]. Qed.

Lemma step_kept s s' :
  pipeline_step h s s' -> all_fine (pipeline_ingestion s) -> kept_by_steps s -> kept_by_steps s'.
Proof using PL.
  intros [i i' past p Hs|i past X e k x w' Hh|i past] Hfine [K1 K2 K3 K4 K5]; unfold pipeline_world in *; cbn in *.
  - pose proof (fifo_step _ _ Hs K5) as Hf. apply ingestion_step_env in Hs as [[He Ha]|(q&e&Hin&He&Ha)].
    + split; unfold pipeline_world; cbn; rewrite ?He, ?Ha; done.
    + pose proof (fine_pending i q e Hfine K5 Hin) as Hfe. pose proof (sound_process e _ _ Hfe K1) as Hp.
      destruct (run_processEvent e (ingestion_env i) Hfe) as (now&u&w1&err&w3&Hr&Hadds&_).
      split; unfold pipeline_world; cbn; rewrite ?He, ?Ha; [done..| |done].
      rewrite Hadds, Hr, K4. destruct err; cbn; [by rewrite app_assoc|].
      rewrite <- !app_assoc. f_equiv. apply Permutation_app_comm.
  - destruct K2 as [Hc Hk]. split; unfold pipeline_world; cbn; [|apply Hk|by apply K3|done|by apply fifo_set_env].
    by eapply sound_dispatch.
  - split; unfold pipeline_world; cbn; try done; [exact (round_careful past)|apply round_ends].
Qed.

Lemma boot_kept w : (forall x, x ∈ unsent V w -> Event_Uid x ∈ issued V w) -> kept_by_steps (boot w).
Proof.
  intros Hw. split; unfold pipeline_world; cbn.
  - split; cbn; try (intros ? H; by apply elem_of_nil in H).
    intros x Hx. split; [by apply Hw|]. intros e He. by apply elem_of_nil in He.
  - exact (round_careful []).
  - apply round_ends.
  - done.
  - by intros [].
Qed.

Lemma steps_kept s s' :
  rtc (pipeline_step h) s s' -> all_fine (pipeline_ingestion s') -> kept_by_steps s -> kept_by_steps s'.
Proof using PL.
  induction 1 as [s|s s1 s2 Hs Hr IH]; [done|]. intros Hf Hk. apply IH; [done|]. eapply step_kept; [done| |done].
  eapply all_fine_before; [exact (rtc_l _ _ _ _ Hs Hr)|exact Hf].
Qed.

(** ** What is accepted *)

(** An accepted event, as the worker stamped it or will. *)
Lemma accepted_somewhere s e :
  kept_by_steps s -> e ∈ ingestion_accepted (pipeline_ingestion s) ->
  exists e', unstamp e' = unstamp e /\
    ((exists q, e' ∈ pending (get_consumer q (pipeline_ingestion s))) \/
     e' ∈ world_dropped (pipeline_world s) \/ e' ∈ world_stored (pipeline_world s)).
Proof.
  intros [_ _ _ Ha Hf] He. set (q := if decide (of_class GeneralQueue e) then GeneralQueue else DetectionQueue).
  assert (of_class q e) as Hq.
  { subst q. case_decide as Hd; [done|]. cbn in *. destruct (decide (Event_Type e = EventTypeDetection)); naive_solver. }
  destruct (Hf q) as [_ Heq].
  assert (unstamp e ∈ unstamp <$> filter (of_class q) (ingestion_accepted (pipeline_ingestion s))) as Hin.
  { apply list_elem_of_fmap_2, list_elem_of_filter. done. }
  rewrite Heq in Hin. apply elem_of_app in Hin as [Hin|Hin]; apply list_elem_of_fmap in Hin as (e'&Hu&Hin); exists e'.
  - split; [done|]. right. apply list_elem_of_filter in Hin as [_ Hin]. rewrite Ha in Hin.
    apply elem_of_app in Hin. tauto.
  - split; [done|]. left. by exists q.
Qed.

(** C10. An accepted event can always be seen.  Under every interleaving of
    requests, the four goroutines of the workers and the calls of the
    dispatcher, and whatever the store and the Alertmanager answer, an event
    whose request was answered with success is in one of the queues, or the
    store refused it - then it is gone -, or it is in the store without an
    alert, or its alert was posted; and the dispatcher does not panic.  All
    accepted events must be such as the store's promises are about. *)
Theorem accepted_events_stay_visible w s :
  (forall x, x ∈ unsent V w -> Event_Uid x ∈ issued V w) -> rtc (pipeline_step h) (boot w) s ->
  all_fine (pipeline_ingestion s) ->
  (forall e, e ∈ ingestion_accepted (pipeline_ingestion s) -> okay V e ->
     exists e', unstamp e' = unstamp e /\
       ((exists q, e' ∈ pending (get_consumer q (pipeline_ingestion s))) \/
        e' ∈ world_dropped (pipeline_world s) \/ visible (pipeline_world s) e')) /\
  forall c, pipeline_round s <> Crash c.
Proof using PL.
  intros Hw Hr Hfine. pose proof (steps_kept _ _ Hr Hfine (boot_kept w Hw)) as Hk. split.
  - intros e He Hok. destruct (accepted_somewhere s e Hk He) as (e'&Hu&Hc). exists e'. split; [done|].
    destruct Hc as [?|[?|Hst]]; [by left|by right; left|]. right. right.
    apply (sound_visible _ _ (ks_sound _ Hk)); [done|by eapply pl_okay].
  - intros c Hc. pose proof (ks_ends _ Hk) as He. by rewrite Hc in He.
Qed.

(** ** Getting everything posted *)

Lemma worker_kept i i' :
  ingestion_step (worker_side h) i i' -> all_fine i -> fifo i ->
  alerts V (world_env (ingestion_env i')) = alerts V (world_env (ingestion_env i)) /\
  world_stored (ingestion_env i) ⊆ world_stored (ingestion_env i').
Proof using PL.
  intros [[-> _]|(q&e&Hin&->&_)]%ingestion_step_env Hfine Hf; [done|].
  destruct (run_processEvent e (ingestion_env i)) as (now&u&w1&err&w3&->&_&Hadd&Hfine'&_&Ha&_&Huid&_);
    [by eapply fine_pending|]. apply pl_add in Hadd as (Ha3&_); [|done..]. destruct err; cbn; (split; [congruence|set_solver]).
Qed.

(** No call of the dispatcher takes an alert back. *)
Lemma dispatcher_kept X (e : AlertE X) w x w' :
  match e with AStore e => match e with FindWhereAlertNotSent | UpdateAlertSent _ => True | _ => False end
             | PostAlerts _ => True end ->
  dispatcher_side h X e w = (x, w') -> alerts V w ⊆ alerts V w'.
Proof using PL.
  destruct e as [X e|labels]; [destruct e as [?|? ?| |?|uid]; try done|]; intros _ Hh.
  - destruct x as [l err]. by apply find_unsent in Hh as (_&_&_&->).
  - by apply update_sent in Hh as (->&_).
  - apply post_alert in Hh as (_&[->|[_ ->]]); set_solver.
Qed.

Lemma careful_call past X (e : AlertE X) : careful past X e ->
  match e with AStore e => match e with FindWhereAlertNotSent | UpdateAlertSent _ => True | _ => False end
             | PostAlerts _ => True end.
Proof. by destruct e as [X e|]; [destruct e|]. Qed.
End facts.

(** A round that is about to list the events. *)
Definition about_to_list (p : prog AlertE unit) : Prop :=
  match p with
  | Vis e k =>
      match e in AlertE X return (X -> prog AlertE unit) -> Prop with
      | AStore e =>
          match e in EventStoreE X return (X -> prog AlertE unit) -> Prop with
          | FindWhereAlertNotSent => fun k =>
              forall r, k r = for_each (elems r.1) tt (fun event _ => dispatch event)
          | _ => fun _ => False
          end
      | PostAlerts _ => fun _ => False
      end k
  | _ => False
  end.

Lemma round_about_to_list : about_to_list LoopSendAlerts_round.
Proof. by intros []. Qed.

(** A round that posts the alert, if the Alertmanager takes every alert. *)
Fixpoint will_post (labels : gmap string string) (p : prog AlertE unit) : Prop :=
  match p with
  | Vis e k =>
      match e in AlertE X return (X -> Prop) -> Prop with
      | PostAlerts l => fun later => l = labels \/ later None
      | AStore e =>
          match e in EventStoreE X return (X -> Prop) -> Prop with
          | UpdateAlertSent _ => fun later => forall err, later err
          | _ => fun _ => False
          end
      end (fun x => will_post labels (k x))
  | _ => False
  end.

Lemma dispatch_will_post labels event t (rest : unit -> prog AlertE unit) :
  alertable event = true -> alert_target event = Some t -> labels = alert_labels event t ->
  will_post labels (bind (dispatch event) rest).
Proof. intros Ha Ht ->. unfold dispatch. rewrite Ha, SendAlert_unfold, Ht. by left. Qed.

Lemma dispatch_later labels event (rest : unit -> prog AlertE unit) :
  will_post labels (rest tt) -> will_post labels (bind (dispatch event) rest).
Proof.
  intros Hr. unfold dispatch. destruct (alertable event); [|done]. rewrite SendAlert_unfold.
  destruct (alert_target event); cbn; [by right|done].
Qed.

Lemma listed_will_post l x t :
  Some x ∈ l -> alertable (Some x) = true -> alert_target (Some x) = Some t ->
  will_post (alert_labels (Some x) t) (for_each l tt (fun event _ => dispatch event)).
Proof.
  intros Hin Ha Ht. induction l as [|o l IH]; [by apply elem_of_nil in Hin|]. cbn [for_each].
  apply elem_of_cons in Hin as [<-|Hin]; [by eapply dispatch_will_post|by apply dispatch_later, IH].
Qed.

Lemma alert_target_in e t :
  alert_target (Some e) = Some t -> t ∈ elems (Event_Targets e) /\ is_Some (Target_GetPod t).
Proof.
  intros [Hin Hp]%List.find_some. split; [by apply list_elem_of_In|]. by destruct (Target_GetPod t).
Qed.

Lemma alertable_type e e' : Event_Type e' = Event_Type e -> alertable (Some e') = alertable (Some e).
Proof. intros Ht. unfold alertable. cbn. by rewrite Ht. Qed.

Lemma unstamp_alertable e e' :
  unstamp e' = unstamp e -> alertable (Some e) = true -> alertable (Some e') = true.
Proof. intros Hu <-. apply alertable_type. by apply (f_equal Event_Type) in Hu. Qed.

(** The calls of a server whose surroundings do not fail. *)
Class Reliable {W} (h : handler PipelineE W) : Prop := {
  reliable_find l err w w' : h _ (PDispatcher (AStore FindWhereAlertNotSent)) w = ((l, err), w') -> err = None;
  reliable_post labels err w w' : h _ (PDispatcher (PostAlerts labels)) w = (err, w') -> err = None;
  reliable_add e err w w' : h _ (PWorker (IStore (EventAdd e))) w = (err, w') -> err = None;
}.

Section recovery.
Context {W : Type} (h : handler PipelineE W) (V : view W) `{PL : !PipelineLaws h V} `{RL : !Reliable h}.

Local Abbreviation kept_now := (kept_by_steps V).

(** The event is due to be listed, due to be posted, or posted. *)
Definition getting_there (e : Event) (s : pipeline W) : Prop :=
  e ∈ world_stored (pipeline_world s) /\
  (about_to_list (pipeline_round s) \/
   exists x, kept V e x /\ (alerted (alerts V (world_env (pipeline_world s))) x \/
     exists t, alert_target (Some x) = Some t /\ alertable (Some x) = true /\
       will_post (alert_labels (Some x) t) (pipeline_round s))).

Lemma getting_there_step e s s' :
  okay V e -> alertable (Some e) = true ->
  pipeline_step h s s' -> all_fine V (pipeline_ingestion s) -> kept_now s -> getting_there e s -> getting_there e s'.
Proof using PL RL.
  intros Hok Hal [i i' past p Hs|i past X c k a w' Hh|i past] Hf Hk [Hst Hg]; unfold pipeline_world in *;
    cbn -[alerted alertable alert_target] in *.
  - destruct (worker_kept h V _ _ Hs Hf (ks_fifo _ _ Hk)) as [Ha Hsub].
    split; [by apply Hsub|]. unfold pipeline_world. cbn. by rewrite Ha.
  - pose proof (ks_careful _ _ Hk) as Hc.
    cbn -[careful] in Hc. destruct Hc as [Hc _]. apply careful_call in Hc as Hd.
    assert (alerts V (world_env (ingestion_env i)) ⊆ alerts V w') as Hmono by (eapply dispatcher_kept; [exact PL|exact Hd|exact Hh]).
    split; [done|]. right. unfold pipeline_world. cbn.
    destruct Hg as [Hl|(x&Hx&[Hx'|(t&Ht&Hxa&Hp)])].
    + destruct (sound_visible _ _ _ (ks_sound _ _ Hk) e Hst Hok) as (x&Hkx&Hv).
      destruct c as [X c|]; [destruct c; try done|done]. destruct a as [l err].
      pose proof (reliable_find _ _ _ _ Hh) as ->. apply find_unsent in Hh as (Hel&_&_&_).
      exists x. split; [done|]. destruct Hv as [Hv|Hv]; [|left; by eapply alerted_mono].
      assert (alertable (Some x) = true) as Hxa by (by rewrite (alertable_type e x) by by eapply pl_kept_type).
      destruct (alert_target (Some x)) as [t|] eqn:Ht; [right|left; split; [done|by rewrite Ht]].
      exists t. split; [done|]. split; [done|]. rewrite Hl. apply listed_will_post; [|done..].
      rewrite Hel by done. by apply list_elem_of_fmap_2.
    + exists x. split; [done|]. left. by eapply alerted_mono.
    + exists x. split; [done|]. destruct c as [X c|labels]; [destruct c; try done|]; cbn in Hp.
      * right. exists t. eauto.
      * pose proof (reliable_post _ _ _ _ Hh) as ->. apply post_alert in Hh as (_&Ha).
        destruct Hp as [->|Hp]; [left|right; eauto]. split; [done|]. rewrite Ht. intros t' [= <-].
        destruct Ha as [->|[? _]]; [|done]. set_solver.
  - split; [done|]. destruct Hg as [Hg|(x&Hx&[Hx'|(t&Ht&Hxa&Hp)])]; try done. right. exists x. eauto.
Qed.

Lemma getting_there_steps e s s' :
  okay V e -> alertable (Some e) = true ->
  kept_now s -> rtc (pipeline_step h) s s' -> all_fine V (pipeline_ingestion s') ->
  getting_there e s -> getting_there e s'.
Proof using PL RL.
  intros Hok Hal Hk Hr. revert Hk. induction Hr as [s|s s1 s2 Hs Hr IH]; [done|]. intros Hk Hf Hg.
  assert (all_fine V (pipeline_ingestion s)) as Hf0
    by (eapply all_fine_before; [exact (rtc_l _ _ _ _ Hs Hr)|exact Hf]).
  apply IH; [by eapply step_kept|done|by eapply getting_there_step].
Qed.

(** The dispatcher alone finishes its round. *)
Lemma dispatcher_finishes i past p :
  ensures (fun o => match o with Done _ => True | Crashed _ => False end) p ->
  exists w' past', rtc (pipeline_step h) (mkPipeline i past p) (mkPipeline (set_env w' i) past' (Ret tt)).
Proof.
  revert i past. induction p as [[]|X e k IH|c]; intros i past Hp; [|destruct Hp as [_ Hp]|done].
  - exists (world_env (ingestion_env i)), past. by destruct i as [g d [w st dr] a b].
  - destruct (dispatcher_side h X e (world_env (ingestion_env i))) as [x w1] eqn:Hh.
    destruct (IH x (set_env w1 i) (past ++ [got e x])) as (w'&past'&Hr); [by apply Hp|].
    exists w', past'. eapply rtc_l; [by apply step_dispatch|exact Hr].
Qed.

(** The workers alone hand to the store what is pending, and it takes that. *)
Lemma workers_stored i i' :
  rtc (worker_step (worker_side h)) i i' -> all_fine V i -> fifo i -> exists new,
    ingestion_added i' = ingestion_added i ++ new /\
    world_stored (ingestion_env i') = world_stored (ingestion_env i) ++ new /\
    world_dropped (ingestion_env i') = world_dropped (ingestion_env i).
Proof using PL RL.
  induction 1 as [i|i i1 i2 Hs _ IH]; intros Hfine Hf; [exists []; by rewrite !app_nil_r|].
  destruct IH as (new&->&->&->); [|by eapply fifo_worker|].
  { apply worker_step_cases in Hs as (q&xs&_&Hacc&_). intros e. rewrite Hacc. apply Hfine. }
  apply step_worker, (ingestion_step_env h) in Hs as [[-> ->]|(q&e&Hin&->&->)]; [by exists new|].
  destruct (run_processEvent h V e (ingestion_env i)) as (now&u&w1&err&w3&->&->&Hadd&_);
    [by eapply fine_pending|].
  rewrite (reliable_add _ _ _ _ Hadd). exists (stamp now u e :: new). cbn. by rewrite <- !app_assoc.
Qed.

Lemma workers_finish i past p :
  all_fine V i -> fifo i ->
  exists i', rtc (pipeline_step h) (mkPipeline i past p) (mkPipeline i' past p) /\
    (forall q, pending (get_consumer q i') = []) /\ ingestion_accepted i' = ingestion_accepted i /\
    world_dropped (ingestion_env i') = world_dropped (ingestion_env i) /\
    forall q e, e ∈ pending (get_consumer q i) ->
      exists e', unstamp e' = unstamp e /\ e' ∈ world_stored (ingestion_env i').
Proof using PL RL.
  intros Hfine Hf. destruct (drain (worker_side h) i) as (i'&Hr&Hp). exists i'.
  destruct (worker_steps_accepted (worker_side h) i i' Hr Hf) as [Hf' Hacc].
  destruct (workers_stored i i' Hr Hfine Hf) as (new&Hadd&Hst&Hd). split_and!; [|done|done|done|].
  - clear -Hr. induction Hr as [i|i i1 i2 Hs _ IH]; [constructor|]. eapply rtc_l; [|exact IH]. by apply step_ingestion, step_worker.
  - intros q e He. destruct (Hf q) as [_ H1], (Hf' q) as [_ H2]. rewrite Hacc, Hp, app_nil_r, Hadd, H1, filter_app, fmap_app in H2.
    apply app_inv_head in H2. apply (list_elem_of_fmap_2 unstamp) in He. rewrite H2 in He.
    apply list_elem_of_fmap in He as (e'&Hu&He'). exists e'. split; [done|]. rewrite Hst.
    apply list_elem_of_filter in He' as [_ He']. apply elem_of_app. by right.
Qed.

(** Queues emptied, the round ended and a new one begun. *)
Lemma new_round s :
  all_fine V (pipeline_ingestion s) -> kept_now s -> exists s', rtc (pipeline_step h) s s' /\ pipeline_round s' = LoopSendAlerts_round /\
    (forall q, pending (get_consumer q (pipeline_ingestion s')) = []) /\
    ingestion_accepted (pipeline_ingestion s') = ingestion_accepted (pipeline_ingestion s) /\
    world_dropped (pipeline_world s') = world_dropped (pipeline_world s) /\
    forall q e, e ∈ pending (get_consumer q (pipeline_ingestion s)) ->
      exists e', unstamp e' = unstamp e /\ e' ∈ world_stored (pipeline_world s').
Proof using PL RL.
  destruct s as [i past p]. intros Hfine Hk.
  destruct (workers_finish i past p Hfine (ks_fifo _ _ Hk)) as (i'&Hr&Hp&Ha&Hd&Hn).
  destruct (dispatcher_finishes i' past p (ks_ends _ _ Hk)) as (w'&past'&Hr').
  exists (mkPipeline (set_env w' i') past' LoopSendAlerts_round). split_and!; try done.
  etrans; [exact Hr|]. etrans; [exact Hr'|]. apply rtc_once, step_round.
Qed.

(** Everything in the store when a round begins is posted when it ends. *)
Lemma round_alerts s s' e :
  kept_now s -> pipeline_round s = LoopSendAlerts_round -> rtc (pipeline_step h) s s' ->
  all_fine V (pipeline_ingestion s') -> pipeline_round s' = Ret tt -> e ∈ world_stored (pipeline_world s) -> okay V e -> alertable (Some e) = true ->
  exists x, kept V e x /\ alerted (alerts V (world_env (pipeline_world s'))) x.
Proof using PL RL.
  intros Hk Hl Hr Hfine Hend He Hok Hal.
  destruct (getting_there_steps e s s' Hok Hal Hk Hr Hfine) as [_ [Hg|(x&Hx&[Hx'|(t&_&_&Hp)])]].
  - split; [done|]. left. rewrite Hl. exact round_about_to_list.
  - by rewrite Hend in Hg.
  - by exists x.
  - by rewrite Hend in Hp.
Qed.

(** What is pending can be posted. *)
Lemma pending_gets_posted s q e :
  all_fine V (pipeline_ingestion s) -> kept_now s -> e ∈ pending (get_consumer q (pipeline_ingestion s)) -> okay V e -> alertable (Some e) = true ->
  exists s', rtc (pipeline_step h) s s' /\ exists e' x, unstamp e' = unstamp e /\ kept V e' x /\
    alerted (alerts V (world_env (pipeline_world s'))) x.
Proof using PL RL.
  intros Hfine Hk He Hok Hal. destruct (new_round s Hfine Hk) as (s1&Hr1&Hl&_&Ha&_&Hn).
  assert (all_fine V (pipeline_ingestion s1)) as Hf1 by (intros e'; rewrite Ha; apply Hfine).
  destruct (Hn q e He) as (e'&Hu&He'). pose proof (steps_kept h V _ _ Hr1 Hf1 Hk) as Hk1.
  destruct s1 as [i past p]. cbn in Hl. subst p.
  destruct (dispatcher_finishes i past _ round_ends) as (w'&past'&Hr2).
  exists (mkPipeline (set_env w' i) past' (Ret tt)). split; [by etrans|]. exists e'.
  destruct (round_alerts _ _ e' Hk1 eq_refl Hr2 Hf1 eq_refl He') as (x&Hx&Hal');
    [by eapply pl_okay|by eapply unstamp_alertable|by exists x].
Qed.
End recovery.

(** C11. Accepted violations get alerted.  Whatever has failed so far, once the
    store and the Alertmanager answer again: (1) a round of the dispatcher that
    begins then and ends has posted the alert of every violation and Falco
    alert that was in the store when it began, however requests, workers and
    dispatcher interleave meanwhile; and (2) the server can always go on, with
    no further request, until the queues are empty, nothing more is refused
    and every accepted violation and Falco alert that the store had not
    refused before is posted. *)
Theorem accepted_violations_get_alerted {W} (h h' : handler PipelineE W) (V : view W)
    `{!PipelineLaws h V} `{!PipelineLaws h' V} `{!Reliable h'} w s :
  (forall x, x ∈ unsent V w -> Event_Uid x ∈ issued V w) -> rtc (pipeline_step h) (boot w) s ->
  all_fine V (pipeline_ingestion s) ->
  let posted_in s e := exists x, kept V e x /\ alerted (alerts V (world_env (pipeline_world s))) x in
  (forall s' e, pipeline_round s = LoopSendAlerts_round -> rtc (pipeline_step h') s s' -> pipeline_round s' = Ret tt ->
     all_fine V (pipeline_ingestion s') -> e ∈ world_stored (pipeline_world s) -> okay V e -> alertable (Some e) = true -> posted_in s' e) /\
  exists s', rtc (pipeline_step h') s s' /\
    ingestion_accepted (pipeline_ingestion s') = ingestion_accepted (pipeline_ingestion s) /\
    (forall q, pending (get_consumer q (pipeline_ingestion s')) = []) /\
    world_dropped (pipeline_world s') = world_dropped (pipeline_world s) /\
    forall e, e ∈ ingestion_accepted (pipeline_ingestion s) -> okay V e -> alertable (Some e) = true ->
      exists e', unstamp e' = unstamp e /\ (e' ∈ world_dropped (pipeline_world s) \/ posted_in s' e').
Proof.
  intros Hw Hr Hfine posted_in.
  pose proof (steps_kept h V _ _ Hr Hfine (boot_kept V w Hw)) as Hk.
  split; [intros s' e Hl Hr' Hend Hf' He Hok Hal; by eapply (round_alerts h')|].
  destruct (new_round h' V s Hfine Hk) as (s1&Hr1&Hl&Hp&Ha&Hd&_).
  assert (all_fine V (pipeline_ingestion s1)) as Hf1 by (intros e'; rewrite Ha; apply Hfine).
  pose proof (steps_kept h' V _ _ Hr1 Hf1 Hk) as Hk1.
  destruct s1 as [i past p]. cbn in Hl. subst p.
  destruct (dispatcher_finishes h' i past _ round_ends) as (w'&past'&Hr2).
  exists (mkPipeline (set_env w' i) past' (Ret tt)). split_and!; [by etrans|done..|].
  intros e He Hok Hal. destruct (accepted_somewhere _ _ e Hk1) as (e'&Hu&Hc); [by rewrite Ha|].
  exists e'. split; [done|]. cbn in Hp, Hc. destruct Hc as [[q Hq]|[Hc|Hc]].
  - rewrite Hp in Hq. by apply elem_of_nil in Hq.
  - left. by rewrite <- Hd.
  - right. eapply (round_alerts h' V);
      [typeclasses eauto..|exact Hk1|done|exact Hr2|exact Hf1|done|done|by eapply pl_okay|].
    by apply (unstamp_alertable e).
Qed.

(** * Concrete surroundings *)

(** A store and an Alertmanager in memory; with [faults], the calls fail as
    [mem_faults] says. *)
Record mem := mkMem {
  mem_issued : list string;
  mem_unsent : list Event;
  mem_posted : list (gmap string string);
  mem_faults : list bool;
}.

Definition mem_env (faults : bool) : handler PipelineE mem := fun X e w =>
  let '(mkMem issued events posted fs) := w in
  let failed := faults && hd false fs in
  let err := if failed then Some (PlainError "unavailable") else None in
  let next events posted := mkMem issued events posted (tl fs) in
  match e in PipelineE X return X * mem with
  | PWorker e =>
      match e in IngestE X return X * mem with
      | INow => (7%Z, w)
      | INewUUID => (fresh issued, mkMem (fresh issued :: issued) events posted fs)
      | IStore e =>
          match e in EventStoreE X return X * mem with
          | EventAdd e => (err, next (if failed then events else events ++ [e]) posted)
          | EventGetAll _ | EventFindByNamespace _ _ | FindWhereAlertNotSent => ((None, None), w)
          | UpdateAlertSent _ => (None, w)
          end
      end
  | PDispatcher e =>
      match e in AlertE X return X * mem with
      | AStore e =>
          match e in EventStoreE X return X * mem with
          | FindWhereAlertNotSent => ((if failed then None else Some (Some <$> events), err), next events posted)
          | UpdateAlertSent uid => (err, next (if failed then events else filter (fun e => Event_Uid e <> uid) events) posted)
          | EventGetAll _ | EventFindByNamespace _ _ => ((None, None), w)
          | EventAdd _ => (None, w)
          end
      | PostAlerts labels => (err, next events (if failed then posted else posted ++ [labels]))
      end
  end.

#[export] Instance mem_env_alert_laws faults : AlertLaws (dispatcher_side (mem_env faults)) mem_unsent mem_posted.
Proof.
  split.
  - intros l err [issued events posted fs] w' [= <- <- <-]. cbn.
    destruct (faults && hd false fs); (split_and!; [done| |done..]).
    + intros e He. by apply elem_of_nil in He.
    + intros e (e'&->&He)%list_elem_of_fmap. by exists e'.
  - intros uid err [issued events posted fs] w' [= <- <-]. cbn.
    destruct (faults && hd false fs); (split_and!; try done); intros.
    + by eapply list_elem_of_filter.
    + by apply list_elem_of_filter.
    + apply Forall_forall. by intros e [? _]%list_elem_of_filter.
  - intros labels err [issued events posted fs] w' [= <- <-]. cbn.
    destruct (faults && hd false fs); (split; [done|]); [by right|by left].
Qed.

(** It shows every event as it was added. *)
Definition mem_view : view mem := {|
  unsent := mem_unsent; alerts := mem_posted; issued := mem_issued;
  fine _ := True; okay _ := True; good_uid _ := True;
  kept e x := x = e; renewed x x' := x' = x |}.

#[export] Instance mem_env_laws faults : PipelineLaws (mem_env faults) mem_view.
Proof.
  split; cbn [mem_view unsent alerts issued fine okay good_uid kept renewed]; try (by intros; subst); try apply _.
  - intros X [X' []|] [issued events posted fs] x w' [= <- <-]; done.
  - by intros t [] w' [= <- <-].
  - intros u [issued events posted fs] w' [= <- <-]. cbn. split_and!; [done..|apply infinite_is_fresh|done|].
    intros v. by rewrite elem_of_cons.
  - intros e err [issued events posted fs] w' _ _ [= <- <-]. cbn.
    destruct (faults && hd false fs); (split_and!; [done..| | |]); try done; eauto.
    + intros x Hx. exists x. split; [by apply elem_of_app; left|done].
    + intros x' [Hx|Hx%list_elem_of_singleton]%elem_of_app; [left; eauto|right; by subst].
    + intros _ _. exists e. split; [by apply elem_of_app; right; left|done].
  - intros e x -> [t Ht]. exists t, t. by destruct (alert_target_in _ _ Ht).
Qed.

#[export] Instance mem_env_reliable : Reliable (mem_env false).
Proof. split; by intros * Hh; destruct w; injection Hh. Qed.

(** Two requests; the first event is read, sent, processed and stored; the
    dispatcher lists it and the Alertmanager refuses the alert. *)
Definition ex_ingested : option (ingestion (world mem)) :=
  ingest (Some (mkIngestEventRequest (Some (ex_violation "")))) (Events.start (mkWorld (mkMem [] [] [] [false; false; true]) [] [])) ≫= fun r1 =>
  ingest (ex_request EventTypeDetection) r1.2 ≫= fun r2 =>
  read_message GeneralQueue r2.2 ≫= fun s3 =>
  send_message GeneralQueue s3 ≫= fun s4 =>
  process_message (worker_side (mem_env true)) GeneralQueue s4.

(** The next call of the dispatcher. *)
Definition dispatch_call {W} (h : handler PipelineE W) (s : pipeline W) : pipeline W :=
  let '(mkPipeline i past p) := s in
  match p with
  | Vis e k =>
      let '(x, w') := dispatcher_side h _ e (world_env (ingestion_env i)) in
      mkPipeline (set_env w' i) (past ++ [got e x]) (k x)
  | _ => s
  end.

Lemma dispatch_call_reach {W} (h : handler PipelineE W) s : rtc (pipeline_step h) s (dispatch_call h s).
Proof.
  destruct s as [i past [a|X e k|c]]; cbn; [constructor| |constructor].
  destruct (dispatcher_side h X e (world_env (ingestion_env i))) as [x w'] eqn:Hh. by apply rtc_once, step_dispatch.
Qed.

Definition ex_mem : mem := mkMem [] [] [] [false; false; true].

Definition ex_pipeline : pipeline mem :=
  let i := default (Events.start (mkWorld ex_mem [] [])) ex_ingested in
  Nat.iter 2 (dispatch_call (mem_env true)) (mkPipeline i [] LoopSendAlerts_round).

Lemma ex_pipeline_reachable : rtc (pipeline_step (mem_env true)) (boot ex_mem) ex_pipeline.
Proof.
  assert (exists i, ex_ingested = Some i) as [i Hi] by (eexists; vm_compute; reflexivity).
  transitivity (mkPipeline i [] LoopSendAlerts_round).
  - unfold ex_ingested in Hi. apply bind_Some in Hi as ([a1 s1]&H1&Hi). apply bind_Some in Hi as ([a2 s2]&H2&Hi).
    apply bind_Some in Hi as (s3&H3&Hi). apply bind_Some in Hi as (s4&H4&H5).
    eapply rtc_l; [by eapply step_ingestion, step_ingest|]. eapply rtc_l; [by eapply step_ingestion, step_ingest|].
    eapply rtc_l; [by eapply step_ingestion, step_worker, step_read|].
    eapply rtc_l; [by eapply step_ingestion, step_worker, step_send|].
    by eapply rtc_once, step_ingestion, step_worker, step_process.
  - unfold ex_pipeline. rewrite Hi. cbn [default Nat.iter].
    etrans; apply dispatch_call_reach.
Qed.

Lemma ex_mem_issued x : x ∈ mem_unsent ex_mem -> Event_Uid x ∈ mem_issued ex_mem.
Proof. by intros Hx%elem_of_nil. Qed.

Lemma accepted_events_stay_visible_witness :
  (forall e, e ∈ ingestion_accepted (pipeline_ingestion ex_pipeline) -> True ->
     exists e', unstamp e' = unstamp e /\
       ((exists q, e' ∈ pending (get_consumer q (pipeline_ingestion ex_pipeline))) \/
        e' ∈ world_dropped (pipeline_world ex_pipeline) \/
        visible mem_view (pipeline_world ex_pipeline) e')) /\
  forall c, pipeline_round ex_pipeline <> Crash c.
Proof.
  exact (accepted_events_stay_visible (mem_env true) mem_view ex_mem ex_pipeline ex_mem_issued ex_pipeline_reachable (fun _ _ => I)).
Defined.

Lemma accepted_violations_get_alerted_witness :
  exists s', rtc (pipeline_step (mem_env false)) ex_pipeline s' /\
    forall e, e ∈ ingestion_accepted (pipeline_ingestion ex_pipeline) -> alertable (Some e) = true ->
      exists e', unstamp e' = unstamp e /\ (e' ∈ world_dropped (pipeline_world ex_pipeline) \/
        exists x, x = e' /\ alerted (mem_posted (world_env (pipeline_world s'))) x).
Proof.
  destruct (accepted_violations_get_alerted (mem_env true) (mem_env false) mem_view
    ex_mem ex_pipeline ex_mem_issued ex_pipeline_reachable (fun _ _ => I)) as [_ (s'&Hr&_&_&_&Hs)].
  exists s'. split; [exact Hr|]. intros e He Ha. exact (Hs e He I Ha).
Defined.

(** The violation is stored and listed, not posted. *)
Example ex_pipeline_state :
  Event_Type <$> world_stored (pipeline_world ex_pipeline) = [EventTypeViolation] /\
  Event_Type <$> ingestion_accepted (pipeline_ingestion ex_pipeline) = [EventTypeViolation; EventTypeDetection] /\
  length (pipeline_past ex_pipeline) = 2 /\ mem_posted (world_env (pipeline_world ex_pipeline)) = [].
Proof. by vm_compute. Qed.
