(* ===== verification/DgraphEvents.v ===== *)
(** The event store on Dgraph ([pkg/server/dgraphstore/dgraph_event_store.go]
    with the event records of [types.go]): events with their targets and pods,
    written as one JSON object each, pods first upserted by their uid, read
    back with the two queries, marked when their alert was sent.

    Here are the code, what it relies on of Dgraph (a class of laws over the
    events and pods it holds), and what the store reads of them.  The theorems
    are in [DgraphEventFacts]. *)

From S2P Require Import Prelude GoStrings Types Json GoTime Codec Dgraph Store DgraphStore Events Alerts.

(** The calls of the store: Dgraph and the clock. *)
Inductive EventDbE : Type -> Type :=
| Db {X} (e : DgraphE X) : EventDbE X
| DbNow : EventDbE gotime.

(** * Records *)

(** [*time.Time] fields: the zero time, [MarshalJSON] and [UnmarshalJSON]. *)
Definition zero_time : gotime := UTC (-62135596800000000000).
Definition enc_time (t : gotime) : json := JStr (Format_RFC3339Nano t).
Definition dec_time : decoder gotime := fun old j =>
  match j with
  | JStr s => match Parse_RFC3339 s with Some t => (t, None) | None => (old, type_error) end
  | JNull => (old, None)
  | _ => (old, type_error)
  end.

Record DPod := mkDPod {
  DPod_UID : string;
  DPod_DType : slice string;
  DPod_Namespace : string;
  DPod_Name : string;
  DPod_PodUID : string;
  DPod_Labels : string }.

Definition zero_DPod : DPod := mkDPod "" None "" "" "" "".

Definition enc_DPod (x : DPod) : json := JObj
  (opt_string "uid" (DPod_UID x) ++
   opt_slice JStr "dgraph.type" (DPod_DType x) ++
   opt_string "pod_namespace" (DPod_Namespace x) ++
   opt_string "pod_name" (DPod_Name x) ++
   opt_string "pod_uid" (DPod_PodUID x) ++
   opt_string "pod_labels" (DPod_Labels x)).

Definition DPod_fields : list (string * decoder DPod) :=
  [ ("uid", field DPod_UID
       (fun '(mkDPod u t ns n p l) v => mkDPod v t ns n p l) dec_string);
    ("dgraph.type", field DPod_DType
       (fun '(mkDPod u t ns n p l) v => mkDPod u v ns n p l) (dec_slice "" dec_string));
    ("pod_namespace", field DPod_Namespace
       (fun '(mkDPod u t ns n p l) v => mkDPod u t v n p l) dec_string);
    ("pod_name", field DPod_Name
       (fun '(mkDPod u t ns n p l) v => mkDPod u t ns v p l) dec_string);
    ("pod_uid", field DPod_PodUID
       (fun '(mkDPod u t ns n p l) v => mkDPod u t ns n v l) dec_string);
    ("pod_labels", field DPod_Labels
       (fun '(mkDPod u t ns n p l) v => mkDPod u t ns n p v) dec_string) ].

Definition dec_DPod : decoder DPod := dec_struct DPod_fields.

Record DTarget := mkDTarget {
  DTarget_UID : string;
  DTarget_DType : slice string;
  DTarget_ViolatedProcesses : string;
  DTarget_ViolatedFiles : string;
  DTarget_FalcoAlert : string;
  DTarget_Pod : ptr DPod;
  DTarget_DetectionDataType : string;
  DTarget_DetectionData : string }.

Definition zero_DTarget : DTarget := mkDTarget "" None "" "" "" None "" "".

Definition enc_DTarget (x : DTarget) : json := JObj
  (opt_string "uid" (DTarget_UID x) ++
   opt_slice JStr "dgraph.type" (DTarget_DType x) ++
   opt_string "target_violated_processes" (DTarget_ViolatedProcesses x) ++
   opt_string "target_violated_files" (DTarget_ViolatedFiles x) ++
   opt_string "target_falco_alert" (DTarget_FalcoAlert x) ++
   opt_ptr enc_DPod "pod" (DTarget_Pod x) ++
   opt_string "tarian_detection_data_type" (DTarget_DetectionDataType x) ++
   opt_string "tarian_detection_data" (DTarget_DetectionData x)).

Definition DTarget_fields : list (string * decoder DTarget) :=
  [ ("uid", field DTarget_UID
       (fun '(mkDTarget u t vp vf fa p dt dd) v => mkDTarget v t vp vf fa p dt dd) dec_string);
    ("dgraph.type", field DTarget_DType
       (fun '(mkDTarget u t vp vf fa p dt dd) v => mkDTarget u v vp vf fa p dt dd) (dec_slice "" dec_string));
    ("target_violated_processes", field DTarget_ViolatedProcesses
       (fun '(mkDTarget u t vp vf fa p dt dd) v => mkDTarget u t v vf fa p dt dd) dec_string);
    ("target_violated_files", field DTarget_ViolatedFiles
       (fun '(mkDTarget u t vp vf fa p dt dd) v => mkDTarget u t vp v fa p dt dd) dec_string);
    ("target_falco_alert", field DTarget_FalcoAlert
       (fun '(mkDTarget u t vp vf fa p dt dd) v => mkDTarget u t vp vf v p dt dd) dec_string);
    ("pod", field DTarget_Pod
       (fun '(mkDTarget u t vp vf fa p dt dd) v => mkDTarget u t vp vf fa v dt dd) (dec_ptr zero_DPod dec_DPod));
    ("tarian_detection_data_type", field DTarget_DetectionDataType
       (fun '(mkDTarget u t vp vf fa p dt dd) v => mkDTarget u t vp vf fa p v dd) dec_string);
    ("tarian_detection_data", field DTarget_DetectionData
       (fun '(mkDTarget u t vp vf fa p dt dd) v => mkDTarget u t vp vf fa p dt v) dec_string) ].

Definition dec_DTarget : decoder DTarget := dec_struct DTarget_fields.

Record DEvent := mkDEvent {
  DEvent_UID : string;
  DEvent_DType : slice string;
  DEvent_Type : string;
  DEvent_EventUID : string;
  DEvent_ClientTimestamp : ptr gotime;
  DEvent_ServerTimestamp : ptr gotime;
  DEvent_AlertSentAt : ptr gotime;
  DEvent_Targets : slice DTarget }.

Definition zero_DEvent : DEvent := mkDEvent "" None "" "" None None None None.

Definition enc_DEvent (x : DEvent) : json := JObj
  (opt_string "uid" (DEvent_UID x) ++
   opt_slice JStr "dgraph.type" (DEvent_DType x) ++
   opt_string "event_type" (DEvent_Type x) ++
   opt_string "event_uid" (DEvent_EventUID x) ++
   opt_ptr enc_time "event_client_timestamp" (DEvent_ClientTimestamp x) ++
   opt_ptr enc_time "event_server_timestamp" (DEvent_ServerTimestamp x) ++
   opt_ptr enc_time "event_alert_sent_at" (DEvent_AlertSentAt x) ++
   opt_slice enc_DTarget "targets" (DEvent_Targets x)).

Definition DEvent_fields : list (string * decoder DEvent) :=
  [ ("uid", field DEvent_UID
       (fun '(mkDEvent u t ty e c s a ts) v => mkDEvent v t ty e c s a ts) dec_string);
    ("dgraph.type", field DEvent_DType
       (fun '(mkDEvent u t ty e c s a ts) v => mkDEvent u v ty e c s a ts) (dec_slice "" dec_string));
    ("event_type", field DEvent_Type
       (fun '(mkDEvent u t ty e c s a ts) v => mkDEvent u t v e c s a ts) dec_string);
    ("event_uid", field DEvent_EventUID
       (fun '(mkDEvent u t ty e c s a ts) v => mkDEvent u t ty v c s a ts) dec_string);
    ("event_client_timestamp", field DEvent_ClientTimestamp
       (fun '(mkDEvent u t ty e c s a ts) v => mkDEvent u t ty e v s a ts) (dec_ptr zero_time dec_time));
    ("event_server_timestamp", field DEvent_ServerTimestamp
       (fun '(mkDEvent u t ty e c s a ts) v => mkDEvent u t ty e c v a ts) (dec_ptr zero_time dec_time));
    ("event_alert_sent_at", field DEvent_AlertSentAt
       (fun '(mkDEvent u t ty e c s a ts) v => mkDEvent u t ty e c s v ts) (dec_ptr zero_time dec_time));
    ("targets", field DEvent_Targets
       (fun '(mkDEvent u t ty e c s a ts) v => mkDEvent u t ty e c s a v) (dec_slice zero_DTarget dec_DTarget)) ].

Definition dec_DEvent : decoder DEvent := dec_struct DEvent_fields.

(** [json.Marshal] of an event fails when one of its times has no RFC 3339
    text. *)
Definition times_marshal (e : DEvent) : bool :=
  let ok (p : ptr gotime) := match p with Some t => time_marshals t | None => true end in
  ok (DEvent_ClientTimestamp e) && ok (DEvent_ServerTimestamp e) && ok (DEvent_AlertSentAt e).

Definition Marshal_DEvent (e : DEvent) : string * option error :=
  if times_marshal e then (Marshal (enc_DEvent e), None)
  else ("", Some (PlainError "json: error calling MarshalJSON for type *time.Time")).

Definition dgraphEventList : Type := slice DEvent.
Definition dec_dgraphEventList : decoder dgraphEventList := dec_struct
  [("Events", field (fun x : dgraphEventList => x) (fun _ v => v) (dec_slice zero_DEvent dec_DEvent))].

(** The anonymous structs of [UpsertPod]: a list of uids. *)
Definition dec_uid : decoder string := dec_struct
  [("uid", field (fun x : string => x) (fun _ v => v) dec_string)].
Definition dec_upserted : decoder (slice string) := dec_struct
  [("Pod", field (fun x : slice string => x) (fun _ v => v) (dec_slice "" dec_uid))].

(** * Query texts *)

Definition eventFields : string := "
	uid
	dgraph.type

	event_type
	event_uid
	event_client_timestamp
	event_server_timestamp
	event_alert_sent_at

	targets {
		uid
		target_violated_processes
		target_violated_files
		target_falco_alert
		pod {
			uid
			pod_uid
			pod_namespace
			pod_name
			pod_labels
		}
		target_detection_data_type
		target_detection_data
	}
".

Definition events_query : string := "
	    {
			events(func: type(Event)) @filter(not eq(event_type, " +:+ String dquote ("tarian-detection/detection" +:+ String dquote ")) {
				") +:+ eventFields +:+ "
			}
		}
	".

Definition unsent_query : string := "
	    {
			events(func: type(Event)) @filter(not eq(event_type, " +:+ String dquote ("tarian-detection/detection" +:+ String dquote ") AND not has(event_alert_sent_at)) {
				") +:+ eventFields +:+ "
			}
		}
	".

Definition sent_query : string := "
		query q($event_uid: string) {
			evt as var(func: eq(event_uid, $event_uid))
		}".

Definition pod_query : string := "
		query q($pod_uid: string) {
			pod(func: eq(pod_uid, $pod_uid)) {
				p as uid
			}
		}".


(** * Conversions *)

Definition dgraphPodFromPb (i : nat) (p : Pod) : DPod :=
  {| DPod_UID := "_:pod" +:+ Itoa (Z.of_nat i);
     DPod_DType := Some ["Pod"];
     DPod_Namespace := Pod_Namespace p;
     DPod_Name := Pod_Name p;
     DPod_PodUID := Pod_Uid p;
     DPod_Labels := Marshal (enc_slice (enc_ptr enc_Label) (Pod_Labels p)) |}.

(** One turn of the loop of [dgraphEventFromPb]. *)
Definition dgraphTargetFromPb (i : nat) (t : Target) : DTarget :=
  {| DTarget_UID := "_:target" +:+ Itoa (Z.of_nat i);
     DTarget_DType := Some ["Target"];
     DTarget_ViolatedProcesses :=
       if (0 <? length (elems (Target_ViolatedProcesses t)))%nat
       then Marshal (enc_slice (enc_ptr enc_Process) (Target_ViolatedProcesses t)) else "";
     DTarget_ViolatedFiles :=
       if (0 <? length (elems (Target_ViolatedFiles t)))%nat
       then Marshal (enc_slice (enc_ptr enc_ViolatedFile) (Target_ViolatedFiles t)) else "";
     DTarget_FalcoAlert :=
       match Target_FalcoAlert t with
       | Some _ => Marshal (enc_ptr enc_FalcoAlert (Target_FalcoAlert t))
       | None => ""
       end;
     DTarget_Pod := dgraphPodFromPb i <$> Target_Pod t;
     DTarget_DetectionDataType :=
       if String.eqb (Target_DetectionDataType t) "" then "" else Target_DetectionDataType t;
     DTarget_DetectionData :=
       if String.eqb (Target_DetectionData t) "" then "" else Target_DetectionData t |}.

Fixpoint dgraphTargetsFromPb (i : nat) (l : list (ptr Target)) : prog EventDbE (list DTarget) :=
  match l with
  | [] => Ret []
  | pbTarget :: l' =>
      t <- deref "pbTarget" pbTarget;;
      ts <- dgraphTargetsFromPb (S i) l';;
      Ret (dgraphTargetFromPb i t :: ts)
  end.

(** [AsTime] gives a time in UTC. *)
Definition dgraphTime (t : ptr Timestamp) : ptr gotime :=
  match t with Some _ => Some (UTC (AsTime t)) | None => None end.

Definition dgraphEventFromPb (pbEvent : ptr Event) : prog EventDbE DEvent :=
  e <- deref "pbEvent" pbEvent;;
  ts <- dgraphTargetsFromPb 0 (elems (Event_Targets e));;
  Ret {| DEvent_UID := "_:event";
         DEvent_DType := Some ["Event"];
         DEvent_Type := Event_Type e;
         DEvent_EventUID := Event_Uid e;
         DEvent_ClientTimestamp := dgraphTime (Event_ClientTimestamp e);
         DEvent_ServerTimestamp := dgraphTime (Event_ServerTimestamp e);
         DEvent_AlertSentAt := dgraphTime (Event_AlertSentAt e);
         DEvent_Targets := Some ts |}.

Definition pbTime (t : ptr gotime) : ptr Timestamp := (fun t => timestamppb_New (time_instant t)) <$> t.

Definition toPbPod (p : DPod) : Pod :=
  {| Pod_Uid := DPod_PodUID p;
     Pod_Namespace := DPod_Namespace p;
     Pod_Name := DPod_Name p;
     Pod_Labels := (Unmarshal (dec_slice None (dec_ptr zero_Label dec_Label)) (DPod_Labels p) None).1 |}.

(** One turn of the inner loop of [toPbEvents].  The detection data is copied
    when the new target already has some, which it never does. *)
Definition toPbTarget (x : DTarget) : Target :=
  let t := mkTarget None None None None "" "" in
  {| Target_Pod := toPbPod <$> DTarget_Pod x;
     Target_ViolatedProcesses :=
       if String.eqb (DTarget_ViolatedProcesses x) "" then Target_ViolatedProcesses t
       else (Unmarshal (dec_slice None (dec_ptr zero_Process dec_Process))
               (DTarget_ViolatedProcesses x) (Target_ViolatedProcesses t)).1;
     Target_ViolatedFiles :=
       if String.eqb (DTarget_ViolatedFiles x) "" then Target_ViolatedFiles t
       else (Unmarshal (dec_slice None (dec_ptr zero_ViolatedFile dec_ViolatedFile))
               (DTarget_ViolatedFiles x) (Target_ViolatedFiles t)).1;
     Target_FalcoAlert :=
       if String.eqb (DTarget_FalcoAlert x) "" then Target_FalcoAlert t
       else (Unmarshal (dec_ptr zero_FalcoAlert dec_FalcoAlert)
               (DTarget_FalcoAlert x) (Target_FalcoAlert t)).1;
     Target_DetectionDataType :=
       if String.eqb (Target_DetectionDataType t) "" then Target_DetectionDataType t
       else DTarget_DetectionDataType x;
     Target_DetectionData :=
       if String.eqb (Target_DetectionData t) "" then Target_DetectionData t
       else DTarget_DetectionData x |}.

(** One turn of the outer loop. *)
Definition toPbEvent (evt : DEvent) : Event :=
  {| Event_Kind := Event_Kind NewEvent;
     Event_Type := DEvent_Type evt;
     Event_Uid := DEvent_EventUID evt;
     Event_ServerTimestamp := pbTime (DEvent_ServerTimestamp evt);
     Event_ClientTimestamp := pbTime (DEvent_ClientTimestamp evt);
     Event_AlertSentAt := pbTime (DEvent_AlertSentAt evt);
     Event_Targets := Some ((fun x => Some (toPbTarget x)) <$> elems (DEvent_Targets evt)) |}.

Definition toPbEvents (l : dgraphEventList) : slice (ptr Event) :=
  Some ((fun e => Some (toPbEvent e)) <$> elems l).

(** * The store *)

Definition list_events (q : string) : prog EventDbE (slice (ptr Event) * option error) :=
  r <- call (Db (Query q []));;
  match r with
  | (_, Some err) => Ret (None, Some err)
  | (resp, None) =>
      match Unmarshal dec_dgraphEventList resp None with
      | (_, Some err) => Ret (None, Some err)
      | (result, None) => Ret (toPbEvents result, None)
      end
  end.

(** The limit is not used. *)
Definition dgraphEventStore_GetAll (limit : Z) : prog EventDbE (slice (ptr Event) * option error) :=
  list_events events_query.

Definition dgraphEventStore_FindByNamespace (namespace : string) (limit : Z)
  : prog EventDbE (slice (ptr Event) * option error) :=
  Ret (None, Some (PlainError "Unimplemented")).

Definition dgraphEventStore_FindWhereAlertNotSent : prog EventDbE (slice (ptr Event) * option error) :=
  list_events unsent_query.

Definition set_DPod_UID (u : string) (p : DPod) : DPod :=
  mkDPod u (DPod_DType p) (DPod_Namespace p) (DPod_Name p) (DPod_PodUID p) (DPod_Labels p).

Definition set_DTarget_Pod (p : ptr DPod) (t : DTarget) : DTarget :=
  mkDTarget (DTarget_UID t) (DTarget_DType t) (DTarget_ViolatedProcesses t) (DTarget_ViolatedFiles t)
    (DTarget_FalcoAlert t) p (DTarget_DetectionDataType t) (DTarget_DetectionData t).

Definition set_DEvent_Targets (ts : slice DTarget) (e : DEvent) : DEvent :=
  mkDEvent (DEvent_UID e) (DEvent_DType e) (DEvent_Type e) (DEvent_EventUID e)
    (DEvent_ClientTimestamp e) (DEvent_ServerTimestamp e) (DEvent_AlertSentAt e) ts.

Definition upsert_request (dgraphPod : DPod) : Request :=
  {| Request_Query := pod_query;
     Request_Mutations :=
       [ {| Mutation_SetJson := Some (Marshal (enc_DPod dgraphPod)); Mutation_DeleteJson := None;
            Mutation_CommitNow := false |} ];
     Request_Vars := [("$pod_uid", DPod_PodUID dgraphPod)];
     Request_CommitNow := true |}.

Definition lookup_uid (k : string) (uids : list (string * string)) : option string :=
  snd <$> List.find (fun kv => String.eqb kv.1 k) uids.

(** The response is used before the error is looked at; an error with a
    response is returned, or lost when the uid is read from the response. *)
Definition UpsertPod (dgraphPod : DPod) : prog EventDbE (DPod * option error) :=
  let dgraphPod := set_DPod_UID "uid(p)" dgraphPod in
  r <- call (Db (Do (upsert_request dgraphPod)));;
  let '(resp, err) := r in
  resp <- deref "resp" resp;;
  let finish podUID err :=
    Ret (if String.eqb podUID "" then dgraphPod else set_DPod_UID podUID dgraphPod, err) in
  match lookup_uid "uid(p)" (Response_Uids resp) with
  | Some podUID => finish podUID err
  | None =>
      match Unmarshal dec_upserted (Response_Json resp) None with
      | (_, Some err) => Ret (dgraphPod, Some err)
      | (r, None) => finish (match elems r with [] => "" | u :: _ => u end) None
      end
  end.

(** The loop of [Add] over the targets: their pods get uids. *)
Fixpoint upsert_pods (l : list DTarget) : prog EventDbE (list DTarget + error) :=
  match l with
  | [] => Ret (inl [])
  | evtTarget :: l' =>
      match DTarget_Pod evtTarget with
      | None =>
          r <- upsert_pods l';;
          Ret match r with inl ts => inl (evtTarget :: ts) | inr err => inr err end
      | Some pod =>
          r <- UpsertPod pod;;
          match r with
          | (_, Some err) => Ret (inr err)
          | (p, None) =>
              r <- upsert_pods l';;
              Ret match r with
                  | inl ts => inl (set_DTarget_Pod (Some (set_DPod_UID (DPod_UID p) pod)) evtTarget :: ts)
                  | inr err => inr err
                  end
          end
      end
  end.

Definition dgraphEventStore_Add (evt : ptr Event) : prog EventDbE (option error) :=
  dgraphEvent <- dgraphEventFromPb evt;;
  r <- upsert_pods (elems (DEvent_Targets dgraphEvent));;
  match r with
  | inr err => Ret (Some err)
  | inl ts =>
      match Marshal_DEvent (set_DEvent_Targets (Some ts) dgraphEvent) with
      | (_, Some err) => Ret (Some err)
      | (payload, None) => call (Db (set_mutation payload))
      end
  end.

Definition sent_request (payload uid : string) : Request :=
  {| Request_Query := sent_query;
     Request_Mutations :=
       [ {| Mutation_SetJson := Some payload; Mutation_DeleteJson := None; Mutation_CommitNow := false |} ];
     Request_Vars := [("$event_uid", uid)];
     Request_CommitNow := true |}.

Definition dgraphEventStore_UpdateAlertSent (uid : string) : prog EventDbE (option error) :=
  now <- call DbNow;;
  let dgraphEvent := mkDEvent "uid(evt)" None "" "" None None (Some now) None in
  match Marshal_DEvent dgraphEvent with
  | (_, Some err) => Ret (Some err)
  | (payload, None) =>
      r <- call (Db (Do (sent_request payload uid)));;
      Ret r.2
  end.

Definition dgraphEventStore : forall X, EventStoreE X -> prog EventDbE X := fun X e =>
  match e in EventStoreE X return prog EventDbE X with
  | EventGetAll limit => dgraphEventStore_GetAll limit
  | EventFindByNamespace ns limit => dgraphEventStore_FindByNamespace ns limit
  | FindWhereAlertNotSent => dgraphEventStore_FindWhereAlertNotSent
  | EventAdd evt => dgraphEventStore_Add (Some evt)
  | UpdateAlertSent uid => dgraphEventStore_UpdateAlertSent uid
  end.

(** * What Dgraph promises *)

(** An event with its targets; a target refers to the node of its pod. *)
Record target_node := mkTargetNode { tn_node : node; tn_pod : option string }.
Record event_node := mkEventNode { en_node : node; en_targets : list target_node }.

Definition pod_fields : list string := ["uid"; "pod_uid"; "pod_namespace"; "pod_name"; "pod_labels"].
Definition event_fields : list string :=
  ["uid"; "dgraph.type"; "event_type"; "event_uid"; "event_client_timestamp";
   "event_server_timestamp"; "event_alert_sent_at"].

(** What the queries show: fields without a value are left out. *)
Definition pod_member (pods : list node) (u : option string) : list (string * json) :=
  match u ≫= fun u => List.find (fun n => String.eqb (node_uid n) u) pods with
  | Some n => [("pod", node_json pod_fields n)]
  | None => []
  end.

Definition show (fields : list string) (n : node) : list (string * json) :=
  List.concat (List.map (selected n) fields).

Definition target_json (pods : list node) (t : target_node) : json := JObj
  (show ["uid"; "target_violated_processes"; "target_violated_files"; "target_falco_alert"] (tn_node t) ++
   pod_member pods (tn_pod t) ++
   show ["target_detection_data_type"; "target_detection_data"] (tn_node t)).

Definition targets_member (pods : list node) (l : list target_node) : list (string * json) :=
  match l with [] => [] | _ => [("targets", JArr (List.map (target_json pods) l))] end.

Definition event_json (pods : list node) (e : event_node) : json := JObj
  (show event_fields (en_node e) ++ targets_member pods (en_targets e)).

(** The meaning of the two queries. *)
Definition no_detection (e : event_node) : bool :=
  negb (String.eqb (string_pred "event_type" (en_node e)) "tarian-detection/detection").
Definition not_sent (e : event_node) : bool :=
  no_detection e && match node_pred "event_alert_sent_at" (en_node e) with None => true | Some _ => false end.
Definition event_queries : list (string * (event_node -> bool)) :=
  [(events_query, no_detection); (unsent_query, not_sent)].

(** Values that are set take the place of those a node has. *)
Definition merged (preds : list (string * json)) (n : node) : node :=
  mkNode (node_uid n) (node_type n) (preds ++ node_preds n).

Definition has_pod_uid (v : string) (n : node) : bool :=
  match node_pred "pod_uid" n with Some (JStr a) => String.eqb a v | _ => false end.

Definition merge_where (P : node -> bool) (preds : list (string * json)) (ns : list node) : list node :=
  (fun n => if P n then merged preds n else n) <$> ns.

Definition merge_pods (ups : list (string * list (string * json))) (ns : list node) : list node :=
  fold_left (fun ns up => merge_where (fun n => String.eqb (node_uid n) up.1) up.2 ns) ups ns.

(** The object of an event to be created, with its targets; the pods of the
    targets are named by their uids. *)
Record new_target := mkNewTarget {
  nt_blank : string;
  nt_before : list (string * json);
  nt_pod : option (string * list (string * json));
  nt_after : list (string * json) }.

Definition typed (uid t : string) (members : list (string * json)) : json :=
  JObj (("uid", JStr uid) :: ("dgraph.type", JArr [JStr t]) :: members).

Definition new_target_json (t : new_target) : json :=
  typed ("_:" +:+ nt_blank t) "Target"
    (nt_before t ++
     match nt_pod t with Some (u, preds) => [("pod", typed u "Pod" preds)] | None => [] end ++
     nt_after t).

Definition new_event_json (b : string) (preds : list (string * json)) (ts : list new_target) : json :=
  typed ("_:" +:+ b) "Event"
    (preds ++ match ts with [] => [] | _ => [("targets", JArr (List.map new_target_json ts))] end).

Definition flat_target (t : new_target) : Prop :=
  Forall flat (nt_before t) /\ Forall flat (nt_after t) /\
  match nt_pod t with Some (_, preds) => Forall flat preds | None => True end.

Section laws.
Context {S : Type} (h : handler EventDbE S) (events : S -> list event_node) (pods : S -> list node).

Definition keeps (s s' : S) : Prop := events s' = events s /\ pods s' = pods s.

Definition upserted (v : string) (preds : list (string * json)) (r : Response) (s s' : S) : Prop :=
  (filter (fun n => has_pod_uid v n = true) (pods s) = [] /\
   exists u, lookup_uid "uid(p)" (Response_Uids r) = Some u /\ u ∉ node_uid <$> pods s /\
     pods s' = mkNode u "Pod" preds :: pods s) \/
  (exists l, l <> [] /\ l ≡ₚ filter (fun n => has_pod_uid v n = true) (pods s) /\
     lookup_uid "uid(p)" (Response_Uids r) = None /\
     parse (Response_Json r) =
       Some (JObj [("pod", JArr (List.map (fun n => JObj [("uid", JStr (node_uid n))]) l))]) /\
     pods s' = merge_where (has_pod_uid v) preds (pods s)).

Definition added (preds : list (string * json)) (ts : list new_target) (s s' : S) : Prop :=
  exists e, events s' = e :: events s /\ node_preds (en_node e) = preds /\
    (((fun t => (node_preds (tn_node t), tn_pod t)) <$> en_targets e) ≡ₚ
      ((fun t => (nt_before t ++ nt_after t, fst <$> nt_pod t)) <$> ts)) /\
    pods s' = merge_pods (omap nt_pod ts) (pods s).

Definition mark_sent (t : string) (e : event_node) : event_node :=
  mkEventNode (merged [("event_alert_sent_at", JStr t)] (en_node e)) (en_targets e).

(** Queries and the clock change nothing.  An upsert of a pod by its uid
    changes the pods that have it, and tells their uids, or creates one; a
    failed request has no response ([dgo] gives a nil one).  Setting the time
    of an alert changes events with the uid that is given; which events match
    an empty one is left open.  A request that answers an error may have been
    applied.  Dgraph keeps the targets of an event in an order of its own. *)
Class EventDbLaws : Prop := {
  ed_unique s : NoDup (node_uid <$> pods s);
  ed_uids s : Forall uid_ok (node_uid <$> pods s);
  ed_now s : keeps s (h _ DbNow s).2;
  ed_reads q vars s : keeps s (h _ (Db (Query q vars)) s).2;
  ed_query q shown s resp s' :
    (q, shown) ∈ event_queries -> h _ (Db (Query q [])) s = ((resp, None), s') ->
    exists l, parse resp = Some (JObj [("events", JArr (List.map (event_json (pods s)) l))]) /\
      l ≡ₚ filter (fun e => shown e = true) (events s);
  ed_upsert payload v preds s resp er s' :
    parse payload = Some (typed "uid(p)" "Pod" preds) -> Forall flat preds -> v <> "" ->
    h _ (Db (Do (mkRequest pod_query [mkMutation (Some payload) None false] [("$pod_uid", v)] true))) s
      = ((resp, er), s') ->
    events s' = events s /\
    match er with
    | None => utf8 v /\ exists r, resp = Some r /\ upserted v preds r s s'
    | Some _ => resp = None /\ (pods s' = pods s \/ (utf8 v /\ exists r, upserted v preds r s s'))
    end;
  ed_add payload b preds ts s er s' :
    parse payload = Some (new_event_json b preds ts) ->
    Forall flat preds -> Forall flat_target ts ->
    (forall up, up ∈ omap nt_pod ts -> up.1 ∈ node_uid <$> pods s) ->
    h _ (Db (set_mutation payload)) s = (er, s') ->
    added preds ts s s' \/ (er <> None /\ keeps s s');
  ed_sent payload v t s a s' :
    parse payload = Some (JObj [("uid", JStr "uid(evt)"); ("event_alert_sent_at", JStr t)]) -> utf8 t ->
    h _ (Db (Do (sent_request payload v))) s = (a, s') ->
    pods s' = pods s /\
    exists marks : event_node -> bool,
      events s' = (fun e => if marks e then mark_sent t e else e) <$> events s /\
      (forall e, marks e = true -> string_pred "event_uid" (en_node e) = v) /\
      (a.2 = None -> v <> "" -> forall e, e ∈ events s -> string_pred "event_uid" (en_node e) = v -> marks e = true);
}.
End laws.

(** * What the store reads *)

Definition read_event (pods : list node) (e : event_node) : Event :=
  toPbEvent (dec_DEvent zero_DEvent (event_json pods e)).1.

Definition time_pred (p : string) (n : node) : ptr gotime :=
  match node_pred p n with
  | Some JNull | None => None
  | Some j => Some (dec_time zero_time j).1
  end.

Lemma dec_selected_time {A} (fields : list (string * decoder A)) n f (get : A -> ptr gotime) set a :
  String.eqb f "uid" = false -> String.eqb f "dgraph.type" = false ->
  find_field f fields = Some (field get set (dec_ptr zero_time dec_time)) -> get a = None -> set a None = a ->
  (dec_members fields (selected n f) a).1 = set a (time_pred f n).
Proof.
  intros H1 H2 Hf Hg Hs. rewrite (dec_selected fields n f get set _ None a) by done. f_equal.
  unfold time_pred. destruct (node_pred f n) as [j|]; [|done].
  unfold dec_ptr. cbn [default]. by destruct (dec_time zero_time j), j.
Qed.

Definition read_pod (n : node) : DPod :=
  mkDPod (node_uid n) None (string_pred "pod_namespace" n) (string_pred "pod_name" n)
    (string_pred "pod_uid" n) (string_pred "pod_labels" n).

Lemma dec_pod n : (dec_DPod zero_DPod (node_json pod_fields n)).1 = read_pod n.
Proof.
  unfold node_json, dec_DPod. cbn [pod_fields List.map List.concat dec_struct].
  read_predicates. reflexivity.
Qed.

Definition read_target (pods : list node) (t : target_node) : DTarget :=
  let n := tn_node t in
  mkDTarget (node_uid n) None (string_pred "target_violated_processes" n)
    (string_pred "target_violated_files" n) (string_pred "target_falco_alert" n)
    (read_pod <$> (tn_pod t ≫= fun u => List.find (fun n => String.eqb (node_uid n) u) pods)) "" "".

Lemma dec_selected_unknown {A} (fields : list (string * decoder A)) n f a :
  find_field f fields = None -> String.eqb f "uid" = false -> String.eqb f "dgraph.type" = false ->
  (dec_members fields (selected n f) a).1 = a.
Proof.
  intros Hf H1 H2. unfold selected. rewrite H1, H2. destruct (node_pred f n); [|done].
  cbn [dec_members]. by rewrite Hf.
Qed.

Lemma dec_pod_member pods u a :
  DTarget_Pod a = None ->
  (dec_members DTarget_fields (pod_member pods u) a).1 =
  set_DTarget_Pod (read_pod <$> (u ≫= fun u => List.find (fun n => String.eqb (node_uid n) u) pods)) a.
Proof.
  intros Ha. destruct a as [x1 x2 x3 x4 x5 p x7 x8]. cbn in Ha. subst p. unfold pod_member.
  destruct (u ≫= _) as [n|]; [|done]. cbn [dec_members].
  change (find_field "pod" DTarget_fields) with (Some (field DTarget_Pod
       (fun '(mkDTarget u t vp vf fa p dt dd) v => mkDTarget u t vp vf fa v dt dd) (dec_ptr zero_DPod dec_DPod))).
  unfold field. cbn [DTarget_Pod]. pose proof (dec_pod n) as Hd. unfold dec_ptr, node_json in *.
  cbn [default]. destruct (dec_DPod zero_DPod _) as [v e]. cbn in Hd. by rewrite Hd.
Qed.

Ltac flatten_members := unfold show; cbn [List.map List.concat]; rewrite ?app_nil_r, <- ?app_assoc.

Lemma dec_target pods t : (dec_DTarget zero_DTarget (target_json pods t)).1 = read_target pods t.
Proof.
  unfold target_json, dec_DTarget. cbn [dec_struct]. flatten_members. read_predicates.
  rewrite dec_members_app_fst, dec_pod_member by done. cbn [app].
  rewrite dec_members_app_fst, !dec_selected_unknown by done. reflexivity.
Qed.

Lemma dec_targets pods l a :
  DEvent_Targets a = None ->
  (dec_members DEvent_fields (targets_member pods l) a).1 =
  set_DEvent_Targets match l with [] => None | _ => Some (read_target pods <$> l) end a.
Proof.
  intros Ha. destruct a as [x1 x2 x3 x4 x5 x6 x7 ts]. cbn in Ha. subst ts.
  destruct l as [|t l]; [done|]. unfold targets_member. cbn [dec_members].
  change (find_field "targets" DEvent_fields) with (Some (field DEvent_Targets
       (fun '(mkDEvent u t ty e c s a ts) v => mkDEvent u t ty e c s a v) (dec_slice zero_DTarget dec_DTarget))).
  unfold field. cbn [dec_slice DEvent_Targets].
  assert (List.map (fun j => (dec_DTarget zero_DTarget j).1) (List.map (target_json pods) (t :: l)) =
          read_target pods <$> t :: l) as ->; [|done].
  generalize (t :: l). clear. intros l. induction l as [|t l IH]; [done|].
  cbn [List.map fmap list_fmap]. rewrite dec_target. f_equal. exact IH.
Qed.

Lemma dec_event pods e :
  (dec_DEvent zero_DEvent (event_json pods e)).1 =
  let n := en_node e in
  mkDEvent (node_uid n) (Some [node_type n]) (string_pred "event_type" n) (string_pred "event_uid" n)
    (time_pred "event_client_timestamp" n) (time_pred "event_server_timestamp" n)
    (time_pred "event_alert_sent_at" n)
    match en_targets e with [] => None | _ => Some (read_target pods <$> en_targets e) end.
Proof.
  unfold event_json, dec_DEvent, event_fields. cbn [dec_struct]. flatten_members.
  read_predicates.
  do 3 (rewrite dec_members_app_fst; erewrite dec_selected_time by reflexivity; cbv beta iota zeta).
  rewrite dec_targets by done. by destruct (en_targets e).
Qed.

(** * Refinement *)

(** The store as its callers see it; a request that panics takes the server
    down. *)
Section refinement.
Context {S : Type} (h : handler EventDbE S) (events : S -> list event_node) (pods : S -> list node).
Context `{HD : !EventDbLaws h events pods}.

Definition stored_events (shown : event_node -> bool) (s : S) : list Event :=
  read_event (pods s) <$> filter (fun e => shown e = true) (events s).

Lemma list_events_run q shown s :
  (q, shown) ∈ event_queries ->
  exists r er s', run h (list_events q) s = (Done (r, er), s') /\ keeps events pods s s' /\
    (er <> None -> r = None) /\ (er = None -> elems r ≡ₚ Some <$> stored_events shown s).
Proof using HD.
  intros Hq. unfold list_events. cbn [run bind call].
  pose proof (ed_reads h events pods q [] s) as Hr.
  destruct (h _ (Db (Query q [])) s) as [[resp er] s1] eqn:Hh. cbn in Hr.
  destruct er as [er|]; [by do 3 eexists|].
  destruct (ed_query h events pods q shown s resp s1 Hq Hh) as (l&Hp&Hl).
  assert (Unmarshal dec_dgraphEventList resp None =
          dec_slice zero_DEvent dec_DEvent None (JArr (List.map (event_json (pods s)) l))) as ->.
  { unfold Unmarshal. rewrite Hp. unfold dec_dgraphEventList. cbn [dec_struct dec_members].
    change (find_field "events" _) with (Some (field (fun x : dgraphEventList => x) (fun _ v => v)
      (dec_slice zero_DEvent dec_DEvent))). unfold field.
    by destruct (dec_slice zero_DEvent dec_DEvent None _) as [v []]. }
  cbn [dec_slice]. destruct (fold_right _ _ _) as [er|]; [by do 3 eexists|].
  do 3 eexists. split_and!; [done..|]. intros _. cbn [elems default toPbEvents].
  unfold stored_events. rewrite <- Hl. apply Permutation_refl'. clear.
  induction l as [|e l IH]; [done|]. cbn. f_equal. exact IH.
Qed.

(** Marking as sent, seen in the unsent events. *)
Lemma mark_not_sent t e : not_sent (mark_sent t e) = false.
Proof. unfold not_sent, mark_sent. cbn. by rewrite andb_false_r. Qed.

Lemma read_event_uid ps e : Event_Uid (read_event ps e) = string_pred "event_uid" (en_node e).
Proof. unfold read_event. by rewrite dec_event. Qed.

Lemma UpdateAlertSent_run uid s :
  exists er s', run h (dgraphEventStore_UpdateAlertSent uid) s = (Done er, s') /\ pods s' = pods s /\
    exists t marks, events s' = (fun e => if marks e : bool then mark_sent t e else e) <$> events s /\
      (forall e, marks e = true -> string_pred "event_uid" (en_node e) = uid) /\
      (er = None -> uid <> "" -> forall e, e ∈ events s -> string_pred "event_uid" (en_node e) = uid -> marks e = true).
Proof using HD.
  assert (forall (e : list event_node), (fun e => if false then mark_sent "" e else e) <$> e = e) as Hid
    by (intros l; induction l as [|e l IH]; [done|]; by rewrite fmap_cons, IH).
  unfold dgraphEventStore_UpdateAlertSent. cbn [run bind call].
  destruct (ed_now h events pods s) as [He Hp]. destruct (h _ DbNow s) as [now s1]. cbn in He, Hp.
  unfold Marshal_DEvent, times_marshal. cbn [DEvent_ClientTimestamp DEvent_ServerTimestamp DEvent_AlertSentAt andb].
  destruct (time_marshals now).
  2:{ do 2 eexists. split; [done|]. split; [done|]. exists "", (fun _ => false). by rewrite Hid. }
  cbn [run bind call]. set (payload := Marshal _). destruct (h _ (Db (Do (sent_request payload uid))) s1) as [a s2] eqn:Hh.
  destruct (ed_sent h events pods payload uid (clean (Format_RFC3339Nano now)) s1 a s2) as (Hp2&marks&He2&Hm&Hall);
    [|apply utf8_clean_valid|done|].
  { unfold payload, Marshal. rewrite parse_print; [reflexivity|].
    apply json_ok_obj. repeat constructor. }
  do 2 eexists. split; [done|]. rewrite Hp2. split; [done|].
  exists (clean (Format_RFC3339Nano now)), marks. rewrite <- He. split; [done|]. split; [done|exact Hall].
Qed.
End refinement.
