(* ===== verification/DgraphEventFacts.v ===== *)
(** The event store on Dgraph, what holds of it: it is a store the alert
    dispatcher loses no alert with; an event that was added comes back, but for
    its detection data; and a refused upsert of a pod is a panic.  A Dgraph of
    events in memory keeps the promises and runs the store. *)

From S2P Require Import Prelude GoStrings Types Json GoTime Codec Dgraph Store DgraphStore Events Alerts DgraphEvents.

(** * The alert dispatcher on Dgraph *)

Definition no_event_answer {X} (e : EventStoreE X) : X :=
  match e in EventStoreE X return X with
  | EventGetAll _ => (None, None)
  | EventFindByNamespace _ _ => (None, None)
  | FindWhereAlertNotSent => (None, None)
  | EventAdd _ => Some (PlainError "panic")
  | UpdateAlertSent _ => None
  end.

Section dispatcher.
Context {S P : Type} (h : handler EventDbE S) (events : S -> list event_node) (pods : S -> list node).
Context `{HD : !EventDbLaws h events pods}.
Context (post : gmap string string -> P -> option error * P) (alerts : P -> list (gmap string string)).

(** The store as it is called.  The calls of the dispatcher do not panic; an
    addition that does ends the server: what comes after an answer to it is
    not a run any more. *)
Definition event_answers : handler EventStoreE S := fun X e s =>
  match run h (dgraphEventStore X e) s with
  | (Done x, s') => (x, s')
  | (Crashed _, s') => (no_event_answer e, s')
  end.

(** The dispatcher with the store on Dgraph and an Alertmanager. *)
Definition dispatcher_env : handler AlertE (S * P) := fun X e w =>
  match e in AlertE X return X * (S * P) with
  | AStore e => let '(x, s') := event_answers _ e w.1 in (x, (s', w.2))
  | PostAlerts labels => let '(err, p') := post labels w.2 in (err, (w.1, p'))
  end.

Definition unsent_events (s : S) : list Event := stored_events events pods not_sent s.

Lemma unsent_elem e s :
  e ∈ unsent_events s <-> exists n, e = read_event (pods s) n /\ n ∈ events s /\ not_sent n = true.
Proof.
  unfold unsent_events, stored_events. rewrite list_elem_of_fmap. setoid_rewrite list_elem_of_filter. naive_solver.
Qed.

(** The event store on Dgraph is one the dispatcher loses no alert with:
    it lists the events whose alert was not sent, in some order and with the
    pods as they are now; and setting the time of an alert takes events with
    the given uid from them, all of them when it succeeds, and no other, and
    changes none of the rest. *)
Lemma dgraph_events_serve_alerts :
  (forall labels err p p', post labels p = (err, p') ->
     alerts p' = alerts p ++ [labels] \/ (err <> None /\ alerts p' = alerts p)) ->
  AlertLaws dispatcher_env (fun w => unsent_events w.1) (fun w => alerts w.2).
Proof using HD.
  intros Hpost. split.
  - intros l err [s p] w' Hh. cbn [dispatcher_env fst snd] in Hh. unfold event_answers in Hh.
    destruct (list_events_run h events pods unsent_query not_sent s) as (r&er&s'&Hr&[He Hp]&Hnone&Hl);
      [right; left|].
    change (dgraphEventStore _ FindWhereAlertNotSent) with (list_events unsent_query) in Hh.
    rewrite Hr in Hh. injection Hh as -> -> <-. cbn [fst snd]. split_and!; [exact Hl| | |done].
    + intros e Hin. destruct err as [err|]; [rewrite Hnone in Hin by done; by apply elem_of_nil in Hin|].
      rewrite Hl in Hin by done. apply list_elem_of_fmap in Hin as (e'&->&Hin). by exists e'.
    + unfold unsent_events, stored_events. by rewrite He, Hp.
  - intros uid err [s p] w' Hh. cbn [dispatcher_env fst snd] in Hh. unfold event_answers in Hh.
    destruct (UpdateAlertSent_run h events pods uid s) as (er&s'&Hr&Hp&t&marks&He&Hm&Hall).
    change (dgraphEventStore _ (UpdateAlertSent uid)) with (dgraphEventStore_UpdateAlertSent uid) in Hh.
    rewrite Hr in Hh. injection Hh as -> <-. cbn [fst snd].
    assert (forall e, e ∈ unsent_events s' -> exists n, e = read_event (pods s) n /\ n ∈ events s /\
      not_sent n = true /\ marks n = false) as Hback.
    { intros e (n&->&Hin&Hsh)%unsent_elem. rewrite He in Hin. apply list_elem_of_fmap in Hin as (n'&->&Hin).
      destruct (marks n') eqn:Hmn; [by rewrite mark_not_sent in Hsh|]. exists n'. by rewrite Hp. }
    split_and!; [done|..].
    + intros e (n&->&Hin&Hsh&_)%Hback. apply unsent_elem. by exists n.
    + intros e (n&->&Hin&Hsh)%unsent_elem Hne. rewrite read_event_uid in Hne. apply unsent_elem.
      exists n. rewrite Hp, He. split_and!; [done| |done]. apply list_elem_of_fmap. exists n.
      destruct (marks n) eqn:Hmn; [|done]. by apply Hm in Hmn.
    + intros Herr Hne. apply Forall_forall. intros e (n&->&Hin&_&Hmn)%Hback. rewrite read_event_uid.
      intros Hu. by rewrite (Hall Herr Hne n Hin Hu) in Hmn.
  - intros labels err [s p] w' Hh. cbn [dispatcher_env fst snd] in Hh.
    destruct (post labels p) as [er p'] eqn:Hp. injection Hh as <- <-. cbn [fst snd].
    split; [done|]. by apply Hpost.
Qed.
End dispatcher.

(** * Payloads *)

Definition pod_members (p : DPod) : list (string * json) :=
  opt_string "pod_namespace" (DPod_Namespace p) ++ opt_string "pod_name" (DPod_Name p) ++
  opt_string "pod_uid" (DPod_PodUID p) ++ opt_string "pod_labels" (DPod_Labels p).

Definition target_before (t : DTarget) : list (string * json) :=
  opt_string "target_violated_processes" (DTarget_ViolatedProcesses t) ++
  opt_string "target_violated_files" (DTarget_ViolatedFiles t) ++
  opt_string "target_falco_alert" (DTarget_FalcoAlert t).

Definition target_after (t : DTarget) : list (string * json) :=
  opt_string "tarian_detection_data_type" (DTarget_DetectionDataType t) ++
  opt_string "tarian_detection_data" (DTarget_DetectionData t).

Definition event_members (e : DEvent) : list (string * json) :=
  opt_string "event_type" (DEvent_Type e) ++ opt_string "event_uid" (DEvent_EventUID e) ++
  opt_ptr enc_time "event_client_timestamp" (DEvent_ClientTimestamp e) ++
  opt_ptr enc_time "event_server_timestamp" (DEvent_ServerTimestamp e) ++
  opt_ptr enc_time "event_alert_sent_at" (DEvent_AlertSentAt e).

Definition cleaned (l : list (string * json)) : list (string * json) := List.map clean_member l.

(** A target as it is sent: with a blank node, and a pod that has a uid. *)
Definition to_send (t : DTarget) : Prop :=
  (exists i, DTarget_UID t = "_:target" +:+ Itoa i) /\ DTarget_DType t = Some ["Target"] /\
  match DTarget_Pod t with
  | Some p => DPod_DType p = Some ["Pod"] /\ uid_ok (DPod_UID p)
  | None => True
  end.

Definition sent_target (t : DTarget) : new_target :=
  {| nt_blank := str_drop 2 (DTarget_UID t);
     nt_before := cleaned (target_before t);
     nt_pod := (fun p => (DPod_UID p, cleaned (pod_members p))) <$> DTarget_Pod t;
     nt_after := cleaned (target_after t) |}.

Lemma clean_ascii s : all_ascii s = true -> clean s = s.
Proof. intros Hs. by apply utf8_clean, utf8_ascii. Qed.

Lemma opt_uid u : uid_ok u -> List.map clean_member (opt_string "uid" u) = [("uid", JStr u)].
Proof.
  intros Hu. destruct (quoted_uid u Hu) as [_ Hc].
  assert (opt_string "uid" u = [("uid", JStr u)]) as -> by (by destruct Hu as (d&->&_)).
  change (List.map clean_member [("uid", JStr u)]) with [(clean "uid", JStr (clean u))]. by rewrite Hc.
Qed.

Lemma pod_payload p :
  DPod_DType p = Some ["Pod"] -> uid_ok (DPod_UID p) ->
  clean_json (enc_DPod p) = typed (DPod_UID p) "Pod" (cleaned (pod_members p)).
Proof.
  intros Ht Hu. unfold enc_DPod, typed. cbn [clean_json].
  change (fun kv => (clean kv.1, clean_json kv.2)) with clean_member.
  rewrite List.map_app, opt_uid by done. rewrite Ht. reflexivity.
Qed.

Lemma upsert_payload p :
  DPod_DType p = Some ["Pod"] ->
  clean_json (enc_DPod (set_DPod_UID "uid(p)" p)) = typed "uid(p)" "Pod" (cleaned (pod_members p)).
Proof. intros Ht. destruct p as [u t ns n uid l]. cbn in Ht. subst t. reflexivity. Qed.

Lemma target_payload t :
  to_send t -> clean_json (enc_DTarget t) = new_target_json (sent_target t).
Proof.
  intros ((i&Hi)&Ht&Hp). unfold enc_DTarget, new_target_json, typed, sent_target, cleaned, target_before, target_after.
  cbn [nt_blank nt_before nt_pod nt_after clean_json].
  change (fun kv => (clean kv.1, clean_json kv.2)) with clean_member.
  rewrite Hi, Ht, !List.map_app, <- !app_assoc.
  assert (all_ascii ("_:target" +:+ Itoa i) = true) as Ha by (rewrite ascii_app, ascii_Itoa; done).
  assert (List.map clean_member (opt_string "uid" ("_:target" +:+ Itoa i)) =
          [("uid", JStr ("_:" +:+ str_drop 2 ("_:target" +:+ Itoa i)))]) as ->.
  { change (List.map clean_member _) with [(clean "uid", JStr (clean ("_:target" +:+ Itoa i)))].
    by rewrite (clean_ascii _ Ha). }
  destruct (DTarget_Pod t) as [p|]; [|reflexivity]. destruct Hp as [Hpt Hu]. cbn [opt_ptr List.map fmap option_fmap option_map].
  assert (clean_member ("pod", enc_DPod p) = ("pod", typed (DPod_UID p) "Pod" (cleaned (pod_members p)))) as ->.
  { unfold clean_member. cbn [fst snd]. by rewrite (pod_payload p Hpt Hu). }
  reflexivity.
Qed.

Lemma event_payload e ts :
  DEvent_UID e = "_:event" -> DEvent_DType e = Some ["Event"] -> Forall to_send ts ->
  clean_json (enc_DEvent (set_DEvent_Targets (Some ts) e)) =
  new_event_json "event" (cleaned (event_members e)) (sent_target <$> ts).
Proof.
  destruct e as [u t ty eu c s a ts0]. cbn [DEvent_UID DEvent_DType]. intros -> -> Hts.
  unfold enc_DEvent, new_event_json, typed, cleaned, event_members, set_DEvent_Targets.
  cbn [clean_json DEvent_UID DEvent_DType DEvent_Type DEvent_EventUID DEvent_ClientTimestamp
       DEvent_ServerTimestamp DEvent_AlertSentAt DEvent_Targets].
  change (fun kv => (clean kv.1, clean_json kv.2)) with clean_member.
  rewrite !List.map_app, <- !app_assoc.
  assert (List.map clean_member (opt_slice enc_DTarget "targets" (Some ts)) =
          match sent_target <$> ts with
          | [] => [] | _ => [("targets", JArr (List.map new_target_json (sent_target <$> ts)))] end) as ->.
  { destruct ts as [|t ts]; [done|].
    change (clean_member ("targets", JArr (List.map enc_DTarget (t :: ts))) ::
      [] = [("targets", JArr (List.map new_target_json (sent_target <$> t :: ts)))]).
    unfold clean_member. cbn [fst snd]. change (clean "targets") with "targets". do 2 f_equal.
    change (clean_json (JArr ?l)) with (JArr (List.map clean_json l)). f_equal.
    clear -Hts. induction Hts as [|x l Hx _ IH]; [done|].
    cbn [List.map fmap list_fmap]. rewrite (target_payload x Hx). f_equal. exact IH. }
  reflexivity.
Qed.

(** What is sent is JSON, and flat where Dgraph keeps values. *)
Lemma json_ok_DPod p : json_ok (enc_DPod p).
Proof. unfold enc_DPod. apply json_ok_obj. eauto 20 with json. Qed.

Lemma json_ok_DTarget t : json_ok (enc_DTarget t).
Proof. unfold enc_DTarget. apply json_ok_obj. eauto 20 using json_ok_DPod with json. Qed.

Lemma json_ok_time t : json_ok (enc_time t).
Proof. constructor. Qed.

Lemma json_ok_DEvent e : json_ok (enc_DEvent e).
Proof. unfold enc_DEvent. apply json_ok_obj. eauto 20 using json_ok_DTarget, json_ok_time with json. Qed.

Lemma flat_opt_time k t : all_ascii k = true -> Forall flat (cleaned (opt_ptr enc_time k t)).
Proof.
  intros Hk. destruct t as [t|]; [|constructor]. unfold cleaned. cbn [opt_ptr List.map].
  repeat constructor; unfold clean_member; cbn [fst snd clean_json enc_time].
  - by rewrite clean_ascii.
  - apply utf8_clean_valid.
Qed.

Lemma flat_pod p : Forall flat (cleaned (pod_members p)).
Proof. unfold cleaned, pod_members. eauto 20 with dgraph. Qed.

Lemma flat_sent_target t : flat_target (sent_target t).
Proof.
  unfold flat_target, sent_target. cbn [nt_before nt_after nt_pod]. unfold cleaned, target_before, target_after.
  split_and!; [eauto 20 with dgraph..|]. destruct (DTarget_Pod t); [apply flat_pod|done].
Qed.

Lemma flat_event e : Forall flat (cleaned (event_members e)).
Proof.
  unfold event_members. repeat apply flat_app; first [by apply flat_opt_time | eauto with dgraph].
Qed.

(** * Upserted pods *)

(** The values of a pod, none of them empty. *)
Definition pod_ok (p : DPod) : Prop :=
  DPod_DType p = Some ["Pod"] /\ DPod_Namespace p <> "" /\ DPod_Name p <> "" /\
  DPod_PodUID p <> "" /\ DPod_Labels p <> "".

(** A node has the values of a pod. *)
Definition reads_pod (p : DPod) (n : node) : Prop :=
  string_pred "pod_namespace" n = clean (DPod_Namespace p) /\
  string_pred "pod_name" n = clean (DPod_Name p) /\
  string_pred "pod_uid" n = clean (DPod_PodUID p) /\
  string_pred "pod_labels" n = clean (DPod_Labels p).

(** The node a pod refers to is there, and has its values. *)
Definition in_pods (ns : list node) (p : DPod) : Prop :=
  exists n, n ∈ ns /\ node_uid n = DPod_UID p /\ reads_pod p n.

(** Pods with the same uid are the same pod. *)
Definition consistent (l : list DPod) : Prop := forall p q, p ∈ l -> q ∈ l ->
  clean (DPod_PodUID p) = clean (DPod_PodUID q) ->
  DPod_Namespace p = DPod_Namespace q /\ DPod_Name p = DPod_Name q /\ DPod_Labels p = DPod_Labels q.

Lemma opt_string_some k v : v <> "" -> opt_string k v = [(k, JStr v)].
Proof. unfold opt_string. by intros ->%String.eqb_neq. Qed.

Lemma pod_preds p : pod_ok p ->
  cleaned (pod_members p) =
  [("pod_namespace", JStr (clean (DPod_Namespace p))); ("pod_name", JStr (clean (DPod_Name p)));
   ("pod_uid", JStr (clean (DPod_PodUID p))); ("pod_labels", JStr (clean (DPod_Labels p)))].
Proof. intros (_&H1&H2&H3&H4). unfold pod_members. by rewrite !opt_string_some. Qed.

Lemma reads_set p u t l : pod_ok p -> reads_pod p (mkNode u t (cleaned (pod_members p) ++ l)).
Proof. intros Hp. rewrite pod_preds by done. by split_and!. Qed.

Lemma has_pod_uid_spec v n : v <> "" -> has_pod_uid v n = true <-> string_pred "pod_uid" n = v.
Proof.
  intros Hv. unfold has_pod_uid, string_pred.
  destruct (node_pred "pod_uid" n) as [[]|]; rewrite ?String.eqb_eq; naive_solver.
Qed.

Section merging.
Context (p q : DPod) (Hp : pod_ok p) (Hq : pod_ok q).
Context (Hc : clean (DPod_PodUID p) = clean (DPod_PodUID q) ->
  DPod_Namespace p = DPod_Namespace q /\ DPod_Name p = DPod_Name q /\ DPod_Labels p = DPod_Labels q).

(** Setting the values of one pod changes no other. *)
Lemma merged_reads n :
  reads_pod p n -> clean (DPod_PodUID p) = clean (DPod_PodUID q) ->
  reads_pod p (merged (cleaned (pod_members q)) n).
Proof using Hq Hc.
  intros _ Hu. destruct (Hc Hu) as (H1&H2&H3).
  destruct (reads_set q (node_uid n) (node_type n) (node_preds n) Hq) as (R1&R2&R3&R4).
  unfold reads_pod. rewrite H1, H2, H3, Hu. done.
Qed.

Lemma in_pods_merge (P : node -> bool) ns :
  (forall n, n ∈ ns -> node_uid n = DPod_UID p -> reads_pod p n -> P n = true ->
     clean (DPod_PodUID p) = clean (DPod_PodUID q)) ->
  in_pods ns p -> in_pods (merge_where P (cleaned (pod_members q)) ns) p.
Proof using Hq Hc.
  intros HP (n&Hn&Hu&Hr). exists (if P n then merged (cleaned (pod_members q)) n else n).
  split; [|destruct (P n) eqn:HPn; [|done]].
  - unfold merge_where. apply list_elem_of_fmap. by exists n.
  - split; [done|]. by apply merged_reads, (HP n).
Qed.
End merging.

Lemma merge_where_uids P preds ns : node_uid <$> merge_where P preds ns = node_uid <$> ns.
Proof.
  unfold merge_where. rewrite <- list_fmap_compose. apply list_fmap_ext. intros _ n _. cbn.
  by destruct (P n).
Qed.

Lemma in_pods_cons ns n p : in_pods ns p -> in_pods (n :: ns) p.
Proof. intros (n'&?&?&?). exists n'. split; [by right|done]. Qed.

(** Every node of a pod is still found, and is one of the same pod. *)
Definition grows (ns ns' : list node) : Prop := forall u n,
  List.find (fun n => String.eqb (node_uid n) u) ns = Some n ->
  exists n', List.find (fun n => String.eqb (node_uid n) u) ns' = Some n' /\
    string_pred "pod_uid" n' = string_pred "pod_uid" n.

#[export] Instance grows_preorder : PreOrder grows.
Proof.
  split; [by intros ns u n Hn; exists n|]. intros ns1 ns2 ns3 H1 H2 u n Hn.
  destruct (H1 u n Hn) as (n2&Hn2&He2). destruct (H2 u n2 Hn2) as (n3&Hn3&He3).
  exists n3. by rewrite He3.
Qed.

Lemma grows_cons ns n : node_uid n ∉ node_uid <$> ns -> grows ns (n :: ns).
Proof.
  intros Hn u n' Hf. exists n'. split; [|done]. cbn [List.find].
  destruct (String.eqb_spec (node_uid n) u) as [<-|_]; [|done]. destruct Hn.
  apply List.find_some in Hf as [Hin Hu%String.eqb_eq]. rewrite <- Hu.
  apply list_elem_of_fmap_2. by apply list_elem_of_In.
Qed.

(** Values of a pod on nodes of that pod. *)
Lemma grows_merge q (P : node -> bool) ns :
  pod_ok q -> (forall n, n ∈ ns -> P n = true -> string_pred "pod_uid" n = clean (DPod_PodUID q)) ->
  grows ns (merge_where P (cleaned (pod_members q)) ns).
Proof.
  intros Hq HP u n Hf. exists (if P n then merged (cleaned (pod_members q)) n else n).
  assert (n ∈ ns) as Hn by (apply List.find_some in Hf as [Hin _]; by apply list_elem_of_In). split.
  - clear HP Hn. induction ns as [|x ns IH]; [done|]. unfold merge_where. cbn [List.find fmap list_fmap] in *.
    assert (node_uid (if P x then merged (cleaned (pod_members q)) x else x) = node_uid x) as -> by by destruct (P x).
    destruct (String.eqb (node_uid x) u); [by injection Hf as ->|by apply IH].
  - destruct (P n) eqn:Hp; [|done]. rewrite (HP n Hn Hp).
    by destruct (reads_set q (node_uid n) (node_type n) (node_preds n) Hq) as (_&_&R&_).
Qed.

Section adding.
Context {S : Type} (h : handler EventDbE S) (events : S -> list event_node) (pods : S -> list node).
Context `{HD : !EventDbLaws h events pods}.

Lemma dec_upserted_text resp l :
  parse resp = Some (JObj [("pod", JArr (List.map (fun n => JObj [("uid", JStr (node_uid n))]) l))]) ->
  Unmarshal dec_upserted resp None = (Some (node_uid <$> l), None).
Proof.
  intros Hp. unfold Unmarshal. rewrite Hp. unfold dec_upserted. cbn [dec_struct dec_members].
  change (find_field "pod" _) with (Some (field (fun x : slice string => x) (fun _ v => v) (dec_slice "" dec_uid))).
  unfold field. cbn [dec_slice].
  assert (List.map (fun j => (dec_uid "" j).1) (List.map (fun n => JObj [("uid", JStr (node_uid n))]) l) =
          node_uid <$> l /\
    fold_right (fun j e => first_error (dec_uid "" j).2 e) None
      (List.map (fun n => JObj [("uid", JStr (node_uid n))]) l) = None) as [-> ->]; [|done].
  clear. induction l as [|n l [IH1 IH2]]; [done|]. cbn [List.map fold_right fmap list_fmap].
  by rewrite IH1, IH2.
Qed.

Lemma uid_nonempty u : uid_ok u -> String.eqb u "" = false.
Proof. by intros (d&->&_). Qed.

(** A successful upsert gives the uid of a pod with these values, and keeps
    the pods that were there before. *)
Lemma UpsertPod_run q s q' s' :
  pod_ok q -> run h (UpsertPod q) s = (Done (q', None), s') ->
  events s' = events s /\ (exists u, q' = set_DPod_UID u q) /\ uid_ok (DPod_UID q') /\
  in_pods (pods s') q' /\
  forall p, consistent [p; q] -> in_pods (pods s) p -> in_pods (pods s') p.
Proof using HD.
  intros Hq. pose proof Hq as (Ht&_&_&Hne&_). unfold UpsertPod. cbn [run bind call].
  destruct (h _ (Db (Do (upsert_request (set_DPod_UID "uid(p)" q)))) s) as [[resp er] s1] eqn:Hh.
  destruct (ed_upsert h events pods (Marshal (enc_DPod (set_DPod_UID "uid(p)" q))) (DPod_PodUID q)
    (cleaned (pod_members q)) s resp er s1) as [He Hr];
    [|apply flat_pod|done|exact Hh|].
  { unfold Marshal. rewrite parse_print by apply json_ok_DPod. by rewrite upsert_payload. }
  destruct er as [er|]; [by destruct Hr as [-> _]|]. destruct Hr as (Hutf&r&->&Hups). cbn [deref bind].
  pose proof (utf8_clean _ Hutf) as Hcl.
  assert (forall u, uid_ok u -> (set_DPod_UID u q, None) = (q', @None error) ->
    in_pods (pods s1) (set_DPod_UID u q) -> s1 = s' ->
    (forall p, consistent [p; q] -> in_pods (pods s) p -> in_pods (pods s1) p) ->
    events s' = events s /\ (exists u, q' = set_DPod_UID u q) /\ uid_ok (DPod_UID q') /\
    in_pods (pods s') q' /\
    forall p, consistent [p; q] -> in_pods (pods s) p -> in_pods (pods s') p) as Hend.
  { intros u Hu [= <-] Hin <- Hall. split_and!; try done. by exists u. }
  destruct Hups as [(Hnone&u&Hlk&Hfresh&Hps)|(l&Hl0&Hl&Hlk&Hjson&Hps)]; rewrite Hlk.
  - assert (uid_ok u) as Hu.
    { pose proof (ed_uids h events pods s1) as Hall. rewrite Hps, fmap_cons in Hall. by inversion Hall. }
    rewrite (uid_nonempty u Hu). cbn [run]. intros [= <- <-]. apply (Hend u); try done.
    + rewrite Hps. eexists. split; [left|]. split; [done|].
      rewrite <- (app_nil_r (cleaned (pod_members q))). by apply (reads_set q).
    + intros p _ Hin. rewrite Hps. by apply in_pods_cons.
  - rewrite (dec_upserted_text _ l Hjson). cbn [elems default]. destruct l as [|n l]; [done|].
    assert (n ∈ filter (fun n => has_pod_uid (DPod_PodUID q) n = true) (pods s)) as Hn
      by (rewrite <- Hl; left).
    apply list_elem_of_filter in Hn as [Hm Hn].
    assert (uid_ok (node_uid n)) as Hu.
    { apply (proj1 (Forall_forall _ _) (ed_uids h events pods s)). by apply list_elem_of_fmap_2. }
    cbn [fmap list_fmap elems default id]. rewrite (uid_nonempty _ Hu). cbn [run]. intros [= <- <-]. apply (Hend (node_uid n)); try done.
    + rewrite Hps. exists (merged (cleaned (pod_members q)) n). split_and!; [|done|by apply (reads_set q)].
      unfold merge_where. apply list_elem_of_fmap. exists n. by rewrite Hm.
    + intros p Hc Hin. rewrite Hps. apply (in_pods_merge p q); [done|apply Hc; [left|right; left]| |done].
      intros n' _ _ (_&_&Hr&_) Hm'. apply has_pod_uid_spec in Hm'; [|done]. by rewrite <- Hr, Hm', Hcl.
Qed.

(** However an upsert ends, the pods that were there are. *)
Lemma UpsertPod_grows q s :
  pod_ok q -> let s' := (run h (UpsertPod q) s).2 in events s' = events s /\ grows (pods s) (pods s').
Proof using HD.
  intros Hq. pose proof Hq as (Ht&_&_&Hne&_). unfold UpsertPod. cbn [run bind call].
  destruct (h _ (Db (Do (upsert_request (set_DPod_UID "uid(p)" q)))) s) as [[resp er] s1] eqn:Hh.
  destruct (ed_upsert h events pods (Marshal (enc_DPod (set_DPod_UID "uid(p)" q))) (DPod_PodUID q)
    (cleaned (pod_members q)) s resp er s1) as [He Hr];
    [|apply flat_pod|done|exact Hh|].
  { unfold Marshal. rewrite parse_print by apply json_ok_DPod. by rewrite upsert_payload. }
  assert (grows (pods s) (pods s1)) as Hg.
  { assert (pods s1 = pods s \/ (utf8 (DPod_PodUID q) /\ exists r, upserted pods (DPod_PodUID q) (cleaned (pod_members q)) r s s1))
      as [->|(Hutf&r&Hups)] by (destruct er; [apply Hr|right; destruct Hr as (?&r&_&?); eauto]); [done|].
    pose proof (utf8_clean _ Hutf) as Hcl.
    destruct Hups as [(_&u&_&Hfresh&->)|(l&_&_&_&_&->)]; [by apply grows_cons|].
    apply grows_merge; [done|]. intros n _ Hm. rewrite Hcl. by apply has_pod_uid_spec. }
  assert (forall s' : S, s' = s1 -> events s' = events s /\ grows (pods s) (pods s')) as Hend by by intros s' ->.
  apply Hend. destruct resp as [resp|]; [|done]. cbn [deref bind]. repeat case_match; done.
Qed.

Definition target_pods (ts : list DTarget) : list DPod := omap DTarget_Pod ts.

Lemma consistent_sub l l' : (forall p, p ∈ l' -> p ∈ l) -> consistent l -> consistent l'.
Proof. intros Hl Hc p q Hp Hq. by apply Hc; apply Hl. Qed.

Definition pod_sent (t t' : DTarget) : Prop :=
  match DTarget_Pod t with
  | None => t' = t
  | Some p => exists u, uid_ok u /\ t' = set_DTarget_Pod (Some (set_DPod_UID u p)) t
  end.

Lemma upsert_pods_grows ts s :
  Forall pod_ok (target_pods ts) ->
  let s' := (run h (upsert_pods ts) s).2 in events s' = events s /\ grows (pods s) (pods s').
Proof using HD.
  revert s. induction ts as [|t ts IH]; intros s Hok; [done|]. unfold target_pods in Hok. cbn [omap list_omap] in Hok.
  cbn [upsert_pods]. destruct (DTarget_Pod t) as [q|].
  - apply Forall_cons in Hok as [Hq Hok]. destruct (UpsertPod_grows q s Hq) as [He Hg]. rewrite run_bind.
    destruct (run h (UpsertPod q) s) as [[[q' [er|]]|c] s1]; [done| |done]. cbn [snd] in He, Hg. rewrite run_bind.
    destruct (IH s1 Hok) as [He1 Hg1]. destruct (run h (upsert_pods ts) s1) as [[o|c] s2]; cbn [run snd] in *;
      (split; [congruence|by etrans]).
  - rewrite run_bind. destruct (IH s Hok) as [He1 Hg1]. by destruct (run h (upsert_pods ts) s) as [[o|c] s2].
Qed.

(** The pods of all targets are upserted, those of earlier ones stay. *)
Lemma upsert_pods_run ts ts' s s' (known : list DPod) :
  run h (upsert_pods ts) s = (Done (inl ts'), s') ->
  Forall pod_ok (target_pods ts) -> consistent (known ++ target_pods ts) ->
  Forall (in_pods (pods s)) known ->
  events s' = events s /\ Forall2 pod_sent ts ts' /\
  Forall (in_pods (pods s')) (known ++ target_pods ts').
Proof using HD.
  revert ts' s known. induction ts as [|t ts IH]; intros ts' s known Hr Hok Hc Hk.
  - injection Hr as <- <-. cbn. rewrite app_nil_r. by split_and!; [|constructor|].
  - cbn [upsert_pods] in Hr. unfold target_pods in Hok, Hc. cbn [omap list_omap] in Hok, Hc.
    unfold pod_sent. destruct (DTarget_Pod t) as [q|] eqn:Hpod.
    + rewrite run_bind in Hr. destruct (run h (UpsertPod q) s) as [[[q' [er|]]|c] s1] eqn:Hq; [done| |done].
      rewrite run_bind in Hr. destruct (run h (upsert_pods ts) s1) as [[[ts1|er]|c] s2] eqn:Hts; [|done|done].
      injection Hr as <- <-. apply Forall_cons in Hok as [Hqok Hok].
      destruct (UpsertPod_run q s q' s1 Hqok Hq) as (He&(u&->)&Hu&Hin&Hall). cbn in Hu.
      destruct (IH ts1 s1 (known ++ [set_DPod_UID u q]) Hts Hok) as (He2&H2&Hk2).
      * intros p1 p2 H1 H2. assert (forall p, p ∈ (known ++ [set_DPod_UID u q]) ++ target_pods ts ->
          exists p0, p0 ∈ known ++ q :: target_pods ts /\ DPod_Namespace p = DPod_Namespace p0 /\
            DPod_Name p = DPod_Name p0 /\ DPod_PodUID p = DPod_PodUID p0 /\ DPod_Labels p = DPod_Labels p0) as Hsame.
        { intros p. rewrite !elem_of_app, list_elem_of_singleton. intros [[H| ->]|H]; [exists p|exists q|exists p];
            (split; [rewrite elem_of_app, elem_of_cons; tauto|done]). }
        destruct (Hsame p1 H1) as (q1&Hq1&->&->&->&->), (Hsame p2 H2) as (q2&Hq2&->&->&->&->).
        by apply Hc.
      * apply Forall_app. split; [|by repeat constructor]. apply Forall_forall. intros p Hp. apply Hall.
        -- apply (consistent_sub (known ++ q :: target_pods ts)); [|done].
           intros p'. rewrite !elem_of_cons, elem_of_app, elem_of_cons. intros [->|[->|?%elem_of_nil]]; tauto.
        -- by apply (proj1 (Forall_forall _ _) Hk).
      * split_and!; [by rewrite He2| |by rewrite <- app_assoc in Hk2].
        constructor; [|done]. rewrite Hpod. by exists u.
    + rewrite run_bind in Hr. destruct (run h (upsert_pods ts) s) as [[[ts1|er]|c] s2] eqn:Hts; [|done|done].
      injection Hr as <- <-. destruct (IH ts1 s known Hts Hok Hc Hk) as (He&H2&Hk2).
      split_and!; [done|constructor; [by rewrite Hpod|done]|].
      unfold target_pods. cbn [omap list_omap]. by rewrite Hpod.
Qed.
End adding.

(** * An event comes back *)

Lemma dgraphTargetsFromPb_run {S} (h : handler EventDbE S) i l s ds s' :
  run h (dgraphTargetsFromPb i l) s = (Done ds, s') ->
  s' = s /\ exists ts, l = Some <$> ts /\ ds = imap (fun j => dgraphTargetFromPb (i + j)) ts.
Proof.
  revert i ds. induction l as [|[t|] l IH]; intros i ds Hr; [|..|done].
  - injection Hr as <- <-. split; [done|]. by exists [].
  - cbn [dgraphTargetsFromPb deref bind] in Hr. rewrite run_bind in Hr.
    destruct (run h (dgraphTargetsFromPb (Datatypes.S i) l) s) as [[ts|c] s1] eqn:Hts; [|done].
    injection Hr as <- <-. destruct (IH _ _ Hts) as (->&ts'&->&->). split; [done|].
    exists (t :: ts'). split; [done|]. rewrite imap_cons, Nat.add_0_r. f_equal.
    apply imap_ext. intros j x _. cbn. f_equal. lia.
Qed.

Lemma dgraphTargetsFromPb_some {S} (h : handler EventDbE S) i ts s :
  run h (dgraphTargetsFromPb i (Some <$> ts)) s = (Done (imap (fun j => dgraphTargetFromPb (i + j)) ts), s).
Proof.
  revert i. induction ts as [|t ts IH]; intros i; [done|].
  cbn [fmap list_fmap dgraphTargetsFromPb deref bind]. rewrite run_bind, IH. cbn [run].
  rewrite imap_cons, Nat.add_0_r. do 3 f_equal. apply imap_ext. intros j x _. cbn. f_equal. lia.
Qed.

(** What is kept of an event: strings are made valid UTF-8, empty lists are
    none, the kind is that of [NewEvent], and detection data is dropped. *)
Definition stored_pod (p : Pod) : Pod :=
  mkPod (clean (Pod_Uid p)) (clean (Pod_Namespace p)) (clean (Pod_Name p))
    (List.map (fmap (M := option) clean_Label) <$> Pod_Labels p).

Definition stored_target (t : Target) : Target :=
  mkTarget (stored_pod <$> Target_Pod t)
    (kept_slice (fmap (M := option) clean_Process) (Target_ViolatedProcesses t))
    (kept_slice (fmap (M := option) clean_ViolatedFile) (Target_ViolatedFiles t))
    (clean_FalcoAlert <$> Target_FalcoAlert t) "" "".

Definition stored_time (t : ptr Timestamp) : ptr Timestamp :=
  match t with Some _ => Some (timestamppb_New (AsTime t)) | None => None end.

(** [stored e e']: [e'] is what the store gives back for [e]; the order of the
    targets is Dgraph's. *)
Definition stored_as (e e' : Event) : Prop :=
  exists ts, e' = mkEvent KindEvent (clean (Event_Type e)) (clean (Event_Uid e))
      (stored_time (Event_ServerTimestamp e)) (stored_time (Event_ClientTimestamp e))
      (stored_time (Event_AlertSentAt e)) (Some ts) /\
    ts ≡ₚ fmap (M := option) stored_target <$> elems (Event_Targets e).

(** Numbers of the messages have 32 bits; pods have a uid, a namespace and a
    name. *)
Definition target_ok (t : ptr Target) : Prop :=
  Forall (on_ptr (fun x => int32 (Process_Pid x))) (elems (Target_GetViolatedProcesses t)) /\
  on_ptr (fun x => int32 (FalcoAlert_Priority x)) (Target_GetFalcoAlert t) /\
  on_ptr (fun p => Pod_Uid p <> "" /\ Pod_Namespace p <> "" /\ Pod_Name p <> "") (Target_GetPod t).

Definition event_pods (e : Event) : list Pod := omap Target_GetPod (elems (Event_Targets e)).

Definition event_ok (e : Event) : Prop :=
  Forall target_ok (elems (Event_Targets e)) /\
  forall p q, p ∈ event_pods e -> q ∈ event_pods e -> clean (Pod_Uid p) = clean (Pod_Uid q) -> p = q.

(** ** One target *)

Lemma Marshal_nonempty j : json_ok j -> Marshal j <> "".
Proof.
  intros Hj He. pose proof (parse_print j Hj) as Hp. unfold Marshal in He. rewrite He in Hp.
  change (parse "") with (@None json) in Hp. discriminate Hp.
Qed.

(** Reading back a text that was written, when there was something to write. *)
Lemma Unmarshal_text {A} (P : A -> Prop) enc dec (zero : A) f x :
  codes_on P enc dec zero f -> P x ->
  let text := clean (Marshal (enc x)) in
  (if String.eqb text "" then zero else (Unmarshal dec text zero).1) = f x.
Proof.
  intros Hc Hx. cbv zeta. destruct (Hc x Hx) as [Hok _].
  rewrite (utf8_clean (Marshal (enc x))) by by apply utf8_print.
  pose proof (Marshal_nonempty (enc x) Hok) as Hne. apply String.eqb_neq in Hne. rewrite Hne.
  by rewrite (Unmarshal_Marshal_on P enc dec zero f Hc x Hx).
Qed.

Lemma codes_weaken {A} (P : A -> Prop) enc dec (zero : A) f : codes enc dec zero f -> codes_on P enc dec zero f.
Proof. intros Hc x _. apply Hc. Qed.

Lemma codes_labels :
  codes (enc_slice (enc_ptr enc_Label)) (dec_slice None (dec_ptr zero_Label dec_Label)) None
    (fmap (M := option) (List.map (fmap (M := option) clean_Label))).
Proof. apply codes_slice, codes_ptr; [apply codes_Label|done]. Qed.

Lemma codes_violated_files :
  codes (enc_slice (enc_ptr enc_ViolatedFile)) (dec_slice None (dec_ptr zero_ViolatedFile dec_ViolatedFile)) None
    (fmap (M := option) (List.map (fmap (M := option) clean_ViolatedFile))).
Proof. apply codes_slice, codes_ptr; [apply codes_ViolatedFile|done]. Qed.

Lemma codes_violated_processes :
  codes_on (fun s => Forall (on_ptr (fun x => int32 (Process_Pid x))) (elems s))
    (enc_slice (enc_ptr enc_Process)) (dec_slice None (dec_ptr zero_Process dec_Process)) None
    (fmap (M := option) (List.map (fmap (M := option) clean_Process))).
Proof. apply codes_on_slice, codes_on_ptr; [apply codes_Process|done]. Qed.

Lemma codes_falco :
  codes_on (on_ptr (fun x => int32 (FalcoAlert_Priority x)))
    (enc_ptr enc_FalcoAlert) (dec_ptr zero_FalcoAlert dec_FalcoAlert) None
    (fmap (M := option) clean_FalcoAlert).
Proof. apply codes_on_ptr; [apply codes_FalcoAlert|done]. Qed.

(** A target node with these values is read as the target. *)
Lemma written_target u ty t :
  let n := mkNode u ty (cleaned (target_before t) ++ cleaned (target_after t)) in
  string_pred "target_violated_processes" n = clean (DTarget_ViolatedProcesses t) /\
  string_pred "target_violated_files" n = clean (DTarget_ViolatedFiles t) /\
  string_pred "target_falco_alert" n = clean (DTarget_FalcoAlert t).
Proof.
  unfold cleaned. rewrite <- List.map_app. split_and!; match goal with |- string_pred ?k _ = ?v =>
      change (string_value (written k (target_before t ++ target_after t)) = v) end;
    unfold target_before, target_after; rewrite <- !app_assoc;
    rewrite <- (app_nil_r (opt_string "tarian_detection_data" _)); find_written.
Qed.

Lemma kept_slice_some {A} (f : A -> A) (s : slice A) :
  (0 <? length (elems s))%nat = true -> kept_slice f s = fmap (M := option) (List.map f) s.
Proof. by destruct s as [[]|]. Qed.
Lemma kept_slice_none {A} (f : A -> A) (s : slice A) :
  (0 <? length (elems s))%nat = false -> kept_slice f s = None.
Proof. by destruct s as [[]|]. Qed.

Lemma find_pod ns n :
  NoDup (node_uid <$> ns) -> n ∈ ns -> List.find (fun x => String.eqb (node_uid x) (node_uid n)) ns = Some n.
Proof.
  induction ns as [|x ns IH]; intros Hd Hin; [by apply elem_of_nil in Hin|].
  rewrite fmap_cons in Hd. apply NoDup_cons in Hd as [Hx Hd]. cbn [List.find].
  apply elem_of_cons in Hin as [<-|Hin]; [by rewrite String.eqb_refl|].
  destruct (String.eqb_spec (node_uid x) (node_uid n)) as [He|_]; [|by apply IH].
  exfalso. apply Hx. rewrite He. by apply list_elem_of_fmap_2.
Qed.

Lemma pod_comes_back i p ns u :
  NoDup (node_uid <$> ns) -> in_pods ns (set_DPod_UID u (dgraphPodFromPb i p)) ->
  (toPbPod ∘ read_pod) <$> List.find (fun n => String.eqb (node_uid n) u) ns = Some (stored_pod p).
Proof.
  intros Hd (n&Hn&Hu&H1&H2&H3&H4).
  cbn [set_DPod_UID dgraphPodFromPb DPod_UID DPod_Namespace DPod_Name DPod_PodUID DPod_Labels] in Hu, H1, H2, H3, H4.
  subst u. rewrite (find_pod ns n Hd Hn).
  cbn [fmap option_fmap option_map compose]. f_equal. unfold toPbPod, read_pod, stored_pod.
  cbn [DPod_PodUID DPod_Namespace DPod_Name DPod_Labels]. rewrite H1, H2, H3, H4.
  rewrite (clean_Marshal _ _ _ _ _ codes_labels), (Unmarshal_Marshal _ _ _ _ _ codes_labels). done.
Qed.

Lemma target_comes_back i t ns tn u :
  target_ok (Some t) ->
  node_preds (tn_node tn) = cleaned (target_before (dgraphTargetFromPb i t)) ++
                            cleaned (target_after (dgraphTargetFromPb i t)) ->
  tn_pod tn = (fun _ => u) <$> Target_Pod t -> NoDup (node_uid <$> ns) ->
  on_ptr (fun p => in_pods ns (set_DPod_UID u (dgraphPodFromPb i p))) (Target_Pod t) ->
  toPbTarget (read_target ns tn) = stored_target t.
Proof.
  intros (Hps&Hfa&_) Hn Hpod Hd Hin. cbn [Target_GetViolatedProcesses Target_GetFalcoAlert] in *.
  destruct (written_target "" "" (dgraphTargetFromPb i t)) as (W1&W2&W3).
  assert (forall k, string_pred k (tn_node tn) = string_pred k (mkNode "" ""
    (cleaned (target_before (dgraphTargetFromPb i t)) ++ cleaned (target_after (dgraphTargetFromPb i t))))) as Hs
    by (intros k; unfold string_pred, node_pred; by rewrite Hn).
  unfold read_target, toPbTarget, stored_target.
  cbn [DTarget_Pod DTarget_ViolatedProcesses DTarget_ViolatedFiles DTarget_FalcoAlert
       Target_ViolatedProcesses Target_ViolatedFiles Target_FalcoAlert Target_DetectionDataType
       Target_DetectionData DTarget_DetectionDataType DTarget_DetectionData].
  rewrite !Hs, W1, W2, W3.
  cbn [dgraphTargetFromPb DTarget_ViolatedProcesses DTarget_ViolatedFiles DTarget_FalcoAlert].
  f_equal.
  - rewrite Hpod. destruct (Target_Pod t) as [p|]; [|done].
    cbn [fmap option_fmap option_map mbind option_bind]. rewrite <- option_fmap_compose.
    rewrite (pod_comes_back i p ns u Hd Hin). done.
  - destruct (0 <? _)%nat eqn:Hl; [|by rewrite (kept_slice_none _ _ Hl)]. rewrite (kept_slice_some _ _ Hl).
    exact (Unmarshal_text _ _ _ _ _ _ codes_violated_processes Hps).
  - destruct (0 <? _)%nat eqn:Hl; [|by rewrite (kept_slice_none _ _ Hl)]. rewrite (kept_slice_some _ _ Hl).
    exact (Unmarshal_text _ _ _ _ _ _ (codes_weaken (fun _ => True) _ _ _ _ codes_violated_files) I).
  - destruct (Target_FalcoAlert t) as [f|]; [|done].
    exact (Unmarshal_text _ _ _ _ _ (Some f) codes_falco Hfa).
Qed.

(** ** The event itself *)

Definition time_value (j : option json) : ptr gotime :=
  match j with Some JNull | None => None | Some j => Some (dec_time zero_time j).1 end.

Definition time_ok (t : ptr gotime) : Prop :=
  match t with Some t => exists i, t = UTC i /\ (0 <= time_year (UTC i) <= 9999)%Z | None => True end.

Lemma written_here k j l : all_ascii k = true -> written k ((k, j) :: l) = Some (clean_json j).
Proof.
  intros Hk. unfold written. cbn [List.map List.find clean_member fst snd].
  by rewrite (clean_ascii k Hk), String.eqb_refl.
Qed.

Lemma time_value_written k t l :
  time_ok t -> all_ascii k = true -> written k l = None ->
  time_value (written k (opt_ptr enc_time k t ++ l)) = t.
Proof.
  intros Ht Hk Hl. destruct t as [t|]; [|by cbn [opt_ptr app]; rewrite Hl]. destruct Ht as (i&->&Hy).
  cbn [opt_ptr app]. rewrite written_here by done.
  assert (clean_json (enc_time (UTC i)) = JStr (Format_RFC3339Nano (UTC i))) as ->.
  { unfold enc_time. change (clean_json (JStr ?s)) with (JStr (clean s)). by rewrite (clean_ascii _ (ascii_time i Hy)). }
  unfold time_value, dec_time. by rewrite (Parse_Format i Hy).
Qed.

Lemma keys_opt_time k k' t : all_ascii k' = true -> k' <> k ->
  Forall (fun kv : string * json => all_ascii kv.1 = true /\ kv.1 <> k) (opt_ptr enc_time k' t).
Proof. intros Ha Hk. destruct t; by repeat constructor. Qed.

Lemma written_event u ty e :
  time_ok (DEvent_ClientTimestamp e) -> time_ok (DEvent_ServerTimestamp e) -> time_ok (DEvent_AlertSentAt e) ->
  let n := mkNode u ty (cleaned (event_members e)) in
  string_pred "event_type" n = clean (DEvent_Type e) /\
  string_pred "event_uid" n = clean (DEvent_EventUID e) /\
  time_pred "event_client_timestamp" n = DEvent_ClientTimestamp e /\
  time_pred "event_server_timestamp" n = DEvent_ServerTimestamp e /\
  time_pred "event_alert_sent_at" n = DEvent_AlertSentAt e.
Proof.
  intros Hc Hs Ha. unfold event_members. rewrite <- (app_nil_r (opt_ptr enc_time "event_alert_sent_at" _)).
  split_and!.
  1,2: match goal with |- string_pred ?k (mkNode _ _ (cleaned ?l)) = ?v =>
      change (string_value (written k l) = v) end;
    repeat (rewrite written_skip by eauto using keys_opt_time with dgraph);
    apply string_value_written; [reflexivity|];
    repeat (rewrite written_skip by eauto using keys_opt_time with dgraph); reflexivity.
  all: match goal with |- time_pred ?k (mkNode _ _ (cleaned ?l)) = ?v =>
      change (time_value (written k l) = v) end;
    repeat (rewrite written_skip by eauto using keys_opt_time with dgraph);
    apply time_value_written; [done|reflexivity|];
    repeat (rewrite written_skip by eauto using keys_opt_time with dgraph); reflexivity.
Qed.

(** ** Adding *)

Definition pod_update (p : DPod) : string * list (string * json) := (DPod_UID p, cleaned (pod_members p)).

Lemma reads_by_uid ns p n :
  NoDup (node_uid <$> ns) -> in_pods ns p -> n ∈ ns -> node_uid n = DPod_UID p -> reads_pod p n.
Proof.
  intros Hd (n'&Hn'&Hu'&Hr) Hn Hu. assert (n = n') as ->; [|done].
  apply list_elem_of_lookup in Hn as [i Hi], Hn' as [j Hj]. assert (i = j) as ->; [|congruence].
  eapply NoDup_lookup; [done|..]; rewrite list_lookup_fmap, ?Hi, ?Hj; cbn; by rewrite ?Hu, ?Hu'.
Qed.

(** Writing the pods once more with the event changes none of them. *)
Lemma merge_pods_in known ups ns :
  NoDup (node_uid <$> ns) -> Forall pod_ok known -> consistent known -> (forall p, p ∈ ups -> p ∈ known) ->
  Forall (in_pods ns) known ->
  NoDup (node_uid <$> merge_pods (pod_update <$> ups) ns) /\
  Forall (in_pods (merge_pods (pod_update <$> ups) ns)) known.
Proof.
  intros Hd Hok Hc. revert ns Hd. induction ups as [|q ups IH]; intros ns Hd Hsub Hin; [done|].
  unfold merge_pods. cbn [fmap list_fmap fold_left pod_update fst snd]. apply IH.
  - by rewrite merge_where_uids.
  - intros p Hp. apply Hsub. by right.
  - apply Forall_forall. intros p Hp. assert (q ∈ known) as Hq by (apply Hsub; left).
    rewrite Forall_forall in Hok, Hin. apply (in_pods_merge p q); [by apply Hok|by apply Hc| |by apply Hin].
    intros n Hn _ (_&_&Hr&_) Hm%String.eqb_eq.
    destruct (reads_by_uid ns q n Hd (Hin q Hq) Hn Hm) as (_&_&Hr'&_). by rewrite <- Hr, Hr'.
Qed.

Lemma merge_pods_grows known ups ns :
  NoDup (node_uid <$> ns) -> Forall pod_ok known -> consistent known -> (forall p, p ∈ ups -> p ∈ known) ->
  Forall (in_pods ns) known -> grows ns (merge_pods (pod_update <$> ups) ns).
Proof.
  intros Hd Hok Hc. revert ns Hd. induction ups as [|q ups IH]; intros ns Hd Hsub Hin; [done|].
  assert (q ∈ known) as Hq by (apply Hsub; left).
  assert (forall p, p ∈ [q] -> p ∈ known) as Hsub1 by by intros p ->%list_elem_of_singleton.
  destruct (merge_pods_in known [q] ns Hd Hok Hc Hsub1 Hin) as [Hd1 Hin1]. unfold merge_pods in Hd1, Hin1 |- *.
  cbn [fmap list_fmap fold_left pod_update fst snd] in *. etrans; [|apply IH; [done| |done]].
  - apply grows_merge; [by apply (proj1 (Forall_forall _ _) Hok)|]. intros n Hn Hm%String.eqb_eq.
    by destruct (reads_by_uid ns q n Hd (proj1 (Forall_forall _ _) Hin q Hq) Hn Hm) as (_&_&R&_).
  - intros p Hp. apply Hsub. by right.
Qed.

(** What was sent for a target. *)
Definition sent_for (t : Target) (d : DTarget) : Prop :=
  exists i u, d = set_DTarget_Pod ((fun p => set_DPod_UID u (dgraphPodFromPb i p)) <$> Target_Pod t)
                    (dgraphTargetFromPb i t) /\ (Target_Pod t <> None -> uid_ok u).

Lemma pods_sent_for k ts ds :
  Forall2 pod_sent (imap (fun j => dgraphTargetFromPb (k + j)) ts) ds -> Forall2 sent_for ts ds.
Proof.
  revert k ds. induction ts as [|t ts IH]; intros k ds H; [by inversion H; constructor|].
  rewrite imap_cons in H. inversion H as [|? d ? ds' Hd Hds]; subst. constructor.
  - unfold pod_sent in Hd. cbn [dgraphTargetFromPb DTarget_Pod] in Hd. exists (k + 0).
    destruct (Target_Pod t) as [p|] eqn:Hp; cbn [fmap option_fmap option_map] in *.
    + destruct Hd as (u&Hu&->). by exists u.
    + exists "". split; [|done]. rewrite Hd. destruct t. cbn in Hp. by subst.
  - apply (IH (Datatypes.S k)). erewrite imap_ext; [exact Hds|]. intros j x _. cbn. f_equal. lia.
Qed.

Lemma sent_for_to_send t d : sent_for t d -> to_send d.
Proof.
  intros (i&u&->&Hu). split; [by eexists|]. split; [done|]. cbn.
  destruct (Target_Pod t) as [p|]; [|done]. cbn. split; [done|]. by apply Hu.
Qed.

Lemma sent_for_pods ts ds :
  Forall2 sent_for ts ds ->
  forall p, p ∈ target_pods ds -> exists P i u, P ∈ omap Target_Pod ts /\
    p = set_DPod_UID u (dgraphPodFromPb i P) /\ uid_ok u.
Proof.
  intros H p. unfold target_pods. rewrite list_elem_of_omap. intros (d&Hd&Hp).
  apply list_elem_of_lookup in Hd as [j Hj]. destruct (Forall2_lookup_r _ _ _ _ _ H Hj) as (t&Ht&i&u&->&Hu).
  cbn in Hp. destruct (Target_Pod t) as [P|] eqn:HP; [|done]. injection Hp as <-.
  exists P, i, u. split_and!; [|done|by apply Hu]. apply list_elem_of_omap. exists t.
  split; [by eapply list_elem_of_lookup_2|done].
Qed.

Section roundtrip.
Context {S : Type} (h : handler EventDbE S) (events : S -> list event_node) (pods : S -> list node).
Context `{HD : !EventDbLaws h events pods}.

(** The targets read back. *)
Lemma targets_come_back ns ts ds tns :
  NoDup (node_uid <$> ns) -> Forall2 sent_for ts ds -> Forall target_ok (Some <$> ts) ->
  Forall (in_pods ns) (target_pods ds) ->
  ((fun t => (node_preds (tn_node t), tn_pod t)) <$> tns) ≡ₚ
    ((fun t => (nt_before t ++ nt_after t, fst <$> nt_pod t)) <$> (sent_target <$> ds)) ->
  (toPbTarget ∘ read_target ns) <$> tns ≡ₚ stored_target <$> ts.
Proof.
  intros Hd H2 Hok Hin Hp.
  set (pair := fun pr => toPbTarget (read_target ns (mkTargetNode (mkNode "" "" pr.1) pr.2))).
  assert ((toPbTarget ∘ read_target ns) <$> tns =
          pair <$> ((fun t => (node_preds (tn_node t), tn_pod t)) <$> tns)) as ->.
  { rewrite <- list_fmap_compose. by apply list_fmap_ext. }
  rewrite Hp. apply Permutation_refl'. rewrite <- !list_fmap_compose. clear Hp tns.
  induction H2 as [|t d ts ds (i&u&->&Hu) _ IH]; [done|].
  rewrite fmap_cons in Hok. apply Forall_cons in Hok as [Ht Hok]. rewrite !fmap_cons. f_equal.
  - unfold pair. cbn [compose]. apply (target_comes_back i t ns _ u); try done.
    + cbn. by destruct (Target_Pod t).
    + unfold target_pods in Hin. cbn [omap list_omap] in Hin. cbn [set_DTarget_Pod DTarget_Pod] in Hin.
      destruct (Target_Pod t) as [p|]; [|done]. by apply Forall_cons in Hin as [Hin _].
  - apply IH; [done|]. unfold target_pods in Hin. cbn [omap list_omap] in Hin.
    destruct (DTarget_Pod _); [by apply Forall_cons in Hin as [_ Hin]|done].
Qed.

Lemma target_pods_ok k ts :
  Forall target_ok (Some <$> ts) -> Forall pod_ok (target_pods (imap (fun j => dgraphTargetFromPb (k + j)) ts)).
Proof.
  revert k. induction ts as [|t ts IH]; intros k Hok; [constructor|].
  rewrite fmap_cons in Hok. apply Forall_cons in Hok as [(_&_&Hp) Hok]. unfold target_pods.
  rewrite imap_cons. cbn [omap list_omap dgraphTargetFromPb DTarget_Pod].
  assert (Forall pod_ok (target_pods (imap (fun j => dgraphTargetFromPb (Datatypes.S k + j)) ts))) as Hrest
    by by apply IH.
  assert (imap ((fun j => dgraphTargetFromPb (k + j)) ∘ Datatypes.S) ts =
          imap (fun j => dgraphTargetFromPb (Datatypes.S k + j)) ts) as ->
    by (apply imap_ext; intros j x _; cbn; f_equal; lia).
  cbn in Hp. destruct (Target_Pod t) as [p|]; [|done]. cbn [fmap option_fmap option_map].
  constructor; [|done]. destruct Hp as (H1&H2&H3). split_and!; try done.
  apply Marshal_nonempty, codes_labels.
Qed.

Lemma target_pods_elem k ts p :
  p ∈ target_pods (imap (fun j => dgraphTargetFromPb (k + j)) ts) ->
  exists P i, P ∈ omap Target_Pod ts /\ p = dgraphPodFromPb i P.
Proof.
  unfold target_pods. rewrite list_elem_of_omap. intros (d&Hd&Hp).
  apply list_elem_of_lookup in Hd as [j Hj]. rewrite list_lookup_imap in Hj.
  destruct (ts !! j) as [t|] eqn:Ht; [|done]. injection Hj as <-. cbn in Hp.
  destruct (Target_Pod t) as [P|] eqn:HP; [|done]. injection Hp as <-. exists P, (k + j).
  split; [|done]. apply list_elem_of_omap. exists t. split; [by eapply list_elem_of_lookup_2|done].
Qed.

Lemma event_pods_some e ts :
  elems (Event_Targets e) = Some <$> ts -> event_pods e = omap Target_Pod ts.
Proof.
  unfold event_pods. intros ->. induction ts as [|t ts IH]; [done|]. cbn. rewrite <- IH. done.
Qed.

(** Pods made from the pods of one event. *)
Lemma made_consistent e (l : list DPod) :
  event_ok e -> (forall p, p ∈ l -> exists P i u, P ∈ event_pods e /\ p = set_DPod_UID u (dgraphPodFromPb i P)) ->
  consistent l.
Proof.
  intros [_ Hc] Hl p q Hp Hq Hu. destruct (Hl p Hp) as (P&i&u&HP&->), (Hl q Hq) as (Q&j&v&HQ&->).
  by rewrite (Hc P Q HP HQ Hu).
Qed.

Lemma marshals_ok t : match dgraphTime t with Some t => time_marshals t | None => true end = true ->
  time_ok (dgraphTime t).
Proof.
  destruct t as [t|]; [|done]. cbn [dgraphTime]. unfold time_marshals. rewrite !andb_true_iff, !Z.leb_le.
  intros [Hy _]. by eexists.
Qed.

Lemma pbTime_stored t : pbTime (dgraphTime t) = stored_time t.
Proof. by destruct t. Qed.

Lemma dgraphEventFromPb_run e s ev s' :
  run h (dgraphEventFromPb (Some e)) s = (Done ev, s') ->
  s' = s /\ exists ts, elems (Event_Targets e) = Some <$> ts /\
    ev = mkDEvent "_:event" (Some ["Event"]) (Event_Type e) (Event_Uid e)
           (dgraphTime (Event_ClientTimestamp e)) (dgraphTime (Event_ServerTimestamp e))
           (dgraphTime (Event_AlertSentAt e)) (Some (imap (fun j => dgraphTargetFromPb (0 + j)) ts)).
Proof.
  unfold dgraphEventFromPb. cbn [deref bind]. rewrite run_bind.
  destruct (run h (dgraphTargetsFromPb 0 _) s) as [[ds|c] s1] eqn:Hds; [|done]. intros [= <- <-].
  destruct (dgraphTargetsFromPb_run h _ _ _ _ _ Hds) as (->&ts&Hts&->). split; [done|]. by exists ts.
Qed.

(** An event as it was sent is read as it is kept. *)
Lemma sent_event_read e ts ds ev n ns :
  elems (Event_Targets e) = Some <$> ts -> Forall target_ok (Some <$> ts) ->
  ev = mkDEvent "_:event" (Some ["Event"]) (Event_Type e) (Event_Uid e)
         (dgraphTime (Event_ClientTimestamp e)) (dgraphTime (Event_ServerTimestamp e))
         (dgraphTime (Event_AlertSentAt e)) (Some ds) ->
  times_marshal ev = true -> Forall2 sent_for ts ds ->
  NoDup (node_uid <$> ns) -> Forall (in_pods ns) (target_pods ds) ->
  node_preds (en_node n) = cleaned (event_members ev) ->
  ((fun t => (node_preds (tn_node t), tn_pod t)) <$> en_targets n) ≡ₚ
    ((fun t => (nt_before t ++ nt_after t, fst <$> nt_pod t)) <$> (sent_target <$> ds)) ->
  stored_as e (read_event ns n) /\ string_pred "event_type" (en_node n) = clean (Event_Type e) /\
  (Event_AlertSentAt e = None -> node_pred "event_alert_sent_at" (en_node n) = None).
Proof.
  intros Hts Hok -> Htm H2 Hd Hin Hn Hp. unfold times_marshal in Htm.
  cbn [DEvent_ClientTimestamp DEvent_ServerTimestamp DEvent_AlertSentAt] in Htm.
  apply andb_true_iff in Htm as [[Hc Hs]%andb_true_iff Ha].
  apply marshals_ok in Hc, Hs, Ha.
  set (ev := mkDEvent _ _ _ _ _ _ _ _) in *.
  destruct (written_event "" "" ev Hc Hs Ha) as (W1&W2&W3&W4&W5).
  assert (forall k, string_pred k (en_node n) = string_pred k (mkNode "" "" (cleaned (event_members ev)))) as Es
    by (intros k; unfold string_pred, node_pred; by rewrite Hn).
  assert (forall k, time_pred k (en_node n) = time_pred k (mkNode "" "" (cleaned (event_members ev)))) as Et
    by (intros k; unfold time_pred, node_pred; by rewrite Hn).
  rewrite Es, W1. split_and!; [|done|].
  2:{ intros Hsent. unfold node_pred. rewrite Hn. change (written "event_alert_sent_at" (event_members ev) = None).
      unfold event_members. cbn [DEvent_AlertSentAt ev]. rewrite Hsent. cbn [dgraphTime opt_ptr].
      repeat (rewrite written_skip by eauto using keys_opt_time with dgraph). reflexivity. }
  pose proof (targets_come_back ns ts ds (en_targets n) Hd H2 Hok Hin Hp) as Ht.
  unfold stored_as, read_event. rewrite dec_event. cbv zeta. rewrite !Es, !Et, W1, W2, W3, W4, W5.
  unfold toPbEvent.
  cbn [DEvent_Type DEvent_EventUID DEvent_ClientTimestamp DEvent_ServerTimestamp DEvent_AlertSentAt DEvent_Targets ev].
  rewrite !pbTime_stored. eexists. split; [reflexivity|].
  rewrite Hts, <- list_fmap_compose.
  assert (elems match en_targets n with [] => None | _ => Some (read_target ns <$> en_targets n) end =
          read_target ns <$> en_targets n) as -> by by destruct (en_targets n).
  rewrite <- list_fmap_compose.
  transitivity (Some <$> (stored_target <$> ts)); [|by rewrite <- list_fmap_compose].
  rewrite <- Ht, <- list_fmap_compose. done.
Qed.

Lemma dgraphTargetsFromPb_pure i l s : (run h (dgraphTargetsFromPb i l) s).2 = s.
Proof.
  revert i. induction l as [|[t|] l IH]; intros i; [done| |done]. cbn [dgraphTargetsFromPb deref bind]. rewrite run_bind.
  specialize (IH (Datatypes.S i)). by destruct (run h (dgraphTargetsFromPb (Datatypes.S i) l) s) as [[ts|c] s1].
Qed.

Lemma dgraphEventFromPb_pure e s : (run h (dgraphEventFromPb (Some e)) s).2 = s.
Proof.
  unfold dgraphEventFromPb. cbn [deref bind]. rewrite run_bind.
  pose proof (dgraphTargetsFromPb_pure 0 (elems (Event_Targets e)) s) as H.
  by destruct (run h (dgraphTargetsFromPb 0 (elems (Event_Targets e))) s) as [[ts|c] s1].
Qed.

(** The targets that were sent name pods of the store. *)
Lemma sent_targets_known ds s :
  Forall (in_pods (pods s)) (target_pods ds) ->
  forall up, up ∈ omap nt_pod (sent_target <$> ds) -> up.1 ∈ node_uid <$> pods s.
Proof.
  intros Hin up Hin'. apply list_elem_of_omap in Hin' as (nt&Hnt&Hup'). apply list_elem_of_fmap in Hnt as (d&->&Hd).
  cbn in Hup'. destruct (DTarget_Pod d) as [p|] eqn:Hp; [|done]. injection Hup' as <-. cbn.
  assert (p ∈ target_pods ds) as Hpin by (apply list_elem_of_omap; by exists d).
  destruct (proj1 (Forall_forall _ _) Hin p Hpin) as (nd&Hnd&<-&_). by apply list_elem_of_fmap_2.
Qed.

Lemma sent_pods_ok e ts ds :
  event_ok e -> elems (Event_Targets e) = Some <$> ts -> Forall2 sent_for ts ds ->
  Forall pod_ok (target_pods ds) /\ consistent (target_pods ds).
Proof.
  intros Hok Hts Hsent.
  assert (forall p, p ∈ target_pods ds -> exists P i u, P ∈ event_pods e /\
    p = set_DPod_UID u (dgraphPodFromPb i P) /\ uid_ok u) as Hmade.
  { intros p Hp. rewrite (event_pods_some e ts Hts). by apply (sent_for_pods ts ds). }
  split; [apply Forall_forall|apply (made_consistent e); [done|]]; intros p (P&i&u&HP&->&_)%Hmade; [|by exists P, i, u].
  unfold event_pods in HP. apply list_elem_of_omap in HP as (t&Ht&HP).
  destruct (proj1 (Forall_forall _ _) (proj1 Hok) t Ht) as (_&_&Hpod). rewrite HP in Hpod.
  destruct Hpod as (H1&H2&H3). split_and!; try done. apply Marshal_nonempty, codes_labels.
Qed.

(** Adding an event: however it ends, the pods that were there are, and the
    event is there - if it may not be, the addition failed. *)
Lemma Add_cases e s :
  event_ok e -> let '(o, s') := run h (dgraphEventStore_Add (Some e)) s in
  grows (pods s) (pods s') /\
  ((o <> Done None /\ events s' = events s) \/
   exists n, events s' = n :: events s /\ stored_as e (read_event (pods s') n) /\
     string_pred "event_type" (en_node n) = clean (Event_Type e) /\
     (Event_AlertSentAt e = None -> node_pred "event_alert_sent_at" (en_node n) = None)).
Proof using HD.
  intros Hok. pose proof Hok as [Htok Hcons]. unfold dgraphEventStore_Add. rewrite run_bind.
  pose proof (dgraphEventFromPb_pure e s) as Hpure.
  destruct (run h (dgraphEventFromPb (Some e)) s) as [[ev|c] s0] eqn:Hev; cbn [snd] in Hpure; subst s0; [|split; [done|by left]].
  destruct (dgraphEventFromPb_run e s ev s Hev) as (_&ts&Hts&->). clear Hev.
  rewrite Hts in Htok. rewrite run_bind. cbn [DEvent_Targets elems default].
  destruct (upsert_pods_grows h events pods _ s (target_pods_ok 0 ts Htok)) as [He Hg].
  destruct (run h (upsert_pods _) s) as [[[ds|er]|c] s1] eqn:Hup; cbn [snd] in He, Hg; [|by split; [|left]..].
  destruct (upsert_pods_run h events pods _ ds s s1 [] Hup) as (_&Hsent&Hin); [by apply target_pods_ok| |constructor|].
  { apply (made_consistent e); [done|]. intros p (P&i&HP&->)%target_pods_elem.
    exists P, i, ("_:pod" +:+ Itoa (Z.of_nat i)). by rewrite (event_pods_some e ts Hts). }
  apply pods_sent_for in Hsent. rewrite app_nil_l in Hin.
  unfold set_DEvent_Targets.
  cbn [DEvent_UID DEvent_DType DEvent_Type DEvent_EventUID DEvent_ClientTimestamp DEvent_ServerTimestamp DEvent_AlertSentAt].
  set (ev := mkDEvent _ _ _ _ _ _ _ _). unfold Marshal_DEvent. destruct (times_marshal ev) eqn:Htm; [|by split; [|left]].
  cbn [run call]. destruct (h _ (Db (set_mutation (Marshal (enc_DEvent ev)))) s1) as [er s2] eqn:Hh. cbn [run].
  destruct (ed_add h events pods (Marshal (enc_DEvent ev)) "event" (cleaned (event_members ev))
    (sent_target <$> ds) s1 er s2) as [(n&Hn&Hpr&Htg&Hps)|[Her [He2 Hp2]]]; [| | |by apply sent_targets_known|exact Hh| |].
  - unfold Marshal. rewrite parse_print by apply json_ok_DEvent.
    rewrite <- (event_payload ev ds); [done..|].
    apply Forall_forall. intros d [j Hj]%list_elem_of_lookup.
    destruct (Forall2_lookup_r _ _ _ _ _ Hsent Hj) as (t&_&Ht). by apply (sent_for_to_send t).
  - apply flat_event.
  - apply Forall_fmap, Forall_true. intros d. apply flat_sent_target.
  - destruct (sent_pods_ok e ts ds Hok Hts Hsent) as [Hpok Hpc].
    assert (omap nt_pod (sent_target <$> ds) = pod_update <$> target_pods ds) as Hups.
    { clear. induction ds as [|d ds IH]; [done|]. unfold target_pods in *. cbn. rewrite IH.
      by destruct (DTarget_Pod d). }
    assert (NoDup (node_uid <$> pods s1)) as Hd by by eapply ed_unique.
    rewrite Hups in Hps. split.
    { rewrite Hps. etrans; [exact Hg|]. by apply (merge_pods_grows (target_pods ds)). }
    right. exists n. rewrite Hn, He. split; [done|].
    destruct (merge_pods_in (target_pods ds) (target_pods ds) (pods s1)) as [Hd' Hin']; [done..|].
    rewrite Hps. by apply (sent_event_read e ts ds ev).
  - split; [by rewrite Hp2|]. left. split; [by intros [= ->]|congruence].
Qed.

Lemma Add_run e s s' :
  event_ok e -> run h (dgraphEventStore_Add (Some e)) s = (Done None, s') ->
  exists n, events s' = n :: events s /\ stored_as e (read_event (pods s') n) /\
    string_pred "event_type" (en_node n) = clean (Event_Type e) /\
    (Event_AlertSentAt e = None -> node_pred "event_alert_sent_at" (en_node n) = None).
Proof using HD. intros Hok Hr. pose proof (Add_cases e s Hok) as Hc. rewrite Hr in Hc. by destruct Hc as [_ [[? _]|?]]. Qed.
End roundtrip.

(** * Properties *)

Section properties.
Context {S : Type} (h : handler EventDbE S) (events : S -> list event_node) (pods : S -> list node).
Context `{HD : !EventDbLaws h events pods}.

Lemma listed_event q shown e s s1 l s2 :
  (q, shown) ∈ event_queries -> event_ok e ->
  run h (dgraphEventStore_Add (Some e)) s = (Done None, s1) ->
  (forall n, string_pred "event_type" (en_node n) = clean (Event_Type e) ->
     (Event_AlertSentAt e = None -> node_pred "event_alert_sent_at" (en_node n) = None) -> shown n = true) ->
  run h (list_events q) s1 = (Done (l, None), s2) ->
  exists e', Some e' ∈ elems l /\ stored_as e e'.
Proof using HD.
  intros Hq Hok Ha Hsh Hl. destruct (Add_run h events pods e s s1 Hok Ha) as (n&Hn&Hst&Hty&Hti).
  destruct (list_events_run h events pods q shown s1 Hq) as (r&er&s'&Hr&_&_&Hel).
  rewrite Hr in Hl. injection Hl as -> -> ->. exists (read_event (pods s1) n). split; [|done].
  rewrite Hel by done. apply list_elem_of_fmap_2. unfold stored_events. apply list_elem_of_fmap_2.
  apply list_elem_of_filter. split; [by apply Hsh|]. rewrite Hn. left.
Qed.

(** C16. A stored event comes back.  After tarian-server on Dgraph has added
    an event whose pods have a uid, a namespace and a name, listing the events
    gives it back with its type, uid, times, and all its targets with their
    pods, processes, files and Falco alert, although the pods are nodes shared
    with other events; and so does listing the events to be alerted about when
    no alert was sent for it.  Only the detection data of the targets is lost. *)
Theorem added_event_comes_back e s s1 l s2 :
  event_ok e -> clean (Event_Type e) <> EventTypeDetection ->
  run h (dgraphEventStore_Add (Some e)) s = (Done None, s1) ->
  (forall limit, run h (dgraphEventStore_GetAll limit) s1 = (Done (l, None), s2) ->
     exists e', Some e' ∈ elems l /\ stored_as e e') /\
  (Event_AlertSentAt e = None ->
   run h dgraphEventStore_FindWhereAlertNotSent s1 = (Done (l, None), s2) ->
     exists e', Some e' ∈ elems l /\ stored_as e e').
Proof using HD.
  intros Hok Hty Ha. split.
  - intros limit. apply (listed_event events_query no_detection e s); [left|done..|].
    intros n Hn _. unfold no_detection. rewrite Hn. by apply negb_true_iff, String.eqb_neq.
  - intros Hsent. apply (listed_event unsent_query not_sent e s); [right; left|done..|].
    intros n Hn Ht. unfold not_sent, no_detection. rewrite Hn, (Ht Hsent), andb_true_r.
    by apply negb_true_iff, String.eqb_neq.
Qed.

(** Dgraph answers the upsert of a pod with an error. *)
Definition upsert_refused (p : DPod) (s : S) (err : error) (s' : S) : Prop :=
  h _ (Db (Do (upsert_request (set_DPod_UID "uid(p)" p)))) s = ((None, Some err), s').

(** Such an upsert is a panic of the server: the response is used before the
    error is looked at. *)
Lemma UpsertPod_panics p s err s' :
  upsert_refused p s err s' ->
  run h (UpsertPod p) s = (Crashed (NilDeref "resp"), s').
Proof. intros Hh. unfold UpsertPod. cbn [run bind call]. by rewrite Hh. Qed.

(** C34. A refused upsert panics.  When Dgraph refuses the upsert of the pod of
    an event's first target, adding the event does not return the error but
    takes the server down with a nil dereference. *)
Theorem refused_upsert_panics e t p ts s err s' :
  Event_Targets e = Some (Some <$> t :: ts) -> Target_Pod t = Some p ->
  upsert_refused (dgraphPodFromPb 0 p) s err s' ->
  run h (dgraphEventStore_Add (Some e)) s = (Crashed (NilDeref "resp"), s').
Proof.
  intros Hts Hp Hh. unfold dgraphEventStore_Add, dgraphEventFromPb. cbn [deref bind].
  rewrite !run_bind, Hts. cbn [elems default id]. rewrite dgraphTargetsFromPb_some. cbn [run DEvent_Targets elems default id].
  rewrite run_bind, imap_cons. cbn [upsert_pods dgraphTargetFromPb DTarget_Pod]. rewrite Hp. cbn [fmap option_fmap option_map].
  change (0 + 0) with 0. by rewrite run_bind, (UpsertPod_panics _ _ _ _ Hh).
Qed.
End properties.

(** * A Dgraph of events in memory *)

(** Pods newest first, their place is their uid; events with the targets. *)
Record event_db := mkEventDb {
  db_pods : list raw_node;
  db_events : list (raw_node * list (raw_node * option string)) }.

Definition mem_pods (s : event_db) : list node := mem_nodes (Some <$> db_pods s).
Definition mem_target (t : raw_node * option string) : target_node := mkTargetNode (node_at 0 t.1) t.2.
Definition mem_event (e : raw_node * list (raw_node * option string)) : event_node :=
  mkEventNode (node_at 0 e.1) (mem_target <$> e.2).
Definition mem_events (s : event_db) : list event_node := mem_event <$> db_events s.

Definition merge_raw (preds : list (string * json)) (r : raw_node) : raw_node := (r.1, preds ++ r.2).

Fixpoint mem_merge (P : node -> bool) (preds : list (string * json)) (l : list raw_node) : list raw_node :=
  match l with
  | [] => []
  | r :: l' => (if P (node_at (length l') r) then merge_raw preds r else r) :: mem_merge P preds l'
  end.

Definition members_of (j : json) : list (string * json) :=
  match j with JObj (_ :: _ :: l) => l | _ => [] end.
Definition flat_members (j : json) : list (string * json) := List.filter flatb (members_of j).

Definition read_new_pod (j : json) : option (string * list (string * json)) :=
  match List.find (fun kv => match kv.2 with JObj _ => true | _ => false end) (members_of j) with
  | Some (_, JObj ((k, JStr u) :: l)) => Some (u, flat_members (JObj ((k, JStr u) :: l)))
  | _ => None
  end.

Definition read_new_targets (j : json) : list json :=
  match List.find (fun kv => match kv.2 with JArr _ => true | _ => false end) (members_of j) with
  | Some (_, JArr l) => l
  | _ => []
  end.

Definition mem_upsert (payload v : string) (s : event_db) : (ptr Response * option error) * event_db :=
  match parse payload with
  | Some j =>
      if String.eqb (clean v) v then
        match filter (fun n => has_pod_uid v n = true) (mem_pods s) with
        | [] =>
            let r := ("Pod", flat_members j) in
            ((Some (mkResponse "{}" [("uid(p)", node_uid (node_at (length (db_pods s)) r))]), None),
             mkEventDb (r :: db_pods s) (db_events s))
        | l =>
            ((Some (mkResponse (print (JObj [("pod", JArr (List.map (fun n => JObj [("uid", JStr (node_uid n))]) l))])) []), None),
             mkEventDb (mem_merge (has_pod_uid v) (flat_members j) (db_pods s)) (db_events s))
        end
      else ((None, Some dgraph_error), s)
  | None => ((None, Some dgraph_error), s)
  end.

Definition mem_mark (t v : string) (s : event_db) : event_db :=
  mkEventDb (db_pods s)
    ((fun e => if String.eqb (string_pred "event_uid" (node_at 0 e.1)) v
               then (merge_raw [("event_alert_sent_at", JStr t)] e.1, e.2) else e) <$> db_events s).

Definition mem_add (j : json) (s : event_db) : event_db :=
  let ts := read_new_targets j in
  mkEventDb
    (fold_left (fun ps up => mem_merge (fun n => String.eqb (node_uid n) up.1) up.2 ps)
       (omap read_new_pod ts) (db_pods s))
    ((("Event", flat_members j),
      (fun t => (("Target", flat_members t), fst <$> read_new_pod t)) <$> ts) :: db_events s).

Definition mem_event_db : handler EventDbE event_db := fun X e s =>
  match e in EventDbE X return X * event_db with
  | DbNow => (UTC 1700000000000000000, s)
  | Db d =>
      match d in DgraphE X return X * event_db with
      | Query text vars =>
          match List.find (fun q => String.eqb q.1 text) event_queries with
          | Some q =>
              ((print (JObj [("events", JArr (List.map (event_json (mem_pods s))
                  (filter (fun e => q.2 e = true) (mem_events s))))]), None), s)
          | None => (("", Some dgraph_error), s)
          end
      | Mutate mu =>
          match Mutation_SetJson mu ≫= parse with
          | Some j => (None, mem_add j s)
          | None => (Some dgraph_error, s)
          end
      | Do (mkRequest text [mkMutation (Some payload) None _] [(_, v)] _) =>
          if String.eqb text pod_query then mem_upsert payload v s
          else match parse payload with
               | Some (JObj [_; (_, JStr t)]) => ((Some (mkResponse "{}" []), None), mem_mark t v s)
               | _ => ((None, Some dgraph_error), s)
               end
      | Do _ => ((None, Some dgraph_error), s)
      end
  end.

(** ** It keeps the promises *)

Lemma mem_merge_nodes P preds l :
  Forall flat preds -> mem_nodes (Some <$> mem_merge P preds l) = merge_where P preds (mem_nodes (Some <$> l)).
Proof.
  intros Hp. assert (forall l, length (mem_merge P preds l) = length l) as Hlen.
  { clear. intros l. induction l as [|r l IH]; [done|]. cbn. by rewrite IH. }
  induction l as [|r l IH]; [done|]. cbn [mem_merge fmap list_fmap mem_nodes].
  rewrite !length_fmap, Hlen. unfold merge_where. cbn [fmap list_fmap]. f_equal; [|exact IH].
  destruct (P (node_at (length l) r)); [|done]. unfold merged, node_at, merge_raw.
  cbn [fst snd node_uid node_type node_preds]. by rewrite List.map_app, tidy_preds.
Qed.

Lemma flat_members_app a rest b :
  Forall flat a -> Forall flat b -> Forall (fun kv => flatb kv = false) rest ->
  List.filter flatb (a ++ rest ++ b) = a ++ b.
Proof.
  intros Ha Hb Hr. assert (forall l, Forall flat l -> List.filter flatb l = l) as Hid.
  { induction 1 as [|kv l Hkv _ IH]; [done|]. cbn. apply flatb_flat in Hkv. by rewrite Hkv, IH. }
  rewrite !List.filter_app, (Hid a Ha), (Hid b Hb).
  assert (List.filter flatb rest = []) as ->; [|done].
  induction Hr as [|kv l Hkv _ IH]; [done|]. cbn. by rewrite Hkv.
Qed.

Lemma find_structured (test : json -> bool) (l rest : list (string * json)) :
  (forall s, test (JStr s) = false) -> (forall b, test (JBool b) = false) -> (forall n, test (JNum n) = false) ->
  Forall flat l -> List.find (fun kv => test kv.2) (l ++ rest) = List.find (fun kv => test kv.2) rest.
Proof.
  intros H1 H2 H3. induction 1 as [|[k j] l [_ Hj] _ IH]; [done|]. cbn [app List.find snd] in *.
  destruct j; try done; by rewrite ?H1, ?H2, ?H3.
Qed.

Lemma read_new_targets_json b preds ts :
  Forall flat preds -> read_new_targets (new_event_json b preds ts) = List.map new_target_json ts.
Proof.
  intros Hp. unfold read_new_targets, new_event_json, typed. cbn [members_of].
  rewrite (find_structured (fun j => match j with JArr _ => true | _ => false end)) by done.
  by destruct ts.
Qed.

Lemma read_new_pod_json t :
  flat_target t -> read_new_pod (new_target_json t) = nt_pod t.
Proof.
  intros (Hb&Ha&Hp). unfold read_new_pod, new_target_json, typed. cbn [members_of].
  rewrite (find_structured (fun j => match j with JObj _ => true | _ => false end)) by done.
  destruct (nt_pod t) as [[u preds]|]; cbn [app List.find snd].
  - unfold flat_members. cbn [members_of].
    pose proof (flat_members_app preds [] [] Hp) as Hf. rewrite !app_nil_r in Hf. by rewrite Hf by constructor.
  - rewrite <- (app_nil_r (nt_after t)).
    by rewrite (find_structured (fun j => match j with JObj _ => true | _ => false end)).
Qed.

Lemma flat_new_target t :
  flat_target t -> flat_members (new_target_json t) = nt_before t ++ nt_after t.
Proof.
  intros (Hb&Ha&_). unfold flat_members, new_target_json, typed. cbn [members_of].
  apply flat_members_app; [done|done|]. by destruct (nt_pod t) as [[]|]; repeat constructor.
Qed.

Lemma flat_new_event b preds ts :
  Forall flat preds -> flat_members (new_event_json b preds ts) = preds.
Proof.
  intros Hp. unfold flat_members, new_event_json, typed. cbn [members_of].
  rewrite <- (app_nil_r (match ts with [] => [] | _ => _ end)), (flat_members_app preds _ []).
  - apply app_nil_r.
  - done.
  - constructor.
  - by destruct ts; repeat constructor.
Qed.

Lemma tidied_event ps e :
  Forall tidy_node ps -> tidy_node (en_node e) -> Forall (fun t => tidy_node (tn_node t)) (en_targets e) ->
  tidied (event_json ps e).
Proof.
  intros Hps He Hts. apply tidied_obj, Forall_app. split; [by apply tidied_selected; [by repeat constructor|]|].
  assert (Forall tidied (List.map (target_json ps) (en_targets e))) as Hall.
  { apply Forall_map. eapply Forall_impl; [exact Hts|]. intros t Ht. cbn. apply tidied_obj.
    apply Forall_app. split; [by apply tidied_selected; [by repeat constructor|]|].
    apply Forall_app. split; [|by apply tidied_selected; [by repeat constructor|]].
    unfold pod_member. destruct (tn_pod t ≫= _) as [n|] eqn:Hn; [|constructor]. constructor; [|constructor].
    split; [by apply utf8_ascii|]. apply tidied_node; [by repeat constructor|].
    apply bind_Some in Hn as (u&_&Hf). apply List.find_some in Hf as [Hin _]. apply list_elem_of_In in Hin.
    by apply (proj1 (Forall_forall _ _) Hps). }
  unfold targets_member. destruct (en_targets e) as [|t l]; [constructor|].
  constructor; [|constructor]. split; [by apply utf8_ascii|]. by apply tidied_arr.
Qed.

Lemma tidy_mem_pods s : Forall tidy_node (mem_pods s).
Proof.
  apply Forall_forall. intros n Hn. destruct (mem_node_elem _ _ Hn) as (i&r&_&->). apply tidy_node_at.
Qed.

Lemma parse_tidied j : tidied j -> parse (print j) = Some j.
Proof. intros [Hok Hcl]. by rewrite parse_print, Hcl. Qed.

Lemma mem_merges (ups : list (string * list (string * json))) ps :
  Forall (fun up => Forall flat up.2) ups ->
  mem_nodes (Some <$> fold_left (fun ps up => mem_merge (fun n => String.eqb (node_uid n) up.1) up.2 ps) ups ps) =
  merge_pods ups (mem_nodes (Some <$> ps)).
Proof.
  unfold merge_pods. intros Hf. revert ps. induction Hf as [|up ups Hup _ IH]; intros ps; [done|].
  cbn [fold_left]. by rewrite IH, mem_merge_nodes.
Qed.

Lemma mem_mark_event t v s :
  utf8 t -> mem_events (mem_mark t v s) =
  (fun e => if String.eqb (string_pred "event_uid" (en_node e)) v then mark_sent t e else e) <$> mem_events s.
Proof.
  intros Ht. unfold mem_events, mem_mark. cbn [db_events]. rewrite <- !list_fmap_compose.
  apply list_fmap_ext. intros _ e _. cbn [compose mem_event en_node].
  destruct (String.eqb (string_pred "event_uid" (node_at 0 e.1)) v); [|done].
  unfold mark_sent, mem_event, merged, node_at, merge_raw. cbn [fst snd en_node en_targets node_uid node_type node_preds].
  by rewrite List.map_app, tidy_preds by by repeat constructor.
Qed.

Lemma mem_upsert_laws payload v preds s resp er s' :
  parse payload = Some (typed "uid(p)" "Pod" preds) -> Forall flat preds ->
  mem_upsert payload v s = ((resp, er), s') ->
  mem_events s' = mem_events s /\
  match er with
  | None => utf8 v /\ exists r, resp = Some r /\ upserted mem_pods v preds r s s'
  | Some _ => resp = None /\ (mem_pods s' = mem_pods s \/ (utf8 v /\ exists r, upserted mem_pods v preds r s s'))
  end.
Proof.
  intros Hp Hf. unfold mem_upsert. rewrite Hp.
  assert (flat_members (typed "uid(p)" "Pod" preds) = preds) as ->.
  { unfold flat_members, typed. cbn [members_of]. pose proof (flat_members_app preds [] [] Hf) as H.
    rewrite !app_nil_r in H. by apply H; constructor. }
  destruct (String.eqb_spec (clean v) v) as [Hv|]; [|intros [= <- <- <-]; split_and!; [done..|by left]].
  assert (utf8 v) as Hu by (rewrite <- Hv; apply utf8_clean_valid).
  destruct (filter _ (mem_pods s)) as [|n l] eqn:Hl; intros [= <- <- <-]; (split; [done|]); (split; [done|]);
    (eexists; split; [reflexivity|]).
  - left. split; [done|]. exists (node_uid (node_at (length (db_pods s)) ("Pod", preds))). split_and!; [done|..].
    + apply mem_uid_fresh. by rewrite length_fmap.
    + unfold mem_pods. cbn [db_pods fmap list_fmap mem_nodes]. rewrite length_fmap. f_equal.
      unfold node_at. cbn [fst snd node_uid]. by rewrite tidy_preds.
  - right. exists (n :: l). split_and!; [done|by rewrite Hl|done| |by apply mem_merge_nodes].
    cbn [Response_Json]. match goal with |- _ = Some ?j => change (parse (print j) = Some j) end.
    apply parse_tidied, tidied_obj. constructor; [|constructor]. split; [by apply utf8_ascii|].
    apply tidied_arr, Forall_map, Forall_forall. intros x Hx. apply tidied_obj. repeat constructor; [by apply utf8_ascii|..];
    apply tidied_str;
      assert (x ∈ mem_pods s) as Hin by (rewrite <- Hl in Hx; by apply list_elem_of_filter in Hx as [_ ?]);
      by destruct (proj1 (Forall_forall _ _) (tidy_mem_pods s) x Hin) as (?&_).
Qed.

#[export] Instance mem_event_db_laws : EventDbLaws mem_event_db mem_events mem_pods.
Proof.
  assert (queries_ok []) as Hq by (split; [constructor|constructor]).
  split.
  - intros s. exact (dg_unique (mem_dgraph []) mem_nodes [] (DgraphLaws := mem_dgraph_laws [] Hq) _).
  - intros s. exact (dg_uids (mem_dgraph []) mem_nodes [] (DgraphLaws := mem_dgraph_laws [] Hq) _).
  - intros s. done.
  - intros q vars s. unfold mem_event_db. cbv beta iota. by destruct (List.find (fun x => String.eqb x.1 q) event_queries).
  - intros q shown s resp s' Hin. assert (List.find (fun p => String.eqb p.1 q) event_queries = Some (q, shown)) as Hf.
    { apply elem_of_cons in Hin as [[= -> ->]|[[= -> ->]|[]%elem_of_nil]%elem_of_cons]; reflexivity. }
    cbn [mem_event_db]. rewrite Hf. intros [= <- <-]. eexists. split; [|reflexivity].
    match goal with |- _ = Some ?j => change (parse (print j) = Some j) end.
    apply parse_tidied, tidied_obj. constructor; [|constructor]. split; [by apply utf8_ascii|].
    apply tidied_arr, Forall_map, Forall_forall. intros e [_ He]%list_elem_of_filter.
    apply list_elem_of_fmap in He as (r&->&_). apply tidied_event; [apply tidy_mem_pods|apply tidy_node_at|].
    apply Forall_fmap, Forall_true. intros t. apply tidy_node_at.
  - intros payload v preds s resp er s' Hp Hf _ Hh. cbn [mem_event_db] in Hh. rewrite String.eqb_refl in Hh.
    by apply (mem_upsert_laws payload v preds).
  - intros payload b preds ts s er s' Hp Hf Hts _ Hh. left. revert Hh. cbn [mem_event_db set_mutation Mutation_SetJson mbind option_bind].
    rewrite Hp. intros [= <- <-]. unfold mem_add. rewrite (read_new_targets_json _ _ _ Hf), (flat_new_event _ _ _ Hf).
    eexists. split; [reflexivity|]. cbn [fst snd]. split_and!.
    + cbn. by apply tidy_preds.
    + cbn [mem_event en_targets fst snd]. apply Permutation_refl'. rewrite <- !list_fmap_compose. clear -Hts.
      induction Hts as [|t ts Ht _ IH]; [done|]. rewrite !fmap_cons. cbn [List.map fmap list_fmap]. f_equal; [|exact IH].
      cbn [compose mem_target tn_node tn_pod fst snd]. rewrite (flat_new_target t Ht), (read_new_pod_json t Ht).
      destruct Ht as (Hb&Ha&_). f_equal. cbn. apply tidy_preds. by apply Forall_app.
    + unfold mem_pods. cbn [db_pods].
      assert (omap read_new_pod (List.map new_target_json ts) = omap nt_pod ts) as ->.
      { clear -Hts. induction Hts as [|t ts Ht _ IH]; [done|]. cbn [List.map omap list_omap].
        rewrite (read_new_pod_json t Ht). destruct (nt_pod t); [f_equal|]; exact IH. }
      apply mem_merges. clear -Hts. induction Hts as [|t ts (_&_&Ht) _ IH]; [constructor|]. cbn [omap list_omap].
      destruct (nt_pod t) as [[u preds]|]; [by constructor|done].
  - intros payload v t s a s' Hp Ht. cbn [mem_event_db sent_request].
    assert (String.eqb sent_query pod_query = false) as -> by done. rewrite Hp. intros [= <- <-]. split; [done|].
    exists (fun e => String.eqb (string_pred "event_uid" (en_node e)) v). split_and!.
    + by apply mem_mark_event.
    + intros e. apply String.eqb_eq.
    + intros _ _ e _. apply String.eqb_eq.
Qed.

(** ** A concrete run *)

Definition ex_pod (name : string) : Pod :=
  mkPod ("uid-" +:+ name) "default" name (Some [Some (mkLabel "app" name)]).

(** An event about two pods, one of them twice. *)
Definition ex_stored_event : Event :=
  mkEvent KindEvent EventTypeViolation "e1" (Some (mkTimestamp 1700000000 5)) None None
    (Some [ Some (mkTarget (Some (ex_pod "web")) (Some [Some (mkProcess 7 "sh")]) None None "" "");
            Some (mkTarget (Some (ex_pod "db")) None (Some [Some (mkViolatedFile "/etc/passwd" "a" "b")]) None "t" "d");
            Some (mkTarget (Some (ex_pod "web")) None None
                    (Some (mkFalcoAlert "rule" 3%Z "out" (Some {["proc" := "sh"]}))) "" "") ]).

Lemma ex_event_ok : event_ok ex_stored_event.
Proof.
  split.
  - by repeat constructor.
  - intros p q Hp Hq Hu. unfold event_pods in Hp, Hq. cbn in Hp, Hq.
    rewrite !elem_of_cons in Hp, Hq.
    destruct Hp as [->|[->|[->|[]%elem_of_nil]]], Hq as [->|[->|[->|[]%elem_of_nil]]]; done.
Qed.

Definition ex_added : event_db := (run mem_event_db (dgraphEventStore_Add (Some ex_stored_event)) (mkEventDb [] [])).2.

(** What is stored, and that the detection data of the second target is gone. *)
Example ex_add_event :
  length (mem_pods ex_added) = 2 /\
  (fun e => (Event_Type e, Event_Uid e, Event_ServerTimestamp e)) <$> unsent_events mem_events mem_pods ex_added =
    [(EventTypeViolation, "e1", Some (mkTimestamp 1700000000 5))] /\
  (run mem_event_db (dgraphEventStore_GetAll 10) ex_added).1 =
    Done (Some [Some (mkEvent KindEvent EventTypeViolation "e1" (Some (mkTimestamp 1700000000 5)) None None
      (Some [ Some (mkTarget (Some (ex_pod "web")) (Some [Some (mkProcess 7 "sh")]) None None "" "");
            Some (mkTarget (Some (ex_pod "db")) None (Some [Some (mkViolatedFile "/etc/passwd" "a" "b")]) None "" "");
            Some (mkTarget (Some (ex_pod "web")) None None
                    (Some (mkFalcoAlert "rule" 3%Z "out" (Some {["proc" := "sh"]}))) "" "") ]))], None).
Proof. by vm_compute. Qed.

Lemma added_event_comes_back_witness : exists l s2,
  run mem_event_db (dgraphEventStore_GetAll 10) ex_added = (Done (l, None), s2) /\
  exists e', Some e' ∈ elems l /\ stored_as ex_stored_event e'.
Proof.
  eexists _, _. split; [by vm_compute|].
  refine (proj1 (added_event_comes_back mem_event_db mem_events mem_pods ex_stored_event (mkEventDb [] [])
    ex_added _ _ ex_event_ok _ _) 10%Z _); [|by vm_compute|by vm_compute]. by vm_compute.
Defined.

(** The Alertmanager of the example takes every alert. *)
Definition ex_post (labels : gmap string string) (p : list (gmap string string))
  : option error * list (gmap string string) := (None, p ++ [labels]).

Lemma dgraph_events_serve_alerts_witness :
  AlertLaws (dispatcher_env mem_event_db ex_post) (fun w => unsent_events mem_events mem_pods w.1) (fun w => w.2).
Proof.
  apply (dgraph_events_serve_alerts mem_event_db mem_events mem_pods ex_post (fun p => p)).
  intros labels err p p' [= <- <-]. by left.
Defined.

(** The alert is sent once. *)
Example ex_dispatched :
  let w := (run (dispatcher_env mem_event_db ex_post) (LoopSendAlerts 2) (ex_added, [])).2 in
  length w.2 = 1 /\ unsent_events mem_events mem_pods w.1 = [].
Proof. by vm_compute. Qed.

(** A Dgraph that refuses requests with a variable that is no UTF-8. *)
Definition ex_bad_event : Event :=
  mkEvent KindEvent EventTypeViolation "e2" None None None
    (Some [Some (mkTarget (Some (mkPod (bytes [255]) "default" "web" None)) None None None "" "")]).

Lemma refused_upsert_panics_witness :
  run mem_event_db (dgraphEventStore_Add (Some ex_bad_event)) (mkEventDb [] [])
    = (Crashed (NilDeref "resp"), mkEventDb [] []).
Proof.
  apply (refused_upsert_panics mem_event_db ex_bad_event
    (mkTarget (Some (mkPod (bytes [255]) "default" "web" None)) None None None "" "")
    (mkPod (bytes [255]) "default" "web" None) [] _ dgraph_error); by vm_compute.
Defined.
