(* ===== verification/DgraphPipeline.v ===== *)
(** The event path on its database: tarian-server of [Pipeline] with the event
    store on Dgraph keeps the laws that [Pipeline] and [Delivery] are proved
    from.  So what these say holds of the server on Dgraph, where events share
    the nodes of their pods and every new event writes them anew.  The clock
    and the uids are parameters.  An addition that panics ends the process; it
    is answered as a failed one here, so that what the path does afterwards is
    covered, too, but is no run of the server. *)

From S2P Require Import Prelude Guards GoStrings Types Json GoTime Codec Dgraph Store DgraphStore Queue Events Alerts.
From S2P Require Import DgraphEvents DgraphEventFacts Pipeline.

(** * What the store shows *)

(** The same event, with the same report on every target. *)
Definition same_event (x x' : Event) : Prop :=
  Event_Uid x' = Event_Uid x /\ Event_Type x' = Event_Type x /\
  Forall2 same_report (elems (Event_Targets x)) (elems (Event_Targets x')).

(** An event as the store shows it, with the targets in another order. *)
Definition shown_as (e x : Event) : Prop :=
  exists ts, ts ≡ₚ elems (Event_Targets e) /\
    same_event (mkEvent KindEvent (Event_Type e) (Event_Uid e) None None None (Some ts)) x.

(** Texts that Dgraph keeps as they are. *)
Definition plain_target (t : Target) : Prop :=
  elems (Target_ViolatedProcesses (stored_target t)) = elems (Target_ViolatedProcesses t) /\
  elems (Target_ViolatedFiles (stored_target t)) = elems (Target_ViolatedFiles t) /\
  on_ptr (fun p => clean (Pod_Uid p) = Pod_Uid p) (Target_Pod t).

(** Events the store shows as unsent when they were added. *)
Definition shown (e : Event) : Prop :=
  clean (Event_Type e) = Event_Type e /\ Event_Type e <> EventTypeDetection /\ Event_AlertSentAt e = None /\
  Forall (on_ptr plain_target) (elems (Event_Targets e)).

#[export] Instance same_report_preorder : PreOrder same_report.
Proof.
  split; [by intros t; split_and!|]. intros t1 t2 t3 (H1&H2&H3) (H4&H5&H6).
  split_and!; [|congruence..]. intros Ht. destruct (H1 Ht) as [Ht2 He]. destruct (H4 Ht2) as [Ht3 He2]. by split; [|rewrite He2].
Qed.

#[export] Instance same_event_preorder : PreOrder same_event.
Proof.
  split; [by intros x; split_and!|]. intros x y z (H1&H2&H3) (H4&H5&H6). split_and!; [congruence..|by etrans].
Qed.

Lemma same_report_stored t : on_ptr plain_target t -> same_report t (fmap (M := option) stored_target t).
Proof.
  destruct t as [t|]; [|intros _; reflexivity]. intros (H1&H2&H3). split_and!; [|exact H1|exact H2].
  cbn. intros [p Hp]. rewrite Hp in *. split; [by eexists|exact H3].
Qed.

Lemma stored_as_shown e x :
  shown e -> utf8 (Event_Uid e) -> stored_as e x -> shown_as e x.
Proof.
  intros (Hty&_&_&Hplain) Hu (ts&->&Hp).
  assert (Forall2 (fun t' t => same_report t t') (fmap (M := option) stored_target <$> elems (Event_Targets e))
    (elems (Event_Targets e))) as Hr.
  { clear Hp. induction Hplain as [|t l Ht _ IH]; [constructor|]. constructor; [by apply same_report_stored|exact IH]. }
  destruct (Permutation_Forall2 (Permutation_sym Hp) Hr) as (l&Hl&Hf).
  exists l. split; [done|]. split_and!; [exact (utf8_clean _ Hu)|exact Hty|]. cbn. by apply Forall2_flip.
Qed.

Lemma shown_as_again e x x' : shown_as e x -> same_event x x' -> shown_as e x'.
Proof. intros (ts&Hp&He) Hs. exists ts. split; [done|]. by etrans. Qed.

(** The alert of a shown event is about one of its targets. *)
Lemma shown_as_target e x :
  shown_as e x -> is_Some (alert_target (Some e)) ->
  exists t t', t ∈ elems (Event_Targets e) /\ alert_target (Some x) = Some t' /\ same_report t t'.
Proof.
  intros (ts&Hp&_&_&Hr) [t0 Ht0]. apply alert_target_in in Ht0 as [Hin Hpod]. cbn in Hr.
  assert (exists t', alert_target (Some x) = Some t') as [t' Ht'].
  { rewrite <- Hp in Hin. apply list_elem_of_lookup in Hin as [i Hi].
    destruct (Forall2_lookup_l _ _ _ _ _ Hr Hi) as (t'&Ht'&(Hs&_)). destruct (Hs Hpod) as [Hpod' _].
    destruct (alert_target (Some x)) as [t''|] eqn:Ha; [by exists t''|]. unfold alert_target in Ha.
    pose proof (List.find_none _ _ Ha t') as Hn. cbn [Event_GetTargets] in Hn.
    rewrite <- list_elem_of_In in Hn. specialize (Hn (list_elem_of_lookup_2 _ _ _ Ht')).
    by destruct Hpod' as [p Hp']; rewrite Hp' in Hn. }
  destruct (alert_target_in x t' Ht') as [Hx _]. apply list_elem_of_lookup in Hx as [i Hi].
  destruct (Forall2_lookup_r _ _ _ _ _ Hr Hi) as (t&Ht&Hs). exists t, t'. split; [|done].
  rewrite <- Hp. by eapply list_elem_of_lookup_2.
Qed.

(** Pods that were written anew show the events as before. *)
Lemma read_event_grows ns ns' n : grows ns ns' -> same_event (read_event ns n) (read_event ns' n).
Proof.
  intros Hg. unfold read_event. rewrite !dec_event. cbv zeta. split_and!; [done..|].
  unfold toPbEvent. cbn [Event_Targets elems DEvent_Targets default id].
  assert (forall ns, elems match en_targets n with [] => None | _ => Some (read_target ns <$> en_targets n) end =
    read_target ns <$> en_targets n) as He by by destruct (en_targets n).
  unfold elems in He. rewrite !He. clear He. induction (en_targets n) as [|t l IH]; [constructor|]. constructor; [|exact IH].
  split_and!; [|done..]. unfold read_target, toPbTarget. cbn [Target_GetPod Target_Pod DTarget_Pod].
  intros [p Hp]. destruct (tn_pod t) as [u|]; [|done]. cbn [mbind option_bind] in *.
  destruct (List.find _ ns) as [m|] eqn:Hm; [|done]. destruct (Hg u m Hm) as (m'&->&Hu). split; [by eexists|].
  cbn. exact Hu.
Qed.

(** * The server on Dgraph *)

Section server.
Context {S P U : Type} (h : handler EventDbE S) (events : S -> list event_node) (pods : S -> list node).
Context `{HD : !EventDbLaws h events pods}.
Context (post : gmap string string -> P -> option error * P) (posted : P -> list (gmap string string)).
Context (now : U -> Z * U) (uuid : U -> string * U) (given : U -> list string).

(** The Alertmanager, the clock, and the uids. *)
Class SurroundingLaws : Prop := {
  sl_post labels err p p' : post labels p = (err, p') ->
    posted p' = posted p ++ [labels] \/ (err <> None /\ posted p' = posted p);
  sl_now u : given (now u).2 = given u;
  sl_uuid u : ((uuid u).1 ∉ given u) /\ utf8 (uuid u).1 /\
    (forall v, v ∈ given (uuid u).2 <-> v = (uuid u).1 \/ v ∈ given u);
}.

Definition dgraph_server : handler PipelineE (S * P * U) := fun X e w =>
  match e in PipelineE X return X * (S * P * U) with
  | PDispatcher e => let '(x, w') := dispatcher_env h post _ e w.1 in (x, (w', w.2))
  | PWorker e =>
      match e in IngestE X return X * (S * P * U) with
      | INow => let '(x, u) := now w.2 in (x, (w.1, u))
      | INewUUID => let '(x, u) := uuid w.2 in (x, (w.1, u))
      | IStore e => let '(x, s') := event_answers h _ e w.1.1 in (x, (s', w.1.2, w.2))
      end
  end.

Definition dgraph_view : view (S * P * U) := {|
  unsent w := unsent_events events pods w.1.1;
  alerts w := posted w.1.2;
  issued w := given w.2;
  fine := event_ok;
  okay := shown;
  good_uid := utf8;
  kept := shown_as;
  renewed := same_event |}.

Context `{HS : !SurroundingLaws}.

Lemma dgraph_dispatcher : AlertLaws (dispatcher_side dgraph_server) (unsent dgraph_view) (alerts dgraph_view).
Proof using HD HS.
  pose proof (dgraph_events_serve_alerts h events pods post posted sl_post) as [H1 H2 H3].
  assert (forall X (e : AlertE X) w x w', dispatcher_side dgraph_server X e w = (x, w') ->
    dispatcher_env h post X e w.1 = (x, w'.1)) as Hd.
  { intros X e w x w'. unfold dispatcher_side, dgraph_server.
    destruct (dispatcher_env h post X e w.1) as [y w1]. by intros [= <- <-]. }
  split; intros *; intros Hh%Hd; [by apply (H1 l err)|by apply H2|by apply H3].
Qed.

(** An addition, as the dispatcher sees it. *)
Lemma dgraph_add e err s s' :
  event_ok e -> utf8 (Event_Uid e) -> event_answers h _ (EventAdd e) s = (err, s') ->
  (forall x, x ∈ unsent_events events pods s -> exists x', x' ∈ unsent_events events pods s' /\ same_event x x') /\
  (forall x', x' ∈ unsent_events events pods s' ->
     (exists x, x ∈ unsent_events events pods s /\ same_event x x') \/
     (Event_Uid x' = Event_Uid e /\ (shown e -> shown_as e x'))) /\
  (err = None -> shown e -> exists x', x' ∈ unsent_events events pods s' /\ shown_as e x').
Proof using HD.
  intros Hok Hu Ha. pose proof (Add_cases h events pods e s Hok) as Hc. unfold event_answers in Ha.
  cbn [dgraphEventStore] in Ha. destruct (run h (dgraphEventStore_Add (Some e)) s) as [o s1].
  destruct Hc as [Hg Hc].
  assert (s' = s1 /\ (err = None -> o = Done None)) as [-> Hnone]
    by (destruct o as [x|c]; injection Ha as <- <-; split; [done|congruence|done|done]).
  assert (forall n, n ∈ events s -> not_sent n = true -> n ∈ events s1 ->
    exists x', x' ∈ unsent_events events pods s1 /\ same_event (read_event (pods s) n) x') as Hkeep.
  { intros n Hn Hns Hn1. exists (read_event (pods s1) n). split; [|by apply read_event_grows].
    apply unsent_elem. by exists n. }
  assert (forall n, n ∈ events s -> not_sent n = true ->
    exists x, x ∈ unsent_events events pods s /\ same_event x (read_event (pods s1) n)) as Hback.
  { intros n Hn Hns. exists (read_event (pods s) n). split; [|by apply read_event_grows].
    apply unsent_elem. by exists n. }
  destruct Hc as [[Ho He]|(n&He&Hst&Hty&Hti)]; split_and!.
  - intros x (n&->&Hn&Hns)%unsent_elem. apply Hkeep; [done..|by rewrite He].
  - intros x' (n&->&Hn&Hns)%unsent_elem. left. apply Hback; [by rewrite <- He|done].
  - intros Herr. by rewrite (Hnone Herr) in Ho.
  - intros x (m&->&Hm&Hns)%unsent_elem. apply Hkeep; [done..|rewrite He; by right].
  - intros x' (m&->&Hm&Hns)%unsent_elem. rewrite He in Hm. apply elem_of_cons in Hm as [->|Hm]; [right|left; by apply Hback].
    split; [|intros Hsh; by apply stored_as_shown]. destruct Hst as (ts&->&_). exact (utf8_clean _ Hu).
  - intros _ Hsh. exists (read_event (pods s1) n). split; [|by apply stored_as_shown].
    apply unsent_elem. exists n. split; [done|]. split; [rewrite He; left|].
    destruct Hsh as (Hcl&Hnd&Hsent&_). unfold not_sent, no_detection. rewrite Hty, (Hti Hsent), Hcl, andb_true_r.
    by apply negb_true_iff, String.eqb_neq.
Qed.

(** C17. The event store on Dgraph is one the server loses nothing with.  The
    whole path of an event ([accepted_events_stay_visible],
    [accepted_violations_get_alerted], [violations_end_as_alerts],
    [file_violations_end_as_alerts]) runs on it:
    for events whose pods have uid, namespace and name, an addition that
    succeeds shows the event as one to be alerted about, with the same report
    on the same pods; an addition, however it ends, takes no other event away
    although it writes pods anew that others refer to; and listing, marking
    and alerting are as [Alerts] needs them. *)
Theorem dgraph_serves_pipeline : PipelineLaws dgraph_server dgraph_view.
Proof using HD HS.
  split; cbn [dgraph_view unsent alerts issued fine okay good_uid kept renewed].
  - apply dgraph_dispatcher.
  - intros X e w x w'. unfold dispatcher_side, dgraph_server.
    destruct (dispatcher_env h post X e w.1) as [y w1]. by intros [= <- <-].
  - intros t [sp u] w'. cbn. pose proof (sl_now u). destruct (now u) as [t' u']. by intros [= <- <-].
  - intros x [sp u] w'. cbn. pose proof (sl_uuid u) as (H1&H2&H3). destruct (uuid u) as [x' u'].
    intros [= <- <-]. by split_and!.
  - intros e err [[s p] u] w' Hok Hu. cbn. destruct (event_answers h _ (EventAdd e) s) as [er s'] eqn:Ha.
    intros [= <- <-]. split; [done|]. split; [done|]. by apply dgraph_add.
  - intros e e' Hu. apply (f_equal Event_Targets) in Hu. cbn in Hu. unfold event_ok, event_pods. by rewrite Hu.
  - intros e e' Hu. pose proof (f_equal Event_Targets Hu) as H1. pose proof (f_equal Event_Type Hu) as H2.
    pose proof (f_equal Event_AlertSentAt Hu) as H3. cbn in H1, H2, H3. unfold shown. by rewrite H1, H2, H3.
  - by intros x x' (Hu&_).
  - by intros e x (ts&_&Hu&_).
  - apply shown_as_again.
  - by intros e x (ts&_&_&Ht&_).
  - apply shown_as_target.
Qed.
End server.

(** * A server in memory *)

(** Uids are numbered, the clock stands still. *)
Definition ex_uuid (n : nat) : string * nat := (Itoa (Z.of_nat n), Datatypes.S n).
Definition ex_given (n : nat) : list string := (fun i => Itoa (Z.of_nat i)) <$> seq 0 n.

Definition ex_now (n : nat) : Z * nat := (1700000000000000000%Z, n).

#[export] Instance ex_surroundings : SurroundingLaws ex_post (fun p => p) ex_now ex_uuid ex_given.
Proof.
  split.
  - intros labels err p p' [= <- <-]. by left.
  - done.
  - intros n. cbn [ex_uuid fst snd]. split_and!.
    + intros (i&Hi&Hin%elem_of_seq)%list_elem_of_fmap. apply (inj pretty) in Hi. lia.
    + apply utf8_ascii, ascii_Itoa.
    + intros v. unfold ex_given. rewrite seq_S, fmap_app, elem_of_app. cbn. rewrite list_elem_of_singleton. tauto.
Qed.

Lemma dgraph_serves_pipeline_witness :
  PipelineLaws (dgraph_server mem_event_db ex_post ex_now ex_uuid)
    (dgraph_view mem_events mem_pods (fun p => p) ex_given).
Proof. apply (dgraph_serves_pipeline mem_event_db mem_events mem_pods ex_post (fun p => p) ex_now ex_uuid ex_given). Defined.

(** A violation goes all the way through this server: two calls later - the
    list and the post - its alert is with the Alertmanager, and after the next
    it is marked in Dgraph. *)
Definition ex_server := dgraph_server mem_event_db ex_post ex_now ex_uuid.

Definition ex_dgraph_run : option (pipeline (event_db * list (gmap string string) * nat)) :=
  let w := (mkEventDb [] [], [], 0) in
  ingest (Some (mkIngestEventRequest (Some (ex_violation "")))) (Events.start (mkWorld w [] [])) ≫= fun r =>
  read_message GeneralQueue r.2 ≫= fun s =>
  send_message GeneralQueue s ≫= fun s =>
  (fun i => mkPipeline i [] LoopSendAlerts_round) <$> process_message (worker_side ex_server) GeneralQueue s.

Example ex_dgraph_alert :
  (fun s => let s2 := Nat.iter 2 (dispatch_call ex_server) s in
     let s3 := dispatch_call ex_server s2 in
     (length (mem_events (world_env (pipeline_world s)).1.1),
      length (world_env (pipeline_world s2)).1.2,
      length (unsent_events mem_events mem_pods (world_env (pipeline_world s2)).1.1),
      length (unsent_events mem_events mem_pods (world_env (pipeline_world s3)).1.1))) <$> ex_dgraph_run
  = Some (1, 1, 1, 0).
Proof. by vm_compute. Qed.
