(* ===== verification/DgraphIngestion.v ===== *)
(** Ingestion on its database: what tarian-server of [Pipeline] leaves in
    Dgraph of the events it accepts, of either class and with detection events,
    which no listing shows.  A database may refuse an event, or fail after it
    has written it, and keeps no detection data; the theorem accounts for
    each.  As in [DgraphPipeline], an addition that panics is answered as a
    failed one. *)

From S2P Require Import Prelude Guards GoStrings Types Json GoTime Codec Dgraph Store DgraphStore Queue Events Alerts.
From S2P Require Import DgraphEvents DgraphEventFacts Pipeline DgraphPipeline.

(** * What is in the database *)

(** Two targets with the same content, and the same pod if the first has one. *)
Definition same_target (t t' : ptr Target) : Prop :=
  same_report t t' /\ Target_GetFalcoAlert t' = Target_GetFalcoAlert t.

(** The event is still the same, whatever became of its alert. *)
Definition still (x x' : Event) : Prop :=
  Event_Uid x' = Event_Uid x /\ Event_Type x' = Event_Type x /\
  Event_ServerTimestamp x' = Event_ServerTimestamp x /\
  Event_ClientTimestamp x' = Event_ClientTimestamp x /\
  Forall2 same_target (elems (Event_Targets x)) (elems (Event_Targets x')).

(** The database has the event [e] as [x]: all but its detection data, strings
    made valid UTF-8, and the targets in an order of its own. *)
Definition recorded (e x : Event) : Prop :=
  Event_Uid x = clean (Event_Uid e) /\ Event_Type x = clean (Event_Type e) /\
  Event_ServerTimestamp x = stored_time (Event_ServerTimestamp e) /\
  Event_ClientTimestamp x = stored_time (Event_ClientTimestamp e) /\
  exists ts, ts ≡ₚ fmap (M := option) stored_target <$> elems (Event_Targets e) /\
    Forall2 same_target ts (elems (Event_Targets x)).

#[export] Instance same_target_preorder : PreOrder same_target.
Proof.
  split; [by intros t|]. intros t1 t2 t3 [H1 H2] [H3 H4]. split; [by etrans|congruence].
Qed.

#[export] Instance still_preorder : PreOrder still.
Proof.
  split; [by intros x|]. intros x y z (H1&H2&H3&H4&H5) (H6&H7&H8&H9&H10).
  split_and!; [congruence..|by etrans].
Qed.

Lemma recorded_still e x x' : recorded e x -> still x x' -> recorded e x'.
Proof.
  intros (H1&H2&H3&H4&ts&Hp&H5) (H6&H7&H8&H9&H10). split_and!; [congruence..|].
  exists ts. split; [done|by etrans].
Qed.

Lemma stored_as_recorded e x : stored_as e x -> recorded e x.
Proof. intros (ts&->&Hp). split_and!; [done..|]. by exists ts. Qed.

(** Pods that were written anew, and the mark of an alert. *)
Lemma read_target_still ns ns' t : grows ns ns' ->
  same_target (Some (toPbTarget (read_target ns t))) (Some (toPbTarget (read_target ns' t))).
Proof.
  intros Hg. split; [split_and!; [|done..]|done]. unfold read_target, toPbTarget.
  cbn [Target_GetPod Target_Pod DTarget_Pod]. intros [p Hp].
  destruct (tn_pod t) as [u|]; [|done]. cbn [mbind option_bind] in *.
  destruct (List.find _ ns) as [m|] eqn:Hm; [|done]. destruct (Hg u m Hm) as (m'&->&Hu).
  split; [by eexists|]. cbn. exact Hu.
Qed.

Lemma read_event_still ns ns' n : grows ns ns' -> still (read_event ns n) (read_event ns' n).
Proof.
  intros Hg. unfold read_event. rewrite !dec_event. cbv zeta. split_and!; [done..|].
  unfold toPbEvent. cbn [Event_Targets elems DEvent_Targets default id].
  destruct (en_targets n) as [|t l]; [constructor|]. generalize (t :: l). clear t l. intros l.
  induction l as [|t l IH]; constructor; [by apply read_target_still|exact IH].
Qed.

Lemma read_event_marked ns t n : still (read_event ns n) (read_event ns (mark_sent t n)).
Proof. unfold read_event. rewrite !dec_event. by split_and!. Qed.

(** * What every step keeps *)

(** The additions so far: those that succeeded are in the database, once each,
    and some of those that failed may be; the events from before are there,
    and nothing else is.  [before] is how they were read. *)
Definition in_database {W} (shown : W -> list Event) (before : list Event) (w : world W) : Prop :=
  exists unsure new old, unsure ⊆+ world_dropped w /\
    shown (world_env w) = new ++ old /\ Forall2 still before old /\
    exists es, es ≡ₚ world_stored w ++ unsure /\ Forall2 recorded es new.

Lemma in_database_still {W} (shown : W -> list Event) before w w' :
  world_stored w' = world_stored w -> world_dropped w' = world_dropped w ->
  Forall2 still (shown (world_env w)) (shown (world_env w')) ->
  in_database shown before w -> in_database shown before w'.
Proof.
  intros Hs Hd Hst (u&new&old&Hu&Hsh&Ho&es&Hp&Hr). rewrite Hsh in Hst.
  apply Forall2_app_inv_l in Hst as (new'&old'&Hn'&Ho'&Hsh'). exists u, new', old'.
  rewrite Hd, Hs. split_and!; [done|done|by etrans|]. exists es. split; [done|].
  clear -Hr Hn'. revert new' Hn'. induction Hr as [|e x es new He _ IH]; intros new' Hn'; inversion Hn'; subst;
    constructor; [by eapply recorded_still|by apply IH].
Qed.

(** One more addition, that the answer [err] and the event [e] belong to. *)
Lemma in_database_added {W} (shown : W -> list Event) before w w1 e err x l :
  in_database shown before w -> shown w1 = x :: l -> recorded e x -> Forall2 still (shown (world_env w)) l ->
  in_database shown before
    (record_add (IStore (EventAdd e)) err w1 (world_stored w) (world_dropped w)).
Proof.
  intros Hin Hsh He Hl.
  assert (exists u new old, u ⊆+ world_dropped w /\ l = new ++ old /\ Forall2 still before old /\
    exists es, es ≡ₚ world_stored w ++ u /\ Forall2 recorded es new) as (u&new&old&Hu&->&Ho&es&Hp&Hr).
  { destruct w as [w st dr]. cbn in *.
    by apply (in_database_still (fun l : list Event => l) before (mkWorld (shown w) st dr) (mkWorld l st dr)). }
  destruct err as [err|]; cbn.
  - exists (e :: u), (x :: new), old. cbn. split_and!; [|done|done|].
    + rewrite (Permutation_app_comm (world_dropped w)). by apply submseteq_skip.
    + exists (e :: es). split; [by rewrite Hp, Permutation_middle|by constructor].
  - exists u, (x :: new), old. cbn. split_and!; [done..|]. exists (e :: es). split; [|by constructor].
    rewrite Hp, <- app_assoc. apply Permutation_middle.
Qed.

Lemma in_database_refused {W} (shown : W -> list Event) before w w1 e err :
  in_database shown before w -> Forall2 still (shown (world_env w)) (shown w1) ->
  in_database shown before
    (record_add (IStore (EventAdd e)) (Some err) w1 (world_stored w) (world_dropped w)).
Proof.
  intros Hin Hst.
  apply (in_database_still shown before w (mkWorld w1 (world_stored w) (world_dropped w))) in Hin; [|done..].
  destruct Hin as (u&new&old&Hu&H). exists u, new, old. split; [|exact H].
  etrans; [exact Hu|]. by apply submseteq_inserts_r.
Qed.

Section server.
Context {S P U : Type} (events : S -> list event_node) (pods : S -> list node).
Context (post : gmap string string -> P -> option error * P).
Context (now : U -> Z * U) (uuid : U -> string * U).

(** Every event node, as it is read. *)
Definition all_events (w : S * P * U) : list Event := read_event (pods w.1.1) <$> events w.1.1.

Section steps.
Context (h : handler EventDbE S) `{HD : !EventDbLaws h events pods}.

Local Abbreviation server := (dgraph_server h post now uuid).

Lemma events_still s s' (f : event_node -> event_node) :
  grows (pods s) (pods s') -> events s' = f <$> events s ->
  (forall n, still (read_event (pods s') n) (read_event (pods s') (f n))) ->
  Forall2 still (read_event (pods s) <$> events s) (read_event (pods s') <$> events s').
Proof using Type.
  intros Hg -> Hf. induction (events s) as [|n l IH]; constructor; [|exact IH].
  etrans; [by apply read_event_still|apply Hf].
Qed.

Lemma events_kept s s' :
  grows (pods s) (pods s') -> events s' = events s ->
  Forall2 still (read_event (pods s) <$> events s) (read_event (pods s') <$> events s').
Proof using Type. intros Hg He. apply (events_still s s' id); [done|by rewrite list_fmap_id|done]. Qed.

(** The worker. *)
Lemma process_in_database before e w :
  event_ok e -> in_database all_events before w -> exists t u d err w',
    run (worker_side server) (processEvent e) w =
      (Done tt, record_add (IStore (EventAdd (stamp (now t).1 (uuid u).1 e))) err w'
                  (world_stored w) (world_dropped w)) /\
    adds (trace (worker_side server) (processEvent e) w) = [stamp (now t).1 (uuid u).1 e] /\
    err = (event_answers h _ (EventAdd (stamp (now t).1 (uuid u).1 e)) d).1 /\
    in_database all_events before (run (worker_side server) (processEvent e) w).2.
Proof using HD.
  intros Hok Hin. destruct w as [[[s p] u] stored dropped].
  set (e' := stamp (now u).1 (uuid (now u).2).1 e).
  assert (event_ok e') as Hok' by exact Hok.
  pose proof (Add_cases h events pods e' s Hok') as Hc.
  destruct (event_answers h _ (EventAdd e') s) as [err s'] eqn:Ha.
  exists u, (now u).2, s, err, (s', p, (uuid (now u).2).2).
  assert (run (worker_side server) (processEvent e) (mkWorld (s, p, u) stored dropped) =
    (Done tt, record_add (IStore (EventAdd e')) err (s', p, (uuid (now u).2).2) stored dropped) /\
    adds (trace (worker_side server) (processEvent e) (mkWorld (s, p, u) stored dropped)) = [e']) as [Hr Ht].
  { subst e'. unfold processEvent, worker_side, dgraph_server. cbn.
    destruct (now u) as [t u1]. cbn in *. destruct (uuid u1) as [x u2]. cbn in *. by rewrite Ha. }
  rewrite Ht, Hr. cbn [world_stored world_dropped]. fold e'. rewrite Ha.
  split_and!; [done..|]. cbn [snd]. unfold event_answers in Ha. cbn [dgraphEventStore] in Ha.
  destruct (run h (dgraphEventStore_Add (Some e')) s) as [o s1]. destruct Hc as [Hg Hc].
  assert (s' = s1 /\ (err = None -> o = Done None)) as [-> Hnone]
    by (destruct o as [x|c]; injection Ha as <- <-; split; [done|congruence|done|done]).
  destruct Hc as [[Ho He]|(n&He&Hst&_)].
  - destruct err as [err|]; [|by rewrite Hnone in Ho].
    apply (in_database_refused all_events before (mkWorld (s, p, u) stored dropped)); [done|].
    by apply (events_kept s s1).
  - apply (in_database_added all_events before (mkWorld (s, p, u) stored dropped) _ e' err
      (read_event (pods s1) n) (read_event (pods s1) <$> events s)); [done| | |].
    + unfold all_events. cbn. by rewrite He.
    + by apply stored_as_recorded.
    + unfold all_events. cbn. generalize (events s). clear -Hg.
      intros l. induction l as [|m l IH]; constructor; [by apply read_event_still|exact IH].
Qed.

(** The dispatcher. *)
Lemma dispatch_in_database before past X (e : AlertE X) x w w' :
  careful past X e -> dispatcher_side server X e (world_env w) = (x, w') ->
  in_database all_events before w ->
  in_database all_events before (mkWorld w' (world_stored w) (world_dropped w)).
Proof using HD.
  intros Hc Hh. apply in_database_still; [done..|]. clear - HD Hc Hh.
  destruct w as [[[s p] u] stored dropped]. cbn [world_env] in *.
  apply careful_call in Hc. unfold dispatcher_side, dgraph_server in Hh.
  destruct e as [X e|labels]; [destruct e as [?|? ?| |?|uid]; try destruct Hc|];
    cbn [dispatcher_env fst snd] in Hh; unfold all_events; cbn [fst snd].
  - unfold event_answers in Hh.
    destruct (list_events_run h events pods unsent_query not_sent s) as (r&er&s'&Hr&[He Hp]&_); [right; left|].
    change (dgraphEventStore _ FindWhereAlertNotSent) with (list_events unsent_query) in Hh.
    rewrite Hr in Hh. injection Hh as <- <-. cbn [world_env fst snd]. apply events_kept; [by rewrite Hp|done].
  - unfold event_answers in Hh.
    destruct (UpdateAlertSent_run h events pods uid s) as (er&s'&Hr&Hp&t&marks&He&_).
    change (dgraphEventStore _ (UpdateAlertSent uid)) with (dgraphEventStore_UpdateAlertSent uid) in Hh.
    rewrite Hr in Hh. injection Hh as <- <-. cbn [world_env fst snd]. eapply events_still; [by rewrite Hp|exact He|].
    intros n. cbv beta. destruct (marks n); [apply read_event_marked|done].
  - destruct (post labels p) as [er p']. injection Hh as <- <-. cbn [world_env fst snd]. by apply events_kept.
Qed.

(** Requests, workers and dispatcher. *)
Record on_record (before : list Event) (s : pipeline (S * P * U)) : Prop := {
  or_database : in_database all_events before (pipeline_world s);
  or_careful : guarded careful (fun past _ => True) (pipeline_past s) (pipeline_round s);
  or_added : ingestion_added (pipeline_ingestion s) ≡ₚ
    world_stored (pipeline_world s) ++ world_dropped (pipeline_world s);
  or_fifo : fifo (pipeline_ingestion s);
}.

Definition all_ok (i : ingestion (world (S * P * U))) : Prop := forall e, e ∈ ingestion_accepted i -> event_ok e.

Lemma pending_ok q e (i : ingestion (world (S * P * U))) :
  all_ok i -> fifo i -> e ∈ pending (get_consumer q i) -> event_ok e.
Proof using Type.
  intros Hok Hf He. destruct (pending_accepted i q e Hf He) as (e0&Hin&Hu). apply Hok in Hin.
  unfold event_ok, event_pods in *. apply (f_equal Event_Targets) in Hu. cbn in Hu. by rewrite Hu.
Qed.

Lemma on_record_ingestion before i i' past p :
  ingestion_step (worker_side server) i i' -> all_ok i ->
  on_record before (mkPipeline i past p) -> on_record before (mkPipeline i' past p).
Proof using HD.
  intros Hs Hok [R1 R2 R3 R4]. unfold pipeline_world in *. cbn in *.
  pose proof (fifo_step server _ _ Hs R4) as Hf.
  apply ingestion_step_env in Hs as [[He Ha]|(q&e&Hin&He&Ha)].
  - split; unfold pipeline_world; cbn; by rewrite ?He, ?Ha.
  - pose proof (pending_ok q e i Hok R4 Hin) as Hoke.
    destruct (process_in_database before e _ Hoke R1) as (t&u&d&err&w'&Hr&Hadds&_&Hdb).
    split; unfold pipeline_world; cbn; rewrite ?He, ?Ha; [done..| |done].
    rewrite Hadds, Hr, R3. destruct err; cbn; [by rewrite app_assoc|].
    rewrite <- !app_assoc. f_equiv. apply Permutation_app_comm.
Qed.

Lemma on_record_step before s s' :
  pipeline_step server s s' -> all_ok (pipeline_ingestion s) -> on_record before s -> on_record before s'.
Proof using HD.
  intros [i i' past p Hs|i past X e k x w' Hh|i past] Hok Hr; [by eapply on_record_ingestion|..];
    destruct Hr as [R1 R2 R3 R4]; unfold pipeline_world in *; cbn -[careful] in *.
  - destruct R2 as [Hc Hk]. split; unfold pipeline_world; cbn; [|apply Hk|done|by apply fifo_set_env].
    by eapply dispatch_in_database.
  - split; unfold pipeline_world; cbn; try done. exact (round_careful past).
Qed.

Lemma on_record_steps before s s' :
  rtc (pipeline_step server) s s' -> all_ok (pipeline_ingestion s') -> on_record before s -> on_record before s'.
Proof using HD.
  induction 1 as [s|s s1 s2 Hs Hr IH]; [done|]. intros Hok Hon. apply IH; [done|].
  eapply on_record_step; [done| |done]. intros e He. apply Hok.
  by apply (steps_accept server s s2 (rtc_l _ _ _ _ Hs Hr)).
Qed.

Lemma boot_on_record w : on_record (all_events w) (boot w).
Proof using Type.
  split; unfold pipeline_world; cbn; [|exact (round_careful [])|done|by intros []].
  exists [], [], (all_events w). split_and!; [done|done|done|]. by exists [].
Qed.

(** The workers alone. *)
Lemma on_record_workers before i i' past p :
  rtc (worker_step (worker_side server)) i i' -> all_ok i ->
  on_record before (mkPipeline i past p) -> on_record before (mkPipeline i' past p).
Proof using HD.
  intros Hr. induction Hr as [i|i i1 i2 Hs _ IH]; [done|]. intros Hok Hon. apply IH.
  - intros e. apply worker_step_cases in Hs as (q&xs&_&->&_). apply Hok.
  - eapply on_record_ingestion; [by apply step_worker|done|done].
Qed.

(** What the database would take. *)
Definition takes (e : Event) : Prop := forall t u d,
  (event_answers h _ (EventAdd (stamp (now t).1 (uuid u).1 e)) d).1 = None.

Lemma workers_take before i i' past p :
  rtc (worker_step (worker_side server)) i i' -> all_ok i -> on_record before (mkPipeline i past p) ->
  (forall q e, e ∈ pending (get_consumer q i) -> takes e) ->
  world_dropped (ingestion_env i') = world_dropped (ingestion_env i).
Proof using HD.
  intros Hr. induction Hr as [i|i i1 i2 Hs _ IH]; [done|]. intros Hok Hon Ht. rewrite IH.
  - apply step_worker, (ingestion_step_env server) in Hs as [[-> _]|(q&e&Hin&->&_)]; [done|].
    pose proof (pending_ok q e i Hok (or_fifo _ _ Hon) Hin) as Hoke.
    destruct (process_in_database before e (ingestion_env i) Hoke (or_database _ _ Hon)) as (t&u&d&err&w'&Hrun&_&Herr&_).
    rewrite (Ht q e Hin t u d) in Herr. subst err. by rewrite Hrun.
  - intros e. apply worker_step_cases in Hs as (q&xs&_&->&_). apply Hok.
  - eapply on_record_ingestion; [by apply step_worker|done|done].
  - intros q e He. apply (Ht q e). apply worker_step_cases in Hs as (q'&xs&Ho&_&_&ys&Hp&_).
    destruct (decide (q = q')) as [->|Hne]; [|by rewrite <- Ho].
    rewrite Hp. apply elem_of_app. by right.
Qed.
End steps.

(** C12. Accepted events reach the database.  Take any state of tarian-server
    that requests, workers and dispatcher reach in any order, on a database
    [h] that may have refused additions, failed after writing, or answered
    any list with an error; from then on let it be [h'].  The workers can
    run on alone, with no further request, until no event is pending; every
    accepted event has then been handed to the event store exactly once, in
    order within its class; the store answered each with success or refused
    it, and a refused event is dropped; and the database has, one event node
    each, every event answered with success, besides those of the refused ones
    it had written when it failed, the events from before, and nothing else -
    with uid, type, times and targets, without detection data.  If it takes
    the events that are pending none of them is refused. *)
Theorem accepted_events_reach_store (h h' : handler EventDbE S)
    `{!EventDbLaws h events pods} `{!EventDbLaws h' events pods} w s :
  rtc (pipeline_step (dgraph_server h post now uuid)) (boot w) s -> all_ok (pipeline_ingestion s) ->
  exists i', rtc (worker_step (worker_side (dgraph_server h' post now uuid))) (pipeline_ingestion s) i' /\
    ingestion_accepted i' = ingestion_accepted (pipeline_ingestion s) /\
    (forall q, pending (get_consumer q i') = [] /\
       unstamp <$> filter (of_class q) (ingestion_added i') =
       unstamp <$> filter (of_class q) (ingestion_accepted i')) /\
    ingestion_added i' ≡ₚ world_stored (ingestion_env i') ++ world_dropped (ingestion_env i') /\
    in_database all_events (all_events w) (ingestion_env i') /\
    ((forall q e, e ∈ pending (get_consumer q (pipeline_ingestion s)) -> takes h' e) ->
     world_dropped (ingestion_env i') = world_dropped (pipeline_world s)).
Proof.
  intros Hr Hok. pose proof (on_record_steps h _ _ _ Hr Hok (boot_on_record w)) as Hon.
  destruct s as [i past p]. cbn [pipeline_ingestion] in *.
  set (server' := dgraph_server h' post now uuid).
  destruct (drain (worker_side server') i) as (i'&Hd&Hp). exists i'.
  destruct (worker_steps_accepted (worker_side server') i i' Hd (or_fifo _ _ Hon)) as [Hf Hacc].
  pose proof (on_record_workers h' _ _ _ past p Hd Hok Hon) as [R1 _ R3 _].
  split_and!; [done|done| |done|done|by eapply workers_take].
  intros q. split; [done|]. destruct (Hf q) as [_ Heq]. by rewrite Hp, app_nil_r in Heq.
Qed.
End server.

(** * A concrete run *)

(** Two requests, a violation and a detection event; the violation is stored,
    listed, posted and marked; the detection event is still in its queue. *)
Definition ex_boot : event_db * list (gmap string string) * nat := (mkEventDb [] [], [], 0).

Definition ex_requests : option (ingestion (world (event_db * list (gmap string string) * nat))) :=
  ingest (Some (mkIngestEventRequest (Some (ex_violation "")))) (Events.start (mkWorld ex_boot [] [])) ≫= fun r1 =>
  ingest (ex_request EventTypeDetection) r1.2 ≫= fun r2 =>
  read_message GeneralQueue r2.2 ≫= fun s3 =>
  send_message GeneralQueue s3 ≫= fun s4 =>
  process_message (worker_side ex_server) GeneralQueue s4.

Definition ex_state : pipeline (event_db * list (gmap string string) * nat) :=
  let i := default (Events.start (mkWorld ex_boot [] [])) ex_requests in
  Nat.iter 3 (dispatch_call ex_server) (mkPipeline i [] LoopSendAlerts_round).

Lemma ex_state_reachable : rtc (pipeline_step ex_server) (boot ex_boot) ex_state.
Proof.
  assert (exists i, ex_requests = Some i) as [i Hi] by (eexists; vm_compute; reflexivity).
  transitivity (mkPipeline i [] LoopSendAlerts_round).
  - unfold ex_requests in Hi. apply bind_Some in Hi as ([a1 s1]&H1&Hi). apply bind_Some in Hi as ([a2 s2]&H2&Hi).
    apply bind_Some in Hi as (s3&H3&Hi). apply bind_Some in Hi as (s4&H4&H5).
    eapply rtc_l; [by eapply step_ingestion, step_ingest|]. eapply rtc_l; [by eapply step_ingestion, step_ingest|].
    eapply rtc_l; [by eapply step_ingestion, step_worker, step_read|].
    eapply rtc_l; [by eapply step_ingestion, step_worker, step_send|].
    by eapply rtc_once, step_ingestion, step_worker, step_process.
  - unfold ex_state. rewrite Hi. cbn [default Nat.iter].
    do 2 (etrans; [apply dispatch_call_reach|]). apply dispatch_call_reach.
Qed.

Lemma ex_accepted : ingestion_accepted (pipeline_ingestion ex_state) = [ex_violation ""; ex_event EventTypeDetection].
Proof. by vm_compute. Qed.

Lemma ex_pending q e : e ∈ pending (get_consumer q (pipeline_ingestion ex_state)) -> e = ex_event EventTypeDetection.
Proof.
  assert (pending (get_consumer q (pipeline_ingestion ex_state)) =
    match q with GeneralQueue => [] | DetectionQueue => [ex_event EventTypeDetection] end) as ->
    by (destruct q; by vm_compute).
  destruct q; [by intros ?%elem_of_nil|by intros ?%list_elem_of_singleton].
Qed.

Lemma ex_all_ok : all_ok (pipeline_ingestion ex_state).
Proof.
  intros e. rewrite ex_accepted. rewrite !elem_of_cons.
  intros [->|[->|[]%elem_of_nil]]; (split; [by repeat constructor|]).
  - unfold event_pods. cbn. intros p q ->%list_elem_of_singleton ->%list_elem_of_singleton. done.
  - intros p q []%elem_of_nil.
Qed.

(** The database in memory takes the detection event. *)
Lemma ex_takes : takes ex_now ex_uuid mem_event_db (ex_event EventTypeDetection).
Proof.
  intros t u d. unfold event_answers. cbn [dgraphEventStore ex_now ex_uuid fst].
  generalize (Itoa (Z.of_nat u)). intros x.
  assert (exists ev, dgraphEventStore_Add (Some (stamp 1700000000000000000 x (ex_event EventTypeDetection))) =
    call (Db (set_mutation (Marshal (enc_DEvent ev))))) as [ev ->] by (eexists; reflexivity).
  cbn [run call mem_event_db set_mutation Mutation_SetJson mbind option_bind].
  unfold Marshal. by rewrite parse_print by apply json_ok_DEvent.
Qed.

Lemma accepted_events_reach_store_witness : exists i',
  rtc (worker_step (worker_side ex_server)) (pipeline_ingestion ex_state) i' /\
  world_dropped (ingestion_env i') = [] /\
  in_database (all_events mem_events mem_pods) [] (ingestion_env i') /\
  forall q, unstamp <$> filter (of_class q) (ingestion_added i') =
    unstamp <$> filter (of_class q) [ex_violation ""; ex_event EventTypeDetection].
Proof.
  destruct (accepted_events_reach_store mem_events mem_pods ex_post ex_now ex_uuid mem_event_db mem_event_db
    ex_boot ex_state ex_state_reachable ex_all_ok) as (i'&Hr&Hacc&Hq&_&Hdb&Ht).
  exists i'. split; [exact Hr|]. split; [|split; [exact Hdb|]].
  - rewrite Ht; [by vm_compute|]. intros q e ->%ex_pending. apply ex_takes.
  - intros q. rewrite <- ex_accepted, <- Hacc. apply Hq.
Defined.

(** What the database has before the workers go on. *)
Example ex_state_database :
  (fun e => (Event_Type e, match Event_AlertSentAt e with Some _ => true | None => false end)) <$>
    all_events mem_events mem_pods (world_env (pipeline_world ex_state)) = [(EventTypeViolation, true)].
Proof. by vm_compute. Qed.
