(* ===== verification/DgraphSchema.v ===== *)
(** The schema of the Dgraph database ([pkg/server/dgraphstore/schema.go]):
    its text, as tarian-server applies it, and what it declares.  The theorem:
    the stores write values of the declared predicates of the declared types,
    except for the detection data of targets, whose predicates have other names
    in the schema and in the queries. *)

From S2P Require Import Prelude GoStrings Types Json GoTime Codec Dgraph Store DgraphStore Events Alerts DgraphEvents DgraphEventFacts.

Definition schema : string := "
	# Constraint type schema definition
	constraint_namespace: string @index(exact) .
	constraint_name: string @index(exact) .
	constraint_selector: string .
	constraint_allowed_processes: string .
	constraint_allowed_files: string .

	type Constraint {
		constraint_namespace
		constraint_name
		constraint_selector
		constraint_allowed_processes
		constraint_allowed_files
	}

	# Action type schema definition
	action_namespace: string @index(exact) .
	action_name: string @index(exact) .
	action_selector: string .
	action_on_violated_process: bool .
	action_on_violated_file: bool .
	action_on_falco_alert: bool .
	action_falco_alert_priority: int .
	action_action: string .

	type Action {
		action_namespace
		action_name
		action_selector
		action_on_violated_process
		action_on_violated_file
		action_on_falco_alert
		action_falco_alert_priority
		action_action
	}

	# Pod type schema definition
	pod_name: string @index(exact) .
	pod_namespace: string @index(exact) .
	pod_uid: string @index(exact) @upsert .
	pod_labels: string .
	pod: uid .

	type Pod {
		pod_name
		pod_namespace
		pod_uid
		pod_labels
	}

	# Event type schema definition
	event_uid: string @index(exact) @upsert .
	event_type: string @index(exact) .
	event_client_timestamp: dateTime @index(hour) .
	event_server_timestamp: dateTime @index(hour) .
	event_alert_sent_at: dateTime @index(hour) .
	targets: [uid] .

	type Event {
		event_type
		event_uid
		event_client_timestamp
		event_server_timestamp
		event_alert_sent_at

		targets: [Target]
	}

	# Target type schema definition
	target_violated_processes: string . # JSON
	target_violated_files: string . # JSON
	target_falco_alert: string .
	target_detection_data_type: string .
	target_detection_data: string .

	type Target {
		pod: Pod

		target_violated_processes
		target_violated_files
		target_falco_alert
		target_detection_data_type
		target_detection_data
	}
".

(** * What it declares *)

(** The words of a line, without a comment. *)
Definition line_words (line : string) : list string :=
  let line := match Split line "#" with l :: _ => l | [] => "" end in
  List.filter (fun w => negb (String.eqb w "")) (Split (TrimSpace line) " ").

Definition schema_words : list (list string) :=
  List.map line_words (Split schema (String "010" "")).

(** A name and the colon after it. *)
Definition named (w : string) : string := match Split w ":" with n :: _ => n | [] => "" end.

(** Predicates with their type: lines that end in a period. *)
Definition declaration (words : list string) : option (string * string) :=
  match words with
  | w :: t :: rest => if bool_decide (List.last rest "" = ".") then Some (named w, t) else None
  | _ => None
  end.

Definition declared : list (string * string) := omap declaration schema_words.

(** Types with their predicates. *)
Fixpoint read_types (cur : option (string * list string)) (l : list (list string))
  : list (string * list string) :=
  match l with
  | [] => []
  | words :: l' =>
      match words, cur with
      | ["type"; t; "{"], _ => read_types (Some (t, [])) l'
      | ["}"], Some c => c :: read_types None l'
      | w :: _, Some (t, fs) => read_types (Some (t, fs ++ [named w])) l'
      | _, _ => read_types cur l'
      end
  end.

Definition schema_types : list (string * list string) := read_types None schema_words.

Example schema_ex :
  List.map fst schema_types = ["Constraint"; "Action"; "Pod"; "Event"; "Target"] /\
  length declared = 29.
Proof. by vm_compute. Qed.

Definition lookup_string {A} (k : string) (l : list (string * A)) : option A :=
  snd <$> List.find (fun kv => String.eqb kv.1 k) l.

(** A value is one of a type of the schema; nodes are written as objects. *)
Definition has_type (ty : string) (j : json) : Prop :=
  match ty, j with
  | "string", JStr _ => True
  | "bool", JBool _ => True
  | "int", JNum l => exists n, int_of_literal min_int max_int l = Some n
  | "dateTime", JStr s => exists t, Parse_RFC3339 s = Some t
  | "uid", JObj _ => True
  | "[uid]", JArr _ => True
  | _, _ => False
  end.

(** A predicate belongs to a type, and the value is of its type. *)
Definition conforms (t : string) (kv : string * json) : Prop :=
  (exists fs, lookup_string t schema_types = Some fs /\ kv.1 ∈ fs) /\
  exists ty, lookup_string kv.1 declared = Some ty /\ has_type ty kv.2.

(** * What the stores write conforms *)

(** The two tables, read once. *)
Definition types_table : list (string * list string) := Eval vm_compute in schema_types.
Definition declared_table : list (string * string) := Eval vm_compute in declared.

Lemma tables : schema_types = types_table /\ declared = declared_table.
Proof. by vm_compute. Qed.

Definition in_tables (ts : list (string * list string)) (ds : list (string * string)) (t k ty : string) : bool :=
  match lookup_string t ts with
  | Some fs => bool_decide (k ∈ fs)
  | None => false
  end && bool_decide (lookup_string k ds = Some ty).

Definition in_type : string -> string -> string -> bool := in_tables types_table declared_table.

Lemma in_tables_spec ts ds t k ty :
  in_tables ts ds t k ty = true ->
  (exists fs, lookup_string t ts = Some fs /\ k ∈ fs) /\ lookup_string k ds = Some ty.
Proof.
  unfold in_tables. intros [Hf Hd%bool_decide_eq_true]%andb_true_iff.
  destruct (lookup_string t ts) as [fs|]; [|done]. apply bool_decide_eq_true in Hf.
  split; [by exists fs|done].
Qed.

Lemma conforms_member t k ty j :
  in_type t k ty = true -> all_ascii k = true -> has_type ty (clean_json j) ->
  conforms t (clean_member (k, j)).
Proof.
  intros [Ht Hd]%in_tables_spec Hk Hj. destruct tables as [Ety Ede].
  unfold conforms, clean_member. cbn [fst snd]. rewrite (clean_ascii k Hk), Ety, Ede.
  split; [exact Ht|]. exists ty. split; [exact Hd|exact Hj].
Qed.

Lemma conforms_opt_string t k v :
  in_type t k "string" = true -> all_ascii k = true -> Forall (conforms t) (cleaned (opt_string k v)).
Proof.
  intros Ht Hk. unfold opt_string. destruct (String.eqb v ""); [constructor|].
  constructor; [|constructor]. by apply (conforms_member t k "string").
Qed.

Lemma conforms_opt_bool t k b :
  in_type t k "bool" = true -> all_ascii k = true -> Forall (conforms t) (cleaned (opt_bool k b)).
Proof.
  intros Ht Hk. destruct b; [|constructor]. constructor; [|constructor]. by apply (conforms_member t k "bool").
Qed.

Lemma conforms_opt_int t k n :
  (min_int <= n <= max_int)%Z ->
  in_type t k "int" = true -> all_ascii k = true -> Forall (conforms t) (cleaned (opt_int k n)).
Proof.
  intros Hn Ht Hk. unfold opt_int. destruct (Z.eqb n 0); [constructor|].
  constructor; [|constructor]. apply (conforms_member t k "int"); [done..|].
  exists n. by apply int_of_literal_Itoa.
Qed.

Lemma conforms_opt_time t k i :
  time_ok i -> in_type t k "dateTime" = true -> all_ascii k = true ->
  Forall (conforms t) (cleaned (opt_ptr enc_time k i)).
Proof.
  intros Hi Ht Hk. destruct i as [i|]; [|constructor]. destruct Hi as (n&->&Hy).
  constructor; [|constructor]. apply (conforms_member t k "dateTime"); [done..|].
  change (clean_json (enc_time (UTC n))) with (JStr (clean (Format_RFC3339Nano (UTC n)))).
  rewrite (clean_ascii _ (ascii_time n Hy)). exists (UTC n). by apply Parse_Format.
Qed.

Lemma conforms_app t l1 l2 :
  Forall (conforms t) (cleaned l1) -> Forall (conforms t) (cleaned l2) -> Forall (conforms t) (cleaned (l1 ++ l2)).
Proof. intros H1 H2. unfold cleaned. rewrite List.map_app. by apply Forall_app. Qed.

Lemma conforms_opt_ptr {A} (enc : A -> json) t k (p : ptr A) :
  (forall x, exists l, clean_json (enc x) = JObj l) -> in_type t k "uid" = true -> all_ascii k = true ->
  Forall (conforms t) (cleaned (opt_ptr enc k p)).
Proof.
  intros He Ht Hk. destruct p as [x|]; [|constructor]. constructor; [|constructor].
  apply (conforms_member t k "uid"); [done..|]. by destruct (He x) as (l&->).
Qed.

Lemma conforms_opt_slice {A} (enc : A -> json) t k (s : slice A) :
  in_type t k "[uid]" = true -> all_ascii k = true -> Forall (conforms t) (cleaned (opt_slice enc k s)).
Proof.
  intros Ht Hk. unfold opt_slice. destruct (elems s) as [|x l]; [constructor|]. constructor; [|constructor].
  by apply (conforms_member t k "[uid]").
Qed.

Create HintDb schema.
#[export] Hint Resolve conforms_app conforms_opt_string conforms_opt_bool conforms_opt_int conforms_opt_time
  conforms_opt_slice : schema.
#[export] Hint Extern 1 (in_type _ _ _ = true) => vm_compute; reflexivity : schema.
#[export] Hint Extern 1 (all_ascii _ = true) => reflexivity : schema.
#[export] Hint Extern 1 (Forall _ (cleaned [])) => constructor : schema.

(** An object is written for a node, of a type, with members that satisfy [P]. *)
Definition writes (j : json) (u t : string) (P : string * json -> Prop) : Prop :=
  exists l, clean_json j = typed u t l /\ Forall P l.

Lemma writes_object u t l (P : string * json -> Prop) :
  u <> "" -> all_ascii u = true -> all_ascii t = true -> Forall P (cleaned l) ->
  writes (JObj (opt_string "uid" u ++ opt_slice JStr "dgraph.type" (Some [t]) ++ l)) u t P.
Proof.
  intros Hne Hu Ht Hl. exists (cleaned l). split; [|done]. rewrite (opt_string_some "uid" u Hne).
  cbn [clean_json]. change (fun kv => (clean kv.1, clean_json kv.2)) with clean_member.
  rewrite !List.map_app. unfold typed.
  change (List.map clean_member [("uid", JStr u)]) with [("uid", JStr (clean u))].
  change (List.map clean_member (opt_slice JStr "dgraph.type" (Some [t]))) with
    [("dgraph.type", JArr [JStr (clean t)])].
  by rewrite (clean_ascii u Hu), (clean_ascii t Ht).
Qed.

Lemma ascii_numbered b i : all_ascii b = true -> all_ascii (b +:+ Itoa (Z.of_nat i)) = true.
Proof. intros Hb. by rewrite ascii_app, Hb, ascii_Itoa. Qed.

(** The predicates of detection data. *)
Definition undeclared (kv : string * json) : Prop :=
  kv.1 ∈ ["tarian_detection_data_type"; "tarian_detection_data"] /\ lookup_string kv.1 declared = None.

(** C22. What the stores write is typed by the schema.  Every predicate that is
    set on a constraint, an action, a pod, an event or a target belongs to that
    type in the schema, and its value is a string, a boolean, a number of 64
    bits, a time or a node as declared - with one exception: the two predicates
    of the detection data of a target are declared nowhere in the schema. *)
Theorem written_values_are_typed :
  (forall c, writes (enc_DConstraint (dgraphConstraintFromPb c)) "_:constraint" "Constraint"
     (conforms "Constraint")) /\
  (forall a, (- 2 ^ 31 <= Action_GetFalcoPriority a < 2 ^ 31)%Z ->
     writes (enc_DAction (dgraphActionFromPb a)) "_:action" "Action" (conforms "Action")) /\
  (forall i p, writes (enc_DPod (set_DPod_UID "uid(p)" (dgraphPodFromPb i p))) "uid(p)" "Pod"
     (conforms "Pod")) /\
  (forall St (h : handler EventDbE St) e s ev s',
     run h (dgraphEventFromPb (Some e)) s = (Done ev, s') -> (Marshal_DEvent ev).2 = None ->
     writes (enc_DEvent ev) "_:event" "Event" (conforms "Event")) /\
  (forall i t, writes (enc_DTarget (dgraphTargetFromPb i t)) ("_:target" +:+ Itoa (Z.of_nat i)) "Target"
     (fun kv => conforms "Target" kv \/ undeclared kv)).
Proof.
  split_and!.
  - intros c. unfold enc_DConstraint. apply writes_object; [done..|]. eauto 20 with schema.
  - intros a Ha. unfold enc_DAction. apply writes_object; [done..|].
    assert (min_int <= DAction_FalcoAlertPriority (dgraphActionFromPb a) <= max_int)%Z
      by (cbn; unfold min_int, max_int; lia).
    eauto 20 with schema.
  - intros i p. unfold enc_DPod. apply writes_object; [done..|]. eauto 20 with schema.
  - intros St h e s ev s' Hr Hm. destruct (dgraphEventFromPb_run h e s ev s' Hr) as (_&ts&_&->).
    unfold Marshal_DEvent in Hm. destruct (times_marshal _) eqn:Htm; [|done]. unfold times_marshal in Htm.
    cbn [DEvent_ClientTimestamp DEvent_ServerTimestamp DEvent_AlertSentAt] in Htm.
    apply andb_true_iff in Htm as [[Hc Hs]%andb_true_iff Ha]. apply marshals_ok in Hc, Hs, Ha.
    unfold enc_DEvent. apply writes_object; [done..|]. eauto 20 with schema.
  - intros i t. unfold enc_DTarget. apply writes_object; [done|by apply ascii_numbered|done|].
    rewrite !app_assoc, <- app_assoc. unfold cleaned. rewrite List.map_app. apply Forall_app. split.
    + eapply Forall_impl; [|by left]. rewrite <- !app_assoc. change (List.map clean_member ?l) with (cleaned l).
      assert (forall p, Forall (conforms "Target") (cleaned (opt_ptr enc_DPod "pod" p))) as Hp.
      { intros p. apply conforms_opt_ptr; [intros x; by eexists|by vm_compute|done]. }
      eauto 20 with schema.
    + rewrite List.map_app. destruct tables as [_ Ede]. unfold opt_string, undeclared. rewrite Ede.
      apply Forall_app. split; destruct (String.eqb _ "");
        first [apply List.Forall_nil|apply Forall_cons; split; [right; split; [|reflexivity]|apply List.Forall_nil]].
      * left.
      * right; left.
Qed.

(** An action and an event that are written. *)
Lemma written_values_are_typed_witness :
  writes (enc_DAction (dgraphActionFromPb
    (Some (mkAction KindAction "default" "a" None true false true 3%Z "delete-pod")))) "_:action" "Action"
    (conforms "Action") /\
  exists ev, run mem_event_db (dgraphEventFromPb (Some ex_stored_event)) (mkEventDb [] []) =
      (Done ev, mkEventDb [] []) /\
    writes (enc_DEvent ev) "_:event" "Event" (conforms "Event").
Proof.
  split.
  - apply (proj1 (proj2 written_values_are_typed)). vm_compute. by split.
  - eexists. split; [by vm_compute|].
    eapply (proj1 (proj2 (proj2 (proj2 written_values_are_typed))) _ mem_event_db ex_stored_event
      (mkEventDb [] [])); by vm_compute.
Defined.
