(* ===== verification/Dial.v ===== *)
(** How the parts connect ([pkg/util/tls.go], [BuildDgraphDialOpts] of
    [cmd/tarian-server/cmd/dgraph/applySchema.go]): the transport credentials
    that flags and configuration select.  Files, certificate pools and key
    pairs are parameters, as calls.  The theorem says when a connection is
    encrypted and what the peer is checked against. *)

From S2P Require Import Prelude GoStrings.

(** * Transports *)

(** The pool starts as the system's or empty; PEM blocks are appended. *)
Record cert_pool := mkCertPool { pool_system : bool; pool_pems : list string }.

Record tls_config := mkTLSConfig {
  tls_ServerName : string;
  tls_RootCAs : cert_pool;
  tls_Certificates : list (string * string);
  tls_InsecureSkipVerify : bool;
}.

(** The one dial option the program uses. *)
Inductive transport :=
| Insecure
| TLS (config : tls_config).

Inductive DialE : Type -> Type :=
| SystemCertPool : DialE bool
| ReadFile (path : string) : DialE (string + error)
| AppendCertsFromPEM (pem : string) : DialE bool
| LoadX509KeyPair (certFile keyFile : string) : DialE (option error).

(** The pool with a CA file; a file without certificates is only logged, one
    that cannot be read is an error. *)
Definition ca_pool (caFile : string) (unread : error -> error) : prog DialE (cert_pool + error) :=
  system <- call SystemCertPool;;
  if String.eqb caFile "" then Ret (inl (mkCertPool system []))
  else
    r <- call (ReadFile caFile);;
    match r with
    | inr err => Ret (inr (unread err))
    | inl pem =>
        ok <- call (AppendCertsFromPEM pem);;
        Ret (inl (mkCertPool system (if ok : bool then [pem] else [])))
    end.

Definition GetDialOptions (serverTLSEnabled serverTLSInsecureSkipVerify : bool) (serverCAFile : string)
  : prog DialE (list transport + error) :=
  if serverTLSEnabled
  then
    r <- ca_pool serverCAFile (fun _ => PlainError "failed to read server TLS CA file");;
    match r with
    | inr err => Ret (inr err)
    | inl certPool => Ret (inl [TLS (mkTLSConfig "" certPool [] serverTLSInsecureSkipVerify)])
    end
  else Ret (inl [Insecure]).

Record DgraphConfig := mkDgraphConfig {
  Dgraph_Address : string;
  Dgraph_TLSCertFile : string;
  Dgraph_TLSKeyFile : string;
  Dgraph_TLSCAFile : string;
}.

(** The text before the first colon. *)
Definition server_name (address : string) : string :=
  match Split address ":" with
  | name :: _ => name
  | [] => ""
  end.

Definition BuildDgraphDialOpts (dgraphCfg : DgraphConfig) : prog DialE (list transport + error) :=
  if String.eqb (Dgraph_TLSCertFile dgraphCfg) "" then Ret (inl [Insecure])
  else
    r <- ca_pool (Dgraph_TLSCAFile dgraphCfg)
           (fun err => WrapError "BuildDgraphDialOpts: failed to read Dgraph TLS CA file" (Some err));;
    match r with
    | inr err => Ret (inr err)
    | inl certPool =>
        err <- call (LoadX509KeyPair (Dgraph_TLSCertFile dgraphCfg) (Dgraph_TLSKeyFile dgraphCfg));;
        match err with
        | Some _ =>
            Ret (inr (WrapError "BuildDgraphDialOpts: error while creating Dgraph client TLS cert" err))
        | None =>
            Ret (inl [TLS (mkTLSConfig (server_name (Dgraph_Address dgraphCfg)) certPool
                        [(Dgraph_TLSCertFile dgraphCfg, Dgraph_TLSKeyFile dgraphCfg)] false)])
        end
    end.

(** * Which connections are encrypted *)

(** At most the CA file is trusted besides the system's authorities. *)
Definition pool_from (caFile : string) (pool : cert_pool) : Prop :=
  (caFile = "" -> pool_pems pool = []) /\ length (pool_pems pool) <= 1.

Lemma ca_pool_ensures caFile unread :
  ensures (fun o => match o with
                    | Done (inl pool) => pool_from caFile pool
                    | Done (inr _) => caFile <> ""
                    | Crashed _ => False end) (ca_pool caFile unread).
Proof.
  split; [done|]. intros system _. cbn [bind]. destruct (String.eqb_spec caFile "") as [->|Hne].
  - split; [done|cbn; lia].
  - split; [done|]. intros [pem|err] _; [|done]. split; [done|]. intros [] _; split; try done; cbn; lia.
Qed.

(** The transport of [GetDialOptions]. *)
Lemma GetDialOptions_ensures tls skip caFile :
  ensures (fun o => match o with
    | Done (inl ts) => exists t, ts = [t] /\
        match t with
        | Insecure => tls = false
        | TLS c => tls = true /\ tls_InsecureSkipVerify c = skip /\ pool_from caFile (tls_RootCAs c)
        end
    | Done (inr _) => tls = true /\ caFile <> ""
    | Crashed _ => False end) (GetDialOptions tls skip caFile).
Proof.
  destruct tls; [|by exists Insecure]. apply ensures_bind. eapply ensures_mono; [|apply ca_pool_ensures].
  intros [[pool|err]|c] Ho; [|done|done]. by eexists.
Qed.

(** Which connections are encrypted.  A client of tarian-server uses TLS
    exactly when it is enabled, and then checks the server's certificate only
    when skipping is off; the server's connection to Dgraph uses TLS exactly
    when a client certificate is configured - a CA file alone leaves it in the
    clear, and is not even read - and then always checks the certificate
    against the host of the address. *)
Lemma connections_encrypted tls skip caFile cfg :
  ensures (fun o => match o with
    | Done (inl ts) => exists t, ts = [t] /\
        match t with
        | Insecure => tls = false
        | TLS c => tls = true /\ tls_InsecureSkipVerify c = skip /\ pool_from caFile (tls_RootCAs c)
        end
    | Done (inr _) => tls = true /\ caFile <> ""
    | Crashed _ => False end) (GetDialOptions tls skip caFile) /\
  ensures (fun o => match o with
    | Done (inl ts) => exists t, ts = [t] /\
        match t with
        | Insecure => Dgraph_TLSCertFile cfg = ""
        | TLS c => Dgraph_TLSCertFile cfg <> "" /\ tls_InsecureSkipVerify c = false /\
            tls_ServerName c = server_name (Dgraph_Address cfg) /\
            pool_from (Dgraph_TLSCAFile cfg) (tls_RootCAs c) /\
            tls_Certificates c = [(Dgraph_TLSCertFile cfg, Dgraph_TLSKeyFile cfg)]
        end
    | Done (inr _) => Dgraph_TLSCertFile cfg <> ""
    | Crashed _ => False end) (BuildDgraphDialOpts cfg) /\
  (Dgraph_TLSCertFile cfg = "" -> BuildDgraphDialOpts cfg = Ret (inl [Insecure])).
Proof.
  split; [|split].
  - apply GetDialOptions_ensures.
  - unfold BuildDgraphDialOpts. destruct (String.eqb_spec (Dgraph_TLSCertFile cfg) "") as [He|Hne]; [by exists Insecure|].
    apply ensures_bind. eapply ensures_mono; [|apply ca_pool_ensures].
    intros [[pool|err]|c] Ho; [|done|done]. split; [done|]. intros [err|] _; [done|]. by eexists.
  - unfold BuildDgraphDialOpts. by intros ->.
Qed.

(** The host of an IPv6 address is cut at its first colon. *)
Example server_names :
  server_name "dgraph-alpha:9080" = "dgraph-alpha" /\ server_name "[fd00::1]:9080" = "[fd00".
Proof. by vm_compute. Qed.

Lemma connections_encrypted_witness :
  BuildDgraphDialOpts (mkDgraphConfig "dgraph:9080" "" "" "/certs/ca.pem") = Ret (inl [Insecure]).
Proof. by apply (connections_encrypted true true ""). Defined.
