(* ===== verification/ServerRun.v ===== *)
(** Starting tarian-server ([cmd/tarian-server/cmd/run.go], [server.go] of
    [pkg/server], [applySchema.go]): from flags and environment to the stores,
    queues, services and goroutines of the process, and the command that
    applies the schema.  The queues are set up by [NewServer] of [Events]; gRPC,
    sockets and signals are parameters, as calls.  Shows that nothing is served
    before the listener is open and the ingestion workers run, and that the
    connection to Dgraph is closed whenever the command returns. *)

From S2P Require Import Prelude Guards GoStrings Dial Dgraph DgraphSchema Queue Events.

(** * Parts *)

(** [url.URL], the parts that are used; the password may be absent. *)
Record URL := mkURL {
  URL_Scheme : string;
  URL_Host : string;
  URL_Path : string;
  URL_User : ptr (string * string);
}.

(** The client of the Alertmanager: where it posts, and as whom. *)
Record am_client := mkAmClient {
  am_host : string;
  am_basePath : string;
  am_schemes : list string;
  am_auth : ptr (string * string);
}.

Definition defaultAmApiv2path : string := "/api/v2".

Definition NewAlertmanagerClient (amURL : URL) : am_client :=
  mkAmClient (URL_Host amURL) (path_Join [URL_Path amURL; defaultAmApiv2path]) [URL_Scheme amURL] (URL_User amURL).

Record AlertDispatcher := mkAlertDispatcher {
  dispatcher_amClient : am_client;
  dispatcher_interval : Z;
}.

Definition NewAlertDispatcher (amURL : URL) (alertEvaluationInterval : Z) : AlertDispatcher :=
  mkAlertDispatcher (NewAlertmanagerClient amURL) alertEvaluationInterval.

(** A server: the transport options of gRPC (nil credentials when the files
    could not be loaded), its queues, and the dispatcher once it is set. *)
Record TarianServer := mkTarianServer {
  server_grpcOptions : list (ptr (string * string));
  server_queues_of : server_queues;
  server_AlertDispatcher : ptr AlertDispatcher;
}.

Definition WithAlertDispatcher (alertManagerAddress : URL) (alertEvaluationInterval : Z) (s : TarianServer)
  : TarianServer :=
  mkTarianServer (server_grpcOptions s) (server_queues_of s)
    (Some (NewAlertDispatcher alertManagerAddress alertEvaluationInterval)).

(** What the process asks of its surroundings.  [OnSignal] starts the
    goroutine that stops the server. *)
Inductive ServerCmdE : Type -> Type :=
| OnDial {X} (e : DialE X) : ServerCmdE X
| OnQueue {X} (e : JetStreamE X) : ServerCmdE X
| Getenv (k : string) : ServerCmdE string
| EnvconfigProcess (prefix : string) (cfg : DgraphConfig) : ServerCmdE (DgraphConfig + error)
| GrpcDial (address : string) (opts : list transport) : ServerCmdE (option error)
| CloseConn : ServerCmdE unit
| Alter (schema : string) : ServerCmdE (option error)
| NewServerTLSFromFile (certFile keyFile : string) : ServerCmdE (option error)
| OnSignal : ServerCmdE unit
| ParseURL (s : string) : ServerCmdE (URL + error)
| GoLoopSendAlerts (d : AlertDispatcher) : ServerCmdE unit
| Listen (address : string) : ServerCmdE (option error)
| StartWorkers (q : server_queues) : ServerCmdE unit
| Serve : ServerCmdE (option error)
| GracefulStop : ServerCmdE unit
| CancelContext : ServerCmdE unit.

(** [StartAlertDispatcher] without a dispatcher panics in its goroutine. *)
Definition StartAlertDispatcher (s : TarianServer) : prog ServerCmdE unit :=
  d <- deref "s.AlertDispatcher" (server_AlertDispatcher s);;
  call (GoLoopSendAlerts d).

Definition TarianServer_Start (s : TarianServer) (grpcListenAddress : string) : prog ServerCmdE (option error) :=
  err <- call (Listen grpcListenAddress);;
  match err with
  | Some _ => Ret (Errorf "failed to listen" err)
  | None =>
      call (StartWorkers (server_queues_of s));;;
      err <- call Serve;;
      match err with
      | Some _ => Ret (Errorf "failed to serve" err)
      | None => Ret None
      end
  end.

Definition TarianServer_Stop : prog ServerCmdE unit := call GracefulStop;;; call CancelContext.

(** [NewServer]: the transport of gRPC, then the queues. *)
Definition new_tarian_server `{Retry} (certFile privateKeyFile natsURL : string) (natsOptions : list nats_Option)
    (natsStreamConfig : StreamConfig)
  : prog ServerCmdE (TarianServer + error) :=
  opts <- (if negb (String.eqb certFile "") && negb (String.eqb privateKeyFile "")
           then
             err <- call (NewServerTLSFromFile certFile privateKeyFile);;
             Ret [match err with None => Some (certFile, privateKeyFile) | Some _ => None end]
           else Ret []);;
  r <- interp (fun _ e => call (OnQueue e)) (NewServer natsURL natsOptions natsStreamConfig);;
  let '(queues, err) := r in
  match queues, err with
  | Some q, None => Ret (inl (mkTarianServer opts q None))
  | _, Some e => Ret (inr e)
  | None, None => Crash (NilDeref "server")
  end.

(** * The run command *)

Record server_runCommand := mkServerRunCommand {
  run_host : string;
  run_port : string;
  run_alertManagerAddress : string;
  run_alertEvaluationInterval : Z;
  run_tlsCertFile : string;
  run_tlsPrivateKeyFile : string;
  run_natsURL : string;
  run_natsTLSRootCAs : list string;
  run_natsTLSClientCert : string;
  run_natsTLSClientKey : string;
  run_natsStramConfigMaxMsg : Z;
  run_natsStramConfigMaxBytes : Z;
  run_natsStramConfigMaxAge : Z;
  run_natsStreamConfigReplicas : Z;
  run_natsStreamConfigDuplicates : Z;
}.

Definition second : Z := 1000000000.

(** The values of flags nobody sets. *)
Definition server_newRunCommand : server_runCommand :=
  mkServerRunCommand "" "50051" "" (30 * second) "" "" "" [] "" "" 10000 (50 * 1000 * 1000) (24 * 3600 * second) 1
    (60 * second).

Definition streamName : string := "tarian-server-event-ingestion".

(** How to connect to NATS. *)
Definition natsOpts (o : server_runCommand) : list nats_Option :=
  (RootCAs <$> run_natsTLSRootCAs o) ++
  (if negb (String.eqb (run_natsTLSClientCert o) "")
   then [ClientCert (run_natsTLSClientCert o) (run_natsTLSClientKey o)] else []).

(** The stream and its limits. *)
Definition streamConfig (o : server_runCommand) : StreamConfig :=
  mkStreamConfig streamName (Some [streamName]) LimitsPolicy DiscardOld (run_natsStramConfigMaxMsg o)
    (run_natsStramConfigMaxAge o) (run_natsStramConfigMaxBytes o) FileStorage (run_natsStreamConfigReplicas o)
    (run_natsStreamConfigDuplicates o).

(** Connecting to Dgraph. *)
Definition dial_dgraph (prefix dialPrefix : string) (cfg : DgraphConfig) : prog ServerCmdE (option error) :=
  r <- call (EnvconfigProcess "Dgraph" cfg);;
  match r with
  | inr e => Ret (Errorf (prefix +:+ ": dgraph config error") (Some e))
  | inl cfg =>
      r <- interp (fun _ e => call (OnDial e)) (BuildDgraphDialOpts cfg);;
      match r with
      | inr e => Ret (Errorf prefix (Some e))
      | inl dialOpts =>
          err <- call (GrpcDial (Dgraph_Address cfg) dialOpts);;
          match err with
          | Some _ => Ret (Errorf dialPrefix err)
          | None => Ret None
          end
      end
  end.

(** From a connection to the end of the process. *)
Definition serve_command `{Retry} (o : server_runCommand) : prog ServerCmdE (option error) :=
  r <- new_tarian_server (run_tlsCertFile o) (run_tlsPrivateKeyFile o) (run_natsURL o)
         (natsOpts o) (streamConfig o);;
  match r with
  | inr e => Ret (Errorf "run: error while initiating tarian-server" (Some e))
  | inl server =>
      call OnSignal;;;
      r <- (if negb (String.eqb (run_alertManagerAddress o) "")
            then
              url <- call (ParseURL (run_alertManagerAddress o));;
              match url with
              | inr e => Ret (inr (WrapError "run: invalid url in alertmanager-address" (Some e)))
              | inl url =>
                  let server := WithAlertDispatcher url (run_alertEvaluationInterval o) server in
                  StartAlertDispatcher server;;;
                  Ret (inl server)
              end
            else Ret (inl server));;
      match r with
      | inr e => Ret (Some e)
      | inl server =>
          err <- TarianServer_Start server (run_host o +:+ ":" +:+ run_port o);;
          match err with
          | Some _ => Ret (Errorf "run: failed to start server" err)
          | None => Ret None
          end
      end
  end.

Definition server_run `{Retry} (o : server_runCommand) : prog ServerCmdE (option error) :=
  dgraphAddress <- call (Getenv "DGRAPH_ADDRESS");;
  err <- dial_dgraph "run" "run: failed to connect to server" (mkDgraphConfig dgraphAddress "" "" "");;
  match err with
  | Some _ => Ret err
  | None =>
      err <- serve_command o;;
      call CloseConn;;;
      Ret err
  end.

(** * Applying the schema *)

Definition ApplySchema : prog ServerCmdE (option error) := call (Alter schema).

Definition applySchema_run : prog ServerCmdE (option error) :=
  err <- dial_dgraph "apply-schema" "apply-schema: error while creating grpc client"
           (mkDgraphConfig "" "" "" "");;
  match err with
  | Some _ => Ret err
  | None =>
      err <- ApplySchema;;
      call CloseConn;;;
      match err with
      | Some _ => Ret (Errorf "apply-schema: failed to apply schema" err)
      | None => Ret None
      end
  end.

(** * The order of the start *)

Definition dialled (past : list (answered ServerCmdE)) : Prop :=
  exists address opts, got (GrpcDial address opts) None ∈ past.

(** Serving needs the listener and the workers; alerts need a parsed address;
    anything that works on the database needs the connection. *)
Definition start_guard (past : list (answered ServerCmdE)) X (e : ServerCmdE X) : Prop :=
  match e with
  | Serve => dialled past /\ (exists address, got (Listen address) None ∈ past) /\
             (exists q, got (StartWorkers q) tt ∈ past)
  | StartWorkers _ => dialled past /\ exists address, got (Listen address) None ∈ past
  | GoLoopSendAlerts d => dialled past /\ exists text url, got (ParseURL text) (inl url) ∈ past /\
             dispatcher_amClient d = NewAlertmanagerClient url
  | Alter _ => dialled past
  | _ => True
  end.

Lemma dialled_past past past' : past ⊆ past' -> dialled past -> dialled past'.
Proof. intros Hs (a&o&H). exists a, o. by apply Hs. Qed.

Lemma dialled_snoc past v : dialled past -> dialled (past ++ [v]).
Proof. apply dialled_past. intros x Hx. apply elem_of_app. by left. Qed.

Lemma start_guarded s address past :
  dialled past ->
  guarded start_guard (fun past' err => err = None -> got Serve None ∈ past') past (TarianServer_Start s address).
Proof.
  intros Hd. split; [done|]. intros [err|]; [done|]. split.
  { split; [by apply dialled_snoc|]. exists address. set_solver. }
  intros []. split.
  { split; [by do 2 apply dialled_snoc|]. split; [exists address|exists (server_queues_of s)]; set_solver. }
  intros [err|]; [done|]. intros _. set_solver.
Qed.

Lemma new_server_guarded `{Retry} cert key url options config past :
  guarded start_guard (fun past' _ => past ⊆ past') past (new_tarian_server cert key url options config).
Proof.
  eapply guarded_mono; [|apply guarded_extends with (Q := fun _ _ => True)]; [by intros past' a _ [Hs _]|].
  unfold new_tarian_server. apply guarded_bind.
  assert (forall past' (opts : list (ptr (string * string))), guarded start_guard (fun _ _ => True) past'
    (r <- interp (fun _ e => call (OnQueue e)) (NewServer url options config);;
     let '(queues, err) := r in
     match queues, err with
     | Some q, None => Ret (inl (mkTarianServer opts q None))
     | _, Some e => Ret (inr e)
     | None, None => Crash (NilDeref "server")
     end)) as Hrest.
  { intros past' opts. apply guarded_bind.
    eapply guarded_mono; [|by apply (guarded_interp start_guard (fun _ e => OnQueue e))].
    by intros past1 [[q|] [e|]] _ _. }
  destruct (_ && _); [|apply Hrest]. split; [done|]. intros err. apply Hrest.
Qed.

Lemma dial_dgraph_guarded prefix dialPrefix cfg past :
  guarded start_guard (fun past' err => err = None -> dialled past') past (dial_dgraph prefix dialPrefix cfg).
Proof.
  split; [done|]. intros [cfg'|e]; [|done]. cbn [bind]. apply guarded_bind.
  eapply guarded_mono; [|by apply (guarded_interp start_guard (fun _ e => OnDial e))].
  intros past1 [opts|e] _ _; [|done]. split; [done|]. intros [err|]; [done|]. intros _.
  exists (Dgraph_Address cfg'), opts. apply elem_of_app. right. by left.
Qed.

(** The whole command, and the one that applies the schema: nothing is served
    or altered before the database is connected, the listener open and the
    workers running, and success means that serving ended without an error
    and the connection was closed. *)
Lemma server_run_guarded `{Retry} o past :
  guarded start_guard (fun past' err => err = None -> got Serve None ∈ past' /\ got CloseConn tt ∈ past') past
    (server_run o).
Proof.
  split; [done|]. intros address. cbn [bind]. apply guarded_bind.
  eapply guarded_mono; [|apply dial_dgraph_guarded]. intros past1 [err|] _ Hd; [done|].
  specialize (Hd eq_refl). apply guarded_bind.
  eapply guarded_mono with (Q := fun past' err => err = None -> got Serve None ∈ past').
  { intros past2 err _ Hs. split; [done|]. intros [] Hn. specialize (Hs Hn). set_solver. }
  unfold serve_command. apply guarded_bind.
  eapply guarded_mono; [|apply new_server_guarded]. intros past2 [server|e] _ Hs2; [|done].
  split; [done|]. intros []. cbn [bind].
  assert (dialled (past2 ++ [got OnSignal tt])) as Hd2 by (apply dialled_snoc; by eapply dialled_past).
  set (past3 := past2 ++ _) in *. clearbody past3. apply guarded_bind.
  assert (forall past' s, past3 ⊆ past' -> guarded start_guard (fun past' err => err = None -> got Serve None ∈ past') past'
    (err <- TarianServer_Start s (run_host o +:+ ":" +:+ run_port o);;
     match err with Some _ => Ret (Errorf "run: failed to start server" err) | None => Ret None end)) as Hstart.
  { intros past' s Hs. apply guarded_bind.
    eapply guarded_mono; [|apply start_guarded; by eapply dialled_past].
    intros past4 [err|] _ Hserve; [done|exact Hserve]. }
  destruct (negb _); [|by apply Hstart]. split; [done|]. intros [url|e]; [|done]. split.
  { split; [by apply dialled_snoc|]. exists (run_alertManagerAddress o), url. split; [set_solver|done]. }
  intros []. apply Hstart. set_solver.
Qed.

Lemma applySchema_run_guarded past :
  guarded start_guard (fun past' err => err = None -> got (Alter schema) None ∈ past' /\ got CloseConn tt ∈ past')
    past applySchema_run.
Proof.
  apply guarded_bind. eapply guarded_mono; [|apply dial_dgraph_guarded].
  intros past1 [err|] _ Hd; [done|]. split; [by apply Hd|]. intros err. split; [done|]. intros []. cbn [bind].
  destruct err as [err|]; [done|]. intros _. split; set_solver.
Qed.
