(* ===== verification/NodeAgent.v ===== *)
(** The node agent ([pkg/nodeagent/nodeagent.go], [capture_exec.go]): it keeps
    the constraints it last fetched, checks every exec event of a pod against
    them, and reports or registers violations.  The theorems: exactness of the
    validation, what an exec event may trigger, that a registered constraint
    applies to the pod it came from and accepts its process, and what the
    registration does to the label map it shares with the informer. *)

From S2P Require Import Prelude GoStrings Types Labels K8s Containers.

(** * Data *)

Record ExecEvent := mkExecEvent {
  ExecEvent_Pid : Z;
  ExecEvent_Command : string;
  ExecEvent_Filename : string;
  ExecEvent_ContainerID : string;
  ExecEvent_K8sPodUID : string;
  ExecEvent_K8sPodName : string;
  ExecEvent_K8sNamespace : string;
  ExecEvent_K8sPodLabels : map_ref;
  ExecEvent_K8sPodAnnotations : gmap string string;
}.

(** [ProcessViolation] embeds the event by value; the label map stays shared. *)
Record ProcessViolation := mkProcessViolation { violation_event : ExecEvent }.

(** A detector event, with the fields the agent reads, and its JSON. *)
Record DetectorEvent := mkDetectorEvent {
  DetectorEvent_EventId : string;
  DetectorEvent_HostProcessId : Z;
  DetectorEvent_Executable : string;
  DetectorEvent_Context : list (string * string);
  DetectorEvent_Json : string + error;
}.

Record NodeAgent := mkNodeAgent {
  NodeAgent_constraints : slice (ptr Constraint);
  NodeAgent_constraintsInitialized : bool;
  NodeAgent_enableAddConstraint : bool;
  NodeAgent_nodeName : string;
}.

Definition NewNodeAgent : NodeAgent := mkNodeAgent None false false "".

Definition EnableAddConstraint (enabled : bool) (n : NodeAgent) : NodeAgent :=
  mkNodeAgent (NodeAgent_constraints n) (NodeAgent_constraintsInitialized n) enabled
              (NodeAgent_nodeName n).

Definition SetNodeName (name : string) (n : NodeAgent) : NodeAgent :=
  mkNodeAgent (NodeAgent_constraints n) (NodeAgent_constraintsInitialized n)
              (NodeAgent_enableAddConstraint n) name.

Definition SetConstraints (constraints : slice (ptr Constraint)) (n : NodeAgent) : NodeAgent :=
  mkNodeAgent constraints (NodeAgent_constraintsInitialized n)
              (NodeAgent_enableAddConstraint n) (NodeAgent_nodeName n).

Definition NodeAgent_GetConstraints (n : NodeAgent) : slice (ptr Constraint) :=
  NodeAgent_constraints n.

Definition set_initialized (n : NodeAgent) : NodeAgent :=
  mkNodeAgent (NodeAgent_constraints n) true (NodeAgent_enableAddConstraint n)
              (NodeAgent_nodeName n).

(** Work handed to a new goroutine with [go]. *)
Inductive NodeTask :=
| RegisterTask (v : ProcessViolation)
| ReportTask (v : ProcessViolation)
| DetectionTask (detectionDataType detectionData : string).

(** What the agent asks of its environment. *)
Inductive NodeE : Type -> Type :=
| NConfig {X} (e : ConfigE X) : NodeE X
| NEvent {X} (e : EventE X) : NodeE X
| NNow : NodeE Z
| NReadCgroup (pid : Z) : NodeE (string + error)
| NFindPod (containerID : string) : NodeE (ptr K8sPod)
| NReadLabels (l : map_ref) : NodeE (gmap string string)
| NDeleteLabel (l : map_ref) (key : string) : NodeE unit
| NGo (t : NodeTask) : NodeE unit.

(** [regexp.Compile] and [MatchString]: None when the expression is rejected. *)
Class Regexp := regexp_Compile : string -> option (string -> bool).

Section node.
Context `{SS : StrSet} `{MR : MapRange} `{RX : Regexp}.

(** * Validation *)

Definition constraintMatchesPod (constraint : ptr Constraint) (evt : ExecEvent)
    (podLabels : gmap string string) : bool :=
  if negb (String.eqb (Constraint_GetNamespace constraint) (ExecEvent_K8sNamespace evt)) then false
  else
    match Constraint_GetSelector constraint,
          Selector_GetMatchLabels (Constraint_GetSelector constraint) with
    | None, _ => true
    | _, None => true
    | Some _, Some ms =>
        let constraintLabels := set_of (MatchLabel_text <$> ms) in
        let podLabels := set_of ((fun kv => label_text kv.1 kv.2) <$> map_range podLabels) in
        strset_IsSubset podLabels constraintLabels
    end.

(** The inner loop: some rule has a non-empty expression that compiles and
    matches. *)
Definition rule_allows (command : string) (rule : ptr AllowedProcessRule) : bool :=
  if String.eqb (AllowedProcessRule_GetRegex rule) "" then false
  else match regexp_Compile (AllowedProcessRule_GetRegex rule) with
       | None => false
       | Some matches => matches command
       end.

Definition constraint_allows (evt : ExecEvent) (podLabels : gmap string string)
    (constraint : ptr Constraint) : bool :=
  match Constraint_GetAllowedProcesses constraint with
  | None => false
  | Some rules =>
      constraintMatchesPod constraint evt podLabels &&
      existsb (rule_allows (ExecEvent_Command evt)) rules
  end.

(** [podLabels] is the content of the event's label map. *)
Definition ValidateProcess (n : NodeAgent) (evt : ExecEvent) (podLabels : gmap string string)
  : ptr ProcessViolation :=
  if String.eqb (ExecEvent_K8sNamespace evt) "" || String.eqb (ExecEvent_K8sPodName evt) ""
  then None
  else
    let violated := negb (existsb (constraint_allows evt podLabels)
                                  (elems (NodeAgent_constraints n))) in
    if violated then Some (mkProcessViolation evt) else None.

(** * Handling of an exec event *)

Definition handleExecEvent (n : NodeAgent) (evt : ExecEvent) : prog NodeE (option error) :=
  if negb (NodeAgent_constraintsInitialized n) then Ret None
  else
    let threatScan := ExecEvent_K8sPodAnnotations evt !! ThreatScanAnnotation in
    let register := ExecEvent_K8sPodAnnotations evt !! RegisterAnnotation in
    match threatScan, register with
    | None, None => Ret None
    | _, _ =>
        match register, NodeAgent_enableAddConstraint n with
        | Some _, false => Ret None
        | _, _ =>
            labels <- call (NReadLabels (ExecEvent_K8sPodLabels evt));;
            match ValidateProcess n evt labels with
            | None => Ret None
            | Some violation =>
                (if registers_processes (default "" register)
                 then call (NGo (RegisterTask violation))
                 else call (NGo (ReportTask violation)));;;
                Ret None
            end
        end
    end.

Definition execEventFromTarianDetector (bpfEvt : DetectorEvent) (containerID : string)
    (pod : K8sPod) : ExecEvent :=
  let execFileName :=
    match List.find (fun c => String.eqb c.1 "filename") (DetectorEvent_Context bpfEvt) with
    | Some c => c.2
    | None => DetectorEvent_Executable bpfEvt
    end in
  mkExecEvent (DetectorEvent_HostProcessId bpfEvt) (Base execFileName) execFileName containerID
    (K8sPod_UID pod) (K8sPod_Name pod) (K8sPod_Namespace pod) (K8sPod_Labels pod)
    (K8sPod_Annotations pod).

Definition procsContainerID (pid : Z) : prog NodeE (string + error) :=
  r <- call (NReadCgroup pid);;
  match r with
  | inr err => Ret (inr err)
  | inl cgroups => Ret (inl (findDockerIDFromCgroup cgroups))
  end.

(** One turn of the read loop ([ReadAsInterface] has answered). *)
Definition loopTarianDetectorReadEvents_body (n : NodeAgent) (read : DetectorEvent + error)
  : prog NodeE unit :=
  match read with
  | inr _ => Ret tt
  | inl event =>
      if String.eqb (DetectorEvent_EventId event) "" then Ret tt
      else
        r <- procsContainerID (DetectorEvent_HostProcessId event);;
        match r with
        | inr _ => Ret tt
        | inl containerID =>
            if String.eqb containerID "" then Ret tt
            else
              pod <- call (NFindPod containerID);;
              match pod with
              | None => Ret tt
              | Some pod =>
                  (if String.eqb (DetectorEvent_EventId event) "sys_execve_entry"
                   then handleExecEvent n (execEventFromTarianDetector event containerID pod);;; Ret tt
                   else Ret tt);;;
                  match DetectorEvent_Json event with
                  | inr _ => Ret tt
                  | inl byteData => call (NGo (DetectionTask (DetectorEvent_EventId event) byteData))
                  end
              end
        end
  end.

(** * Goroutines *)

Definition SendDetectionEventToClusterAgent (detectionDataType detectionData : string)
  : prog NodeE unit :=
  now <- call NNow;;
  call (NEvent (IngestEvent (mkIngestEventRequest (Some
    (mkEvent "" EventTypeDetection "" None (Some (timestamppb_New now)) None
      (Some [Some (mkTarget None None None None detectionDataType detectionData)]))))));;;
  Ret tt.

(** [make([]*Label, len(labels))] followed by [append] of every label. *)
Definition report_labels (labels : gmap string string) : slice (ptr Label) :=
  Some (replicate (size labels) None ++
        ((fun kv => Some (mkLabel kv.1 kv.2)) <$> map_range labels)).

Definition ReportViolationsToClusterAgent (violation : ProcessViolation) : prog NodeE unit :=
  let evt := violation_event violation in
  let violatedProcesses :=
    Some [Some (mkProcess (to_int32 (ExecEvent_Pid evt)) (ExecEvent_Command evt))] in
  labels <- call (NReadLabels (ExecEvent_K8sPodLabels evt));;
  now <- call NNow;;
  call (NEvent (IngestEvent (mkIngestEventRequest (Some
    (mkEvent "" EventTypeViolation "" None (Some (timestamppb_New now)) None
      (Some [Some (mkTarget
        (Some (mkPod (ExecEvent_K8sPodUID evt) (ExecEvent_K8sNamespace evt)
                     (ExecEvent_K8sPodName evt) (report_labels labels)))
        violatedProcesses None None "" "")]))))));;;
  Ret tt.

(** The constraint registered for a violation: [now] is [UnixNano], divided
    by [time.Hour.Milliseconds()]. *)
Definition violation_constraint (evt : ExecEvent) (now : Z) (podLabels : gmap string string)
  : Constraint :=
  mkConstraint KindConstraint (ExecEvent_K8sNamespace evt)
    (ExecEvent_K8sPodName evt +:+ "-" +:+ Itoa (Z.quot now 3600000))
    (Some (mkSelector (matchLabelsFromPodLabels podLabels)))
    (Some [Some (mkAllowedProcessRule (Some (ExecEvent_Command evt)))])
    None.

Definition RegisterViolationsAsNewConstraint (violation : ProcessViolation) : prog NodeE unit :=
  let evt := violation_event violation in
  call (NDeleteLabel (ExecEvent_K8sPodLabels evt) "pod-template-hash");;;
  now <- call NNow;;
  podLabels <- call (NReadLabels (ExecEvent_K8sPodLabels evt));;
  call (NConfig (AddConstraint (mkAddConstraintRequest
    (Some (violation_constraint evt now podLabels)))));;;
  Ret tt.

Definition run_task (t : NodeTask) : prog NodeE unit :=
  match t with
  | RegisterTask v => RegisterViolationsAsNewConstraint v
  | ReportTask v => ReportViolationsToClusterAgent v
  | DetectionTask ty data => SendDetectionEventToClusterAgent ty data
  end.

(** * Synchronisation *)

(** [logger.Fatal] ends the process when the cluster agent cannot be asked. *)
Definition SyncConstraints (n : NodeAgent) : prog NodeE NodeAgent :=
  r <- call (NConfig (GetConstraints (mkGetConstraintsRequest "" None)));;
  let '(resp, err) := r in
  match err with
  | Some _ => Crash (FatalExit "couldn't get constraints from the cluster agent")
  | None => Ret (set_initialized (SetConstraints (GetConstraintsResponse_GetConstraints resp) n))
  end.
End node.

(** * Facts on validation *)

(** A constraint is meant for a pod: same namespace, and no match labels or
    all of them among the pod's labels. *)
Definition constraint_for_pod (c : ptr Constraint) (evt : ExecEvent) (podLabels : gmap string string)
  : Prop :=
  Constraint_GetNamespace c = ExecEvent_K8sNamespace evt /\
  forall ms, Selector_GetMatchLabels (Constraint_GetSelector c) = Some ms ->
    forall m, m ∈ ms -> podLabels !! MatchLabel_GetKey m = Some (MatchLabel_GetValue m).

(** Label keys free of '=', in the constraint and on the pod. *)
Definition constraint_labels_ok (c : ptr Constraint) : Prop :=
  keys_ok (MatchLabel_GetKey <$> elems (Selector_GetMatchLabels (Constraint_GetSelector c))).

Definition pod_labels_ok (podLabels : gmap string string) : Prop :=
  map_Forall (fun k _ => Contains k "=" = false) podLabels.

Lemma pod_labels_ok_delete k podLabels :
  pod_labels_ok podLabels -> pod_labels_ok (delete k podLabels).
Proof. apply map_Forall_delete. Qed.

Section facts.
Context `{SS : StrSet} `{!StrSetLaws SS} `{MR : MapRange} `{!MapRangeLaws MR} `{RX : Regexp}.

Lemma map_range_keys_ok podLabels : pod_labels_ok podLabels -> keys_ok (map_range podLabels).*1.
Proof.
  intros Hp. unfold keys_ok. apply Forall_forall. intros k.
  rewrite list_elem_of_fmap. intros ([k' v]&->&Hin). apply elem_of_map_range in Hin.
  by apply (Hp k' v).
Qed.

Lemma constraintMatchesPod_spec c evt podLabels :
  constraint_labels_ok c -> pod_labels_ok podLabels ->
  constraintMatchesPod c evt podLabels = true <-> constraint_for_pod c evt podLabels.
Proof.
  intros Hc Hp. unfold constraintMatchesPod, constraint_for_pod, constraint_labels_ok in *.
  destruct (String.eqb_spec (Constraint_GetNamespace c) (ExecEvent_K8sNamespace evt)) as [->|Hne];
    simpl; [|naive_solver].
  destruct (Constraint_GetSelector c) as [sel|]; simpl in *; [|naive_solver].
  destruct (Selector_MatchLabels sel) as [ms|]; simpl in *; [|naive_solver].
  rewrite subset_selected by (done || by apply map_range_keys_ok).
  unfold selected. setoid_rewrite elem_of_map_range. naive_solver.
Qed.

(** A rule with an expression the engine accepts and that matches. *)
Definition rule_accepts (command : string) (rule : ptr AllowedProcessRule) : Prop :=
  exists matches, AllowedProcessRule_GetRegex rule <> "" /\
    regexp_Compile (AllowedProcessRule_GetRegex rule) = Some matches /\ matches command = true.

Lemma rule_allows_spec command rule : rule_allows command rule = true <-> rule_accepts command rule.
Proof.
  unfold rule_allows, rule_accepts.
  destruct (String.eqb_spec (AllowedProcessRule_GetRegex rule) "") as [He|Hne].
  - split; [done|]. naive_solver.
  - destruct (regexp_Compile _); naive_solver.
Qed.

Lemma constraint_allows_spec evt podLabels c :
  constraint_labels_ok c -> pod_labels_ok podLabels ->
  constraint_allows evt podLabels c = true <->
  constraint_for_pod c evt podLabels /\
  exists rule, rule ∈ elems (Constraint_GetAllowedProcesses c) /\
               rule_accepts (ExecEvent_Command evt) rule.
Proof.
  intros Hc Hp. unfold constraint_allows.
  destruct (Constraint_GetAllowedProcesses c) as [rules|]; simpl.
  - rewrite andb_true_iff, constraintMatchesPod_spec, existsb_exists by done.
    setoid_rewrite rule_allows_spec. setoid_rewrite <- list_elem_of_In. naive_solver.
  - split; [done|]. intros (_&r&Hr&_). by apply elem_of_nil in Hr.
Qed.

(** The event belongs to a pod (its namespace and pod name are known) and no
    constraint meant for that pod has a rule whose non-empty expression
    compiles and matches the command. *)
Definition forbidden (constraints : list (ptr Constraint)) (evt : ExecEvent)
    (podLabels : gmap string string) : Prop :=
  ExecEvent_K8sNamespace evt <> "" /\ ExecEvent_K8sPodName evt <> "" /\
  forall c rule, c ∈ constraints -> constraint_for_pod c evt podLabels ->
    rule ∈ elems (Constraint_GetAllowedProcesses c) ->
    ~ rule_accepts (ExecEvent_Command evt) rule.

Lemma ValidateProcess_spec n evt podLabels v :
  Forall constraint_labels_ok (elems (NodeAgent_constraints n)) -> pod_labels_ok podLabels ->
  ValidateProcess n evt podLabels = Some v <->
  v = mkProcessViolation evt /\ forbidden (elems (NodeAgent_constraints n)) evt podLabels.
Proof.
  intros Hcs Hp. unfold ValidateProcess, forbidden.
  destruct (String.eqb_spec (ExecEvent_K8sNamespace evt) ""); simpl; [naive_solver|].
  destruct (String.eqb_spec (ExecEvent_K8sPodName evt) ""); simpl; [naive_solver|].
  destruct (existsb _ _) eqn:Hex; simpl.
  - split; [done|]. intros (_&_&_&Hno). exfalso.
    apply existsb_exists in Hex as (c&Hin%list_elem_of_In&Ha).
    apply constraint_allows_spec in Ha as (Hfor&rule&Hr&Hacc);
      [by eapply Hno|by eapply Forall_forall in Hcs|done].
  - split; [|naive_solver]. intros [= <-]. split_and!; try done.
    intros c rule Hin Hfor Hr Hacc. apply not_true_iff_false in Hex. apply Hex.
    apply existsb_exists. exists c. split; [by apply list_elem_of_In|].
    apply constraint_allows_spec; [by eapply Forall_forall in Hcs|done|eauto].
Qed.

(** One constraint that allows the command is enough, whatever the others. *)
Lemma ValidateProcess_allowed n evt podLabels c :
  c ∈ elems (NodeAgent_constraints n) -> constraint_allows evt podLabels c = true ->
  ValidateProcess n evt podLabels = None.
Proof.
  intros Hin Ha. unfold ValidateProcess. case_match; [done|].
  assert (existsb (constraint_allows evt podLabels) (elems (NodeAgent_constraints n)) = true)
    as -> by (apply existsb_exists; exists c; split; [by apply list_elem_of_In|done]).
  done.
Qed.

(** ** The constraint a registration sends *)


Lemma violation_constraint_for_pod evt now podLabels podLabels' :
  podLabels' ⊆ podLabels ->
  constraint_for_pod (Some (violation_constraint evt now podLabels')) evt podLabels.
Proof.
  intros Hsub. split; [done|]. simpl. intros ms [= <-] m Hm.
  apply (elem_of_matchLabels podLabels') in Hm as (k&v&->&Hk). simpl.
  by eapply lookup_weaken.
Qed.

Lemma violation_constraint_labels_ok evt now podLabels :
  pod_labels_ok podLabels ->
  constraint_labels_ok (Some (violation_constraint evt now podLabels)).
Proof.
  intros Hp. unfold constraint_labels_ok, keys_ok. simpl.
  rewrite Forall_fmap, Forall_fmap. apply Forall_forall. intros [k v] Hin.
  apply elem_of_map_range in Hin. by apply (Hp k v).
Qed.

(** It allows its command in every pod with its labels. *)
Lemma violation_constraint_allows evt now podLabels podLabels' :
  pod_labels_ok podLabels -> pod_labels_ok podLabels' -> podLabels ⊆ podLabels' ->
  rule_accepts (ExecEvent_Command evt) (Some (mkAllowedProcessRule (Some (ExecEvent_Command evt)))) ->
  constraint_allows evt podLabels' (Some (violation_constraint evt now podLabels)) = true.
Proof.
  intros Hok Hok' Hsub Hacc. apply constraint_allows_spec; [by apply violation_constraint_labels_ok|done|].
  split; [by apply violation_constraint_for_pod|]. simpl.
  eexists. split; [by apply list_elem_of_singleton|done].
Qed.
End facts.

(** * What an exec event triggers *)

(** The goroutines a run starts, and the constraints it asks to add. *)
Definition spawned (tr : list (event NodeE)) : list NodeTask :=
  omap (fun v => match projT2 v with NGo t => Some t | _ => None end) tr.

Definition added (tr : list (event NodeE)) : list AddConstraintRequest :=
  omap (fun v => match projT2 v with NConfig (AddConstraint r) => Some r | _ => None end) tr.

(** The agent looks at the event: it has its constraints, and the pod asks for
    a scan or, where registration is enabled, for registration. *)
Definition watched (n : NodeAgent) (evt : ExecEvent) : Prop :=
  NodeAgent_constraintsInitialized n = true /\
  match ExecEvent_K8sPodAnnotations evt !! RegisterAnnotation with
  | Some _ => NodeAgent_enableAddConstraint n = true
  | None => is_Some (ExecEvent_K8sPodAnnotations evt !! ThreatScanAnnotation)
  end.

(** A registration is asked for by the [register] annotation. *)
Definition asks_registration (evt : ExecEvent) : Prop :=
  exists value, ExecEvent_K8sPodAnnotations evt !! RegisterAnnotation = Some value /\
    ("processes" ∈ register_rules value \/ "all" ∈ register_rules value).

Section events.
Context `{SS : StrSet} `{!StrSetLaws SS} `{MR : MapRange} `{!MapRangeLaws MR} `{RX : Regexp}.
Context {W : Type} (h : handler NodeE W).

(** The labels the event's reference holds in a state of the environment. *)
Definition labels_at (w : W) (evt : ExecEvent) : gmap string string :=
  (h _ (NReadLabels (ExecEvent_K8sPodLabels evt)) w).1.

Lemma registers_empty : registers_processes "" = false.
Proof. reflexivity. Qed.

Lemma asks_registration_spec evt :
  registers_processes (default "" (ExecEvent_K8sPodAnnotations evt !! RegisterAnnotation)) = true <->
  asks_registration evt.
Proof.
  unfold asks_registration. destruct (_ !! RegisterAnnotation) as [v|]; simpl.
  - rewrite registers_processes_spec. naive_solver.
  - rewrite registers_empty. naive_solver.
Qed.

Lemma handleExecEvent_spawned n evt w :
  spawned (trace h (handleExecEvent n evt) w) =
  (if NodeAgent_constraintsInitialized n &&
      match ExecEvent_K8sPodAnnotations evt !! RegisterAnnotation with
      | Some _ => NodeAgent_enableAddConstraint n
      | None => bool_decide (is_Some (ExecEvent_K8sPodAnnotations evt !! ThreatScanAnnotation))
      end
   then match ValidateProcess n evt (labels_at w evt) with
        | Some v =>
            [ (if registers_processes
                    (default "" (ExecEvent_K8sPodAnnotations evt !! RegisterAnnotation))
               then RegisterTask v else ReportTask v) ]
        | None => []
        end
   else []).
Proof.
  unfold handleExecEvent, labels_at.
  destruct (NodeAgent_constraintsInitialized n); simpl; [|done].
  generalize (registers_processes
    (default "" (ExecEvent_K8sPodAnnotations evt !! RegisterAnnotation))) as b.
  destruct (_ !! ThreatScanAnnotation), (_ !! RegisterAnnotation), (NodeAgent_enableAddConstraint n);
    intros b; cbn; try done;
    destruct (h _ _ w) as [labels w'] eqn:Hl; cbn;
    destruct (ValidateProcess n evt labels) as [v|]; cbn; try done;
    destruct b; cbn; by destruct (h _ _ w').
Qed.

(** The goroutines, by what they are for. *)
Lemma handleExecEvent_tasks n evt w :
  Forall constraint_labels_ok (elems (NodeAgent_constraints n)) ->
  pod_labels_ok (labels_at w evt) ->
  forall t, t ∈ spawned (trace h (handleExecEvent n evt) w) <->
    watched n evt /\
    forbidden (elems (NodeAgent_constraints n)) evt (labels_at w evt) /\
    (asks_registration evt /\ t = RegisterTask (mkProcessViolation evt) \/
     ~ asks_registration evt /\ t = ReportTask (mkProcessViolation evt)).
Proof.
  intros Hcs Hp. rewrite handleExecEvent_spawned.
  pose proof (asks_registration_spec evt) as Ha.
  assert (watched n evt <-> NodeAgent_constraintsInitialized n &&
      match ExecEvent_K8sPodAnnotations evt !! RegisterAnnotation with
      | Some _ => NodeAgent_enableAddConstraint n
      | None => bool_decide (is_Some (ExecEvent_K8sPodAnnotations evt !! ThreatScanAnnotation))
      end = true) as Hw.
  { unfold watched. rewrite andb_true_iff. case_match; [done|]. by rewrite bool_decide_eq_true. }
  destruct (_ && _) eqn:Hb.
  2: { intros t. rewrite elem_of_nil. split; [done|].
       intros [?%Hw _]. done. }
  pose proof (ValidateProcess_spec n evt (labels_at w evt)) as Hspec.
  destruct (ValidateProcess n evt (labels_at w evt)) as [v|].
  - destruct (proj1 (Hspec v Hcs Hp) eq_refl) as [-> Hf]. apply proj2 in Hw as Hwt.
    specialize (Hwt eq_refl). intros t.
    destruct (registers_processes _) eqn:Hr; rewrite list_elem_of_singleton.
    + assert (asks_registration evt) by by apply Ha. clear Ha Hw Hspec.
      split; [intros ->; split_and!; auto|]. by intros (_&_&[[_ ->]|[? _]]).
    + assert (~ asks_registration evt) by (intros ?%Ha; congruence). clear Ha Hw Hspec.
      split; [intros ->; split_and!; auto|]. by intros (_&_&[[? _]|[_ ->]]).
  - intros t. rewrite elem_of_nil. split; [done|].
    intros (_&Hf&_). by pose proof (proj2 (Hspec _ Hcs Hp) (conj eq_refl Hf)).
Qed.

(** C1. What an exec event triggers: at most one goroutine is started; it is
    started exactly when the agent has its constraints, the pod is annotated
    for scanning or (where enabled) for registration, and the command is
    forbidden: no constraint meant for the pod has a rule that matches it.  It
    registers the violation when the annotation asks for processes, else it
    reports it. *)
Theorem handleExecEvent_exact n evt w :
  Forall constraint_labels_ok (elems (NodeAgent_constraints n)) ->
  pod_labels_ok (labels_at w evt) ->
  length (spawned (trace h (handleExecEvent n evt) w)) <= 1 /\
  forall t, t ∈ spawned (trace h (handleExecEvent n evt) w) <->
    watched n evt /\
    forbidden (elems (NodeAgent_constraints n)) evt (labels_at w evt) /\
    (asks_registration evt /\ t = RegisterTask (mkProcessViolation evt) \/
     ~ asks_registration evt /\ t = ReportTask (mkProcessViolation evt)).
Proof.
  intros Hcs Hp. split; [|by apply handleExecEvent_tasks].
  rewrite handleExecEvent_spawned. repeat case_match; simpl; lia.
Qed.
End events.

(** * Registration and reports *)

(** An environment that keeps the maps in memory: reading a map changes
    nothing, only a [delete] writes to one. *)
Class NodeHeap {W} (h : handler NodeE W) (maps : W -> heap) : Prop := {
  read_labels l w : (h _ (NReadLabels l) w).1 = heap_read l (maps w);
  delete_label l k w : maps (h _ (NDeleteLabel l k) w).2 = heap_delete l k (maps w);
  maps_frame X (e : NodeE X) w :
    match e with NDeleteLabel _ _ => False | _ => True end -> maps (h X e w).2 = maps w;
}.

(** The events a run sends. *)
Definition ingested (tr : list (event NodeE)) : list IngestEventRequest :=
  omap (fun v => match projT2 v with NEvent (IngestEvent r) => Some r | _ => None end) tr.

Section registration.
Context `{SS : StrSet} `{!StrSetLaws SS} `{MR : MapRange} `{!MapRangeLaws MR} `{RX : Regexp}.
Context {W : Type} (h : handler NodeE W) (maps : W -> heap) `{!NodeHeap h maps}.

Lemma Register_run v w :
  let l := ExecEvent_K8sPodLabels (violation_event v) in
  let labels := delete "pod-template-hash" (heap_read l (maps w)) in
  exists now,
    added (trace h (RegisterViolationsAsNewConstraint v) w) =
      [mkAddConstraintRequest (Some (violation_constraint (violation_event v) now labels))] /\
    (run h (RegisterViolationsAsNewConstraint v) w).1 = Done tt /\
    maps (run h (RegisterViolationsAsNewConstraint v) w).2 =
      heap_delete l "pod-template-hash" (maps w).
Proof.
  intros l labels. unfold RegisterViolationsAsNewConstraint. cbn.
  pose proof (delete_label l "pod-template-hash" w) as Hd. fold l.
  destruct (h _ (NDeleteLabel l "pod-template-hash") w) as [? w1]. cbn in *.
  pose proof (maps_frame _ NNow w1 I) as Hn.
  destruct (h _ NNow w1) as [now w2]. cbn in *.
  pose proof (maps_frame _ (NReadLabels l) w2 I) as Hr. pose proof (read_labels l w2) as Hr1.
  destruct (h _ (NReadLabels l) w2) as [labels' w3]. cbn in *. subst labels'.
  rewrite Hn, Hd, heap_read_delete. exists now.
  match goal with |- context [h _ (NConfig ?e) w3] =>
    pose proof (maps_frame _ (NConfig e) w3 I) as Ha; destruct (h _ (NConfig e) w3) as [a w4] end.
  cbn in *. split; [done|]. split; [done|]. by rewrite Ha, Hr, Hn, Hd.
Qed.

(** Registration settles a violation: it adds one constraint, and every
    agent that has that constraint afterwards finds no violation in the same
    event again, whatever its other constraints, with the labels the pod had
    before or has after, and with any further labels - provided the regular
    expression engine, given the command as an expression, matches the
    command. *)
Lemma registration_settles v w :
  let evt := violation_event v in
  let labels := heap_read (ExecEvent_K8sPodLabels evt) (maps w) in
  pod_labels_ok labels ->
  rule_accepts (ExecEvent_Command evt) (Some (mkAllowedProcessRule (Some (ExecEvent_Command evt)))) ->
  exists c, added (trace h (RegisterViolationsAsNewConstraint v) w) =
              [mkAddConstraintRequest (Some c)] /\
    forall n labels', Some c ∈ elems (NodeAgent_constraints n) -> pod_labels_ok labels' ->
      delete "pod-template-hash" labels ⊆ labels' -> ValidateProcess n evt labels' = None.
Proof.
  intros evt labels Hok Hacc. destruct (Register_run v w) as (now&Hadd&_&_).
  eexists. split; [exact Hadd|]. intros n labels' Hin Hok' Hsub.
  eapply ValidateProcess_allowed; [exact Hin|].
  by apply violation_constraint_allows; [apply pod_labels_ok_delete| | |].
Qed.

(** The command is registered as an expression, not as a literal: when
    the engine rejects it ("g++"), the constraint that was added allows
    nothing, and the same event is a violation again for an agent that has
    just this constraint. *)
Lemma registration_of_rejected_expression v w :
  let evt := violation_event v in
  regexp_Compile (ExecEvent_Command evt) = None ->
  ExecEvent_K8sNamespace evt <> "" -> ExecEvent_K8sPodName evt <> "" ->
  exists c, added (trace h (RegisterViolationsAsNewConstraint v) w) =
              [mkAddConstraintRequest (Some c)] /\
    forall n labels', NodeAgent_constraints n = Some [Some c] ->
      ValidateProcess n evt labels' = Some v.
Proof.
  intros evt Hrx Hns Hpn. destruct (Register_run v w) as (now&Hadd&_&_).
  eexists. split; [exact Hadd|]. intros n labels' Hcs.
  unfold ValidateProcess. rewrite Hcs.
  apply String.eqb_neq in Hns as ->. apply String.eqb_neq in Hpn as ->. simpl.
  unfold constraint_allows. simpl. unfold rule_allows at 1. simpl. fold evt. rewrite Hrx.
  destruct v as [e]. destruct (String.eqb _ ""); by rewrite andb_false_r.
Qed.

(** The registration deletes "pod-template-hash" from the label map the
    event shares with the informer's pods: afterwards no constraint that
    selects on that label applies to the pod any more. *)
Lemma registration_strips_shared_labels v w c ms value evt' :
  let l := ExecEvent_K8sPodLabels (violation_event v) in
  let w' := (run h (RegisterViolationsAsNewConstraint v) w).2 in
  Selector_GetMatchLabels (Constraint_GetSelector c) = Some ms ->
  Some (mkMatchLabel "pod-template-hash" value) ∈ ms ->
  constraint_labels_ok c -> pod_labels_ok (heap_read l (maps w)) ->
  constraintMatchesPod c evt' (heap_read l (maps w')) = false /\
  (forall l', l' <> l -> heap_read l' (maps w') = heap_read l' (maps w)).
Proof.
  intros l w' Hms Hin Hc Hok. destruct (Register_run v w) as (now&_&_&Hw). fold w' l in Hw.
  rewrite Hw, heap_read_delete. split.
  - apply not_true_iff_false. rewrite constraintMatchesPod_spec by (done || by apply pod_labels_ok_delete).
    intros [_ Hsel]. specialize (Hsel ms Hms _ Hin). simpl in Hsel.
    by rewrite lookup_delete_eq in Hsel.
  - intros l' Hl'. by apply heap_read_delete_ne.
Qed.

(** A violation report carries the pod, the process with its pid wrapped
    to 32 bits, and the pod's labels - preceded by as many nil labels, which
    every reader sees as labels with empty key and value. *)
Lemma report_carries_labels_and_nils v w :
  let evt := violation_event v in
  let labels := heap_read (ExecEvent_K8sPodLabels evt) (maps w) in
  exists e t p, ingested (trace h (ReportViolationsToClusterAgent v) w) =
              [mkIngestEventRequest (Some e)] /\
    Event_Type e = EventTypeViolation /\ Event_Targets e = Some [Some t] /\
    Target_ViolatedProcesses t =
      Some [Some (mkProcess (to_int32 (ExecEvent_Pid evt)) (ExecEvent_Command evt))] /\
    Target_Pod t = Some p /\ Pod_Namespace p = ExecEvent_K8sNamespace evt /\
    Pod_Name p = ExecEvent_K8sPodName evt /\
    (fun l => (Label_GetKey l, Label_GetValue l)) <$> elems (Pod_Labels p) ≡ₚ
      replicate (size labels) ("", "") ++ map_to_list labels.
Proof.
  intros evt labels. unfold ReportViolationsToClusterAgent. cbn. fold evt.
  pose proof (read_labels (ExecEvent_K8sPodLabels evt) w) as Hl.
  destruct (h _ (NReadLabels (ExecEvent_K8sPodLabels evt)) w) as [labels' w1]. cbn in *. subst labels'.
  destruct (h _ NNow w1) as [now w2]. destruct (h _ (NEvent _) w2) as [a w3]. cbn.
  eexists _, _, _. split; [reflexivity|]. cbn. do 6 (split; [reflexivity|]).
  unfold report_labels. cbn. fold labels. rewrite fmap_app, fmap_replicate. cbn.
  apply Permutation_app_head. rewrite <- list_fmap_compose.
  rewrite (list_fmap_ext _ id) by (intros ? [k x] _; done). by rewrite list_fmap_id, map_range_perm.
Qed.
End registration.

(** * A concrete environment *)

(** An engine that knows expressions without operators, and rejects a nested
    repetition. *)
Definition literal_engine : Regexp := fun expr =>
  if Contains expr "++" then None else Some (fun s => Contains s expr).

(** The maps in memory and the clock. *)
Definition node_env : handler NodeE (heap * Z) := fun X e w =>
  match e in NodeE X return X * (heap * Z) with
  | NConfig e => (config_down _ e, w)
  | NEvent e => (event_down _ e, w)
  | NNow => (w.2, w)
  | NReadCgroup _ => (inr (PlainError "no such file"), w)
  | NFindPod _ => (None, w)
  | NReadLabels l => (heap_read l w.1, w)
  | NDeleteLabel l k => (tt, (heap_delete l k w.1, w.2))
  | NGo _ => (tt, w)
  end.

#[export] Instance node_env_heap : NodeHeap node_env fst.
Proof. split; [done|done|]. by intros X [] w. Qed.

Definition ex_world : heap * Z :=
  ({[ 0%nat := {[ "app" := "web"; "pod-template-hash" := "5d9" ]} ]}, 1700000000000000000%Z).

Definition ex_evt (command : string) : ExecEvent :=
  mkExecEvent 4294967296 command ("/bin/" +:+ command) "c0ffee" "uid-1" "web-5d9" "default" 0
    {[ RegisterAnnotation := "files, processes" ]}.

Definition ex_agent : NodeAgent :=
  mkNodeAgent (Some [Some (mkConstraint KindConstraint "default" "web"
      (Some (mkSelector (Some [Some (mkMatchLabel "app" "web")])))
      (Some [Some (mkAllowedProcessRule (Some "nginx"))]) None)]) true true "node-1".

Ltac labels_ok :=
  unfold pod_labels_ok, constraint_labels_ok, keys_ok, labels_at;
  first [ apply (bool_decide_unpack _); by vm_compute
        | repeat constructor ].

Lemma handleExecEvent_exact_witness :
  length (spawned (trace node_env
    (handleExecEvent (RX := literal_engine) ex_agent (ex_evt "sh")) ex_world)) <= 1 /\
  RegisterTask (mkProcessViolation (ex_evt "sh")) ∈
    spawned (trace node_env
      (handleExecEvent (RX := literal_engine) ex_agent (ex_evt "sh")) ex_world).
Proof.
  pose proof (handleExecEvent_exact (RX := literal_engine) node_env ex_agent (ex_evt "sh") ex_world
    ltac:(labels_ok) ltac:(labels_ok)) as [Hlen _].
  split; [exact Hlen|]. vm_compute. left.
Defined.

Lemma registration_settles_witness :
  exists c,
    added (trace node_env (RegisterViolationsAsNewConstraint (mkProcessViolation (ex_evt "sh"))) ex_world)
      = [mkAddConstraintRequest (Some c)] /\
    forall n labels', Some c ∈ elems (NodeAgent_constraints n) -> pod_labels_ok labels' ->
      delete "pod-template-hash" (heap_read 0 ex_world.1) ⊆ labels' ->
      ValidateProcess (RX := literal_engine) n (ex_evt "sh") labels' = None.
Proof.
  apply (registration_settles (RX := literal_engine) node_env fst
    (mkProcessViolation (ex_evt "sh")) ex_world).
  - labels_ok.
  - exists (fun s => Contains s "sh"). split; [discriminate|]. by vm_compute.
Defined.

Lemma registration_of_rejected_expression_witness :
  exists c,
    added (trace node_env (RegisterViolationsAsNewConstraint (mkProcessViolation (ex_evt "g++"))) ex_world)
      = [mkAddConstraintRequest (Some c)] /\
    forall n labels', NodeAgent_constraints n = Some [Some c] ->
      ValidateProcess (RX := literal_engine) n (ex_evt "g++") labels' =
        Some (mkProcessViolation (ex_evt "g++")).
Proof.
  apply (registration_of_rejected_expression (RX := literal_engine) node_env fst
    (mkProcessViolation (ex_evt "g++")) ex_world); by vm_compute.
Defined.

Lemma registration_strips_shared_labels_witness :
  let c := Some (mkConstraint KindConstraint "default" "by-hash"
      (Some (mkSelector (Some [Some (mkMatchLabel "pod-template-hash" "5d9")]))) None None) in
  let w' := (run node_env
    (RegisterViolationsAsNewConstraint (mkProcessViolation (ex_evt "sh"))) ex_world).2 in
  constraintMatchesPod c (ex_evt "sh") (heap_read 0 ex_world.1) = true /\
  constraintMatchesPod c (ex_evt "sh") (heap_read 0 w'.1) = false.
Proof.
  intros c w'. split; [by vm_compute|].
  apply (registration_strips_shared_labels node_env fst
    (mkProcessViolation (ex_evt "sh")) ex_world c
    [Some (mkMatchLabel "pod-template-hash" "5d9")] "5d9" (ex_evt "sh")); [done|left|labels_ok|labels_ok].
Defined.

Lemma report_carries_labels_and_nils_witness :
  exists e t p, ingested (trace node_env
      (ReportViolationsToClusterAgent (mkProcessViolation (ex_evt "sh"))) ex_world) =
        [mkIngestEventRequest (Some e)] /\
    Event_Type e = EventTypeViolation /\ Event_Targets e = Some [Some t] /\
    Target_ViolatedProcesses t = Some [Some (mkProcess (to_int32 4294967296) "sh")] /\
    Target_Pod t = Some p /\ Pod_Namespace p = "default" /\ Pod_Name p = "web-5d9" /\
    (fun l => (Label_GetKey l, Label_GetValue l)) <$> elems (Pod_Labels p) ≡ₚ
      replicate 2 ("", "") ++ map_to_list (heap_read 0 ex_world.1).
Proof.
  apply (report_carries_labels_and_nils node_env fst (mkProcessViolation (ex_evt "sh")) ex_world).
Defined.
