(* ===== verification/Detector.v ===== *)
(** The node agent at work ([nodeagent.go], [cmd/tarian-node-agent]): the
    set-up of the pod watcher and of the eBPF detector, the loop that reads
    the detector's events, and the two goroutines of [Run].  The pod lookup of
    [Containers] and the handling of events of [NodeAgent] come together here:
    the theorem says which goroutines an event of the detector starts, in
    terms of the process's container, the pods of the node and the
    constraints.  The detector and client-go are parameters, as calls. *)

From S2P Require Import Prelude Guards GoStrings Types Labels K8s Containers NodeAgent.

(** * Set-up *)

(** What the process asks of the detector library, of client-go and of its
    context; [OnNode] are the calls of the agent itself. *)
Inductive DetectorE : Type -> Type :=
| InClusterConfig : DetectorE (option error)
| NewForConfigOrDie : DetectorE bool
| AddIndexers (index fieldSelector : string) : DetectorE (option error)
| StartInformers : DetectorE unit
| GetModule : DetectorE (option error)
| GetPrograms : DetectorE (list (string + error))
| DisableProgram (i : nat) : DetectorE unit
| PrepareModule : DetectorE (option error)
| AddToDetector : DetectorE unit
| AttachModule : DetectorE (option error)
| StartDetector : DetectorE (option error)
| CloseDetector : DetectorE unit
| ContextErr : DetectorE (option error)
| ReadAsInterface : DetectorE (DetectorEvent + error)
| CurrentAgent : DetectorE NodeAgent
| OnNode {X} (e : NodeE X) : DetectorE X.

Definition containerIdx : string := "container-ids".

(** The informer lists the pods of the node, or all pods. *)
Definition NewPodWatcher (nodeName : string) : prog DetectorE (option error) :=
  let fieldSelector := if negb (String.eqb nodeName "") then "spec.nodeName=" +:+ nodeName else "" in
  err <- call (AddIndexers containerIdx fieldSelector);;
  match err with
  | Some _ => Ret (Errorf "NewPodWatcher" err)
  | None => Ret None
  end.

Definition setupPodWatcher (n : NodeAgent) : prog DetectorE (option error) :=
  err <- call InClusterConfig;;
  match err with
  | Some _ => Ret (Errorf "error while creating k8s client config" err)
  | None =>
      ok <- call NewForConfigOrDie;;
      if negb ok then Crash (FatalExit "kubernetes.NewForConfigOrDie")
      else
        err <- NewPodWatcher (NodeAgent_nodeName n);;
        match err with
        | Some _ => Ret (Errorf "error while starting pod-watcher" err)
        | None => Ret None
        end
  end.

(** The programs of the read and write system calls. *)
Definition skipped_program (name : string) : bool := Contains name "tdf_write" || Contains name "tdf_read".

Fixpoint disable_programs (i : nat) (programs : list (string + error)) : prog DetectorE unit :=
  match programs with
  | [] => Ret tt
  | info :: rest =>
      (match info with
       | inr _ => Ret tt
       | inl name => if skipped_program name then call (DisableProgram i) else Ret tt
       end);;;
      disable_programs (S i) rest
  end.

Definition setupEventsDetector : prog DetectorE (option error) :=
  err <- call GetModule;;
  match err with
  | Some _ => Ret (Errorf "error while getting tarian-detector ebpf module" err)
  | None =>
      programs <- call GetPrograms;;
      disable_programs 0 programs;;;
      err <- call PrepareModule;;
      match err with
      | Some _ => Ret (Errorf "error while preparing tarian-detector" err)
      | None =>
          call AddToDetector;;;
          err <- call AttachModule;;
          match err with
          | Some _ => Ret (Errorf "error while preparing tarian-detector" err)
          | None => Ret None
          end
      end
  end.

(** * The read loop *)

Section loop.
Context `{SS : StrSet} `{MR : MapRange} `{RX : Regexp}.

(** [turns] turns of the loop, fewer when the context is done; the constraints
    are those the other goroutine has fetched by then. *)
Fixpoint read_loop (turns : nat) : prog DetectorE (option error) :=
  match turns with
  | 0 => Ret None
  | S turns' =>
      done <- call ContextErr;;
      match done with
      | Some _ => Ret done
      | None =>
          read <- call ReadAsInterface;;
          n <- call CurrentAgent;;
          interp (fun _ e => call (OnNode e)) (loopTarianDetectorReadEvents_body n read);;;
          read_loop turns'
      end
  end.

Definition loopTarianDetectorReadEvents (turns : nat) (n : NodeAgent) : prog DetectorE (option error) :=
  err <- setupPodWatcher n;;
  match err with
  | Some _ => Ret err
  | None =>
      call StartInformers;;;
      err <- setupEventsDetector;;
      match err with
      | Some _ => Ret err
      | None =>
          err <- call StartDetector;;
          match err with
          | Some _ => Ret (Errorf "error while starting tarian-detector" err)
          | None =>
              err <- call AttachModule;;
              err <- (match err with
                      | Some _ => Ret (Errorf "error while attaching tarian-detector" err)
                      | None => read_loop turns
                      end);;
              call CloseDetector;;;
              Ret err
          end
      end
  end.

(** The other goroutine, for a number of turns; the context ends it between
    two of them. *)
Fixpoint loopSyncConstraints (turns : nat) (n : NodeAgent) : prog NodeE NodeAgent :=
  match turns with
  | 0 => Ret n
  | S turns' => n <- SyncConstraints n;; loopSyncConstraints turns' n
  end.

(** ** The agent as a whole *)

Inductive NodeLoop := SyncLoop | ReadLoop.

Inductive NodeRunE : Type -> Type :=
| NodeDial (address : string) : NodeRunE (option error)
| NodeGo (t : NodeLoop) : NodeRunE unit
| NodeWait : NodeRunE unit
| NodeCloseConn : NodeRunE unit.

(** The agent does not go on without a connection ([logger.Fatal]). *)
Definition NodeAgent_Dial (clusterAgentAddress : string) : prog NodeRunE unit :=
  err <- call (NodeDial clusterAgentAddress);;
  match err with
  | Some _ => Crash (FatalExit "couldn't connect to the cluster agent")
  | None => Ret tt
  end.

Definition NodeAgent_Run (clusterAgentAddress : string) : prog NodeRunE unit :=
  NodeAgent_Dial clusterAgentAddress;;;
  call (NodeGo SyncLoop);;;
  call (NodeGo ReadLoop);;;
  call NodeWait;;;
  call NodeCloseConn.

(** What the two goroutines run; the error of a loop is discarded. *)
Definition node_loop (turns : nat) (n : NodeAgent) (t : NodeLoop) : prog DetectorE unit :=
  match t with
  | SyncLoop => interp (fun _ e => call (OnNode e)) (loopSyncConstraints turns n);;; Ret tt
  | ReadLoop => loopTarianDetectorReadEvents turns n;;; Ret tt
  end.

(** An agent whose detector cannot be set up goes on without one: the error
    ends the goroutine that reads like a context that is done, and nothing else
    sees it. *)
Lemma detector_error_discarded {W} (h : handler DetectorE W) turns n w r w' :
  run h (loopTarianDetectorReadEvents turns n) w = (Done r, w') ->
  run h (node_loop turns n ReadLoop) w = (Done tt, w').
Proof. intros H. cbn [node_loop]. by rewrite run_bind, H. Qed.
End loop.

(** * What an event of the detector starts *)

Section turn.
Context `{SS : StrSet} `{!StrSetLaws SS} `{MR : MapRange} `{!MapRangeLaws MR} `{RX : Regexp}.
Context {W : Type} (h : handler NodeE W) (maps : W -> heap) `{HH : !NodeHeap h maps}.

(** The pods of the informer, found by the index. *)
Class NodePods (I : Indexer) (store : list K8sPod) : Prop := {
  pods_indexed :: IndexerLaws I store;
  find_pod id w : (h _ (NFindPod id) w).1 = FindPod id;
}.
Context `{I : Indexer} (store : list K8sPod) `{HP : !NodePods I store}.

(** An event of a process in the container [id]. *)
Definition seen_in (w : W) (read : DetectorEvent + error) (event : DetectorEvent) (id : string) : Prop :=
  read = inl event /\ DetectorEvent_EventId event <> "" /\ id <> "" /\
  exists cgroups, (h _ (NReadCgroup (DetectorEvent_HostProcessId event)) w).1 = inl cgroups /\
    findDockerIDFromCgroup cgroups = id.

(** The goroutines it gives rise to: the event is sent on, and an exec that is
    forbidden in its pod is registered or reported. *)
Definition triggers (n : NodeAgent) (w : W) (event : DetectorEvent) (id : string) (pod : K8sPod)
    (t : NodeTask) : Prop :=
  (exists data, DetectorEvent_Json event = inl data /\ t = DetectionTask (DetectorEvent_EventId event) data) \/
  (DetectorEvent_EventId event = "sys_execve_entry" /\
   let evt := execEventFromTarianDetector event id pod in
   watched n evt /\
   forbidden (elems (NodeAgent_constraints n)) evt (heap_read (K8sPod_Labels pod) (maps w)) /\
   (asks_registration evt /\ t = RegisterTask (mkProcessViolation evt) \/
    ~ asks_registration evt /\ t = ReportTask (mkProcessViolation evt))).

Lemma handleExecEvent_done n evt w : exists r w', run h (handleExecEvent n evt) w = (Done r, w').
Proof.
  unfold handleExecEvent. repeat case_match; cbn; eauto;
    repeat (destruct (h _ _ _); cbn); repeat case_match; cbn; eauto; destruct (h _ _ _); cbn; eauto.
Qed.

Lemma turn_spawned n w event id cgroups :
  DetectorEvent_EventId event <> "" -> id <> "" ->
  (h _ (NReadCgroup (DetectorEvent_HostProcessId event)) w).1 = inl cgroups ->
  findDockerIDFromCgroup cgroups = id ->
  spawned (trace h (loopTarianDetectorReadEvents_body n (inl event)) w) =
  match FindPod id with
  | None => []
  | Some pod =>
      (if String.eqb (DetectorEvent_EventId event) "sys_execve_entry"
       then spawned (trace h (handleExecEvent n (execEventFromTarianDetector event id pod))
              (h _ (NFindPod id) (h _ (NReadCgroup (DetectorEvent_HostProcessId event)) w).2).2)
       else []) ++
      match DetectorEvent_Json event with
      | inl data => [DetectionTask (DetectorEvent_EventId event) data]
      | inr _ => []
      end
  end.
Proof using HP.
  intros Hev Hid Hcg <-. unfold loopTarianDetectorReadEvents_body.
  apply String.eqb_neq in Hev as ->. cbn.
  destruct (h _ (NReadCgroup _) w) as [r w1]. cbn in Hcg. subst r. cbn.
  apply String.eqb_neq in Hid as ->. cbn.
  pose proof (find_pod (findDockerIDFromCgroup cgroups) w1) as Hf.
  destruct (h _ (NFindPod _) w1) as [p w2]. cbn in Hf. subst p. cbn.
  destruct (FindPod (findDockerIDFromCgroup cgroups)) as [pod|]; [|done].
  set (send := match DetectorEvent_Json event with
               | inl data => call (NGo (DetectionTask (DetectorEvent_EventId event) data))
               | inr _ => Ret tt end).
  assert (forall w, spawned (trace h send w) =
    match DetectorEvent_Json event with
    | inl data => [DetectionTask (DetectorEvent_EventId event) data]
    | inr _ => [] end) as Hsend.
  { intros w3. unfold send. destruct (DetectorEvent_Json event); [|done]. cbn. by destruct (h _ _ w3). }
  destruct (String.eqb _ "sys_execve_entry"); [|apply Hsend].
  rewrite !trace_bind, run_bind.
  destruct (handleExecEvent_done n (execEventFromTarianDetector event (findDockerIDFromCgroup cgroups) pod) w2)
    as (r&w3&->).
  cbn. unfold spawned in *. by rewrite app_nil_r, omap_app, Hsend.
Qed.

(** A turn without an event of a container starts nothing. *)
Lemma unseen_turn n w read :
  (exists event id, seen_in w read event id) \/
  spawned (trace h (loopTarianDetectorReadEvents_body n read) w) = [].
Proof.
  unfold loopTarianDetectorReadEvents_body. destruct read as [event|e]; [|by right].
  destruct (String.eqb_spec (DetectorEvent_EventId event) "") as [|Hev]; [by right|]. cbn.
  destruct (h _ (NReadCgroup (DetectorEvent_HostProcessId event)) w) as [r w1] eqn:Hcg. cbn.
  destruct r as [cgroups|e]; [|by right]. cbn.
  destruct (String.eqb_spec (findDockerIDFromCgroup cgroups) "") as [|Hid]; [by right|].
  left. exists event, (findDockerIDFromCgroup cgroups). split; [done|]. split; [done|]. split; [done|].
  exists cgroups. by rewrite Hcg.
Qed.

Lemma container_id_length w read event id :
  seen_in w read event id -> (containerIDLen <= String.length id)%nat.
Proof.
  intros (_&_&Hid&cgroups&_&<-). destruct (findDockerIDFromCgroup_bounds cgroups) as [?|[-> _]]; [done|].
  unfold containerIDLen, BpfContainerIDLength. lia.
Qed.

Lemma turn_labels w pid id ref : 
  (h _ (NReadLabels ref) (h _ (NFindPod id) (h _ (NReadCgroup pid) w).2).2).1 = heap_read ref (maps w).
Proof using HH. by rewrite read_labels, !maps_frame. Qed.

(** C4. What an event of the detector starts.  Every goroutine a turn of the
    read loop starts is for an event of a process whose container belongs to
    a pod of the node: the event is sent on, or, for an exec, the violation
    is registered or reported for that very pod, exactly when the pod is
    watched and no constraint for it allows the command.  Conversely, for an
    event of a process in a container of an indexed pod, such a pod is found
    and everything it calls for is started. *)
Theorem detector_event_exact n w read :
  Forall constraint_labels_ok (elems (NodeAgent_constraints n)) ->
  (forall pod, pod ∈ store -> pod_labels_ok (heap_read (K8sPod_Labels pod) (maps w))) ->
  let tasks := spawned (trace h (loopTarianDetectorReadEvents_body n read) w) in
  (forall t, t ∈ tasks -> exists event id pod,
     seen_in w read event id /\ pod ∈ store /\ has_container pod id /\ triggers n w event id pod t) /\
  (forall event id, seen_in w read event id ->
     (exists pod ids, pod ∈ store /\ containerIndexFunc (Some pod) = inl ids /\ has_container pod id) ->
     exists pod, pod ∈ store /\ has_container pod id /\
       forall t, t ∈ tasks <-> triggers n w event id pod t).
Proof using HH HP StrSetLaws0 MapRangeLaws0.
  intros Hcs Hlabels tasks.
  assert (forall event id pod, seen_in w read event id -> FindPod id = Some pod ->
    forall t, t ∈ tasks <-> triggers n w event id pod t) as Hturn.
  { intros event id pod (->&Hev&Hid&cgroups&Hcg&Hfind) Hpod t. unfold tasks.
    rewrite (turn_spawned n w event id cgroups Hev Hid Hcg Hfind), Hpod, elem_of_app. unfold triggers.
    destruct (FindPod_sound store id pod Hpod) as [Hin _].
    pose proof (handleExecEvent_tasks h n (execEventFromTarianDetector event id pod)
      (h _ (NFindPod id) (h _ (NReadCgroup (DetectorEvent_HostProcessId event)) w).2).2 Hcs) as Hexec.
    unfold labels_at in Hexec. rewrite turn_labels in Hexec. specialize (Hexec (Hlabels pod Hin) t).
    destruct (String.eqb_spec (DetectorEvent_EventId event) "sys_execve_entry") as [He|He].
    - rewrite Hexec. destruct (DetectorEvent_Json event) as [data|e];
        rewrite ?list_elem_of_singleton, ?elem_of_nil; naive_solver.
    - rewrite elem_of_nil. destruct (DetectorEvent_Json event) as [data|e];
        rewrite ?list_elem_of_singleton, ?elem_of_nil; naive_solver. }
  split.
  - intros t Ht. destruct (unseen_turn n w read) as [(event&id&Hseen)|Hnone]; [|unfold tasks in Ht; rewrite Hnone in Ht; by apply elem_of_nil in Ht].
    destruct (FindPod id) as [pod|] eqn:Hpod.
    + exists event, id, pod. destruct (FindPod_sound store id pod Hpod) as (?&?&_).
      split; [done|]. split; [done|]. split; [done|]. by apply (Hturn event id pod).
    + destruct Hseen as (->&Hev&Hid&cgroups&Hcg&Hfind). unfold tasks in Ht.
      rewrite (turn_spawned n w event id cgroups Hev Hid Hcg Hfind), Hpod in Ht. by apply elem_of_nil in Ht.
  - intros event id Hseen (pod0&ids&Hin&Hids&Hc).
    destruct (FindPod_complete store id pod0 ids) as (pod&Hpod&_); [by eapply container_id_length|done|done|done|].
    destruct (FindPod_sound store id pod Hpod) as (?&?&_). exists pod. split; [done|]. split; [done|].
    by apply Hturn.
Qed.
End turn.

(** * Nothing is read before the set-up is complete *)

(** The programs of the read and write system calls are off. *)
Definition programs_disabled (past : list (answered DetectorE)) : Prop :=
  exists programs, got GetPrograms programs ∈ past /\
    forall i name, programs !! i = Some (inl name) ->
      Contains name "tdf_write" = true \/ Contains name "tdf_read" = true ->
      got (DisableProgram i) tt ∈ past.

Definition detector_guard (past : list (answered DetectorE)) X (e : DetectorE X) : Prop :=
  match e with
  | PrepareModule => programs_disabled past
  | ReadAsInterface =>
      programs_disabled past /\ got StartInformers tt ∈ past /\ got PrepareModule None ∈ past /\
      got AttachModule None ∈ past /\ got StartDetector None ∈ past
  | _ => True
  end.

Lemma programs_disabled_past past past' :
  past ⊆ past' -> programs_disabled past -> programs_disabled past'.
Proof. intros Hs (ps&Hps&Hd). exists ps. split; [by apply Hs|]. intros i name Hi Hn. by eapply Hs, Hd. Qed.

Lemma disable_programs_guarded programs i past :
  guarded detector_guard (fun past' _ => past ⊆ past' /\
    forall j name, programs !! j = Some (inl name) -> skipped_program name = true ->
      got (DisableProgram (i + j)) tt ∈ past') past (disable_programs i programs).
Proof.
  revert i past. induction programs as [|info rest IH]; intros i past; cbn [disable_programs guarded]; [done|].
  apply guarded_bind.
  assert (forall past1, past ⊆ past1 ->
    (forall name, info = inl name -> skipped_program name = true -> got (DisableProgram i) tt ∈ past1) ->
    guarded detector_guard (fun past' _ => past ⊆ past' /\
      forall j name, (info :: rest) !! j = Some (inl name) -> skipped_program name = true ->
        got (DisableProgram (i + j)) tt ∈ past') past1 (disable_programs (S i) rest)) as Hrest.
  { intros past1 Hs Hi. eapply guarded_mono; [|apply IH]. intros past2 [] _ [Hs2 Hd].
    split; [by etrans|]. intros [|j] name Hj Hn.
    - injection Hj as ->. rewrite Nat.add_0_r. apply Hs2. by apply (Hi name).
    - rewrite Nat.add_succ_r. by apply (Hd j name). }
  destruct info as [name|e]; [|by apply Hrest].
  destruct (skipped_program name) eqn:Hn.
  - split; [done|]. intros []. apply Hrest; [intros x Hx; apply elem_of_app; by left|].
    intros name' _ _. apply elem_of_app. right. by left.
  - apply Hrest; [done|]. intros name' [= <-]. by rewrite Hn.
Qed.

Section reads.
Context `{SS : StrSet} `{MR : MapRange} `{RX : Regexp}.

Definition set_up (past : list (answered DetectorE)) : Prop :=
  programs_disabled past /\ got PrepareModule None ∈ past /\ got AttachModule None ∈ past.

Lemma setupEventsDetector_guarded past :
  guarded detector_guard (fun past' err => past ⊆ past' /\ (err = None -> set_up past')) past setupEventsDetector.
Proof.
  apply guarded_extends. split; [done|]. intros [err|]; [done|]. split; [done|]. intros programs. cbn [bind].
  apply guarded_bind. eapply guarded_mono; [|apply disable_programs_guarded].
  intros past1 [] _ [Hs Hd].
  assert (programs_disabled past1) as Hp.
  { exists programs. split; [apply Hs, elem_of_app; right; by left|].
    intros i name Hi Hn. apply (Hd i name Hi), orb_true_iff, Hn. }
  split; [done|]. intros [err|]; [done|]. split; [done|]. intros []. split; [done|].
  intros [err|]; [done|]. intros _. split_and!.
  - eapply programs_disabled_past; [|exact Hp]. set_solver.
  - set_solver.
  - set_solver.
Qed.

Definition reading (past : list (answered DetectorE)) : Prop :=
  set_up past /\ got StartInformers tt ∈ past /\ got StartDetector None ∈ past.

Lemma reading_past past past' : past ⊆ past' -> reading past -> reading past'.
Proof.
  intros Hs ((Hp&?&?)&?&?). split; [split; [by eapply programs_disabled_past|]|]; split; by apply Hs.
Qed.

Lemma read_loop_guarded turns past :
  reading past -> guarded detector_guard (fun past' _ => past ⊆ past') past (read_loop turns).
Proof.
  intros Hr. eapply guarded_mono; [|apply guarded_extends with (Q := fun _ _ => True)];
    [by intros past' a _ [Hs _]|].
  revert past Hr. induction turns as [|turns IH]; intros past Hr; cbn [read_loop]; [done|].
  assert (forall past1 v, reading past1 -> reading (past1 ++ [v])) as Hsnoc.
  { intros past1 v. apply reading_past. intros x Hx. apply elem_of_app. by left. }
  split; [done|]. intros [err|]; [done|].
  assert (reading (past ++ [got ContextErr None])) as Hr1 by by apply Hsnoc.
  split; [by destruct Hr1 as ((?&?&?)&?&?)|]. intros read. split; [done|]. intros n. cbn [bind].
  apply guarded_bind. eapply guarded_mono; [|by apply (guarded_interp detector_guard (fun _ e => OnNode e))].
  intros past1 [] _ Hs. apply IH. eapply reading_past; [exact Hs|]. by do 2 apply Hsnoc.
Qed.

Lemma setupPodWatcher_guarded n past :
  guarded detector_guard (fun past' _ => True) past (setupPodWatcher n).
Proof.
  unfold setupPodWatcher, NewPodWatcher. split; [done|]. intros [err|]; [done|]. split; [done|].
  intros []; [|done]. split; [done|]. by intros [err|].
Qed.

(** The calls that start and close the detector. *)
Definition not_started X (e : DetectorE X) : Prop := match e with StartDetector => False | _ => True end.

Definition never_started (past : list (answered DetectorE)) : Prop :=
  Forall (fun v => not_started _ (projT2 v).1) past.

Lemma disable_not_started i programs :
  sat not_started (fun _ _ _ => True) (fun _ => True) (disable_programs i programs).
Proof.
  revert i. induction programs as [|[name|e] rest IH]; intros i; cbn [disable_programs]; [done| |apply IH].
  apply sat_bind. destruct (skipped_program name); [|apply IH]. split; [done|]. intros [] _. apply IH.
Qed.

Lemma setup_not_started : sat not_started (fun _ _ _ => True) (fun _ => True) setupEventsDetector.
Proof.
  split; [done|]. intros [err|] _; [done|]. split; [done|]. intros programs _. cbn [bind].
  apply sat_bind. eapply sat_mono; [|apply disable_not_started]. intros [[]|c] _; [|done].
  split; [done|]. intros [err|] _; [done|]. split; [done|]. intros [] _. split; [done|]. by intros [err|] _.
Qed.

Lemma watcher_not_started n : sat not_started (fun _ _ _ => True) (fun _ => True) (setupPodWatcher n).
Proof.
  split; [done|]. intros [err|] _; [done|]. split; [done|]. intros [] _; [|done].
  split; [done|]. by intros [err|] _.
Qed.

(** Whether a call was a successful start. *)
Definition start_ok (v : answered DetectorE) : bool :=
  match v with
  | existT _ (e, x) =>
      match e in DetectorE X return X -> bool with
      | StartDetector => fun err => match err with None => true | Some _ => false end
      | _ => fun _ => false
      end x
  end.

Definition closed (past : list (answered DetectorE)) : Prop :=
  got StartDetector None ∈ past -> got CloseDetector tt ∈ past.

Lemma never_started_closed past : never_started past -> closed past.
Proof. intros Hn Hin. exfalso. exact (proj1 (Forall_forall _ _) Hn _ Hin). Qed.

Lemma failed_start_closed past err : never_started past -> closed (past ++ [got StartDetector (Some err)]).
Proof.
  intros Hn [Hin|Hin%list_elem_of_singleton]%elem_of_app; [apply elem_of_app; left; by apply (never_started_closed past)|].
  apply (f_equal start_ok) in Hin. discriminate Hin.
Qed.

Definition start_and_read (turns : nat) : prog DetectorE (option error) :=
  err <- call StartDetector;;
  match err with
  | Some _ => Ret (Errorf "error while starting tarian-detector" err)
  | None =>
      err <- call AttachModule;;
      err <- (match err with
              | Some _ => Ret (Errorf "error while attaching tarian-detector" err)
              | None => read_loop turns
              end);;
      call CloseDetector;;;
      Ret err
  end.

(** Once the detector is to be started. *)
Lemma start_and_read_guarded turns past :
  set_up past -> got StartInformers tt ∈ past -> never_started past ->
  guarded detector_guard (fun past' _ => closed past') past (start_and_read turns).
Proof.
  intros Hsu Hin Hn. split; [done|]. intros [err|]; [by apply failed_start_closed|].
  split; [done|]. intros attached. cbn [bind]. apply guarded_bind.
  assert (forall past' (a : option error), guarded detector_guard (fun past' _ => closed past') past'
    (call CloseDetector;;; Ret a)) as Hclose.
  { intros past' a. split; [done|]. intros [] _. apply elem_of_app. right. by left. }
  destruct attached as [err|]; [apply Hclose|].
  eapply guarded_mono; [|apply read_loop_guarded]; [intros; apply Hclose|].
  eapply reading_past with (past := past ++ [got StartDetector None]).
  { intros x Hx. apply elem_of_app. by left. }
  destruct Hsu as (Hp&?&?). split_and!.
  - split_and!; [by eapply programs_disabled_past; [|exact Hp]; intros x Hx; apply elem_of_app; left|..];
      apply elem_of_app; by left.
  - apply elem_of_app. by left.
  - apply elem_of_app. right. by left.
Qed.

Lemma loop_shape turns n :
  loopTarianDetectorReadEvents turns n =
  (err <- setupPodWatcher n;;
   match err with
   | Some _ => Ret err
   | None =>
       call StartInformers;;;
       err <- setupEventsDetector;;
       match err with Some _ => Ret err | None => start_and_read turns end
   end).
Proof. reflexivity. Qed.

(** C27. The order of the set-up.  The detector is read only after the pods are
    watched, the programs of the read and write system calls are disabled, the
    module is prepared and attached and the detector started; programs are
    disabled before the module is prepared; and once the detector was started
    it is closed whenever the loop returns. *)
Theorem reads_after_setup {S} (h : handler DetectorE S) turns n s :
  let hist := history h (loopTarianDetectorReadEvents turns n) s in
  (forall pre X (e : DetectorE X) x post, hist = pre ++ got e x :: post -> detector_guard pre X e) /\
  (forall err, (run h (loopTarianDetectorReadEvents turns n) s).1 = Done err -> closed hist).
Proof.
  assert (guarded detector_guard (fun past _ => closed past) [] (loopTarianDetectorReadEvents turns n)) as Hg.
  2: { destruct (guarded_run _ h _ [] _ s Hg) as [H1 H2]. split; [exact H1|]. intros err Hr. by apply (H2 err). }
  rewrite loop_shape. apply guarded_bind.
  eapply guarded_mono; [|apply guarded_sat; [apply watcher_not_started|apply setupPodWatcher_guarded]].
  intros past1 [err|] _ [_ (new1&->&Hn1)]; [by apply never_started_closed|].
  split; [done|]. intros []. cbn [bind]. apply guarded_bind.
  eapply guarded_mono; [|apply guarded_sat; [apply setup_not_started|apply setupEventsDetector_guarded]].
  intros past2 err _ [[Hs Hsu] (new2&->&Hn2)].
  assert (never_started ((([] ++ new1) ++ [got StartInformers tt]) ++ new2)) as Hn.
  { unfold never_started. rewrite !Forall_app. split_and!; [constructor|done|by repeat constructor|done]. }
  destruct err as [err|]; [by apply never_started_closed|].
  apply start_and_read_guarded; [by apply Hsu| |exact Hn].
  apply Hs, elem_of_app. right. by left.
Qed.
End reads.

(** * On a node with two pods *)

Definition watched_pod : K8sPod :=
  mkK8sPod "web-1" "uid-1" "default" 0 {[ ThreatScanAnnotation := "true" ]} ["containerd://" +:+ web_id] [] [].

Definition other_pod : K8sPod := mkK8sPod "db-1" "uid-2" "default" 1 ∅ ["containerd://fedcba9876543210"] [] [].

(** Process 7 runs in the container of [watched_pod]. *)
Definition node_with_pods : handler NodeE heap := fun X e m =>
  match e in NodeE X return X * heap with
  | NConfig e => (config_down _ e, m)
  | NEvent e => (event_down _ e, m)
  | NNow => (0%Z, m)
  | NReadCgroup pid =>
      (if (pid =? 7)%Z then inl ("0::/kubepods.slice/pod-1/cri-containerd-" +:+ web_id)
       else inr (PlainError "no such file"), m)
  | NFindPod id => (FindPod (H := store_indexer [other_pod; watched_pod]) id, m)
  | NReadLabels l => (heap_read l m, m)
  | NDeleteLabel l k => (tt, heap_delete l k m)
  | NGo _ => (tt, m)
  end.

#[export] Instance node_with_pods_heap : NodeHeap node_with_pods (fun m => m).
Proof. split; [done|done|]. by intros X [] m. Qed.

#[export] Instance node_with_pods_index :
  NodePods node_with_pods (store_indexer [other_pod; watched_pod]) [other_pod; watched_pod].
Proof. split; [apply _|done]. Qed.

Definition ex_event : DetectorEvent :=
  mkDetectorEvent "sys_execve_entry" 7 "runc:[2:INIT]" [("filename", "/bin/sh")] (inl "{}").

Definition ex_heap : heap := {[ 0%nat := {[ "app" := "web" ]} ]}.

Lemma detector_event_exact_witness :
  let n := mkNodeAgent None true false "node-1" in
  let tasks := spawned (trace node_with_pods
    (loopTarianDetectorReadEvents_body (RX := literal_engine) n (inl ex_event)) ex_heap) in
  exists pod, pod ∈ [other_pod; watched_pod] /\
    forall t, t ∈ tasks <-> triggers (RX := literal_engine) (fun m => m) n ex_heap ex_event
      (str_take 31 web_id) pod t.
Proof.
  intros n tasks.
  destruct (detector_event_exact (RX := literal_engine) node_with_pods (fun m => m)
    (I := store_indexer [other_pod; watched_pod]) [other_pod; watched_pod]
    n ex_heap (inl ex_event)) as [_ Hex].
  - constructor.
  - intros pod [->|[->|Hn%elem_of_nil]%elem_of_cons]%elem_of_cons; [| |done]; labels_ok.
  - destruct (Hex ex_event (str_take 31 web_id)) as (pod&Hin&_&Ht).
    + split; [done|]. split; [discriminate|]. split; [discriminate|].
      eexists. split; [reflexivity|]. by vm_compute.
    + exists watched_pod, [str_take 15 web_id]. split; [right; left|]. split; [by vm_compute|].
      eexists. split; [left|by vm_compute].
    + by exists pod.
Defined.

(** What it starts there: the violation is reported, and the event sent on. *)
Example ex_event_tasks :
  spawned (trace node_with_pods (loopTarianDetectorReadEvents_body (RX := literal_engine)
    (mkNodeAgent None true false "node-1") (inl ex_event)) ex_heap) =
  [ReportTask (mkProcessViolation (execEventFromTarianDetector ex_event (str_take 31 web_id) watched_pod));
   DetectionTask "sys_execve_entry" "{}"].
Proof. by vm_compute. Qed.

(** A detector that works, with one program to be disabled. *)
Definition fine_detector : handler DetectorE nat := fun X e n =>
  match e in DetectorE X return X * nat with
  | InClusterConfig => (None, n)
  | NewForConfigOrDie => (true, n)
  | AddIndexers _ _ => (None, n)
  | StartInformers => (tt, n)
  | GetModule => (None, n)
  | GetPrograms => ([inl "tdf_execve_e"; inl "tdf_write_x"; inr (PlainError "no info")], n)
  | DisableProgram i => (tt, i)
  | PrepareModule => (None, n)
  | AddToDetector => (tt, n)
  | AttachModule => (None, n)
  | StartDetector => (None, n)
  | CloseDetector => (tt, n)
  | ContextErr => (None, n)
  | ReadAsInterface => (inr (PlainError "nothing"), n)
  | CurrentAgent => (NewNodeAgent, n)
  | OnNode e => ((node_with_pods _ e ∅).1, n)
  end.

Lemma reads_after_setup_witness :
  let hist := history fine_detector (loopTarianDetectorReadEvents (RX := literal_engine) 2 NewNodeAgent) 0 in
  (run fine_detector (loopTarianDetectorReadEvents (RX := literal_engine) 2 NewNodeAgent) 0) = (Done None, 1) /\
  closed hist.
Proof.
  destruct (reads_after_setup (RX := literal_engine) fine_detector 2 NewNodeAgent 0) as [_ Hclosed].
  split; [by vm_compute|]. apply (Hclosed None). by vm_compute.
Defined.

(** * The run command ([cmd/tarian-node-agent/cmd/run.go], [mount_debugfs.go]) *)

Definition DebugFSMagic : Z := 0x64626720.
Definition DebugFSRoot : string := "/sys/kernel/debug".
Definition HostProcDir : string := "/host/proc".

(** What the command asks of the system; [RunAgent] is [agent.Run]. *)
Inductive NodeCmdE : Type -> Type :=
| Statfs (path : string) : NodeCmdE (Z + error)
| MountDebugFs : NodeCmdE (option error)
| StatDir (path : string) : NodeCmdE (option (error * bool))
| Uname : NodeCmdE (list Z + error)
| Setenv (k v : string) : NodeCmdE unit
| RemoveMemlock : NodeCmdE (option error)
| RunAgent (clusterAgentAddress : string) (n : NodeAgent) : NodeCmdE unit.

Record node_runCommand := mkNodeRunCommand {
  run_clusterAgentHost : string;
  run_clusterAgentPort : string;
  run_nodeName : string;
  run_enableAddConstraint : bool;
}.

(** The values of flags nobody sets. *)
Definition newRunCommand : node_runCommand :=
  mkNodeRunCommand "tarian-cluster-agent.tarian-system.svc" "80" "" false.

Definition isDebugFsMounted : prog NodeCmdE bool :=
  r <- call (Statfs DebugFSRoot);;
  Ret (match r with inl magic => (magic =? DebugFSMagic)%Z | inr _ => false end).

(** The bytes up to the first zero; [uint8] of a negative [int8]. *)
Fixpoint charsToString (ca : list Z) : string :=
  match ca with
  | [] => ""
  | c :: rest => if (c =? 0)%Z then "" else String (ascii_of_nat (Z.to_nat (c mod 256))) (charsToString rest)
  end.

(** Major, minor and patch version of a kernel release. *)
Definition kernel_version (release : string) : option (string * string * string) :=
  match Split release "." with
  | majorVersion :: minorVersion :: patch :: _ =>
      match Split patch "-" with
      | patchVersion :: _ => Some (majorVersion, minorVersion, patchVersion)
      | [] => None
      end
  | _ => None
  end.

(** Fewer than three numbers end the process ([logger.Fatal]). *)
Definition setLinuxKernelVersion : prog NodeCmdE (option error) :=
  r <- call Uname;;
  match r with
  | inr e => Ret (Errorf "error while making syscall to get linux kernel version" (Some e))
  | inl release =>
      match kernel_version (charsToString release) with
      | None => Crash (FatalExit "invalid linux kernel version")
      | Some (majorVersion, minorVersion, patchVersion) =>
          call (Setenv "LINUX_VERSION_MAJOR" majorVersion);;;
          call (Setenv "LINUX_VERSION_MINOR" minorVersion);;;
          call (Setenv "LINUX_VERSION_PATCH" patchVersion);;;
          Ret None
      end
  end.

Definition node_run (c : node_runCommand) : prog NodeCmdE (option error) :=
  mounted <- isDebugFsMounted;;
  err <- (if mounted then Ret None else call MountDebugFs);;
  match err with
  | Some _ => Ret (Errorf "failed to mount debugfs" err)
  | None =>
      hostProc <- call (StatDir HostProcDir);;
      match hostProc with
      | Some (err, true) => Ret (Errorf "host proc is not mounted" (Some err))
      | _ =>
          err <- setLinuxKernelVersion;;
          match err with
          | Some _ => Ret (Errorf "failed to set linux kernel version" err)
          | None =>
              err <- call RemoveMemlock;;
              match err with
              | Some _ => Crash (FatalExit "rlimit")
              | None =>
                  let addr := run_clusterAgentHost c +:+ ":" +:+ run_clusterAgentPort c in
                  let agent := SetNodeName (run_nodeName c)
                    (EnableAddConstraint (run_enableAddConstraint c) NewNodeAgent) in
                  call (RunAgent addr agent);;;
                  Ret None
              end
          end
      end
  end.

Example kernel_versions :
  kernel_version "5.15.0-91-generic" = Some ("5", "15", "0") /\ kernel_version "6.1.55+" = Some ("6", "1", "55+") /\
  kernel_version "4.19-rc1" = None.
Proof. by vm_compute. Qed.
