(* ===== verification/ClusterAgent.v ===== *)
(** The cluster agent ([pkg/clusteragent]): the gRPC proxies
    ([grpc_servers.go]), the constraint cache ([config_cache.go]) and the
    action handler ([action_handler.go]).  The theorems: what the proxy lets
    through, exactly which pods the action handler deletes, and what an
    unreachable server does to cache and actions. *)

From S2P Require Import Prelude GoStrings Types Labels.

(** * Proxies *)

(** Calls to tarian-server and the queue of the action handler. *)
Inductive ProxyE : Type -> Type :=
| PConfig {X} (e : ConfigE X) : ProxyE X
| PEvent {X} (e : EventE X) : ProxyE X
| PQueueEvent (event : ptr Event) : ProxyE unit.

Record ProxyConfigServer := mkProxyConfigServer { proxy_enableAddConstraint : bool }.

Definition proxy_EnableAddConstraint (value : bool) (cs : ProxyConfigServer) : ProxyConfigServer :=
  mkProxyConfigServer value.

Definition Proxy_GetConstraints (cs : ProxyConfigServer) (request : GetConstraintsRequest)
  : prog ProxyE (ptr GetConstraintsResponse * option error) :=
  call (PConfig (GetConstraints request)).

Definition Proxy_AddConstraint (cs : ProxyConfigServer) (request : AddConstraintRequest)
  : prog ProxyE (ptr AddConstraintResponse * option error) :=
  if negb (proxy_enableAddConstraint cs)
  then Ret (None, Errorf "AddConstraint" (Some (StatusError Unimplemented
         "Method AddConstraint is disabled in tarian-cluster-agent")))
  else call (PConfig (AddConstraint request)).

Definition Proxy_RemoveConstraint (cs : ProxyConfigServer) (request : RemoveConstraintRequest)
  : prog ProxyE (ptr RemoveConstraintResponse * option error) :=
  if negb (proxy_enableAddConstraint cs)
  then Ret (None, Errorf "RemoveConstraint" (Some (StatusError Unimplemented
         "Method RemoveConstraint is not supported in tarian-cluster-agent, send it to tarian-server instead.")))
  else call (PConfig (RemoveConstraint request)).

(** The methods the proxy does not define come from the embedded
    [UnimplementedConfigServer]. *)
Definition unimplemented {R} (method : string) : prog ProxyE (ptr R * option error) :=
  Ret (None, Some (StatusError Unimplemented ("method " +:+ method +:+ " not implemented"))).

(** The Config service of the cluster agent, as its clients see it. *)
Definition proxy_service (cs : ProxyConfigServer) : forall X, ConfigE X -> prog ProxyE X := fun X e =>
  match e in ConfigE X return prog ProxyE X with
  | GetConstraints r => a <- Proxy_GetConstraints cs r;; Ret (client_invoke a)
  | AddConstraint r => a <- Proxy_AddConstraint cs r;; Ret (client_invoke a)
  | RemoveConstraint r => a <- Proxy_RemoveConstraint cs r;; Ret (client_invoke a)
  | AddAction r => a <- unimplemented "AddAction";; Ret (client_invoke a)
  | GetActions r => a <- unimplemented "GetActions";; Ret (client_invoke a)
  | RemoveAction r => a <- unimplemented "RemoveAction";; Ret (client_invoke a)
  end.

Definition Proxy_IngestEvent (request : IngestEventRequest)
  : prog ProxyE (ptr IngestEventResponse * option error) :=
  r <- call (PEvent (IngestEvent request));;
  call (PQueueEvent (IngestEventRequest_Event request));;;
  Ret r.

(** * Constraint cache *)

Record ConfigCache := mkConfigCache {
  cache_constraints : slice (ptr Constraint);
  cache_constraintsInitialized : bool;
}.

Definition NewConfigCache : ConfigCache := mkConfigCache None false.

Definition cache_SetConstraints (constraints : slice (ptr Constraint)) (cc : ConfigCache) : ConfigCache :=
  mkConfigCache constraints (cache_constraintsInitialized cc).

Definition cache_GetConstraints (cc : ConfigCache) : slice (ptr Constraint) := cache_constraints cc.

Definition IsConstraintInitialized (cc : ConfigCache) : bool := cache_constraintsInitialized cc.

(** The error of the server is logged; the response is nil with it. *)
Definition cache_SyncConstraints (cc : ConfigCache) : prog ConfigE ConfigCache :=
  r <- call (GetConstraints (mkGetConstraintsRequest "" None));;
  let cc := cache_SetConstraints (GetConstraintsResponse_GetConstraints r.1) cc in
  Ret (mkConfigCache (cache_constraints cc) true).

(** * Action handler *)

Inductive ActionE : Type -> Type :=
| ActConfig {X} (e : ConfigE X) : ActionE X
| ActEvent {X} (e : EventE X) : ActionE X
| ActNow : ActionE Z
(** The creation time of a pod, in nanoseconds. *)
| GetPod (namespace name : string) : ActionE (Z + error)
| DeletePod (namespace name : string) : ActionE (option error).

Record actionHandler := mkActionHandler {
  ah_actions : slice (ptr Action);
  ah_k8sClientset : bool;  (** whether there is a Kubernetes client *)
}.

(** [eventsChan] holds at most 4096 events. *)
Definition eventsChan_capacity : nat := 4096.

(** [QueueEvent]: [None] while the channel is full. *)
Definition QueueEvent (event : ptr Event) (eventsChan : list (ptr Event)) : option (list (ptr Event)) :=
  if (length eventsChan <? eventsChan_capacity)%nat then Some (eventsChan ++ [event]) else None.

Definition SetActions (actions : slice (ptr Action)) (ah : actionHandler) : actionHandler :=
  mkActionHandler actions (ah_k8sClientset ah).

Definition SyncActions (ah : actionHandler) : prog ActionE actionHandler :=
  r <- call (ActConfig (GetActions (mkGetActionsRequest "" None)));;
  Ret (SetActions (GetActionsResponse_GetActions r.1) ah).

Section actions.
Context `{SS : StrSet}.

Definition actionMatchesPod (action : ptr Action) (pod : ptr Pod) : bool :=
  if negb (String.eqb (Action_GetNamespace action) (Pod_GetNamespace pod)) then false
  else
    match Action_GetSelector action, Selector_GetMatchLabels (Action_GetSelector action) with
    | None, _ => true
    | _, None => true
    | Some _, Some ms =>
        let actionLabels := set_of (MatchLabel_text <$> ms) in
        let podLabels := set_of (Label_text <$> elems (Pod_GetLabels pod)) in
        strset_IsSubset podLabels actionLabels
    end.

(** The conditions on the event, for the fields of a (non-nil) action. *)
Definition actionEventFulfilled (action : Action) (target : ptr Target) : bool :=
  let actionEventFulfilled := false in
  let actionEventFulfilled :=
    if Action_OnViolatedProcess action &&
       (0 <? length (elems (Target_GetViolatedProcesses target)))%nat
    then true else actionEventFulfilled in
  let actionEventFulfilled :=
    if Action_OnViolatedFile action &&
       (0 <? length (elems (Target_GetViolatedFiles target)))%nat
    then true else actionEventFulfilled in
  match Action_OnFalcoAlert action, Target_GetFalcoAlert target with
  | true, Some _ =>
      if (FalcoAlert_GetPriority (Target_GetFalcoAlert target) <=?
          Action_GetFalcoPriority (Some action))%Z
      then true else actionEventFulfilled
  | _, _ => actionEventFulfilled
  end.

Definition isEventTimestampRecent (ah : actionHandler) (t : ptr Timestamp) (podInfo : ptr Pod)
  : prog ActionE bool :=
  if negb (ah_k8sClientset ah) then Ret false
  else
    r <- call (GetPod (Pod_GetNamespace podInfo) (Pod_GetName podInfo));;
    match r with
    | inr _ => Ret false
    | inl creationTimestamp => Ret (creationTimestamp <? AsTime t)%Z
    end.

Definition ingestPodDeletedEvent (pod : ptr Pod) : prog ActionE (option error) :=
  now <- call ActNow;;
  r <- call (ActEvent (IngestEvent (mkIngestEventRequest (Some
         (mkEvent "" EventTypePodDeleted "" None (Some (timestamppb_New now)) None
            (Some [Some (mkTarget pod None None None "" "")]))))));;
  Ret (Errorf "ingestPodDeletedEvent" r.2).

Definition runAction (ah : actionHandler) (action : ptr Action) (pod : ptr Pod) : prog ActionE unit :=
  if negb (String.eqb (Action_GetAction action) "delete-pod") then Ret tt
  else if negb (ah_k8sClientset ah) then Ret tt
  else
    err <- call (DeletePod (Pod_GetNamespace pod) (Pod_GetName pod));;
    match err with
    | None => ingestPodDeletedEvent pod;;; Ret tt
    | Some _ => Ret tt
    end.

(** The body of the inner loop. *)
Definition process_action (ah : actionHandler) (event : ptr Event) (target : ptr Target)
    (action : ptr Action) : prog ActionE unit :=
  a <- deref "action" action;;
  if actionEventFulfilled a target && actionMatchesPod action (Target_GetPod target) then
    recent <- isEventTimestampRecent ah (Event_GetClientTimestamp event) (Target_GetPod target);;
    if (recent : bool) then runAction ah action (Target_GetPod target) else Ret tt
  else Ret tt.

Definition ProcessActions (ah : actionHandler) (event : ptr Event) : prog ActionE unit :=
  match Event_GetTargets event with
  | None => Ret tt
  | Some targets =>
      for_each targets tt (fun target _ =>
        match Target_GetPod target with
        | None => Ret tt
        | Some _ =>
            for_each (elems (ah_actions ah)) tt (fun action _ =>
              process_action ah event target action)
        end)
  end.
End actions.

(** * Facts on matching *)

Definition action_labels_ok (a : Action) : Prop :=
  keys_ok (MatchLabel_GetKey <$> elems (Selector_GetMatchLabels (Action_Selector a))).

Definition pod_label_keys_ok (p : Pod) : Prop := keys_ok (Label_GetKey <$> elems (Pod_Labels p)).

(** An action is meant for a pod. *)
Definition action_for_pod (a : Action) (p : Pod) : Prop :=
  Action_Namespace a = Pod_Namespace p /\
  forall ms, Selector_GetMatchLabels (Action_Selector a) = Some ms ->
    forall m, m ∈ ms -> exists l, l ∈ elems (Pod_Labels p) /\
      Label_GetKey l = MatchLabel_GetKey m /\ Label_GetValue l = MatchLabel_GetValue m.

(** The event gives the action a reason. *)
Definition triggers (a : Action) (t : Target) : Prop :=
  (Action_OnViolatedProcess a = true /\ elems (Target_ViolatedProcesses t) <> []) \/
  (Action_OnViolatedFile a = true /\ elems (Target_ViolatedFiles t) <> []) \/
  (Action_OnFalcoAlert a = true /\ exists f, Target_FalcoAlert t = Some f /\
     (FalcoAlert_Priority f <= Action_FalcoPriority a)%Z).

Lemma actionEventFulfilled_spec a t : actionEventFulfilled a (Some t) = true <-> triggers a t.
Proof.
  assert (forall A (l : list A), (0 <? length l)%nat = true <-> l <> []) as Hl.
  { intros A [|x l]; split; try done. }
  assert (actionEventFulfilled a (Some t) =
    (Action_OnViolatedProcess a && (0 <? length (elems (Target_ViolatedProcesses t)))%nat) ||
    (Action_OnViolatedFile a && (0 <? length (elems (Target_ViolatedFiles t)))%nat) ||
    (Action_OnFalcoAlert a &&
     match Target_FalcoAlert t with
     | Some f => (FalcoAlert_Priority f <=? Action_FalcoPriority a)%Z
     | None => false end)) as ->.
  { unfold actionEventFulfilled, Target_GetViolatedProcesses, Target_GetViolatedFiles,
      Target_GetFalcoAlert, Action_GetFalcoPriority, FalcoAlert_GetPriority.
    destruct (Target_FalcoAlert t) as [f|]; cbv beta iota zeta;
      [generalize (FalcoAlert_Priority f <=? Action_FalcoPriority a)%Z as b3|];
      generalize (0 <? length (elems (Target_ViolatedProcesses t)))%nat as b1;
      generalize (0 <? length (elems (Target_ViolatedFiles t)))%nat as b2;
      destruct (Action_OnViolatedProcess a), (Action_OnViolatedFile a), (Action_OnFalcoAlert a);
      repeat intros []; reflexivity. }
  rewrite !orb_true_iff, !andb_true_iff, !Hl. unfold triggers.
  destruct (Target_FalcoAlert t) as [f|]; [rewrite Z.leb_le|].
  - split; [intros [[?|?]|[? ?]]; eauto 7|intros [?|[?|(?&?&[= <-]&?)]]; auto].
  - split; [intros [[?|?]|[? ?]]; eauto; done|intros [?|[?|(?&?&?&?)]]; auto; done].
Qed.

Section matching.
Context `{SS : StrSet} `{!StrSetLaws SS}.

Lemma actionMatchesPod_spec a p :
  action_labels_ok a -> pod_label_keys_ok p ->
  actionMatchesPod (Some a) (Some p) = true <-> action_for_pod a p.
Proof.
  intros Ha Hp. unfold actionMatchesPod, action_for_pod, action_labels_ok in *. cbn.
  destruct (String.eqb_spec (Action_Namespace a) (Pod_Namespace p)) as [->|Hne]; cbn;
    [|naive_solver].
  destruct (Action_Selector a) as [sel|]; cbn in *; [|naive_solver].
  destruct (Selector_MatchLabels sel) as [ms|]; cbn in *; [|naive_solver].
  pose proof (subset_selected ms ((fun l => (Label_GetKey l, Label_GetValue l)) <$> elems (Pod_Labels p)))
    as Hs. rewrite <- !list_fmap_compose in Hs. cbn in Hs. unfold compose in Hs. cbn in Hs.
  unfold Label_text. rewrite Hs by done. unfold selected. setoid_rewrite list_elem_of_fmap.
  split.
  - intros H. split; [done|]. intros ms' [= <-] m Hm. destruct (H m Hm) as (l&Heq&Hl).
    exists l. split; [done|]. by injection Heq.
  - intros [_ H] m Hm. destruct (H ms eq_refl m Hm) as (l&Hl&Hk&Hv).
    exists l. by rewrite Hk, Hv.
Qed.
End matching.

(** * The action handler against a cluster *)

(** The pods of the cluster with their creation times. *)
Abbreviation cluster := (gmap (string * string) Z) (only parsing).

(** The Kubernetes API: a read tells the truth or fails; a failed deletion may
    have been carried out; only deletions remove pods. *)
Class ClusterLaws {W} (h : handler ActionE W) (pods : W -> cluster) : Prop := {
  get_pod ns n w : pods (h _ (GetPod ns n) w).2 = pods w /\
    forall t, (h _ (GetPod ns n) w).1 = inl t -> pods w !! (ns, n) = Some t;
  delete_pod ns n w :
    pods (h _ (DeletePod ns n) w).2 = delete (ns, n) (pods w) \/
    (h _ (DeletePod ns n) w).1 <> None /\ pods (h _ (DeletePod ns n) w).2 = pods w;
  cluster_frame X (e : ActionE X) w :
    match e with DeletePod _ _ => False | _ => True end -> pods (h X e w).2 = pods w;
}.

(** An API that finds what is there and deletes it. *)
Class Reliable {W} (h : handler ActionE W) (pods : W -> cluster) : Prop := {
  get_present ns n w t : pods w !! (ns, n) = Some t -> (h _ (GetPod ns n) w).1 = inl t;
  delete_present ns n w : is_Some (pods w !! (ns, n)) -> (h _ (DeletePod ns n) w).1 = None;
}.

Definition pod_key (p : Pod) : string * string := (Pod_Namespace p, Pod_Name p).

(** The action asks to delete the pod of the target, which is there and was
    created before the event. *)
Definition condemns (event : Event) (t : Target) (a : Action) (c : cluster) (k : string * string)
  : Prop :=
  exists p created, Target_Pod t = Some p /\ pod_key p = k /\ Action_Action a = "delete-pod" /\
    triggers a t /\ action_for_pod a p /\ c !! k = Some created /\
    (created < AsTime (Event_ClientTimestamp event))%Z.

Section handler.
Context `{SS : StrSet} `{!StrSetLaws SS}.
Context {W : Type} (h : handler ActionE W) (pods : W -> cluster) `{!ClusterLaws h pods}.
Context (ah : actionHandler) (event : Event) (w0 : W).
Context (Hclient : ah_k8sClientset ah = true).

(** Pods only disappear, and for a reason. *)
Definition justified_state (w : W) : Prop :=
  pods w ⊆ pods w0 /\
  forall k, is_Some (pods w0 !! k) -> pods w !! k = None ->
    exists t a, Some t ∈ elems (Event_Targets event) /\ Some a ∈ elems (ah_actions ah) /\
      condemns event t a (pods w0) k.

Definition shrinks (w w' : W) : Prop := pods w' ⊆ pods w.

#[export] Instance shrinks_preorder : PreOrder shrinks.
Proof.
  split; unfold shrinks; [intros w; reflexivity|].
  intros w1 w2 w3 H1 H2. by transitivity (pods w2).
Qed.

Lemma ingestPodDeletedEvent_pods pod w :
  exists e w', run h (ingestPodDeletedEvent pod) w = (Done (Some e), w') /\ pods w' = pods w.
Proof.
  unfold ingestPodDeletedEvent. cbn.
  pose proof (cluster_frame _ ActNow w I) as H1. destruct (h _ ActNow w) as [now w1]. cbn in *.
  match goal with |- context [h _ (ActEvent ?e) w1] =>
    pose proof (cluster_frame _ (ActEvent e) w1 I) as H2; destruct (h _ (ActEvent e) w1) as [r w2] end.
  cbn in *. eexists _, w2. split; [reflexivity|]. by rewrite H2.
Qed.

#[local] Arguments ingestPodDeletedEvent : simpl never.

Lemma isEventTimestampRecent_run t p w :
  exists b w', run h (isEventTimestampRecent ah t (Some p)) w = (Done b, w') /\ pods w' = pods w /\
    (b = true -> exists c, pods w !! pod_key p = Some c /\ (c < AsTime t)%Z) /\
    (Reliable h pods -> forall c, pods w !! pod_key p = Some c -> (c < AsTime t)%Z -> b = true).
Proof.
  unfold isEventTimestampRecent, pod_key. rewrite Hclient. cbn.
  set (ns := Pod_Namespace p). set (n := Pod_Name p).
  destruct (get_pod ns n w) as [Hgs Hgt].
  assert (Reliable h pods -> forall t, pods w !! (ns, n) = Some t ->
    (h _ (GetPod ns n) w).1 = inl t) as Hrel by (intros ? ?; apply get_present).
  destruct (h _ (GetPod ns n) w) as [[created|err] w1]; cbn in *.
  - specialize (Hgt created eq_refl). eexists _, w1. split; [reflexivity|]. split; [done|].
    rewrite !Z.ltb_lt. split; [by eauto|]. intros _ c. rewrite Hgt. intros [= <-]. by rewrite Z.ltb_lt.
  - exists false, w1. split_and!; try done. intros HR c Hc. by specialize (Hrel HR c Hc).
Qed.

Lemma runAction_run a p w :
  Action_Action a = "delete-pod" ->
  exists u w', run h (runAction ah (Some a) (Some p)) w = (Done u, w') /\
    (pods w' = delete (pod_key p) (pods w) \/ pods w' = pods w) /\
    (Reliable h pods -> is_Some (pods w !! pod_key p) -> pods w' = delete (pod_key p) (pods w)).
Proof.
  intros Hact. unfold runAction, pod_key. cbn. rewrite Hact, Hclient. cbn.
  pose proof (delete_pod (Pod_Namespace p) (Pod_Name p) w) as Hdel.
  assert (Reliable h pods -> is_Some (pods w !! pod_key p) ->
    (h _ (DeletePod (Pod_Namespace p) (Pod_Name p)) w).1 = None) as Hrel
    by (intros ? ?; by apply delete_present).
  destruct (h _ (DeletePod (Pod_Namespace p) (Pod_Name p)) w) as [[err|] w2]; cbn in Hdel, Hrel |- *.
  - exists tt, w2. split_and!; [done|by destruct Hdel as [?|[_ ?]]; [left|right]|].
    intros HR Hin. by specialize (Hrel HR Hin).
  - destruct Hdel as [Hd|[? _]]; [|done].
    destruct (ingestPodDeletedEvent_pods (Some p) w2) as (e&w3&Hr3&Hw3).
    rewrite run_bind, Hr3. cbn. exists tt, w3. rewrite Hw3. auto.
Qed.

(** A deletion that an action of the handler justifies. *)
Lemma justified_delete t a p w :
  Some t ∈ elems (Event_Targets event) -> Some a ∈ elems (ah_actions ah) ->
  condemns event t a (pods w0) (pod_key p) -> justified_state w ->
  forall w', pods w' = delete (pod_key p) (pods w) -> justified_state w' /\ shrinks w w'.
Proof.
  intros Ht Ha Hcond [Hsub Hjust] w' Heq. unfold justified_state, shrinks. rewrite Heq. split_and!.
  - etrans; [apply delete_subseteq|done].
  - intros k Hk. destruct (decide (k = pod_key p)) as [->|Hne]; [by eauto 10|].
    rewrite lookup_delete_ne by done. by apply Hjust.
  - apply delete_subseteq.
Qed.

Lemma process_action_run t p a w :
  Target_Pod t = Some p -> Some t ∈ elems (Event_Targets event) ->
  Some a ∈ elems (ah_actions ah) -> action_labels_ok a -> pod_label_keys_ok p ->
  justified_state w ->
  exists u w', run h (process_action ah (Some event) (Some t) (Some a)) w = (Done u, w') /\
    justified_state w' /\ shrinks w w' /\
    (Reliable h pods -> forall k, condemns event t a (pods w0) k -> pods w' !! k = None).
Proof.
  intros Hp Ht Ha Hla Hlp Hj.
  assert (forall w', pods w' = pods w -> justified_state w' /\ shrinks w w') as Hsame.
  { intros w' Heq. unfold justified_state, shrinks. by rewrite Heq. }
  assert (forall k, condemns event t a (pods w0) k -> k = pod_key p /\ triggers a t /\
    action_for_pod a p /\ Action_Action a = "delete-pod" /\
    exists c, pods w0 !! k = Some c /\ (c < AsTime (Event_ClientTimestamp event))%Z) as Hcon.
  { intros k (p'&c&Hp'&<-&?&?&?&?&?). rewrite Hp in Hp'. injection Hp' as <-. eauto 10. }
  unfold process_action. cbn [deref bind Target_GetPod]. rewrite Hp.
  pose proof (actionEventFulfilled_spec a t) as Htr.
  pose proof (actionMatchesPod_spec a p Hla Hlp) as Hm.
  destruct (actionEventFulfilled a (Some t) && actionMatchesPod (Some a) (Some p)) eqn:Hb.
  2: { exists tt, w. split_and!; [done|by apply Hsame..|]. intros _ k (_&?%Htr&?%Hm&_)%Hcon.
       apply andb_false_iff in Hb as [?|?]; congruence. }
  apply andb_true_iff in Hb as [Htr'%Htr Hm'%Hm]. rewrite run_bind.
  destruct (isEventTimestampRecent_run (Event_ClientTimestamp event) p w)
    as (b&w1&Hr1&Hw1&Hb1&Hb2). cbn [Event_GetClientTimestamp] in *. rewrite Hr1.
  assert (forall c, pods w0 !! pod_key p = Some c -> pods w !! pod_key p = Some c \/
    pods w !! pod_key p = None) as Hc0.
  { intros c Hc. destruct (pods w !! pod_key p) as [c'|] eqn:Hc'; [left|by right].
    pose proof (lookup_weaken _ _ _ _ Hc' (proj1 Hj)). congruence. }
  destruct (decide (b = true /\ Action_Action a = "delete-pod")) as [[-> Hact]|Hno].
  - destruct (Hb1 eq_refl) as (c&Hc&Hlt).
    destruct (runAction_run a p w1 Hact) as (u&w2&Hr2&Hd&Hrel). rewrite Hw1 in Hd, Hrel.
    assert (condemns event t a (pods w0) (pod_key p)) as Hcond.
    { exists p, c. split_and!; try done. eapply lookup_weaken; [exact Hc|apply Hj]. }
    pose proof (justified_delete t a p w Ht Ha Hcond Hj w2) as Hjd.
    exists u, w2. split; [done|]. split_and!.
    + destruct Hd as [Hd|Hd]; [by apply Hjd|by apply Hsame].
    + destruct Hd as [Hd|Hd]; [by apply Hjd|by apply Hsame].
    + intros HR k [-> _]%Hcon. rewrite (Hrel HR) by done. apply lookup_delete_eq.
  - exists tt, w1. split_and!; [|by apply Hsame..|].
    + destruct b; [|done]. unfold runAction. cbn.
      destruct (String.eqb_spec (Action_Action a) "delete-pod"); [naive_solver|done].
    + intros HR k (->&_&_&Hact&c&Hc&Hlt)%Hcon. rewrite Hw1.
      destruct (Hc0 c Hc) as [Hc'|?]; [|done]. destruct Hno. split; [by eapply Hb2|done].
Qed.

Lemma shrinks_none w w' k : shrinks w w' -> pods w !! k = None -> pods w' !! k = None.
Proof. intros Hs Hk. exact (lookup_weaken_None _ _ _ Hk Hs). Qed.

(** All the actions on one target. *)
Lemma process_target_run t p w :
  Target_Pod t = Some p -> Some t ∈ elems (Event_Targets event) -> pod_label_keys_ok p ->
  Forall (fun a => exists x, a = Some x /\ action_labels_ok x) (elems (ah_actions ah)) ->
  justified_state w ->
  exists u w', run h (for_each (elems (ah_actions ah)) tt (fun action _ =>
        process_action ah (Some event) (Some t) action)) w = (Done u, w') /\
    justified_state w' /\ shrinks w w' /\
    forall a, a ∈ elems (ah_actions ah) -> Reliable h pods -> forall x, a = Some x ->
      forall k, condemns event t x (pods w0) k -> pods w' !! k = None.
Proof.
  intros Hp Ht Hlp Has Hj.
  apply (run_for_each_all h justified_state shrinks (fun a w => Reliable h pods ->
    forall x, a = Some x -> forall k, condemns event t x (pods w0) k -> pods w !! k = None)); [|done|].
  - intros a s s' Hs HP HR x Hx k Hk. by eapply shrinks_none, HP.
  - intros a u s Ha Hjs. rewrite Forall_forall in Has. destruct (Has a Ha) as (x&->&Hx).
    destruct (process_action_run t p x s Hp Ht Ha Hx Hlp Hjs) as (u'&s'&Hr&Hj'&Hs'&HP).
    exists u', s'. split_and!; try done. intros HR y [= <-]. by apply HP.
Qed.
End handler.

(** Some action asks to delete the pod [k] for some target of the event. *)
Definition condemned (ah : actionHandler) (event : Event) (c : cluster) (k : string * string) : Prop :=
  exists t a, Some t ∈ elems (Event_Targets event) /\ Some a ∈ elems (ah_actions ah) /\
    condemns event t a c k.

Section deletions.
Context `{SS : StrSet} `{!StrSetLaws SS}.
Context {W : Type} (h : handler ActionE W) (pods : W -> cluster) `{!ClusterLaws h pods}.

(** C5. Exactly the right pods are deleted.  Processing an event never fails;
    every pod that disappears was the pod of a target for which some
    delete-pod action of its namespace, with match labels among the pod's
    labels, had a reason (violated processes, violated files, or a Falco alert
    at least as urgent as the action's priority), and it was created before
    the event; and when the Kubernetes API does not fail every such pod is
    gone. *)
Theorem ProcessActions_exact ah event w :
  ah_k8sClientset ah = true ->
  Forall (fun a => exists x, a = Some x /\ action_labels_ok x) (elems (ah_actions ah)) ->
  (forall t p, Some t ∈ elems (Event_Targets event) -> Target_Pod t = Some p -> pod_label_keys_ok p) ->
  exists w', run h (ProcessActions ah (Some event)) w = (Done tt, w') /\
    pods w' ⊆ pods w /\
    (forall k, is_Some (pods w !! k) -> pods w' !! k = None -> condemned ah event (pods w) k) /\
    (Reliable h pods -> forall k, condemned ah event (pods w) k -> pods w' !! k = None).
Proof.
  intros Hc Has Hlp. unfold ProcessActions. cbn [Event_GetTargets].
  assert (justified_state pods ah event w w) as Hj0 by (split; [done|by intros k [c ->]]).
  destruct (Event_Targets event) as [targets|] eqn:Htg; cbn [elems default id] in *.
  2: { exists w. split_and!; try done; [by intros k [c ->]|]. intros _ k (t&a&Ht&_).
       rewrite Htg in Ht. by apply elem_of_nil in Ht. }
  destruct (run_for_each_all h (justified_state pods ah event w) (shrinks pods)
    (fun target w' => Reliable h pods -> forall t a, target = Some t ->
       Some a ∈ elems (ah_actions ah) -> forall k, condemns event t a (pods w) k -> pods w' !! k = None)
    targets tt w (fun target _ =>
        match Target_GetPod target with
        | None => Ret tt
        | Some _ =>
            for_each (elems (ah_actions ah)) tt (fun action _ =>
              process_action ah (Some event) target action)
        end)) as ([]&w'&Hr&[Hsub Hj]&Hs&HP).
  - intros t s s' Hs HP HR t' a -> Ha k Hk. eapply shrinks_none; [exact Hs|by eapply HP].
  - done.
  - intros target [] s Ht Hjs. destruct target as [t|]; cbn [Target_GetPod].
    2: { exists tt, s. by split_and!. }
    destruct (Target_Pod t) as [p|] eqn:Hp.
    2: { exists tt, s. split_and!; try done.
         intros _ t' a [= <-] _ k (p&_&Hp'&_). congruence. }
    destruct (process_target_run h pods ah event w Hc t p s) as (u&s'&Hr'&Hj'&Hs'&HP'); auto.
    { by rewrite Htg. }
    { by eapply Hlp. }
    exists u, s'. split_and!; try done. intros HR t' a [= <-] Ha k Hk. by eapply HP'.
  - exists w'. split_and!; [done|done| |].
    + intros k Hk Hn. by apply Hj.
    + intros HR k (t&a&Ht&Ha&Hk). rewrite Htg in Ht. by eapply HP.
Qed.

(** The report of a deleted pod always counts as failed: the error is
    wrapped without looking whether there is one, so the result is never
    nil - also when the event was ingested. *)
Lemma ingestPodDeletedEvent_never_nil pod w :
  exists w' err, run h (ingestPodDeletedEvent pod) w =
    (Done (Some (WrapError "ingestPodDeletedEvent" err)), w').
Proof.
  unfold ingestPodDeletedEvent. cbn. destruct (h _ ActNow w) as [now w1]. cbn.
  destruct (h _ (ActEvent _) w1) as [r w2]. cbn. by exists w2, r.2.
Qed.

(** While tarian-server cannot be asked, the actions are gone: one failed
    synchronisation drops them, and then no event makes the handler touch the
    cluster at all. *)
Lemma failed_sync_disables_actions ah event w w1 resp err :
  h _ (ActConfig (GetActions (mkGetActionsRequest "" None))) w = ((resp, Some err), w1) -> resp = None ->
  exists ah', run h (SyncActions ah) w = (Done ah', w1) /\ elems (ah_actions ah') = [] /\
    forall w, run h (ProcessActions ah' event) w = (Done tt, w).
Proof.
  intros Hg ->. eexists. unfold SyncActions. cbn. rewrite Hg. cbn. split; [reflexivity|].
  split; [done|]. intros w'. unfold ProcessActions.
  destruct (Event_GetTargets event) as [ts|]; [|done].
  induction ts as [|t ts IH]; [done|]. cbn in *. by destruct (Target_GetPod t).
Qed.
End deletions.

(** * Facts on proxies and cache *)

(** The calls that reach tarian-server through the cluster agent. *)
Definition proxied (cs : ProxyConfigServer) {X} (e : ConfigE X) : bool :=
  match e with
  | GetConstraints _ => true
  | AddConstraint _ | RemoveConstraint _ => proxy_enableAddConstraint cs
  | AddAction _ | GetActions _ | RemoveAction _ => false
  end.

(** The status code of an answer. *)
Definition answer_code {X} (e : ConfigE X) : X -> option code :=
  match e in ConfigE X return X -> option code with
  | GetConstraints _ | AddConstraint _ | RemoveConstraint _ | AddAction _ | GetActions _
  | RemoveAction _ => fun a => a.2 ≫= error_code
  end.

Section proxies.
Context {W : Type} (h : handler ProxyE W).

(** C35. The gate of the cluster agent: every call answers; reading constraints
    always goes to the server, changing them only when that is enabled, and
    nothing else ever does; what does not go through is answered with status
    Unimplemented and leaves everything unchanged. *)
Theorem proxy_gate cs X (e : ConfigE X) w :
  (proxied cs e = true /\ trace h (proxy_service cs X e) w = [ev (PConfig e)]) \/
  (proxied cs e = false /\ trace h (proxy_service cs X e) w = [] /\
   exists a, run h (proxy_service cs X e) w = (Done a, w) /\ answer_code e a = Some Unimplemented).
Proof.
  destruct e; cbn; try (right; split_and!; [done|done|by eexists]);
    unfold Proxy_AddConstraint, Proxy_RemoveConstraint; destruct (proxy_enableAddConstraint cs); cbn;
    try (right; split_and!; [done|done|by eexists]);
    left; split; try done; by destruct (h _ (PConfig _) w).
Qed.

(** Every event that reaches the cluster agent is forwarded first and then
    handed to the action handler, also when the server did not take it; the
    client gets the server's answer. *)
Lemma Proxy_IngestEvent_queues request w :
  trace h (Proxy_IngestEvent request) w =
    [ev (PEvent (IngestEvent request)); ev (PQueueEvent (IngestEventRequest_Event request))] /\
  (run h (Proxy_IngestEvent request) w).1 = Done (h _ (PEvent (IngestEvent request)) w).1.
Proof.
  unfold Proxy_IngestEvent. cbn. destruct (h _ (PEvent (IngestEvent request)) w) as [r w1]. cbn.
  by destruct (h _ (PQueueEvent (IngestEventRequest_Event request)) w1).
Qed.
End proxies.

(** An unreachable server empties the constraint cache and still marks it
    as initialised: afterwards the cache holds no constraint although it
    claims to be in sync. *)
Lemma failed_sync_empties_cache {W} (h : handler ConfigE W) cc w w' resp err :
  h _ (GetConstraints (mkGetConstraintsRequest "" None)) w = ((resp, Some err), w') -> resp = None ->
  exists cc', run h (cache_SyncConstraints cc) w = (Done cc', w') /\
    elems (cache_GetConstraints cc') = [] /\ IsConstraintInitialized cc' = true.
Proof. intros Hg ->. unfold cache_SyncConstraints. cbn. rewrite Hg. cbn. by eexists. Qed.

(** * A concrete cluster *)

(** A cluster whose API works, behind an unreachable server. *)
Definition cluster_env : handler ActionE cluster := fun X e w =>
  match e in ActionE X return X * cluster with
  | ActConfig e => (config_down _ e, w)
  | ActEvent e => (event_down _ e, w)
  | ActNow => (0%Z, w)
  | GetPod ns n => (match w !! (ns, n) with
                    | Some t => inl t
                    | None => inr (PlainError "pods not found") end, w)
  | DeletePod ns n => (match w !! (ns, n) with
                       | Some _ => None
                       | None => Some (PlainError "pods not found") end, delete (ns, n) w)
  end.

#[export] Instance cluster_env_laws : ClusterLaws cluster_env (fun w => w).
Proof.
  split.
  - intros ns n w. split; [done|]. intros t. cbn. by destruct (w !! (ns, n)); intros [= ->].
  - intros ns n w. by left.
  - by intros X [] w.
Qed.

#[export] Instance cluster_env_reliable : Reliable cluster_env (fun w => w).
Proof. split; [intros ns n w t Ht; cbn; by rewrite Ht|]. intros ns n w [t Ht]. cbn. by rewrite Ht. Qed.

Definition ex_action : Action :=
  mkAction KindAction "default" "kill-web"
    (Some (mkSelector (Some [Some (mkMatchLabel "app" "web")]))) true false true 3%Z "delete-pod".

Definition ex_web : Pod := mkPod "u" "default" "web" (Some [None; Some (mkLabel "app" "web")]).

Definition ex_alert_event : Event :=
  mkEvent KindEvent EventTypeViolation "1" None (Some (timestamppb_New 2000)) None
    (Some [Some (mkTarget (Some ex_web) (Some [Some (mkProcess 7%Z "sh")]) None None "" "")]).

Definition ex_handler : actionHandler := mkActionHandler (Some [Some ex_action]) true.

Definition ex_cluster : cluster := {[ ("default", "web") := 1000%Z; ("default", "db") := 1%Z ]}.

Lemma ProcessActions_exact_witness :
  exists w', run cluster_env (ProcessActions ex_handler (Some ex_alert_event)) ex_cluster = (Done tt, w') /\
    w' ⊆ ex_cluster /\
    (forall k, is_Some (ex_cluster !! k) -> w' !! k = None ->
       condemned ex_handler ex_alert_event ex_cluster k) /\
    (Reliable cluster_env (fun w => w) ->
       forall k, condemned ex_handler ex_alert_event ex_cluster k -> w' !! k = None).
Proof.
  apply (ProcessActions_exact cluster_env (fun w => w) ex_handler ex_alert_event ex_cluster).
  - reflexivity.
  - repeat constructor. exists ex_action. split; [reflexivity|]. repeat constructor.
  - intros t p [= ->]%list_elem_of_singleton [= <-]. repeat constructor.
Defined.

Lemma failed_sync_disables_actions_witness :
  exists ah', run cluster_env (SyncActions ex_handler) ex_cluster = (Done ah', ex_cluster) /\
    elems (ah_actions ah') = [] /\
    forall w, run cluster_env (ProcessActions ah' (Some ex_alert_event)) w = (Done tt, w).
Proof.
  apply (failed_sync_disables_actions cluster_env ex_handler (Some ex_alert_event) ex_cluster ex_cluster
    None (StatusError Unavailable "connection refused")); reflexivity.
Defined.

Lemma failed_sync_empties_cache_witness :
  exists cc', run (fun X (e : ConfigE X) (w : unit) => (config_down X e, w))
      (cache_SyncConstraints (mkConfigCache (Some [Some NewConstraint]) true)) tt = (Done cc', tt) /\
    elems (cache_GetConstraints cc') = [] /\ IsConstraintInitialized cc' = true.
Proof.
  apply (failed_sync_empties_cache (fun X (e : ConfigE X) (w : unit) => (config_down X e, w))
    (mkConfigCache (Some [Some NewConstraint]) true) tt tt
    None (StatusError Unavailable "connection refused")); reflexivity.
Defined.
