(* ===== verification/Falco.v ===== *)
(** The Falco listener of the cluster agent
    ([pkg/clusteragent/falcosidekick_listener.go]) and string truncation
    ([pkg/stringutil/truncate.go]).  The HTTP body decoder, the informers and
    the regular expressions are parameters.  The theorems: what each alert
    makes the listener do as the program builds it, without a logger; that
    alerts never reach the action handler; what it would do with a logger, and
    how its use of constraints differs from the node agent's. *)

From S2P Require Import Prelude GoStrings Types Labels K8s Containers NodeAgent ClusterAgent.

(** * Truncation *)

Definition Truncate (str : string) (length : Z) : string :=
  if (length <=? 0)%Z then ""
  else if (RuneCountInString str <=? length)%Z then str
  else string_of_runes (take (Z.to_nat length) (runes str)).

Definition sanitizeK8sResourceName (str : string) : string :=
  remove_byte "010"%char (Truncate str 253).

(** * Payloads *)

(** A value of the output fields, decoded with [UseNumber]; of arrays and
    objects the model keeps the texts of the two formats. *)
Inductive field_value :=
| FieldString (s : string)
| FieldNumber (s : string)
| FieldBool (b : bool)
| FieldNull
| FieldNested (fmt_s fmt_v : string).

(** The fields of a Falco payload; the priority as its [String()]. *)
Record FalcoPayload := mkFalcoPayload {
  FalcoPayload_Output : string;
  FalcoPayload_Priority : string;
  FalcoPayload_Rule : string;
  FalcoPayload_Time : Z;
  FalcoPayload_OutputFields : option (gmap string field_value);
}.

(** [fmt.Sprintf] with the verbs s and v; an absent key is a nil value. *)
Definition Sprintf_s (v : option field_value) : string :=
  match v with
  | Some (FieldString s) | Some (FieldNumber s) => s
  | Some (FieldBool b) => "%!s(bool=" +:+ (if b then "true" else "false") +:+ ")"
  | Some FieldNull | None => "%!s(<nil>)"
  | Some (FieldNested s _) => s
  end.

Definition Sprintf_v (v : option field_value) : string :=
  match v with
  | Some (FieldString s) | Some (FieldNumber s) => s
  | Some (FieldBool b) => if b then "true" else "false"
  | Some FieldNull | None => "<nil>"
  | Some (FieldNested _ v) => v
  end.

Definition output_field (payload : FalcoPayload) (key : string) : option field_value :=
  FalcoPayload_OutputFields payload ≫= fun fields => fields !! key.

Definition tarianRuleSpawnedProcess := "falco.tarian.dev/v1 detect spawned_process".

(** * The listener *)

Inductive FalcoE : Type -> Type :=
| FConfig {X} (e : ConfigE X) : FalcoE X
| FEvent {X} (e : EventE X) : FalcoE X
| FGetPod (namespace name : string) : FalcoE (K8sPod + error)
| FReadLabels (l : map_ref) : FalcoE (gmap string string)
| FDeleteLabel (l : map_ref) (key : string) : FalcoE unit
| FNow : FalcoE Z
| FQueueEvent (event : ptr Event) : FalcoE unit
| FDecode (body : string) : FalcoE (FalcoPayload + error)
| FHttpError (msg : string) (status : Z) : FalcoE unit
| FWriteHeader (status : Z) : FalcoE unit
| FWrite (data : string) : FalcoE (option error).

Record FalcoSidekickListener := mkFalcoSidekickListener {
  listener_configCache : ConfigCache;
  listener_logger : bool;  (** whether the logger is set *)
}.

(** The literal in the constructor leaves the logger nil. *)
Definition NewFalcoSidekickListener (configCache : ConfigCache) (dialErr : option error)
  : option FalcoSidekickListener * option error :=
  match dialErr with
  | Some _ =>
      (None, Errorf "NewFalcoSidekickListener: couldn't not connect to tarian-server" dialErr)
  | None => (Some (mkFalcoSidekickListener configCache false), None)
  end.

(** Every method of a nil logger dereferences it. *)
Definition log (f : FalcoSidekickListener) : prog FalcoE unit :=
  if listener_logger f then Ret tt else Crash (NilDeref "logger").

Section listener.
Context `{SS : StrSet} `{MR : MapRange} `{RX : Regexp}.

Definition getConstraintsMatchingLabels (f : FalcoSidekickListener) (labels : gmap string string)
  : list (ptr Constraint) :=
  let k8sPodLabelSet := set_of ((fun kv => label_text kv.1 kv.2) <$> map_range labels) in
  List.filter (fun constraint =>
    match Constraint_GetSelector constraint,
          Selector_GetMatchLabels (Constraint_GetSelector constraint) with
    | None, _ => false
    | _, None => false
    | Some _, Some ms => strset_IsSubset k8sPodLabelSet (set_of (MatchLabel_text <$> ms))
    end) (elems (cache_GetConstraints (listener_configCache f))).

(** Each expression tried is logged, also when it does not compile. *)
Definition validateProcessAgainstConstraints (f : FalcoSidekickListener) (processName : string)
    (constraints : list (ptr Constraint)) : prog FalcoE bool :=
  r <- for_range constraints tt (fun constraint _ =>
         match Constraint_GetAllowedProcesses constraint with
         | None => Ret (Next tt)
         | Some rules =>
             r <- for_range rules tt (fun allowedProcess _ =>
                    if String.eqb (AllowedProcessRule_GetRegex allowedProcess) ""
                    then Ret (Next tt)
                    else match regexp_Compile (AllowedProcessRule_GetRegex allowedProcess) with
                         | None => log f;;; Ret (Next tt)
                         | Some matches =>
                             log f;;;
                             if (matches processName : bool) then Ret (Return true) else Ret (Next tt)
                         end);;
             match r with
             | inr b => Ret (Return b)
             | inl _ => Ret (Next tt)
             end
         end);;
  match r with
  | inr b => Ret b
  | inl _ => Ret false
  end.

Definition registerConstraintFromTarianRuleSpawnedProcessAlert (f : FalcoSidekickListener)
    (payload : FalcoPayload) (pod : K8sPod) : prog FalcoE unit :=
  let k8sPodName := Sprintf_s (output_field payload "k8s.pod.name") in
  let k8sNsName := Sprintf_s (output_field payload "k8s.ns.name") in
  let procName := Sprintf_s (output_field payload "proc.name") in
  call (FDeleteLabel (K8sPod_Labels pod) "pod-template-hash");;;
  now <- call FNow;;
  podLabels <- call (FReadLabels (K8sPod_Labels pod));;
  call (FConfig (AddConstraint (mkAddConstraintRequest (Some
    (mkConstraint KindConstraint k8sNsName
       (k8sPodName +:+ "-" +:+ Itoa (Z.quot now 3600000))
       (Some (mkSelector (matchLabelsFromPodLabels podLabels)))
       (Some [Some (mkAllowedProcessRule (Some procName))]) None)))));;;
  log f.

Definition falco_labels (labels : gmap string string) : slice (ptr Label) :=
  Some ((fun kv => Some (mkLabel kv.1 kv.2)) <$> map_range labels).

Definition ingestEventFromTarianRuleSpawnedProcessAlert (f : FalcoSidekickListener)
    (payload : FalcoPayload) (pod : K8sPod) : prog FalcoE (ptr Event * option error) :=
  let k8sPodName := Sprintf_s (output_field payload "k8s.pod.name") in
  let k8sNsName := Sprintf_s (output_field payload "k8s.ns.name") in
  labels <- call (FReadLabels (K8sPod_Labels pod));;
  let pbPod :=
    match FalcoPayload_OutputFields payload with
    | Some _ => Some (mkPod (K8sPod_UID pod) k8sNsName k8sPodName (falco_labels labels))
    | None => None
    end in
  let '(pid, err) := ParseInt32 (Sprintf_v (output_field payload "proc.pid")) in
  (match err with Some _ => log f | None => Ret tt end);;;
  let violatedProcesses :=
    Some [Some (mkProcess (to_int32 pid) (Sprintf_s (output_field payload "proc.name")))] in
  let event := Some (mkEvent "" EventTypeFalcoAlert "" None
      (Some (timestamppb_New (FalcoPayload_Time payload))) None
      (Some [Some (mkTarget pbPod violatedProcesses None None "" "")])) in
  r <- call (FEvent (IngestEvent (mkIngestEventRequest event)));;
  log f;;;
  Ret (event, r.2).

Definition ingestEventFromGenericFalcoAlert (f : FalcoSidekickListener)
    (payload : FalcoPayload) (k8sPod : K8sPod) : prog FalcoE (ptr Event * option error) :=
  pod <- (match FalcoPayload_OutputFields payload with
          | Some _ =>
              labels <- call (FReadLabels (K8sPod_Labels k8sPod));;
              Ret (Some (mkPod "" (Sprintf_s (output_field payload "k8s.ns.name"))
                               (Sprintf_s (output_field payload "k8s.pod.name"))
                               (falco_labels labels)))
          | None => Ret None
          end);;
  let outputFieldsStr :=
    (fun v => Sprintf_v (Some v)) <$> default ∅ (FalcoPayload_OutputFields payload) in
  let event := Some (mkEvent "" EventTypeFalcoAlert "" None
      (Some (timestamppb_New (FalcoPayload_Time payload))) None
      (Some [Some (mkTarget pod None None
         (Some (mkFalcoAlert (FalcoPayload_Rule payload)
                  (FalcoPriorityFromString (FalcoPayload_Priority payload))
                  (FalcoPayload_Output payload) (Some outputFieldsStr))) "" "")])) in
  r <- call (FEvent (IngestEvent (mkIngestEventRequest event)));;
  log f;;;
  Ret (event, Errorf "ingestEventFromGenericFalcoAlert" r.2).

(** The rule on spawned processes, for an annotated pod. *)
Definition process_spawned (f : FalcoSidekickListener) (payload : FalcoPayload) (k8sPod : K8sPod)
  : prog FalcoE (option error) :=
  let procName := Sprintf_s (output_field payload "proc.name") in
  let registerProcess :=
    registers_processes (default "" (K8sPod_Annotations k8sPod !! RegisterAnnotation)) in
  labels <- call (FReadLabels (K8sPod_Labels k8sPod));;
  let matchedConstraints := getConstraintsMatchingLabels f labels in
  allowed <- (match matchedConstraints with
              | [] => Ret false
              | _ => validateProcessAgainstConstraints f procName matchedConstraints
              end);;
  if (allowed : bool) then Ret None
  else if registerProcess then
    registerConstraintFromTarianRuleSpawnedProcessAlert f payload k8sPod;;; Ret None
  else
    match matchedConstraints with
    | [] => Ret None
    | _ =>
        r <- ingestEventFromTarianRuleSpawnedProcessAlert f payload k8sPod;;
        let '(event, err) := r in
        match err with
        | None => call (FQueueEvent event);;; Ret None
        | Some _ => Ret None
        end
    end.

Definition processFalcoPayload (f : FalcoSidekickListener) (payload : FalcoPayload)
  : prog FalcoE (option error) :=
  let k8sPodName := Sprintf_s (output_field payload "k8s.pod.name") in
  let k8sNsName := Sprintf_s (output_field payload "k8s.ns.name") in
  if String.eqb (FalcoPayload_Rule payload) tarianRuleSpawnedProcess then
    if negb (IsConstraintInitialized (listener_configCache f)) then log f;;; Ret None
    else
      r <- call (FGetPod k8sNsName k8sPodName);;
      match r with
      | inr _ => log f;;; Ret None
      | inl k8sPod =>
          match K8sPod_Annotations k8sPod !! ThreatScanAnnotation,
                K8sPod_Annotations k8sPod !! RegisterAnnotation with
          | None, None => Ret None
          | _, _ => process_spawned f payload k8sPod
          end
      end
  else
    r <- call (FGetPod k8sNsName k8sPodName);;
    match r with
    | inr _ => log f;;; Ret None
    | inl k8sPod =>
        r <- ingestEventFromGenericFalcoAlert f payload k8sPod;;
        let '(event, err) := r in
        match err with
        | None => call (FQueueEvent event);;; Ret None
        | Some _ => Ret None
        end
    end.

Record http_request := mkHttpRequest {
  request_body : option string;
  request_method : string;
}.

(** The body, decoded as JSON with numbers kept as text. *)
Definition newFalcoPayload (payload : string) : prog FalcoE (FalcoPayload + error) :=
  p <- call (FDecode payload);;
  match p with
  | inr err => Ret (inr (WrapError "newFalcoPayload" (Some err)))
  | inl falcopayload => Ret (inl falcopayload)
  end.

Definition handleFalcoAlert (f : FalcoSidekickListener) (r : http_request) : prog FalcoE unit :=
  match request_body r with
  | None => call (FHttpError "Request body can not be empty" 400)
  | Some body =>
      if negb (String.eqb (request_method r) "POST")
      then call (FHttpError "Only POST http method is supported" 400)
      else
        p <- newFalcoPayload body;;
        match p with
        | inr err =>
            log f;;;
            call (FHttpError "Error encountered while decoding falco payload" 400)
        | inl falcopayload =>
            err <- processFalcoPayload f falcopayload;;
            (match err with Some _ => log f | None => Ret tt end);;;
            call (FWriteHeader 200);;;
            err <- call (FWrite "OK");;
            match err with Some _ => log f | None => Ret tt end
        end
  end.
End listener.

(** * Facts on truncation *)

(** A sanitized name has no line break and at most 253 code points, hence
    at most 1012 bytes, whatever the alert contains; a name of at most 253
    code points only loses its line breaks. *)
Lemma sanitizeK8sResourceName_bounds str :
  Contains (sanitizeK8sResourceName str) (String "010"%char "") = false /\
  String.length (sanitizeK8sResourceName str) <= 4 * 253 /\
  ((RuneCountInString str <= 253)%Z -> sanitizeK8sResourceName str = remove_byte "010"%char str).
Proof.
  unfold sanitizeK8sResourceName. split; [apply remove_byte_free|]. split.
  - etrans; [apply remove_byte_length|]. unfold Truncate. cbn [Z.leb Z.compare].
    destruct (Z.leb_spec (RuneCountInString str) 253) as [Hle|Hgt].
    + pose proof (runes_cover str). unfold RuneCountInString in Hle. lia.
    + etrans; [apply (length_concat_bound 4)|].
      * apply Forall_take, runes_short.
      * rewrite length_take. lia.
  - intros Hle. unfold Truncate. cbn [Z.leb Z.compare].
    by destruct (Z.leb_spec (RuneCountInString str) 253); [|lia].
Qed.

(** * Facts on the listener *)

(** What a run asks of the server and of the action handler. *)
Definition falco_added (tr : list (event FalcoE)) : list AddConstraintRequest :=
  omap (fun v => match projT2 v with FConfig (AddConstraint r) => Some r | _ => None end) tr.

Definition falco_ingested (tr : list (event FalcoE)) : list IngestEventRequest :=
  omap (fun v => match projT2 v with FEvent (IngestEvent r) => Some r | _ => None end) tr.

Definition falco_queued (tr : list (event FalcoE)) : list (ptr Event) :=
  omap (fun v => match projT2 v with FQueueEvent e => Some e | _ => None end) tr.

Section listener_facts.
Context `{SS : StrSet} `{!StrSetLaws SS} `{MR : MapRange} `{!MapRangeLaws MR} `{RX : Regexp}.
Context {W : Type} (h : handler FalcoE W).

(** Some rule of some of the constraints accepts the name. *)
Definition some_rule_allows (procName : string) (cs : list (ptr Constraint)) : bool :=
  existsb (fun c => existsb (rule_allows procName) (elems (Constraint_GetAllowedProcesses c))) cs.

Lemma validate_logged f procName cs :
  listener_logger f = true ->
  validateProcessAgainstConstraints f procName cs = Ret (some_rule_allows procName cs).
Proof.
  intros Hl. unfold validateProcessAgainstConstraints, log. rewrite Hl.
  assert (forall rules, for_range rules tt (fun allowedProcess _ =>
      if String.eqb (AllowedProcessRule_GetRegex allowedProcess) "" then Ret (Next tt)
      else match regexp_Compile (AllowedProcessRule_GetRegex allowedProcess) with
           | None => Ret tt;;; Ret (Next tt)
           | Some matches => Ret tt;;; (if (matches procName : bool) then Ret (Return true) else Ret (Next tt))
           end) = Ret (E := FalcoE) (if existsb (rule_allows procName) rules then inr true else inl tt)) as Hr.
  { intros rules. induction rules as [|r rules IH]; [done|]. cbn. unfold rule_allows at 1.
    destruct (String.eqb _ ""); cbn; [exact IH|]. destruct (regexp_Compile _) as [m|]; cbn; [|exact IH].
    destruct (m procName); cbn; [done|exact IH]. }
  unfold some_rule_allows. induction cs as [|c cs IH]; [done|]. cbn [for_range existsb bind].
  destruct (Constraint_GetAllowedProcesses c) as [rules|]; cbn [elems default id bind].
  - rewrite Hr. destruct (existsb (rule_allows procName) rules); cbn; [done|exact IH].
  - exact IH.
Qed.

(** Without a logger the validation makes no calls either. *)
Lemma validate_silent f procName cs :
  (exists b, validateProcessAgainstConstraints f procName cs = Ret b) \/
  (exists c, validateProcessAgainstConstraints f procName cs = Crash c).
Proof.
  unfold validateProcessAgainstConstraints.
  assert (forall T A R (l : list T) (a : A) (body : T -> A -> prog FalcoE (flow A R)),
    (forall t a, (exists b, body t a = Ret b) \/ (exists c, body t a = Crash c)) ->
    (exists b, for_range l a body = Ret b) \/ (exists c, for_range l a body = Crash c)) as Hfor.
  { intros T A R l a body Hb. revert a. induction l as [|t l IH]; intros a; cbn; [by left; eexists|].
    destruct (Hb t a) as [[b ->]|[c ->]]; cbn; [|by right; eexists].
    destruct b; cbn; [apply IH|by left; eexists|by left; eexists]. }
  assert (forall A B (p : prog FalcoE A) (k : A -> prog FalcoE B),
    (exists b, p = Ret b) \/ (exists c, p = Crash c) ->
    (forall a, (exists b, k a = Ret b) \/ (exists c, k a = Crash c)) ->
    (exists b, bind p k = Ret b) \/ (exists c, bind p k = Crash c)) as Hbind.
  { intros A B p k [[b ->]|[c ->]] Hk; cbn; [apply Hk|by right; eexists]. }
  assert ((exists b, log f = Ret b) \/ (exists c, log f = Crash c)) as Hlog.
  { unfold log. destruct (listener_logger f); [left|right]; by eexists. }
  apply Hbind; [|intros [[]|b]; left; by eexists].
  apply Hfor. intros c []. destruct (Constraint_GetAllowedProcesses c); [|left; by eexists].
  apply Hbind; [|intros [[]|b]; left; by eexists].
  apply Hfor. intros r []. destruct (String.eqb _ ""); [left; by eexists|].
  destruct (regexp_Compile _) as [m|]; (apply Hbind; [done|]); intros _;
    [destruct (m procName)|]; left; by eexists.
Qed.

#[local] Arguments ParseInt32 : simpl never.
#[local] Arguments validateProcessAgainstConstraints : simpl never.
#[local] Arguments Sprintf_s : simpl never.
#[local] Arguments registers_processes : simpl never.
#[local] Arguments String.append : simpl never.
#[local] Arguments Itoa : simpl never.
#[local] Arguments process_spawned : simpl never.

(** One more call of the run. *)
Ltac step_call :=
  match goal with
  | |- context [h ?X ?e ?w] => destruct (h X e w) eqn:?; cbn
  end.

Lemma process_spawned_unlogged f payload pod w :
  listener_logger f = false ->
  let tr := trace h (process_spawned f payload pod) w in
  falco_queued tr = [] /\
  (falco_added tr <> [] \/ falco_ingested tr <> [] ->
   exists c, (run h (process_spawned f payload pod) w).1 = Crashed c).
Proof.
  intros Hl. unfold process_spawned. cbn. step_call.
  destruct (getConstraintsMatchingLabels f g) as [|c cs];
    [|destruct (validate_silent f (Sprintf_s (output_field payload "proc.name")) (c :: cs))
        as [[[] ->]|[? ->]]]; cbn;
    try (by split; [|intros [?|?]]);
    destruct (registers_processes _); cbn;
    unfold log; rewrite ?Hl; cbn;
    try (by split; [|intros [?|?]]);
    repeat step_call; try (by split; [|eexists]);
    destruct (ParseInt32 _) as [pid [err|]]; cbn; rewrite ?Hl; cbn; try (by split; [|intros [?|?]]);
    repeat step_call; rewrite ?Hl; cbn; by split; [|eexists].
Qed.

(** The listener that the constructor builds has no logger, so no alert
    ever reaches the action handler: nothing is queued, and as soon as an
    alert has been turned into an event or a constraint for the server, the
    handling panics. *)
Lemma unset_logger_blocks_actions cache f payload w :
  NewFalcoSidekickListener cache None = (Some f, None) ->
  let tr := trace h (processFalcoPayload f payload) w in
  falco_queued tr = [] /\
  (falco_added tr <> [] \/ falco_ingested tr <> [] ->
   exists c, (run h (processFalcoPayload f payload) w).1 = Crashed c).
Proof.
  intros [= <-]. unfold processFalcoPayload. cbn zeta.
  set (f := mkFalcoSidekickListener cache false).
  assert (forall X (k : unit -> prog FalcoE X), bind (log f) k = Crash (NilDeref "logger")) as Hlog by done.
  destruct (String.eqb (FalcoPayload_Rule payload) tarianRuleSpawnedProcess).
  - destruct (IsConstraintInitialized _); cbn; [|by split; [|intros [?|?]]].
    step_call. destruct s as [pod|e]; cbn; [|by split; [|intros [?|?]]].
    destruct (_ !! ThreatScanAnnotation) as [?|]; [|destruct (_ !! RegisterAnnotation) as [?|]];
      [apply process_spawned_unlogged..|by split; [|intros [?|?]]]; done.
  - cbn. step_call. destruct s as [pod|e]; cbn; [|by split; [|intros [?|?]]].
    unfold ingestEventFromGenericFalcoAlert.
    destruct (FalcoPayload_OutputFields payload); cbn; repeat step_call; by split; [|eexists].
Qed.

(** A generic Falco alert is reported but never acted upon, even by a
    listener that has a logger: its ingestion result is wrapped into an error
    that is never nil, so the event is not queued to the action handler. *)
Lemma generic_alert_never_queued f payload w pod w1 :
  FalcoPayload_Rule payload <> tarianRuleSpawnedProcess -> listener_logger f = true ->
  h _ (FGetPod (Sprintf_s (output_field payload "k8s.ns.name"))
               (Sprintf_s (output_field payload "k8s.pod.name"))) w = (inl pod, w1) ->
  let tr := trace h (processFalcoPayload f payload) w in
  (run h (processFalcoPayload f payload) w).1 = Done None /\ falco_queued tr = [] /\
  exists e t, falco_ingested tr = [mkIngestEventRequest (Some e)] /\
    Event_Type e = EventTypeFalcoAlert /\ Event_Targets e = Some [Some t] /\
    FalcoAlert_GetRule (Target_FalcoAlert t) = FalcoPayload_Rule payload /\
    FalcoAlert_GetOutput (Target_FalcoAlert t) = FalcoPayload_Output payload.
Proof.
  intros Hrule Hl Hpod. unfold processFalcoPayload. cbn zeta.
  apply String.eqb_neq in Hrule as ->. cbn. rewrite Hpod. cbn.
  unfold ingestEventFromGenericFalcoAlert, log. rewrite Hl.
  destruct (FalcoPayload_OutputFields payload); cbn; repeat step_call;
    (split; [done|]; split; [done|]); do 2 eexists; by split_and!.
Qed.

(** The cached constraints accept a process of a pod with these labels. *)
Definition falco_allows (f : FalcoSidekickListener) (labels : gmap string string) (procName : string)
  : Prop :=
  exists c ms rule, c ∈ elems (cache_GetConstraints (listener_configCache f)) /\
    Selector_GetMatchLabels (Constraint_GetSelector c) = Some ms /\
    (forall m, m ∈ ms -> labels !! MatchLabel_GetKey m = Some (MatchLabel_GetValue m)) /\
    rule ∈ elems (Constraint_GetAllowedProcesses c) /\ rule_accepts procName rule.

Lemma elem_of_matching f labels c :
  Forall constraint_labels_ok (elems (cache_GetConstraints (listener_configCache f))) ->
  pod_labels_ok labels ->
  c ∈ getConstraintsMatchingLabels f labels <->
  c ∈ elems (cache_GetConstraints (listener_configCache f)) /\
  exists ms, Selector_GetMatchLabels (Constraint_GetSelector c) = Some ms /\
    forall m, m ∈ ms -> labels !! MatchLabel_GetKey m = Some (MatchLabel_GetValue m).
Proof.
  intros Hcs Hp. unfold getConstraintsMatchingLabels.
  rewrite list_elem_of_In, filter_In, <- list_elem_of_In.
  apply and_iff_compat_l_strong. intros Hin. rewrite Forall_forall in Hcs. specialize (Hcs c Hin).
  unfold constraint_labels_ok in Hcs.
  destruct (Constraint_GetSelector c) as [sel|]; cbn in *; [|naive_solver].
  destruct (Selector_MatchLabels sel) as [ms|]; cbn in *; [|naive_solver].
  rewrite subset_selected by (done || by apply map_range_keys_ok).
  unfold selected. setoid_rewrite elem_of_map_range. naive_solver.
Qed.

Lemma some_rule_allows_spec f labels procName :
  Forall constraint_labels_ok (elems (cache_GetConstraints (listener_configCache f))) ->
  pod_labels_ok labels ->
  some_rule_allows procName (getConstraintsMatchingLabels f labels) = true <->
  falco_allows f labels procName.
Proof.
  intros Hcs Hp. unfold some_rule_allows, falco_allows. rewrite existsb_exists.
  setoid_rewrite existsb_exists. setoid_rewrite rule_allows_spec.
  setoid_rewrite <- list_elem_of_In.
  split.
  - intros (c&Hc&rule&Hr&Hacc). apply elem_of_matching in Hc as (Hin&ms&Hms&Hsel); [|done|done].
    by exists c, ms, rule.
  - intros (c&ms&rule&Hin&Hms&Hsel&Hr&Hacc). exists c. split; [|by exists rule].
    apply elem_of_matching; [done|done|]. split; [done|by exists ms].
Qed.

Definition annotated (pod : K8sPod) : Prop :=
  is_Some (K8sPod_Annotations pod !! ThreatScanAnnotation) \/
  is_Some (K8sPod_Annotations pod !! RegisterAnnotation).

(** What a run did: nothing, one constraint, or one event and at most that
    event queued. *)
Inductive falco_outcome (tr : list (event FalcoE)) : option bool -> Prop :=
| did_nothing :
    falco_added tr = [] -> falco_ingested tr = [] -> falco_queued tr = [] -> falco_outcome tr None
| did_register r :
    falco_added tr = [r] -> falco_ingested tr = [] -> falco_queued tr = [] ->
    falco_outcome tr (Some true)
| did_report e :
    falco_added tr = [] -> falco_ingested tr = [mkIngestEventRequest e] ->
    falco_queued tr = [] \/ falco_queued tr = [e] -> falco_outcome tr (Some false).

Lemma falco_outcome_get ns n tr o :
  falco_outcome tr o -> falco_outcome (ev (FGetPod ns n) :: tr) o.
Proof. intros [|r|e]; [by constructor|by eapply did_register|by eapply did_report]. Qed.

Lemma process_spawned_run f payload pod w labels w1 :
  listener_logger f = true ->
  h _ (FReadLabels (K8sPod_Labels pod)) w = (labels, w1) ->
  let cs := getConstraintsMatchingLabels f labels in
  let allowed := some_rule_allows (Sprintf_s (output_field payload "proc.name")) cs in
  (run h (process_spawned f payload pod) w).1 = Done None /\
  falco_outcome (trace h (process_spawned f payload pod) w)
    (if allowed then None
     else if registers_processes (default "" (K8sPod_Annotations pod !! RegisterAnnotation))
     then Some true
     else match cs with [] => None | _ => Some false end).
Proof.
  intros Hl Hlab. unfold process_spawned. cbn. rewrite Hlab. cbn.
  set (procName := Sprintf_s (output_field payload "proc.name")).
  assert (match getConstraintsMatchingLabels f labels with
          | [] => Ret false
          | _ => validateProcessAgainstConstraints f procName (getConstraintsMatchingLabels f labels)
          end = Ret (some_rule_allows procName (getConstraintsMatchingLabels f labels))) as Hval.
  { rewrite validate_logged by done. by destruct (getConstraintsMatchingLabels f labels). }
  rewrite Hval. cbn. destruct (some_rule_allows _ _); cbn; [split; [done|by constructor]|].
  destruct (registers_processes _); cbn.
  - unfold log. rewrite Hl. repeat step_call. split; [done|]. by eapply did_register.
  - destruct (getConstraintsMatchingLabels f labels); cbn; [split; [done|by constructor]|].
    unfold log. rewrite Hl. step_call. destruct (ParseInt32 _) as [pid [err|]]; cbn;
      step_call; destruct (_.2) as [?|]; cbn; try step_call; (split; [done|]);
      eapply did_report; try reflexivity; auto.
Qed.

(** ** The listener of the program *)

Definition falco_status (tr : list (event FalcoE)) : list Z :=
  omap (fun v => match projT2 v with FWriteHeader s => Some s | FHttpError _ s => Some s | _ => None end) tr.

(** The register annotation asks for processes. *)
Definition wants_registration (pod : K8sPod) : Prop :=
  exists value, K8sPod_Annotations pod !! RegisterAnnotation = Some value /\
    ("processes" ∈ register_rules value \/ "all" ∈ register_rules value).

Lemma wants_registration_spec pod :
  registers_processes (default "" (K8sPod_Annotations pod !! RegisterAnnotation)) = true <->
  wants_registration pod.
Proof.
  unfold wants_registration. destruct (_ !! RegisterAnnotation) as [v|]; cbn.
  - rewrite registers_processes_spec. naive_solver.
  - rewrite registers_empty. naive_solver.
Qed.

(** A cached constraint selects a pod with these labels. *)
Definition falco_selects (cache : ConfigCache) (labels : gmap string string) (c : ptr Constraint) : Prop :=
  c ∈ elems (cache_GetConstraints cache) /\
  exists ms, Selector_GetMatchLabels (Constraint_GetSelector c) = Some ms /\
    forall m, m ∈ ms -> labels !! MatchLabel_GetKey m = Some (MatchLabel_GetValue m).

(** It has an expression to try. *)
Definition has_expression (c : ptr Constraint) : bool :=
  existsb (fun rule => negb (String.eqb (AllowedProcessRule_GetRegex rule) ""))
    (elems (Constraint_GetAllowedProcesses c)).

Definition falco_tries (cache : ConfigCache) (labels : gmap string string) : Prop :=
  exists c rule, falco_selects cache labels c /\
    rule ∈ elems (Constraint_GetAllowedProcesses c) /\ AllowedProcessRule_GetRegex rule <> "".

(** What the server is asked to allow, and what it is told. *)
Definition registers_process (payload : FalcoPayload) (r : AddConstraintRequest) : Prop :=
  Constraint_GetNamespace (AddConstraintRequest_Constraint r) = Sprintf_s (output_field payload "k8s.ns.name") /\
  Constraint_GetAllowedProcesses (AddConstraintRequest_Constraint r) =
    Some [Some (mkAllowedProcessRule (Some (Sprintf_s (output_field payload "proc.name"))))].

Definition reports_process (payload : FalcoPayload) (pod : K8sPod) (r : IngestEventRequest) : Prop :=
  exists e t, IngestEventRequest_Event r = Some e /\ Event_Type e = EventTypeFalcoAlert /\
    Event_Targets e = Some [Some t] /\
    Target_ViolatedProcesses t =
      Some [Some (mkProcess (ParseInt32 (Sprintf_v (output_field payload "proc.pid"))).1
                            (Sprintf_s (output_field payload "proc.name")))] /\
    (is_Some (FalcoPayload_OutputFields payload) -> exists p, Target_Pod t = Some p /\
       Pod_Uid p = K8sPod_UID pod /\ Pod_Namespace p = Sprintf_s (output_field payload "k8s.ns.name") /\
       Pod_Name p = Sprintf_s (output_field payload "k8s.pod.name")).

(** The first expression that is tried is logged. *)
Lemma validate_unlogged f procName cs :
  listener_logger f = false ->
  validateProcessAgainstConstraints f procName cs =
  if existsb has_expression cs then Crash (NilDeref "logger") else Ret false.
Proof.
  intros Hl. unfold validateProcessAgainstConstraints, log. rewrite Hl.
  assert (forall rules, for_range rules tt (fun allowedProcess _ =>
      if String.eqb (AllowedProcessRule_GetRegex allowedProcess) "" then Ret (Next tt)
      else match regexp_Compile (AllowedProcessRule_GetRegex allowedProcess) with
           | None => (Crash (NilDeref "logger") : prog FalcoE unit);;; Ret (Next tt)
           | Some matches =>
               (Crash (NilDeref "logger") : prog FalcoE unit);;; (if (matches procName : bool) then Ret (Return true) else Ret (Next tt))
           end) =
      if existsb (fun rule => negb (String.eqb (AllowedProcessRule_GetRegex rule) "")) rules
      then Crash (E := FalcoE) (NilDeref "logger") else Ret (inl tt)) as Hr.
  { intros rules. induction rules as [|r rules IH]; [done|]. cbn.
    destruct (String.eqb _ ""); cbn; [exact IH|]. by destruct (regexp_Compile _). }
  induction cs as [|c cs IH]; [done|]. cbn [for_range existsb bind]. unfold has_expression at 1.
  destruct (Constraint_GetAllowedProcesses c) as [rules|]; cbn [elems default id bind]; [|exact IH].
  rewrite Hr. destruct (existsb _ rules); cbn; [done|exact IH].
Qed.

Lemma tries_spec f labels :
  Forall constraint_labels_ok (elems (cache_GetConstraints (listener_configCache f))) ->
  pod_labels_ok labels ->
  existsb has_expression (getConstraintsMatchingLabels f labels) = true <->
  falco_tries (listener_configCache f) labels.
Proof.
  intros Hcs Hp. rewrite existsb_exists. unfold has_expression, falco_tries, falco_selects.
  setoid_rewrite existsb_exists. setoid_rewrite <- list_elem_of_In.
  setoid_rewrite negb_true_iff. setoid_rewrite String.eqb_neq.
  split.
  - intros (c&Hc&rule&Hr&Hne). apply elem_of_matching in Hc; [|done|done]. by exists c, rule.
  - intros (c&rule&Hc&Hr&Hne). exists c. split; [by apply elem_of_matching|]. by exists rule.
Qed.

Lemma selected_spec f labels :
  Forall constraint_labels_ok (elems (cache_GetConstraints (listener_configCache f))) ->
  pod_labels_ok labels ->
  getConstraintsMatchingLabels f labels <> [] <->
  exists c, falco_selects (listener_configCache f) labels c.
Proof.
  intros Hcs Hp. unfold falco_selects. split.
  - destruct (getConstraintsMatchingLabels f labels) as [|c cs] eqn:He; [done|]. intros _. exists c.
    apply elem_of_matching; [done|done|]. rewrite He. left.
  - intros (c&Hc) He. apply elem_of_matching in Hc; [|done|done]. rewrite He in Hc. by apply elem_of_nil in Hc.
Qed.

(** What the run asked of the server, and what it told the client. *)
Definition asked (tr : list (event FalcoE)) (added : list AddConstraintRequest)
    (ingested : list IngestEventRequest) (status : list Z) : Prop :=
  falco_added tr = added /\ falco_ingested tr = ingested /\ falco_status tr = status /\ falco_queued tr = [].

Lemma process_spawned_exact f payload pod w labels w1 :
  listener_logger f = false ->
  h _ (FReadLabels (K8sPod_Labels pod)) w = (labels, w1) ->
  let cs := getConstraintsMatchingLabels f labels in
  let out := (run h (process_spawned f payload pod) w).1 in
  let tr := trace h (process_spawned f payload pod) w in
  if existsb has_expression cs then out = Crashed (NilDeref "logger") /\ asked tr [] [] []
  else if registers_processes (default "" (K8sPod_Annotations pod !! RegisterAnnotation))
  then out = Crashed (NilDeref "logger") /\ exists r, asked tr [r] [] [] /\ registers_process payload r
  else match cs with
       | [] => out = Done None /\ asked tr [] [] []
       | _ => out = Crashed (NilDeref "logger") /\
           match (ParseInt32 (Sprintf_v (output_field payload "proc.pid"))).2 with
           | Some _ => asked tr [] [] []
           | None => exists r, asked tr [] [r] [] /\ reports_process payload pod r
           end
       end.
Proof.
  intros Hl Hlab. unfold process_spawned. cbn. rewrite Hlab. cbn.
  assert (match getConstraintsMatchingLabels f labels with
          | [] => Ret false
          | _ => validateProcessAgainstConstraints f (Sprintf_s (output_field payload "proc.name"))
                   (getConstraintsMatchingLabels f labels)
          end = if existsb has_expression (getConstraintsMatchingLabels f labels)
                then Crash (NilDeref "logger") else Ret false) as ->
    by (rewrite validate_unlogged by done; by destruct (getConstraintsMatchingLabels f labels)).
  destruct (existsb has_expression _); cbn; [by split|].
  destruct (registers_processes _); cbn.
  { unfold log. rewrite Hl. repeat step_call. split; [done|]. by eexists. }
  destruct (getConstraintsMatchingLabels f labels); cbn; [by split|].
  unfold log. rewrite Hl. step_call.
  pose proof (ParseInt32_range (Sprintf_v (output_field payload "proc.pid"))) as Hrange.
  destruct (ParseInt32 _) as [pid [err|]] eqn:Hpid; cbn; [by split|].
  step_call. split; [done|]. eexists. split; [by split_and!|]. do 2 eexists. split_and!; try done; cbn.
  - rewrite Hpid. cbn. by rewrite to_int32_id by done.
  - intros [fields ->]. eexists. by split_and!.
Qed.

(** A posted alert is answered when its handling ends without a panic. *)
Lemma handle_posted f r body payload w0 w :
  request_body r = Some body -> request_method r = "POST" -> h _ (FDecode body) w0 = (inl payload, w) ->
  let tr := trace h (processFalcoPayload f payload) w in
  (forall c, (run h (processFalcoPayload f payload) w).1 = Crashed c ->
     (run h (handleFalcoAlert f r) w0).1 = Crashed c /\
     trace h (handleFalcoAlert f r) w0 = ev (FDecode body) :: tr) /\
  ((run h (processFalcoPayload f payload) w).1 = Done None ->
     trace h (handleFalcoAlert f r) w0 = ev (FDecode body) :: tr ++ [ev (FWriteHeader 200); ev (FWrite "OK")]).
Proof.
  intros Hb Hm Hd. unfold handleFalcoAlert, newFalcoPayload. rewrite Hb, Hm. cbn. rewrite Hd. cbn.
  rewrite run_bind, trace_bind. destruct (run h (processFalcoPayload f payload) w) as [[o|c] w1]; cbn; split.
  - done.
  - intros [= ->]. cbn. step_call. step_call. do 2 f_equal. destruct o; [|done]. unfold log. by destruct (listener_logger f).
  - intros c' [= <-]. by rewrite app_nil_r.
  - done.
Qed.

#[local] Instance annotated_dec pod : Decision (annotated pod).
Proof. unfold annotated. apply _. Defined.

Lemma annotated_match {A} (p q : A) pod :
  match K8sPod_Annotations pod !! ThreatScanAnnotation, K8sPod_Annotations pod !! RegisterAnnotation with
  | None, None => p
  | _, _ => q
  end = if decide (annotated pod) then q else p.
Proof.
  destruct (decide (annotated pod)) as [Ha|Ha]; unfold annotated in Ha;
    destruct (_ !! ThreatScanAnnotation), (_ !! RegisterAnnotation); try done;
    first [by destruct Ha as [[? ?]|[? ?]] | destruct Ha; eauto].
Qed.

Lemma asked_answered tr added ingested body :
  asked tr added ingested [] ->
  asked (ev (FDecode body) :: tr ++ [ev (FWriteHeader 200); ev (FWrite "OK")]) added ingested [200%Z].
Proof.
  intros (H1&H2&H3&H4). unfold asked, falco_added, falco_ingested, falco_status, falco_queued in *. cbn.
  rewrite !omap_app, H1, H2, H3, H4. cbn. by rewrite !app_nil_r.
Qed.

(** C33. What a spawned-process alert does that is posted to the listener as
    the program builds it, for a pod the informer knows.  The constructor never
    sets the logger, so whatever logs panics.  One constraint that allows the
    process is sent to the server exactly when the cache is in sync, the pod
    asks for registration, and no constraint that selects it has an expression.
    One event that reports the process is sent exactly when the cache is in
    sync, the pod is annotated but does not ask for registration, constraints
    select it - at least one -, none of them with an expression, and the
    process id is a number.  Either is followed by the panic.  The alert is
    answered, with 200, exactly when nothing logs: when the cache is in sync
    and the pod is not annotated, or is for threat scanning only and not
    selected.  So no process is ever compared with an expression, and nothing
    is queued for actions. *)
Theorem spawned_process_alert_exact cache f r body payload w0 w pod w1 labels w2 :
  NewFalcoSidekickListener cache None = (Some f, None) ->
  request_body r = Some body -> request_method r = "POST" -> h _ (FDecode body) w0 = (inl payload, w) ->
  FalcoPayload_Rule payload = tarianRuleSpawnedProcess ->
  h _ (FGetPod (Sprintf_s (output_field payload "k8s.ns.name"))
               (Sprintf_s (output_field payload "k8s.pod.name"))) w = (inl pod, w1) ->
  h _ (FReadLabels (K8sPod_Labels pod)) w1 = (labels, w2) ->
  Forall constraint_labels_ok (elems (cache_GetConstraints cache)) -> pod_labels_ok labels ->
  let out := (run h (handleFalcoAlert f r) w0).1 in
  let tr := trace h (handleFalcoAlert f r) w0 in
  let synced := IsConstraintInitialized cache = true in
  let selected := exists c, falco_selects cache labels c in
  let registers := synced /\ wants_registration pod /\ ~ falco_tries cache labels in
  let reports := synced /\ annotated pod /\ ~ wants_registration pod /\ selected /\
    ~ falco_tries cache labels /\ (ParseInt32 (Sprintf_v (output_field payload "proc.pid"))).2 = None in
  let panics := ~ synced \/ wants_registration pod \/ annotated pod /\ selected in
  falco_queued tr = [] /\
  (registers -> falco_ingested tr = [] /\ exists q, falco_added tr = [q] /\ registers_process payload q) /\
  (reports -> falco_added tr = [] /\ exists q, falco_ingested tr = [q] /\ reports_process payload pod q) /\
  (~ registers -> falco_added tr = []) /\ (~ reports -> falco_ingested tr = []) /\
  (panics -> out = Crashed (NilDeref "logger") /\ falco_status tr = []) /\
  (~ panics -> falco_status tr = [200%Z]).
Proof.
  intros [= <-] Hb Hm Hd Hrule Hpod Hlab Hcs Hok. cbv zeta.
  set (f := mkFalcoSidekickListener cache false).
  destruct (handle_posted f r body payload w0 w Hb Hm Hd) as [Hcrash Hdone].
  pose proof (tries_spec f labels Hcs Hok) as Htries. pose proof (selected_spec f labels Hcs Hok) as Hsel.
  pose proof (wants_registration_spec pod) as Hwants.
  pose proof (process_spawned_exact f payload pod w1 labels w2 eq_refl Hlab) as Hp. cbv zeta in Hp.
  cbn [listener_configCache f] in Htries, Hsel.
  unfold processFalcoPayload in Hcrash, Hdone. cbn zeta in Hcrash, Hdone.
  rewrite Hrule, String.eqb_refl in Hcrash, Hdone. cbn [listener_configCache f] in Hcrash, Hdone.
  destruct (IsConstraintInitialized cache); cbn -[process_spawned] in Hcrash, Hdone.
  2: { destruct (Hcrash _ eq_refl) as [-> ->]. cbn. naive_solver. }
  rewrite Hpod in Hcrash, Hdone. cbn -[process_spawned] in Hcrash, Hdone.
  rewrite annotated_match in Hcrash, Hdone.
  assert (wants_registration pod -> annotated pod) as Hwa by (intros (v&Hv&_); right; by exists v).
  destruct (decide (annotated pod)) as [Hann|Hann].
  2: { rewrite (Hdone eq_refl). cbn. naive_solver. }
  destruct (existsb has_expression _).
  { assert (falco_tries cache labels) as Ht by by apply Htries.
    destruct Hp as [Ho (H1&H2&H3&H4)], (Hcrash _ Ho) as [-> ->].
    cbn. unfold falco_added, falco_ingested, falco_status, falco_queued in *.
    rewrite H1, H2, H3, H4. destruct Ht as (c&?&Hc&_). naive_solver. }
  assert (~ falco_tries cache labels) as Ht by by intros ?%Htries.
  destruct (registers_processes _).
  { assert (wants_registration pod) as Hw by by apply Hwants.
    destruct Hp as [Ho (q&(H1&H2&H3&H4)&Hq)], (Hcrash _ Ho) as [-> ->].
    cbn. unfold falco_added, falco_ingested, falco_status, falco_queued in *.
    rewrite H1, H2, H3, H4. naive_solver. }
  assert (~ wants_registration pod) as Hw by by intros ?%Hwants.
  destruct (getConstraintsMatchingLabels f labels) as [|c cs].
  { assert (~ exists c, falco_selects cache labels c) as Hs by by intros ?%Hsel.
    destruct Hp as [Ho Ha]. rewrite (Hdone Ho). apply (asked_answered _ _ _ body) in Ha as (H1&H2&H3&H4).
    cbn in *. unfold falco_added, falco_ingested, falco_status, falco_queued in *.
    cbn in *. rewrite H1, H2, H3, H4. naive_solver. }
  assert (exists c, falco_selects cache labels c) as Hs by by apply Hsel.
  destruct Hp as [Ho Ha], (Hcrash _ Ho) as [-> ->]. cbn.
  destruct (ParseInt32 _).2; [destruct Ha as (H1&H2&H3&H4)|destruct Ha as (q&(H1&H2&H3&H4)&Hq)];
    unfold falco_added, falco_ingested, falco_status, falco_queued in *; rewrite H1, H2, H3, H4; naive_solver.
Qed.

(** ** A listener with a logger

    No listener of the program has one; this is what the code asks for. *)

(** With a logger, a cache in sync and a known pod the listener registers one constraint exactly when
    the pod is annotated, no rule of a constraint whose match labels the pod
    has accepts the process, and the annotation asks for it; it reports one
    event exactly when it does not ask for it and at least one constraint
    selects the pod; otherwise it does nothing.  At most the reported event is
    queued for actions. *)
Lemma spawned_process_alert_logged f payload w pod w1 labels w2 :
  listener_logger f = true -> FalcoPayload_Rule payload = tarianRuleSpawnedProcess ->
  IsConstraintInitialized (listener_configCache f) = true ->
  h _ (FGetPod (Sprintf_s (output_field payload "k8s.ns.name"))
               (Sprintf_s (output_field payload "k8s.pod.name"))) w = (inl pod, w1) ->
  h _ (FReadLabels (K8sPod_Labels pod)) w1 = (labels, w2) ->
  Forall constraint_labels_ok (elems (cache_GetConstraints (listener_configCache f))) ->
  pod_labels_ok labels ->
  let tr := trace h (processFalcoPayload f payload) w in
  let unexpected :=
    annotated pod /\ ~ falco_allows f labels (Sprintf_s (output_field payload "proc.name")) in
  let registers :=
    registers_processes (default "" (K8sPod_Annotations pod !! RegisterAnnotation)) = true in
  let selected := exists c, c ∈ getConstraintsMatchingLabels f labels in
  (run h (processFalcoPayload f payload) w).1 = Done None /\
  exists o, falco_outcome tr o /\
    (o = Some true <-> unexpected /\ registers) /\
    (o = Some false <-> unexpected /\ ~ registers /\ selected).
Proof.
  intros Hl Hrule Hinit Hpod Hlab Hcs Hok. unfold processFalcoPayload. cbn zeta.
  rewrite Hrule, String.eqb_refl, Hinit. cbn. rewrite Hpod. cbn.
  pose proof (process_spawned_run f payload pod w1 labels w2 Hl Hlab) as [Hrun Hout].
  pose proof (some_rule_allows_spec f labels (Sprintf_s (output_field payload "proc.name")) Hcs Hok)
    as Hallow.
  rewrite annotated_match. destruct (decide (annotated pod)) as [Hann|Hann].
  - split; [done|]. eexists. split; [apply falco_outcome_get, Hout|].
    destruct (some_rule_allows _ _).
    + assert (falco_allows f labels (Sprintf_s (output_field payload "proc.name"))) by by apply Hallow.
      naive_solver.
    + assert (~ falco_allows f labels (Sprintf_s (output_field payload "proc.name"))) as Hno
        by by intros ?%Hallow.
      destruct (registers_processes _); [naive_solver|].
      destruct (getConstraintsMatchingLabels f labels) as [|c cs].
      * split; [naive_solver|]. split; [done|]. intros (_&_&c&Hc). by apply elem_of_nil in Hc.
      * split; [naive_solver|]. split; [|done]. intros _. split_and!; try done.
        exists c. by left.
  - split; [done|]. exists None. split; [apply falco_outcome_get; by constructor|]. naive_solver.
Qed.

(** Namespaces: the listener accepts a process on the word of a constraint
    of any namespace, while a node agent with the same constraints - none of
    them of the pod's namespace - reports every process of the pod. *)
Lemma falco_ignores_namespaces f payload w pod w1 labels w2 n evt :
  listener_logger f = true -> FalcoPayload_Rule payload = tarianRuleSpawnedProcess ->
  IsConstraintInitialized (listener_configCache f) = true ->
  h _ (FGetPod (Sprintf_s (output_field payload "k8s.ns.name"))
               (Sprintf_s (output_field payload "k8s.pod.name"))) w = (inl pod, w1) ->
  h _ (FReadLabels (K8sPod_Labels pod)) w1 = (labels, w2) ->
  Forall constraint_labels_ok (elems (cache_GetConstraints (listener_configCache f))) ->
  pod_labels_ok labels ->
  falco_allows f labels (Sprintf_s (output_field payload "proc.name")) ->
  NodeAgent_constraints n = cache_GetConstraints (listener_configCache f) ->
  ExecEvent_K8sNamespace evt <> "" -> ExecEvent_K8sPodName evt <> "" ->
  Forall (fun c => Constraint_GetNamespace c <> ExecEvent_K8sNamespace evt)
         (elems (NodeAgent_constraints n)) ->
  falco_outcome (trace h (processFalcoPayload f payload) w) None /\
  ValidateProcess n evt labels = Some (mkProcessViolation evt).
Proof.
  intros Hl Hrule Hinit Hpod Hlab Hcs Hok Hall Hn Hns Hname Hne. split.
  - unfold processFalcoPayload. cbn zeta. rewrite Hrule, String.eqb_refl, Hinit. cbn. rewrite Hpod. cbn.
    pose proof (process_spawned_run f payload pod w1 labels w2 Hl Hlab) as [_ Hout].
    apply (some_rule_allows_spec f labels _ Hcs Hok) in Hall. rewrite Hall in Hout.
    apply falco_outcome_get.
    rewrite annotated_match. case_decide; [done|by constructor].
  - apply ValidateProcess_spec; [by rewrite Hn|done|]. split; [done|]. split_and!; try done.
    intros c rule Hin [Hcns _] _ _. rewrite Forall_forall in Hne. by apply (Hne c Hin).
Qed.
End listener_facts.

(** * A concrete listener *)

#[local] Existing Instance literal_engine.

(** The alert of a rule on a process of a pod. *)
Definition ex_payload (rule : string) : FalcoPayload :=
  mkFalcoPayload "a process was spawned" "Warning" rule 1700000000000000000%Z
    (Some {[ "k8s.pod.name" := FieldString "web"; "k8s.ns.name" := FieldString "default";
             "proc.name" := FieldString "nginx"; "proc.pid" := FieldNumber "42" ]}).

(** A cluster with one pod, a server that takes events, and a clock; the body
    of a request is the name of the rule. *)
Definition falco_env (pod : K8sPod) : handler FalcoE heap := fun X e w =>
  match e in FalcoE X return X * heap with
  | FConfig e => (config_down _ e, w)
  | FEvent e =>
      (match e in EventE X return X with
       | IngestEvent _ => (Some (mkIngestEventResponse true), None)
       | GetEvents _ => (None, unavailable)
       end, w)
  | FGetPod ns n =>
      (if String.eqb ns (K8sPod_Namespace pod) && String.eqb n (K8sPod_Name pod)
       then inl pod else inr (PlainError "pod not found"), w)
  | FReadLabels l => (heap_read l w, w)
  | FDeleteLabel l k => (tt, heap_delete l k w)
  | FNow => (0%Z, w)
  | FQueueEvent _ => (tt, w)
  | FDecode body =>
      (if String.eqb body "" then inr (PlainError "EOF") else inl (ex_payload body), w)
  | FHttpError _ _ => (tt, w)
  | FWriteHeader _ => (tt, w)
  | FWrite _ => (None, w)
  end.

Definition ex_pod : K8sPod :=
  mkK8sPod "web" "uid-1" "default" 0 {[ ThreatScanAnnotation := "true" ]} [] [] [].

Definition ex_heap : heap := {[ 0%nat := {[ "app" := "web" ]} ]}.

Definition ex_cache (namespace : string) : ConfigCache :=
  mkConfigCache (Some [Some (mkConstraint KindConstraint namespace "web"
    (Some (mkSelector (Some [Some (mkMatchLabel "app" "web")])))
    (Some [Some (mkAllowedProcessRule (Some "nginx"))]) None)]) true.

Definition ex_listener (namespace : string) : FalcoSidekickListener :=
  mkFalcoSidekickListener (ex_cache namespace) true.

Lemma unset_logger_blocks_actions_witness :
  let f := mkFalcoSidekickListener (ex_cache "default") false in
  falco_queued (trace (falco_env ex_pod) (processFalcoPayload f (ex_payload "a rule")) ex_heap) = [] /\
  exists c, (run (falco_env ex_pod) (processFalcoPayload f (ex_payload "a rule")) ex_heap).1 = Crashed c.
Proof.
  intros f. pose proof (unset_logger_blocks_actions (falco_env ex_pod)
    (ex_cache "default") f (ex_payload "a rule") ex_heap eq_refl) as [Hq Hc].
  split; [exact Hq|]. apply Hc. right. by vm_compute.
Defined.

Lemma generic_alert_never_queued_witness :
  falco_queued (trace (falco_env ex_pod)
    (processFalcoPayload (ex_listener "default") (ex_payload "a rule")) ex_heap) = [].
Proof.
  apply (generic_alert_never_queued (falco_env ex_pod) (ex_listener "default")
    (ex_payload "a rule") ex_heap ex_pod ex_heap); [discriminate|reflexivity|reflexivity].
Defined.

(** A pod that asks for registration; its constraint allows files only. *)
Definition ex_registering : K8sPod :=
  mkK8sPod "web" "uid-1" "default" 0 {[ RegisterAnnotation := "processes" ]} [] [] [].

Definition ex_file_cache : ConfigCache :=
  mkConfigCache (Some [Some (mkConstraint KindConstraint "default" "web"
    (Some (mkSelector (Some [Some (mkMatchLabel "app" "web")]))) None None)]) true.

Definition ex_alert : http_request := mkHttpRequest (Some tarianRuleSpawnedProcess) "POST".

Lemma spawned_process_alert_exact_witness :
  let f := mkFalcoSidekickListener ex_file_cache false in
  let tr := trace (falco_env ex_registering) (handleFalcoAlert f ex_alert) ex_heap in
  (exists q, falco_added tr = [q] /\ registers_process (ex_payload tarianRuleSpawnedProcess) q) /\
  (run (falco_env ex_registering) (handleFalcoAlert f ex_alert) ex_heap).1 = Crashed (NilDeref "logger") /\
  falco_status tr = [].
Proof.
  intros f.
  destruct (spawned_process_alert_exact (falco_env ex_registering) ex_file_cache f ex_alert
    tarianRuleSpawnedProcess (ex_payload tarianRuleSpawnedProcess) ex_heap ex_heap ex_registering ex_heap
    {[ "app" := "web" ]} ex_heap) as (_&Hreg&_&_&_&Hpan&_); [reflexivity..|labels_ok|labels_ok|].
  assert (wants_registration ex_registering) as Hw by (exists "processes"; split; [done|left; by left]).
  split; [|apply Hpan; by right; left]. apply Hreg. split; [done|]. split; [done|].
  intros (c&rule&[Hc _]&Hr&_). apply list_elem_of_singleton in Hc as ->. by apply elem_of_nil in Hr.
Defined.

Lemma spawned_process_alert_logged_witness :
  exists o, falco_outcome (trace (falco_env ex_pod)
    (processFalcoPayload (ex_listener "default")
       (ex_payload tarianRuleSpawnedProcess)) ex_heap) o /\ o <> Some true.
Proof.
  destruct (spawned_process_alert_logged (falco_env ex_pod)
    (ex_listener "default") (ex_payload tarianRuleSpawnedProcess) ex_heap ex_pod ex_heap
    {[ "app" := "web" ]} ex_heap) as (_&o&Ho&Htrue&_);
    [reflexivity..|labels_ok|labels_ok|].
  exists o. split; [exact Ho|]. intros ?%Htrue. by destruct H.
Defined.

Lemma falco_ignores_namespaces_witness :
  let evt := mkExecEvent 42 "nginx" "/bin/nginx" "c0ffee" "uid-1" "web" "default" 0 ∅ in
  let n := mkNodeAgent (cache_GetConstraints (ex_cache "other")) true false "node-1" in
  falco_outcome (trace (falco_env ex_pod)
    (processFalcoPayload (ex_listener "other")
       (ex_payload tarianRuleSpawnedProcess)) ex_heap) None /\
  ValidateProcess n evt {[ "app" := "web" ]} = Some (mkProcessViolation evt).
Proof.
  intros evt n.
  apply (falco_ignores_namespaces (falco_env ex_pod) (ex_listener "other")
    (ex_payload tarianRuleSpawnedProcess) ex_heap ex_pod ex_heap {[ "app" := "web" ]} ex_heap);
    try reflexivity; try discriminate; [labels_ok|labels_ok| |].
  - exists (Some (mkConstraint KindConstraint "other" "web"
      (Some (mkSelector (Some [Some (mkMatchLabel "app" "web")])))
      (Some [Some (mkAllowedProcessRule (Some "nginx"))]) None)),
      [Some (mkMatchLabel "app" "web")], (Some (mkAllowedProcessRule (Some "nginx"))).
    split_and!; [by left|done| |by left|by eexists].
    intros m ->%list_elem_of_singleton. done.
  - by repeat constructor.
Defined.
