(* ===== verification/Selection.v ===== *)
(** Who applies which constraint to a pod.  Four parts decide it by themselves:
    tarian-server when it answers a request with labels ([config_server.go],
    what pod agents ask), the node agent ([nodeagent.go]), the Falco listener
    and the action handler of the cluster agent ([falcosidekick_listener.go],
    [action_handler.go]).  The theorem: on selectors with match labels they
    agree; on the others the server and the listener decide the opposite of
    the node agent and the action handler. *)

From S2P Require Import Prelude GoStrings Types Labels K8s NodeAgent Store ConfigServer ClusterAgent Falco.

Section selection.
Context `{SS : StrSet} `{!StrSetLaws SS} `{MR : MapRange} `{!MapRangeLaws MR}.

(** A pod's labels as a map, and as the list that is sent. *)
Definition lists (labels : slice (ptr Label)) (m : gmap string string) : Prop :=
  elems labels ≡ₚ (fun kv => Some (mkLabel kv.1 kv.2)) <$> map_to_list m.

Lemma texts_permutation labels m :
  lists labels m ->
  ((fun kv => label_text kv.1 kv.2) <$> map_range m) ≡ₚ (Label_text <$> elems labels).
Proof using MapRangeLaws0.
  unfold lists. intros ->. rewrite (map_range_perm _ m), <- list_fmap_compose. done.
Qed.

Lemma subset_texts labels m (ms : list (ptr MatchLabel)) :
  lists labels m ->
  strset_IsSubset (set_of ((fun kv => label_text kv.1 kv.2) <$> map_range m)) (set_of (MatchLabel_text <$> ms)) =
  strset_IsSubset (set_of (Label_text <$> elems labels)) (set_of (MatchLabel_text <$> ms)).
Proof using StrSetLaws0 MapRangeLaws0. intros Hl. by apply IsSubset_proper; [apply texts_permutation|]. Qed.

(** C29. One meaning of selectors, but for the empty one.  For a pod and a
    constraint of its namespace the test of the node agent, the filter of
    tarian-server that pod agents rely on and the filter of the Falco listener
    are equivalent when the selector lists match labels, and so are the action
    handler's test and the server's filter for actions, whatever the labels
    contain.  A constraint or action without match labels applies to every pod
    of its namespace for the node agent and the action handler, and to none for
    the server's filters and the Falco listener. *)
Theorem selections_agree c evt podLabels labels f a p :
  lists labels podLabels -> Constraint_GetNamespace c = ExecEvent_K8sNamespace evt ->
  c ∈ elems (cache_GetConstraints (listener_configCache f)) ->
  Action_GetNamespace a = Pod_GetNamespace p ->
  match Selector_GetMatchLabels (Constraint_GetSelector c) with
  | Some _ =>
      constraintMatchesPod c evt podLabels = constraint_label_match labels c /\
      (c ∈ getConstraintsMatchingLabels f podLabels <-> constraintMatchesPod c evt podLabels = true)
  | None =>
      constraintMatchesPod c evt podLabels = true /\ constraint_label_match labels c = false /\
      c ∉ getConstraintsMatchingLabels f podLabels
  end /\
  match Selector_GetMatchLabels (Action_GetSelector a) with
  | Some _ => actionMatchesPod a p = action_label_match (Pod_GetLabels p) a
  | None => actionMatchesPod a p = true /\ action_label_match (Pod_GetLabels p) a = false
  end.
Proof using StrSetLaws0 MapRangeLaws0.
  intros Hl Hns Hc Ha. unfold constraintMatchesPod, constraint_label_match, actionMatchesPod, action_label_match.
  rewrite Hns, Ha, !String.eqb_refl. cbn [negb].
  unfold getConstraintsMatchingLabels.
  assert (forall P, c ∈ List.filter P (elems (cache_GetConstraints (listener_configCache f))) <-> P c = true) as Hf
    by (intros P; rewrite list_elem_of_In, List.filter_In, <- list_elem_of_In; tauto).
  split.
  - destruct (Constraint_GetSelector c) as [sel|] eqn:Hsel; cbn [Selector_GetMatchLabels].
    + destruct (Selector_MatchLabels sel) as [ms|] eqn:Hms.
      * split; [by apply subset_texts|]. rewrite Hf, Hsel. cbn [Selector_GetMatchLabels]. by rewrite Hms.
      * rewrite Hf, Hsel. cbn [Selector_GetMatchLabels]. by rewrite Hms.
    + by rewrite Hf, Hsel.
  - destruct (Action_GetSelector a) as [sel|]; [|done]. cbn [Selector_GetMatchLabels].
    by destruct (Selector_MatchLabels sel).
Qed.
End selection.

(** A constraint without a selector, and one for the label of the pod. *)
Definition ex_for (sel : ptr Selector) : ptr Constraint :=
  Some (mkConstraint KindConstraint "default" "c" sel None None).
Definition ex_app : ptr Selector := Some (mkSelector (Some [Some (mkMatchLabel "app" "web")])).
Definition ex_exec : ExecEvent := mkExecEvent 42 "nginx" "/bin/nginx" "c0ffee" "uid-1" "web" "default" 0 ∅.
Definition ex_labels : slice (ptr Label) := Some [Some (mkLabel "app" "web")].
Definition ex_pod_ns : ptr Pod := Some (mkPod "uid-1" "default" "web" ex_labels).
Definition ex_listener_of (c : ptr Constraint) : FalcoSidekickListener :=
  mkFalcoSidekickListener (mkConfigCache (Some [c]) true) true.

Lemma selections_agree_witness :
  constraintMatchesPod (ex_for None) ex_exec {[ "app" := "web" ]} = true /\
  constraint_label_match ex_labels (ex_for None) = false /\
  ex_for None ∉ getConstraintsMatchingLabels (ex_listener_of (ex_for None)) {[ "app" := "web" ]} /\
  constraintMatchesPod (ex_for ex_app) ex_exec {[ "app" := "web" ]} = constraint_label_match ex_labels (ex_for ex_app).
Proof.
  assert (lists ex_labels {[ "app" := "web" ]}) as Hl by (unfold lists; by vm_compute).
  pose (a := Some (mkAction KindAction "default" "a" None true true false 0%Z "delete-pod")).
  destruct (selections_agree (ex_for None) ex_exec {[ "app" := "web" ]} ex_labels
    (ex_listener_of (ex_for None)) a ex_pod_ns Hl) as [(H1&H2&H3) _]; [done|left|done|].
  destruct (selections_agree (ex_for ex_app) ex_exec {[ "app" := "web" ]} ex_labels
    (ex_listener_of (ex_for ex_app)) a ex_pod_ns Hl) as [(H4&_) _]; [done|left|done|].
  by split_and!.
Defined.
