(* ===== verification/Webhook.v ===== *)
(** The admission webhook that injects the pod agent
    ([pkg/clusteragent/webhookserver/podagent_injector.go]).  Decoding and
    encoding of the pod are parameters.  The theorems: when a pod is changed
    and how, that injecting twice changes nothing more, which volumes the agent
    mounts, and which paths it is told to register. *)

From S2P Require Import Prelude GoStrings K8s.

(** * Pods under admission, with the fields the webhook reads or writes *)

Record VolumeMount := mkVolumeMount {
  VolumeMount_Name : string;
  VolumeMount_ReadOnly : bool;
  VolumeMount_MountPath : string;
  VolumeMount_SubPath : string;
}.

Record EnvVar := mkEnvVar { EnvVar_Name : string; EnvVar_FieldPath : string }.

Record Container := mkContainer {
  Container_Name : string;
  Container_Image : string;
  Container_Env : list EnvVar;
  Container_Args : list string;
  Container_VolumeMounts : list VolumeMount;
}.

(** A volume; of a downward API volume the file and the field. *)
Inductive volume_source :=
| DownwardAPI (path fieldPath : string)
| OtherSource (description : string).

Record Volume := mkVolume { Volume_Name : string; Volume_Source : volume_source }.

Record AdmissionPod := mkAdmissionPod {
  AdmissionPod_Name : string;
  AdmissionPod_Annotations : option (gmap string string);
  AdmissionPod_Containers : list Container;
  AdmissionPod_Volumes : list Volume;
}.

(** Over the type of JSON texts. *)
Inductive admission_response (Raw : Type) :=
| Errored (status : Z) (err : error)
| Allowed (reason : string)
| PatchResponseFromRaw (original current : Raw).
Arguments Errored {Raw} status err.
Arguments Allowed {Raw} reason.
Arguments PatchResponseFromRaw {Raw} original current.

Record PodAgentContainerConfig := mkPodAgentContainerConfig {
  config_Name : string;
  config_Image : string;
  config_LogEncoding : string;
  config_Host : string;
  config_Port : string;
}.

Definition FileValidationIntervalAnnotation := "pod-agent.k8s.tarian.dev/file-validation-interval".
Definition RegisterFileIgnorePathsAnnotation := "pod-agent.k8s.tarian.dev/register-file-ignore-paths".

Definition podInfoPath := "/etc/podinfo".
Definition serviceAccountPath := "/var/run/secrets/kubernetes.io/serviceaccount".

(** The decoder of admission requests and [json.Marshal] of a pod. *)
Class PodCodec (Raw : Type) := {
  pod_Decode : Raw -> AdmissionPod + error;
  pod_Marshal : AdmissionPod -> Raw + error;
}.

(** * Injection *)

(** The loop over all mounts of all containers: the first mount of each
    volume name. *)
Fixpoint collect_mounts (vms : list VolumeMount) (mountNamesAdded : gset string)
  : list VolumeMount * gset string :=
  match vms with
  | [] => ([], mountNamesAdded)
  | vm :: vms' =>
      if decide (VolumeMount_Name vm ∈ mountNamesAdded) then collect_mounts vms' mountNamesAdded
      else
        let '(rest, added) := collect_mounts vms' ({[ VolumeMount_Name vm ]} ∪ mountNamesAdded) in
        (vm :: rest, added)
  end.

Definition pod_info_mount : VolumeMount := mkVolumeMount "podinfo" false podInfoPath "".

Definition volumeMounts_of (pod : AdmissionPod) : list VolumeMount * gset string :=
  let '(mounts, added) :=
    collect_mounts (AdmissionPod_Containers pod ≫= Container_VolumeMounts) ∅ in
  (pod_info_mount :: mounts, added).

(** The loop over the mounts for the register command: the set that is tested
    ([mountPathsAdded]) is not the one that is filled ([mountNamesAdded]). *)
Fixpoint register_paths (vms : list VolumeMount) (mountPathsAdded mountNamesAdded : gset string)
    (mountPaths ignorePaths : list string) : list string * list string :=
  match vms with
  | [] => (mountPaths, ignorePaths)
  | vm :: vms' =>
      let path := VolumeMount_MountPath vm in
      if decide (path ∈ mountPathsAdded)
      then register_paths vms' mountPathsAdded mountNamesAdded mountPaths ignorePaths
      else
        let mountNamesAdded := {[ path ]} ∪ mountNamesAdded in
        if negb (String.eqb path podInfoPath) && negb (String.eqb path serviceAccountPath)
        then register_paths vms' mountPathsAdded mountNamesAdded (mountPaths ++ [path])
               (ignorePaths ++ [path +:+ "/..*"; path +:+ "/..**/*"])
        else register_paths vms' mountPathsAdded mountNamesAdded mountPaths ignorePaths
  end.

Definition pod_agent_args (config : PodAgentContainerConfig) (annotations : gmap string string)
    (volumeMounts : list VolumeMount) (mountNamesAdded : gset string) : list string :=
  let register := annotations !! RegisterAnnotation in
  let args :=
    ["--log-formatter=" +:+ config_LogEncoding config;
     (match register with Some _ => "register" | None => "threat-scan" end);
     "--host=" +:+ config_Host config;
     "--port=" +:+ config_Port config;
     "--namespace=$(NAMESPACE)";
     "--pod-name=$(POD_NAME)";
     "--pod-uid=$(POD_UID)";
     "--pod-labels-file=/etc/podinfo/labels"] in
  let ignorePaths :=
    match annotations !! RegisterFileIgnorePathsAnnotation with
    | Some value => Split value ","
    | None => []
    end in
  let '(args, ignorePaths) :=
    match register with
    | Some value =>
        let '(mountPaths, ignorePaths) :=
          register_paths volumeMounts ∅ mountNamesAdded [] ignorePaths in
        (args ++ ["--register-rules=" +:+ value] ++
         ["--register-file-paths=" +:+ Join mountPaths ","], ignorePaths)
    | None => (args, ignorePaths)
    end in
  let args :=
    match ignorePaths with
    | [] => args
    | _ => args ++ ["--register-file-ignore-paths=" +:+ Join ignorePaths ","]
    end in
  match annotations !! FileValidationIntervalAnnotation with
  | Some value => args ++ ["--file-validation-interval=" +:+ value]
  | None => args
  end.

Definition pod_agent_env : list EnvVar :=
  [mkEnvVar "NAMESPACE" "metadata.namespace"; mkEnvVar "POD_NAME" "metadata.name";
   mkEnvVar "POD_UID" "metadata.uid"].

Definition pod_info_volume : Volume := mkVolume "podinfo" (DownwardAPI "labels" "metadata.labels").

(** The decoded pod is refused with a reason, or changed. *)
Definition inject (config : PodAgentContainerConfig) (pod : AdmissionPod) : string + AdmissionPod :=
  match AdmissionPod_Annotations pod with
  | None => inl "no annotation found"
  | Some annotations =>
      match annotations !! ThreatScanAnnotation, annotations !! RegisterAnnotation with
      | None, None =>
          inl ("annotation " +:+ ThreatScanAnnotation +:+ " or " +:+ RegisterAnnotation +:+ " not found")
      | _, _ =>
          if existsb (fun c => String.eqb (Container_Name c) (config_Name config))
                     (AdmissionPod_Containers pod)
          then inl ("container with name " +:+ config_Name config +:+ " already exists")
          else
            let '(volumeMounts, mountNamesAdded) := volumeMounts_of pod in
            inr (mkAdmissionPod (AdmissionPod_Name pod) (AdmissionPod_Annotations pod)
              (AdmissionPod_Containers pod ++
                 [mkContainer (config_Name config) (config_Image config) pod_agent_env
                    (pod_agent_args config annotations volumeMounts mountNamesAdded) volumeMounts])
              (AdmissionPod_Volumes pod ++ [pod_info_volume]))
      end
  end.

Definition Handle `{PodCodec Raw} (config : PodAgentContainerConfig) (raw : Raw)
  : admission_response Raw :=
  match pod_Decode raw with
  | inr err => Errored 400 err
  | inl pod =>
      match inject config pod with
      | inl reason => Allowed reason
      | inr pod' =>
          match pod_Marshal pod' with
          | inr err => Errored 500 err
          | inl marshaledPod => PatchResponseFromRaw raw marshaledPod
          end
      end
  end.

(** * Facts *)

(** The pod asks for an agent and has none. *)
Definition wants_agent (config : PodAgentContainerConfig) (pod : AdmissionPod) : Prop :=
  (exists annotations, AdmissionPod_Annotations pod = Some annotations /\
     (is_Some (annotations !! ThreatScanAnnotation) \/ is_Some (annotations !! RegisterAnnotation))) /\
  config_Name config ∉ Container_Name <$> AdmissionPod_Containers pod.

Lemma existsb_name name cs :
  existsb (fun c => String.eqb (Container_Name c) name) cs = true <-> name ∈ Container_Name <$> cs.
Proof.
  rewrite existsb_exists, list_elem_of_fmap. setoid_rewrite String.eqb_eq.
  setoid_rewrite <- list_elem_of_In. naive_solver.
Qed.

Lemma inject_spec config pod :
  match inject config pod with
  | inl _ => ~ wants_agent config pod
  | inr pod' => wants_agent config pod /\ exists annotations args,
      AdmissionPod_Annotations pod = Some annotations /\
      args = pod_agent_args config annotations (volumeMounts_of pod).1 (volumeMounts_of pod).2 /\
      pod' = mkAdmissionPod (AdmissionPod_Name pod) (AdmissionPod_Annotations pod)
        (AdmissionPod_Containers pod ++
           [mkContainer (config_Name config) (config_Image config) pod_agent_env args
              (volumeMounts_of pod).1])
        (AdmissionPod_Volumes pod ++ [pod_info_volume])
  end.
Proof.
  unfold inject, wants_agent. destruct (AdmissionPod_Annotations pod) as [an|]; [|naive_solver].
  destruct (volumeMounts_of pod) as [vms added]. cbn [fst snd].
  pose proof (existsb_name (config_Name config) (AdmissionPod_Containers pod)) as Hn.
  destruct (an !! ThreatScanAnnotation) eqn:H1; [|destruct (an !! RegisterAnnotation) eqn:H2].
  3: { intros [(an'&[= <-]&[[??]|[??]]) _]; congruence. }
  all: destruct (existsb _ _);
    [intros [_ Hno]; by apply Hno, Hn|split; [split; [eauto|by rewrite <- Hn]|eauto]].
Qed.

Lemma collect_mounts_spec vms added :
  NoDup (VolumeMount_Name <$> (collect_mounts vms added).1) /\
  (forall n, n ∈ VolumeMount_Name <$> (collect_mounts vms added).1 <->
     n ∈ VolumeMount_Name <$> vms /\ n ∉ added) /\
  (forall vm, vm ∈ (collect_mounts vms added).1 -> vm ∈ vms).
Proof.
  revert added. induction vms as [|vm vms IH]; intros added; cbn [collect_mounts].
  - split_and!; [constructor|set_solver|done].
  - case_decide as Hin.
    + destruct (IH added) as (Hnd&Hn&Hs). split_and!; [done| |set_solver].
      intros n. rewrite Hn, fmap_cons, elem_of_cons. set_solver.
    + specialize (IH ({[ VolumeMount_Name vm ]} ∪ added)).
      destruct (collect_mounts vms _) as [rest added']. cbn [fst] in *.
      destruct IH as (Hnd&Hn&Hs). split_and!; [|..].
      * rewrite fmap_cons. constructor; [|done]. rewrite Hn. set_solver.
      * intros n. rewrite !fmap_cons, !elem_of_cons, Hn.
        destruct (decide (n = VolumeMount_Name vm)); set_solver.
      * set_solver.
Qed.

(** The paths to register, as the loop computes them. *)
Definition register_path (vm : VolumeMount) : bool :=
  negb (String.eqb (VolumeMount_MountPath vm) podInfoPath) &&
  negb (String.eqb (VolumeMount_MountPath vm) serviceAccountPath).

Lemma register_paths_spec vms added paths ignored :
  (register_paths vms ∅ added paths ignored).1 =
    paths ++ (VolumeMount_MountPath <$> List.filter register_path vms).
Proof.
  revert added paths ignored. induction vms as [|vm vms IH]; intros added paths ignored.
  - cbn. by rewrite app_nil_r.
  - cbn [register_paths List.filter]. rewrite decide_False by set_solver. unfold register_path at 1.
    destruct (negb _ && negb _); rewrite IH; [|done]. by rewrite <- app_assoc.
Qed.

(** What the agent's arguments hold on to in every mode. *)
Lemma pod_agent_args_command config annotations vms added :
  nth_error (pod_agent_args config annotations vms added) 1 =
    Some (match annotations !! RegisterAnnotation with Some _ => "register" | None => "threat-scan" end).
Proof.
  unfold pod_agent_args. destruct (annotations !! RegisterAnnotation);
    [destruct (register_paths _ _ _ _ _) as [mp ip]|];
    destruct (annotations !! FileValidationIntervalAnnotation);
    repeat case_match; done.
Qed.

Section handle.
Context `{PodCodec Raw}.
Context (Hcodec : forall pod data, pod_Marshal pod = inl data -> pod_Decode data = inl pod).

(** C30. The webhook changes a pod exactly when it carries a Tarian annotation
    and has no agent yet; the change appends one container, the agent, and the
    pod-info volume and touches nothing else; the agent runs in register mode
    exactly when the pod has the register annotation; and admitting the
    changed pod again changes nothing. *)
Theorem Handle_injects_once config raw pod :
  pod_Decode raw = inl pod ->
  match Handle config raw with
  | PatchResponseFromRaw original current =>
      wants_agent config pod /\ original = raw /\ exists pod' agent,
        pod_Decode current = inl pod' /\
        AdmissionPod_Containers pod' = AdmissionPod_Containers pod ++ [agent] /\
        AdmissionPod_Volumes pod' = AdmissionPod_Volumes pod ++ [pod_info_volume] /\
        AdmissionPod_Annotations pod' = AdmissionPod_Annotations pod /\
        Container_Name agent = config_Name config /\ Container_Image agent = config_Image config /\
        nth_error (Container_Args agent) 1 = Some (
          match AdmissionPod_Annotations pod ≫= fun an => an !! RegisterAnnotation with
          | Some _ => "register" | None => "threat-scan" end) /\
        exists reason, Handle config current = Allowed reason
  | Allowed _ => ~ wants_agent config pod
  | Errored status _ => status = 500%Z /\ wants_agent config pod
  end.
Proof.
  intros Hraw. unfold Handle at 1. rewrite Hraw.
  pose proof (inject_spec config pod) as Hin. destruct (inject config pod) as [reason|pod']; [done|].
  destruct Hin as [Hwants (an&args&Han&->&->)]. destruct (pod_Marshal _) as [data|e] eqn:Hm; [|done].
  split; [done|]. split; [done|]. eexists _, _. split; [by apply Hcodec|]. cbn [AdmissionPod_Containers
    AdmissionPod_Volumes AdmissionPod_Annotations Container_Name Container_Image Container_Args].
  do 5 (split; [reflexivity|]). cbn [Container_Args]. rewrite pod_agent_args_command, Han. split; [done|].
  unfold Handle. rewrite (Hcodec _ _ Hm).
  match goal with |- context [inject config ?p] =>
    pose proof (inject_spec config p) as Hin; destruct (inject config p) as [reason|pod''] end; [by eexists|].
  destruct Hin as [[_ Hno] _]. destruct Hno. cbn. rewrite fmap_app. apply elem_of_app. right. by left.
Qed.
End handle.

(** The agent mounts each volume that some container mounts, exactly once,
    besides its own pod-info volume: the mounts of the agent after the first
    have pairwise different volume names, they are mounts of the pod's
    containers, and no volume name is missing. *)
Lemma agent_mounts_every_volume_once config pod :
  match inject config pod with
  | inl _ => True
  | inr pod' => exists agent mounts,
      AdmissionPod_Containers pod' = AdmissionPod_Containers pod ++ [agent] /\
      Container_VolumeMounts agent = pod_info_mount :: mounts /\
      NoDup (VolumeMount_Name <$> mounts) /\
      (forall vm, vm ∈ mounts -> exists c, c ∈ AdmissionPod_Containers pod /\ vm ∈ Container_VolumeMounts c) /\
      forall c vm, c ∈ AdmissionPod_Containers pod -> vm ∈ Container_VolumeMounts c ->
        VolumeMount_Name vm ∈ VolumeMount_Name <$> mounts
  end.
Proof.
  pose proof (inject_spec config pod) as Hin. destruct (inject config pod) as [reason|pod']; [done|].
  destruct Hin as [_ (an&args&_&_&->)]. unfold volumeMounts_of.
  pose proof (collect_mounts_spec (AdmissionPod_Containers pod ≫= Container_VolumeMounts) ∅)
    as (Hnd&Hn&Hs).
  destruct (collect_mounts _ ∅) as [mounts added]. cbn in *. eexists _, mounts.
  split; [reflexivity|]. split; [reflexivity|]. split_and!; [done| |].
  - intros vm (c&?&?)%Hs%list_elem_of_bind. eauto.
  - intros c vm Hc Hvm. apply Hn. split; [|set_solver]. apply list_elem_of_fmap.
    exists vm. split; [done|]. apply list_elem_of_bind. eauto.
Qed.

(** The paths a registering agent is told to register are the mount paths
    of all its mounts in order, but the pod-info and service-account ones,
    joined with commas: a path at which two volumes are mounted is listed
    twice, since the set meant to prevent that is never filled. *)
Lemma registered_paths_exact config annotations vms added value :
  annotations !! RegisterAnnotation = Some value ->
  ("--register-file-paths=" +:+ Join (VolumeMount_MountPath <$> List.filter register_path vms) ",")
    ∈ pod_agent_args config annotations vms added /\
  ("--register-rules=" +:+ value) ∈ pod_agent_args config annotations vms added.
Proof.
  intros Hv. unfold pod_agent_args. rewrite Hv.
  match goal with |- context [register_paths ?a ?b ?c ?d ?e] =>
    pose proof (register_paths_spec vms c d e) as Hp;
    destruct (register_paths a b c d e) as [mp ip] end.
  cbn [fst app] in Hp. subst mp. 
  destruct ip; destruct (annotations !! FileValidationIntervalAnnotation); set_solver.
Qed.

(** * A concrete pod *)

#[local] Instance plain_pods : PodCodec AdmissionPod := {| pod_Decode := inl; pod_Marshal := inl |}.

Definition ex_config : PodAgentContainerConfig :=
  mkPodAgentContainerConfig "tarian-pod-agent" "tarian:1" "json" "cluster-agent" "80".

Definition ex_annotations : gmap string string := {[ RegisterAnnotation := "all" ]}.

(** Two containers that mount different volumes at the same path. *)
Definition ex_admission_pod : AdmissionPod :=
  mkAdmissionPod "web" (Some ex_annotations)
    [mkContainer "web" "nginx" [] [] [mkVolumeMount "a" false "/data" ""];
     mkContainer "side" "busybox" [] [] [mkVolumeMount "b" false "/data" "";
                                         mkVolumeMount "a" true "/shared" ""]] [].

Lemma Handle_injects_once_witness :
  exists current, Handle ex_config ex_admission_pod = PatchResponseFromRaw ex_admission_pod current /\
    exists reason, Handle ex_config current = Allowed reason.
Proof.
  pose proof (Handle_injects_once (fun pod data H => f_equal inl (eq_sym (inl_inj _ _ H)))
    ex_config ex_admission_pod ex_admission_pod eq_refl) as Hi.
  destruct (Handle ex_config ex_admission_pod) as [st e|r|o c] eqn:Hh; [exfalso|exfalso|].
  - by vm_compute in Hh.
  - by vm_compute in Hh.
  - destruct Hi as (_&->&pod'&agent&Hd&_&_&_&_&_&_&Hr). exists c. split; [reflexivity|exact Hr].
Defined.

(** Both mounts of "/data" are registered. *)
Lemma registered_paths_exact_witness :
  ("--register-file-paths=" +:+ "/data,/data") ∈
    pod_agent_args ex_config ex_annotations (volumeMounts_of ex_admission_pod).1
      (volumeMounts_of ex_admission_pod).2.
Proof.
  exact (proj1 (registered_paths_exact ex_config ex_annotations
    (volumeMounts_of ex_admission_pod).1 (volumeMounts_of ex_admission_pod).2 "all" eq_refl)).
Defined.
