(* ===== verification/ClusterRun.v ===== *)
(** Starting the cluster agent ([pkg/clusteragent/clusteragent.go],
    [cmd/tarian-cluster-agent/cmd/run.go]) and the webhook server
    ([webhookserver/manager.go], [runWebhookServer.go]): how the parts of
    [ClusterAgent], [Falco] and [Webhook] are put together, and what the
    action handler's goroutines do.  gRPC, client-go and the controller
    runtime are parameters, as calls.  Shows that the process serves only when
    every part could connect, and registers the webhook only when its
    certificate is ready. *)

From S2P Require Import Prelude Guards GoStrings Types Labels Dial ClusterAgent Falco Webhook.

(** * The cluster agent *)

Record cluster_Config := mkClusterConfig {
  ServerAddress : string;
  ServerGrpcDialOptions : list transport;
  config_EnableAddConstraint : bool;
}.

(** What the process asks of its surroundings. *)
Inductive ClusterCmdE : Type -> Type :=
| OnDial {X} (e : DialE X) : ClusterCmdE X
| Getenv (k : string) : ClusterCmdE string
| HomeDir : ClusterCmdE string
| InClusterConfig : ClusterCmdE (option error)
| BuildConfigFromFlags (kubeconfig : string) : ClusterCmdE (option error)
| NewForConfig : ClusterCmdE (option error)
| GrpcDial (address : string) (opts : list transport) : ClusterCmdE (option error)
| Listen (address : string) : ClusterCmdE (option error)
| OnSignal : ClusterCmdE unit
| GoCacheRun : ClusterCmdE unit
| GoActionsRun : ClusterCmdE unit
| GoInformers : ClusterCmdE unit
| GoListenAndServe (address : string) : ClusterCmdE unit
| Serve : ClusterCmdE (option error)
| CloseConn (part : string) : ClusterCmdE unit
| CancelEventServer : ClusterCmdE unit
| CancelContext : ClusterCmdE unit.

(** The agent: its proxy of the Config service, its action handler, its cache
    of constraints and its Falco listener with the address it listens on. *)
Record clusterAgent := mkClusterAgent {
  ca_configServer : ProxyConfigServer;
  ca_actionHandler : actionHandler;
  ca_configCache : ConfigCache;
  ca_falcoSidekickListener : FalcoSidekickListener;
  ca_falcoAddress : string;
}.

(** Each part has a connection of its own to the server. *)
Definition connect (config : cluster_Config) (text : string) : prog ClusterCmdE (option error) :=
  err <- call (GrpcDial (ServerAddress config) (ServerGrpcDialOptions config));;
  match err with
  | Some _ => Ret (Errorf text err)
  | None => Ret None
  end.

(** Whether there is a Kubernetes client: outside a cluster its absence is
    only logged. *)
Definition kubernetes_client : prog ClusterCmdE (bool + error) :=
  inCluster <- call (Getenv "KUBERNETES_SERVICE_HOST");;
  r <- (if negb (String.eqb inCluster "")
        then
          err <- call InClusterConfig;;
          match err with
          | Some _ => Ret (inr (WrapError "NewClusterAgent" err))
          | None => Ret (inl true)
          end
        else
          env <- call (Getenv "KUBECONFIG");;
          kubeconfig <- (if negb (String.eqb env "") then Ret env
                         else home <- call HomeDir;; Ret (path_Join [home; ".kube"; "config"]));;
          err <- call (BuildConfigFromFlags kubeconfig);;
          Ret (inl (match err with None => true | Some _ => false end)));;
  match r with
  | inr e => Ret (inr e)
  | inl false => Ret (inl false)
  | inl true =>
      err <- call NewForConfig;;
      Ret (inl (match err with None => true | Some _ => false end))
  end.

(** The parts that must connect. *)
Definition NewConfigServer (config : cluster_Config) : prog ClusterCmdE (ProxyConfigServer + error) :=
  err <- connect config "NewConfigServer: couldn't not connect to tarian-server";;
  match err with
  | Some e => Ret (inr e)
  | None => Ret (inl (mkProxyConfigServer false))
  end.

Definition newActionHandler (config : cluster_Config) (k8sClientset : bool) : prog ClusterCmdE (actionHandler + error) :=
  err <- connect config "newActionHandler: couldn't not connect to tarian-server";;
  match err with
  | Some e => Ret (inr e)
  | None => Ret (inl (mkActionHandler None k8sClientset))
  end.

Definition NewEventServer (config : cluster_Config) : prog ClusterCmdE (option error) :=
  connect config "NewEventServer: couldn't not connect to tarian-server".

(** The cache starts its loop when it is created. *)
Definition newConfigCache : prog ClusterCmdE ConfigCache := call GoCacheRun;;; Ret NewConfigCache.

Definition new_cluster_error (err : error) : clusterAgent + error := inr (WrapError "NewClusterAgent" (Some err)).

Definition NewClusterAgent (config : cluster_Config) : prog ClusterCmdE (clusterAgent + error) :=
  r <- NewConfigServer config;;
  match r with
  | inr err => Ret (new_cluster_error err)
  | inl configServer =>
      let configServer := proxy_EnableAddConstraint (config_EnableAddConstraint config) configServer in
      r <- kubernetes_client;;
      match r with
      | inr e => Ret (inr e)
      | inl k8sClientset =>
          r <- newActionHandler config k8sClientset;;
          match r with
          | inr err => Ret (new_cluster_error err)
          | inl actionHandler =>
              err <- NewEventServer config;;
              match err with
              | Some err => Ret (new_cluster_error err)
              | None =>
                  call (GrpcDial (ServerAddress config) (ServerGrpcDialOptions config));;;
                  configCache <- newConfigCache;;
                  dialErr <- call (GrpcDial (ServerAddress config) (ServerGrpcDialOptions config));;
                  let '(listener, err) := NewFalcoSidekickListener configCache dialErr in
                  match listener, err with
                  | Some f, None => Ret (inl (mkClusterAgent configServer actionHandler configCache f ":8088"))
                  | _, Some err => Ret (new_cluster_error err)
                  | None, None => Crash (NilDeref "falcoSidekickListener")
                  end
              end
          end
      end
  end.

(** [Run] only starts goroutines; the cache gets a second loop. *)
Definition clusterAgent_Run (ca : clusterAgent) : prog ClusterCmdE unit :=
  call GoCacheRun;;;
  call GoActionsRun;;;
  call GoInformers;;;
  call (GoListenAndServe (ca_falcoAddress ca)).

(** The connections of the two services are closed; those of the action handler,
    the cache and the listener are not. *)
Definition ConfigServer_Close : prog ClusterCmdE unit := call (CloseConn "configServer").

Definition EventServer_Close : prog ClusterCmdE unit := call (CloseConn "eventServer");;; call CancelEventServer.

Definition clusterAgent_Close : prog ClusterCmdE unit :=
  ConfigServer_Close;;; EventServer_Close;;; call CancelContext.

(** ** The run command *)

Record cluster_runCommand := mkClusterRunCommand {
  cluster_host : string;
  cluster_port : string;
  cluster_serverAddress : string;
  cluster_serverTLSEnabled : bool;
  cluster_serverTLSCAFile : string;
  cluster_serverTLSInsecureSkipVerify : bool;
  cluster_enableAddConstraint : bool;
  cluster_falcoListenerHTTPPort : string;
}.

(** The values of flags nobody sets. *)
Definition cluster_newRunCommand : cluster_runCommand :=
  mkClusterRunCommand "" "50052" "localhost:50051" false "" true false "8088".

Definition newClusterAgentConfigFromCliContext (c : cluster_runCommand)
  : prog ClusterCmdE (cluster_Config + error) :=
  r <- interp (fun _ e => call (OnDial e))
         (GetDialOptions (cluster_serverTLSEnabled c) (cluster_serverTLSInsecureSkipVerify c)
            (cluster_serverTLSCAFile c));;
  match r with
  | inr err => Ret (inr (WrapError "new cluster agent config" (Some err)))
  | inl dialOpts =>
      Ret (inl (mkClusterConfig (cluster_serverAddress c) dialOpts (cluster_enableAddConstraint c)))
  end.

Definition cluster_run (c : cluster_runCommand) : prog ClusterCmdE (option error) :=
  err <- call (Listen (cluster_host c +:+ ":" +:+ cluster_port c));;
  match err with
  | Some _ => Ret (Errorf "run: failed to listen" err)
  | None =>
      r <- newClusterAgentConfigFromCliContext c;;
      match r with
      | inr err => Ret (Errorf "run" (Some err))
      | inl config =>
          r <- NewClusterAgent config;;
          match r with
          | inr err => Ret (Errorf "run" (Some err))
          | inl ca =>
              call OnSignal;;;
              clusterAgent_Run ca;;;
              err <- call Serve;;
              clusterAgent_Close;;;
              match err with
              | Some _ => Ret (Errorf "run: failed to serve" err)
              | None => Ret None
              end
          end
      end
  end.

(** ** The goroutines of the action handler *)

Section actions.
Context `{SS : StrSet}.

(** [Run]: the events of the channel one after the other. *)
Definition actionHandler_Run (ah : actionHandler) (eventsChan : list (ptr Event)) : prog ActionE unit :=
  for_each eventsChan tt (fun e _ => ProcessActions ah e).
End actions.

(** [LoopSyncActions], for a number of turns; a pause or the end of the context
    lies between two of them. *)
Fixpoint LoopSyncActions (turns : nat) (ah : actionHandler) : prog ActionE actionHandler :=
  match turns with
  | 0 => Ret ah
  | S turns' => ah <- SyncActions ah;; LoopSyncActions turns' ah
  end.

(** * The webhook server *)

Record CertRotator := mkCertRotator {
  rotator_Namespace : string;
  rotator_SecretName : string;
  rotator_CertDir : string;
  rotator_CAName : string;
  rotator_CAOrganization : string;
  rotator_DNSName : string;
  rotator_Webhooks : list string;
}.

(** What the process asks of the controller runtime.  [GoRegister ready cfg]
    starts the goroutine that registers the handler; unless [ready] it first
    waits until the certificate is there. *)
Inductive WebhookCmdE : Type -> Type :=
| NewCtrlManager (healthProbeBindAddress : string) (leaderElection : bool) (leaderElectionID : string)
  : WebhookCmdE (option error)
| AddHealthzCheck (name : string) : WebhookCmdE (option error)
| AddReadyzCheck (name : string) : WebhookCmdE (option error)
| AddRotator (r : CertRotator) : WebhookCmdE (option error)
| GoRegister (ready : bool) (path : string) (cfg : PodAgentContainerConfig) : WebhookCmdE unit
| StartManager : WebhookCmdE (option error).

Definition leaderElectionID : string := "0f4c7cb2.k8s.tarian.dev".
Definition caName : string := "tarian-ca".
Definition caOrganization : string := "tarian".

(** The port is not used. *)
Definition NewManager (port : Z) (healthProbeBindAddress : string) (leaderElection : bool)
  : prog WebhookCmdE (option error) :=
  err <- call (NewCtrlManager healthProbeBindAddress leaderElection leaderElectionID);;
  match err with
  | Some _ => Ret (Errorf "NewManager: unable to start manager" err)
  | None =>
      err <- call (AddHealthzCheck "healthz");;
      match err with
      | Some _ => Ret (Errorf "NewManager: unable to set up health check" err)
      | None =>
          err <- call (AddReadyzCheck "readyz");;
          match err with
          | Some _ => Ret (Errorf "NewManager: unable to set up ready check" err)
          | None => Ret None
          end
      end
  end.

Definition RegisterControllers (ready : bool) (cfg : PodAgentContainerConfig) : prog WebhookCmdE unit :=
  call (GoRegister ready "/inject-pod-agent" cfg).

Definition RegisterCertRotator (namespace mutatingWebhookConfigurationName secretName : string)
  : prog WebhookCmdE (option error) :=
  let dnsName := "*." +:+ namespace +:+ ".svc" in
  err <- call (AddRotator (mkCertRotator namespace secretName "/tmp/k8s-webhook-server/serving-certs"
                 caName caOrganization dnsName [mutatingWebhookConfigurationName]));;
  match err with
  | Some _ => Ret (Errorf "RegisterCertRotator: unable to set up cert rotation" err)
  | None => Ret None
  end.

Record runWebhookServerCommand := mkRunWebhookServerCommand {
  webhook_port : Z;
  webhook_podAgentContainerName : string;
  webhook_podAgentContainerImage : string;
  webhook_clusterAgentHost : string;
  webhook_clusterAgentPort : string;
  webhook_healthProbeBindAddress : string;
  webhook_podNamespace : string;
  webhook_enableLeaderElection : bool;
  webhook_enableCertRotator : bool;
  webhook_certRotatorSecretName : string;
  webhook_mutatingWebhookConfigurationName : string;
}.

Definition newWebhookServerCommand : runWebhookServerCommand :=
  mkRunWebhookServerCommand 9443 "tarian-pod-agent" "localhost:5000/tarian-pod-agent:latest"
    "tarian-cluster-agent.tarian-system.svc" "80" ":8081" "tarian-system" false true
    "tarian-webhook-server-cert" "tarian-mutating-webhook-configuration".

(** [logFormatter] is the global flag. *)
Definition webhook_run (logFormatter : string) (c : runWebhookServerCommand) : prog WebhookCmdE (option error) :=
  let podAgentContainerConfig := mkPodAgentContainerConfig (webhook_podAgentContainerName c)
    (webhook_podAgentContainerImage c) logFormatter (webhook_clusterAgentHost c) (webhook_clusterAgentPort c) in
  err <- NewManager (webhook_port c) (webhook_healthProbeBindAddress c) (webhook_enableLeaderElection c);;
  match err with
  | Some _ => Ret (Errorf "run-webhook-server" err)
  | None =>
      err <- (if webhook_enableCertRotator c
              then RegisterCertRotator (webhook_podNamespace c) (webhook_mutatingWebhookConfigurationName c)
                     (webhook_certRotatorSecretName c)
              else Ret None);;
      match err with
      | Some _ => Ret (Errorf "run-webhook-server" err)
      | None =>
          RegisterControllers (negb (webhook_enableCertRotator c)) podAgentContainerConfig;;;
          err <- call StartManager;;
          match err with
          | Some _ => Ret (Errorf "run-webhook-server: problem running manager" err)
          | None => Ret None
          end
      end
  end.

(** * What is served when *)

Section order.
Context (c : cluster_runCommand).

(** A connection to tarian-server under the transport the flags select. *)
Definition connected (past : list (answered ClusterCmdE)) : Prop :=
  exists opts, got (GrpcDial (cluster_serverAddress c) opts) None ∈ past /\
    exists t, opts = [t] /\ (t = Insecure <-> cluster_serverTLSEnabled c = false).

(** Serving, acting on events and listening to Falco need the connection and
    the listener; Falco is listened to at one fixed port. *)
Definition cluster_guard (past : list (answered ClusterCmdE)) X (e : ClusterCmdE X) : Prop :=
  match e with
  | Serve | GoCacheRun | GoActionsRun =>
      connected past /\ got (Listen (cluster_host c +:+ ":" +:+ cluster_port c)) None ∈ past
  | GoListenAndServe address => address = ":8088" /\ connected past
  | GrpcDial address _ => address = cluster_serverAddress c
  | _ => True
  end.

Lemma connected_past past past' : past ⊆ past' -> connected past -> connected past'.
Proof. intros Hs (o&Ho&Ht). exists o. split; [by apply Hs|done]. Qed.

Lemma connect_guarded config text past :
  ServerAddress config = cluster_serverAddress c ->
  guarded cluster_guard (fun past' err => past ⊆ past' /\
    (err = None -> got (GrpcDial (cluster_serverAddress c) (ServerGrpcDialOptions config)) None ∈ past'))
    past (connect config text).
Proof.
  intros Ha. unfold connect. split; [done|]. rewrite <- Ha. intros [err|]; cbn; (split; [set_solver|]); [done|].
  intros _. set_solver.
Qed.

Lemma kubernetes_client_guarded past : guarded cluster_guard (fun past' _ => past ⊆ past') past kubernetes_client.
Proof.
  eapply guarded_mono; [|apply guarded_extends with (Q := fun _ _ => True)]; [by intros past' a _ [Hs _]|].
  unfold kubernetes_client. split; [done|]. intros env. cbn [bind].
  destruct (negb (String.eqb env "")); cbn [bind].
  - split; [done|]. intros [err|]; [done|]. split; [done|]. by intros err.
  - split; [done|]. intros kc. cbn [bind]. destruct (negb (String.eqb kc "")); cbn [bind].
    + split; [done|]. intros [err|]; [done|]. split; [done|]. by intros err.
    + split; [done|]. intros home. split; [done|]. intros [err|]; [done|]. split; [done|]. by intros err.
Qed.

Lemma NewClusterAgent_guarded config past :
  ServerAddress config = cluster_serverAddress c ->
  (exists t, ServerGrpcDialOptions config = [t] /\ (t = Insecure <-> cluster_serverTLSEnabled c = false)) ->
  got (Listen (cluster_host c +:+ ":" +:+ cluster_port c)) None ∈ past ->
  guarded cluster_guard (fun past' r => past ⊆ past' /\
    match r with
    | inl ca => connected past' /\ ca_falcoAddress ca = ":8088" /\
        proxy_enableAddConstraint (ca_configServer ca) = config_EnableAddConstraint config
    | inr _ => True
    end) past (NewClusterAgent config).
Proof.
  intros Ha Ht Hl. apply guarded_extends. unfold NewClusterAgent. apply guarded_bind. unfold NewConfigServer.
  apply guarded_bind. eapply guarded_mono; [|by apply connect_guarded]. intros past1 [err|] _ [Hs1 H1]; [done|].
  specialize (H1 eq_refl). cbn [guarded]. apply guarded_bind.
  eapply guarded_mono; [|apply kubernetes_client_guarded]. intros past2 [k8s|e] _ Hs2; [|done].
  apply guarded_bind. unfold newActionHandler. apply guarded_bind. eapply guarded_mono; [|by apply connect_guarded].
  intros past3 [err|] _ [Hs3 _]; [done|]. cbn [guarded]. apply guarded_bind.
  eapply guarded_mono; [|by apply connect_guarded]. intros past4 [err|] _ [Hs4 _]; [done|].
  assert (forall past', past4 ⊆ past' -> connected past') as Hc.
  { intros past' Hs. exists (ServerGrpcDialOptions config). split; [set_solver|done]. }
  split; [done|]. intros warned. split; [split; [apply Hc; set_solver|set_solver]|]. intros [].
  split; [done|]. intros dialErr. cbn [bind].
  destruct (NewFalcoSidekickListener NewConfigCache dialErr) as [[f|] [e|]]; [done| |done|done].
  split; [|done]. apply Hc. set_solver.
Qed.
End order.

(** The whole command. *)
Lemma cluster_run_guarded c past :
  guarded (cluster_guard c) (fun past' err => err = None -> got Serve None ∈ past' /\ got CancelContext tt ∈ past')
    past (cluster_run c).
Proof.
  split; [done|]. intros [err|]; [done|]. cbn [bind].
  set (past1 := past ++ _). assert (got (Listen (cluster_host c +:+ ":" +:+ cluster_port c)) None ∈ past1) as Hl
    by set_solver. clearbody past1.
  apply guarded_bind. unfold newClusterAgentConfigFromCliContext. apply guarded_bind.
  eapply guarded_mono; [|apply (guarded_interp_ensures _ (fun _ e => OnDial e)); [done|apply GetDialOptions_ensures]].
  intros past2 [opts|e] _ [Hs2 Ht]; [|done]. destruct Ht as (t&->&Ht).
  assert (exists t', [t] = [t'] /\ (t' = Insecure <-> cluster_serverTLSEnabled c = false)) as Ht'.
  { exists t. split; [done|]. destruct t; [done|]. destruct Ht as (->&_). split; discriminate. }
  cbn [guarded]. apply guarded_bind. eapply guarded_mono; [|apply NewClusterAgent_guarded; [done|done|set_solver]].
  intros past3 [ca|e] _ [Hs3 Hca]; [|done]. destruct Hca as (Hc&Haddr&_).
  assert (got (Listen (cluster_host c +:+ ":" +:+ cluster_port c)) None ∈ past3) as Hl3 by set_solver.
  clear Hl Hs2 Hs3.
  assert (forall past', past3 ⊆ past' -> connected c past' /\
    got (Listen (cluster_host c +:+ ":" +:+ cluster_port c)) None ∈ past') as Hgo.
  { intros past' Hs. split; [by eapply connected_past|by apply Hs]. }
  unfold clusterAgent_Run. rewrite Haddr. cbn [bind call guarded cluster_guard].
  split; [done|]. intros []. split; [apply Hgo; set_solver|]. intros []. split; [apply Hgo; set_solver|]. intros [].
  split; [done|]. intros []. split; [split; [done|apply Hgo; set_solver]|]. intros [].
  split; [apply Hgo; set_solver|]. intros err. do 4 (split; [done|]; intros []).
  destruct err as [err|]; [done|]. intros _. split; set_solver.
Qed.
