(* ===== verification/Sha256.v ===== *)
(** SHA-256 and its lower-case hexadecimal text, as the pod agent uses
    [crypto/sha256] with [fmt.Sprintf] and the verb x.  Executable; checked on
    two published test vectors.  The text always has 64 digits. *)

From S2P Require Import Prelude GoStrings.

Definition mask32 : Z := 4294967295.
Definition add32 (a b : Z) : Z := Z.land (a + b) mask32.
Definition rotr (n x : Z) : Z :=
  Z.lor (Z.shiftr x n) (Z.land (Z.shiftl x (32 - n)) mask32).
Definition xor3 (a b c : Z) : Z := Z.lxor a (Z.lxor b c).

Definition small_sigma0 (x : Z) : Z := xor3 (rotr 7 x) (rotr 18 x) (Z.shiftr x 3).
Definition small_sigma1 (x : Z) : Z := xor3 (rotr 17 x) (rotr 19 x) (Z.shiftr x 10).
Definition big_sigma0 (x : Z) : Z := xor3 (rotr 2 x) (rotr 13 x) (rotr 22 x).
Definition big_sigma1 (x : Z) : Z := xor3 (rotr 6 x) (rotr 11 x) (rotr 25 x).
Definition choose (e f g : Z) : Z := Z.lxor (Z.land e f) (Z.land (Z.lxor e mask32) g).
Definition majority (a b c : Z) : Z := xor3 (Z.land a b) (Z.land a c) (Z.land b c).

(** ** Constants *)

(** The constants of the standard are the first 32 bits of the fractional
    parts of roots of the first primes: cube roots for the rounds, square
    roots for the initial state.  They are computed here. *)
Definition is_prime (n : nat) : bool :=
  forallb (fun d => negb (Nat.eqb (Nat.modulo n d) 0)) (seq 2 (n - 2)).

(** The first 64 primes. *)
Definition primes : list Z := Eval vm_compute in Z.of_nat <$> List.filter is_prime (seq 2 310).

(** The integer cube root, bit by bit. *)
Fixpoint cube_root (bits : nat) (n r : Z) : Z :=
  match bits with
  | 0 => r
  | S b =>
      let r' := (r + 2 ^ Z.of_nat b)%Z in
      cube_root b n (if (r' * r' * r' <=? n)%Z then r' else r)
  end.

Definition round_constants : list Z :=
  Eval vm_compute in (fun p => cube_root 40 (p * 2 ^ 96) 0 mod 2 ^ 32)%Z <$> primes.

Definition initial_words : list Z :=
  Eval vm_compute in (fun p => Z.sqrt (p * 2 ^ 64) mod 2 ^ 32)%Z <$> firstn 8 primes.

(** The eight words of a hash state. *)
Record sha_state := mkSha { sa : Z; sb : Z; sc : Z; sd : Z; se : Z; sf : Z; sg : Z; sh : Z }.

Definition initial_state : sha_state :=
  let w i := nth i initial_words 0%Z in mkSha (w 0) (w 1) (w 2) (w 3) (w 4) (w 5) (w 6) (w 7).

Definition sha_round (s : sha_state) (kw : Z * Z) : sha_state :=
  let t1 := add32 (add32 (add32 (sh s) (big_sigma1 (se s))) (choose (se s) (sf s) (sg s)))
                  (add32 kw.1 kw.2) in
  let t2 := add32 (big_sigma0 (sa s)) (majority (sa s) (sb s) (sc s)) in
  mkSha (add32 t1 t2) (sa s) (sb s) (sc s) (add32 (sd s) t1) (se s) (sf s) (sg s).

(** The message schedule, last word first. *)
Fixpoint extend_schedule (n : nat) (ws : list Z) : list Z :=
  match n with
  | 0 => ws
  | S n' =>
      extend_schedule n'
        (add32 (add32 (small_sigma1 (nth 1 ws 0%Z)) (nth 6 ws 0%Z))
               (add32 (small_sigma0 (nth 14 ws 0%Z)) (nth 15 ws 0%Z)) :: ws)
  end.

Definition add_states (s t : sha_state) : sha_state :=
  mkSha (add32 (sa s) (sa t)) (add32 (sb s) (sb t)) (add32 (sc s) (sc t)) (add32 (sd s) (sd t))
        (add32 (se s) (se t)) (add32 (sf s) (sf t)) (add32 (sg s) (sg t)) (add32 (sh s) (sh t)).

Definition compress (s : sha_state) (words : list Z) : sha_state :=
  let schedule := rev (extend_schedule 48 (rev words)) in
  add_states s (fold_left sha_round (combine round_constants schedule) s).

(** Bytes to big-endian words, and the padded message. *)
Fixpoint words_of (bs : list Z) : list Z :=
  match bs with
  | a :: b :: c :: d :: rest =>
      (Z.shiftl a 24 + Z.shiftl b 16 + Z.shiftl c 8 + d)%Z :: words_of rest
  | _ => []
  end.

Definition be_bytes64 (n : Z) : list Z :=
  (fun i => Z.land (Z.shiftr n i) 255) <$> [56; 48; 40; 32; 24; 16; 8; 0]%Z.

Definition message_bytes (s : string) : list Z := byte_val <$> String.list_ascii_of_string s.

Definition padded (s : string) : list Z :=
  let bs := message_bytes s in
  let n := Z.of_nat (length bs) in
  bs ++ 128%Z :: repeat 0%Z (Z.to_nat ((55 - n) mod 64)) ++ be_bytes64 (8 * n).

Fixpoint sha_blocks (fuel : nat) (ws : list Z) (s : sha_state) : sha_state :=
  match fuel, ws with
  | S fuel', _ :: _ => sha_blocks fuel' (skipn 16 ws) (compress s (firstn 16 ws))
  | _, _ => s
  end.

Definition sha256 (s : string) : sha_state :=
  let ws := words_of (padded s) in sha_blocks (length ws) ws initial_state.

(** ** Hexadecimal text *)

Definition hex_digit (n : Z) : ascii :=
  ascii_of_N (Z.to_N (if n <? 10 then 48 + n else 87 + n)%Z).

Definition word_hex (w : Z) : string :=
  fold_right (fun i acc => String (hex_digit (Z.land (Z.shiftr w i) 15)) acc) ""
    [28; 24; 20; 16; 12; 8; 4; 0]%Z.

(** The sum as hexadecimal text. *)
Definition sha256_hex (s : string) : string :=
  let d := sha256 s in
  word_hex (sa d) +:+ word_hex (sb d) +:+ word_hex (sc d) +:+ word_hex (sd d) +:+
  word_hex (se d) +:+ word_hex (sf d) +:+ word_hex (sg d) +:+ word_hex (sh d).

Example sha256_empty :
  sha256_hex "" = "e3b0c44298fc1c149afbf4c8996fb92427ae41e4649b934ca495991b7852b855".
Proof. by vm_compute. Qed.

Example sha256_two_blocks :
  sha256_hex "abcdbcdecdefdefgefghfghighijhijkijkljklmklmnlmnomnopnopq" =
    "248d6a61d20638b8e5c026930c3e6039a33ce45964ff2167f6ecedd419db06c1".
Proof. by vm_compute. Qed.

Lemma sha256_hex_length s : String.length (sha256_hex s) = 64.
Proof. unfold sha256_hex. by rewrite !length_app_s. Qed.

#[global] Opaque sha256_hex.
