(* ===== verification/PodAgent.v ===== *)
(** The pod agent ([pkg/podagent/podagent.go]) and the parts of its commands
    that prepare it ([cmd/tarian-pod-agent/cmd]): file checksums against the
    constraints, registration of files, reports, labels from the downward API
    file.  The file system, the pattern matcher of [path/filepath] and the
    server are parameters.  The theorems: which files are violated, what is
    reported, that registering a file settles it, when a registration run
    panics, and the round trip of the label file. *)

From S2P Require Import Prelude GoStrings Types Labels K8s Sha256.

(** * State *)

Record PodAgent := mkPodAgent {
  PodAgent_podName : string;
  PodAgent_podUID : string;
  PodAgent_podLabels : slice (ptr Label);
  PodAgent_namespace : string;
  PodAgent_constraints : slice (ptr Constraint);
  PodAgent_constraintsInitialized : bool;
  PodAgent_fileValidationInterval : Z;
  PodAgent_enableRegisterFiles : bool;
  PodAgent_registerFilePaths : slice string;
  PodAgent_registerFileIgnorePaths : slice string;
}.

Definition NewPodAgent : PodAgent := mkPodAgent "" "" None "" None false 0 false None None.

Definition SetPodLabels (labels : slice (ptr Label)) (p : PodAgent) : PodAgent :=
  mkPodAgent (PodAgent_podName p) (PodAgent_podUID p) labels (PodAgent_namespace p)
    (PodAgent_constraints p) (PodAgent_constraintsInitialized p) (PodAgent_fileValidationInterval p)
    (PodAgent_enableRegisterFiles p) (PodAgent_registerFilePaths p) (PodAgent_registerFileIgnorePaths p).

Definition SetPodName (name : string) (p : PodAgent) : PodAgent :=
  mkPodAgent name (PodAgent_podUID p) (PodAgent_podLabels p) (PodAgent_namespace p)
    (PodAgent_constraints p) (PodAgent_constraintsInitialized p) (PodAgent_fileValidationInterval p)
    (PodAgent_enableRegisterFiles p) (PodAgent_registerFilePaths p) (PodAgent_registerFileIgnorePaths p).

Definition SetPodUID (uid : string) (p : PodAgent) : PodAgent :=
  mkPodAgent (PodAgent_podName p) uid (PodAgent_podLabels p) (PodAgent_namespace p)
    (PodAgent_constraints p) (PodAgent_constraintsInitialized p) (PodAgent_fileValidationInterval p)
    (PodAgent_enableRegisterFiles p) (PodAgent_registerFilePaths p) (PodAgent_registerFileIgnorePaths p).

Definition SetNamespace (namespace : string) (p : PodAgent) : PodAgent :=
  mkPodAgent (PodAgent_podName p) (PodAgent_podUID p) (PodAgent_podLabels p) namespace
    (PodAgent_constraints p) (PodAgent_constraintsInitialized p) (PodAgent_fileValidationInterval p)
    (PodAgent_enableRegisterFiles p) (PodAgent_registerFilePaths p) (PodAgent_registerFileIgnorePaths p).

Definition SetFileValidationInterval (t : Z) (p : PodAgent) : PodAgent :=
  mkPodAgent (PodAgent_podName p) (PodAgent_podUID p) (PodAgent_podLabels p) (PodAgent_namespace p)
    (PodAgent_constraints p) (PodAgent_constraintsInitialized p) t
    (PodAgent_enableRegisterFiles p) (PodAgent_registerFilePaths p) (PodAgent_registerFileIgnorePaths p).

Definition EnableRegisterFiles (p : PodAgent) : PodAgent :=
  mkPodAgent (PodAgent_podName p) (PodAgent_podUID p) (PodAgent_podLabels p) (PodAgent_namespace p)
    (PodAgent_constraints p) (PodAgent_constraintsInitialized p) (PodAgent_fileValidationInterval p)
    true (PodAgent_registerFilePaths p) (PodAgent_registerFileIgnorePaths p).

Definition SetRegisterFilePaths (paths : slice string) (p : PodAgent) : PodAgent :=
  mkPodAgent (PodAgent_podName p) (PodAgent_podUID p) (PodAgent_podLabels p) (PodAgent_namespace p)
    (PodAgent_constraints p) (PodAgent_constraintsInitialized p) (PodAgent_fileValidationInterval p)
    (PodAgent_enableRegisterFiles p) paths (PodAgent_registerFileIgnorePaths p).

Definition SetRegisterFileIgnorePaths (paths : slice string) (p : PodAgent) : PodAgent :=
  mkPodAgent (PodAgent_podName p) (PodAgent_podUID p) (PodAgent_podLabels p) (PodAgent_namespace p)
    (PodAgent_constraints p) (PodAgent_constraintsInitialized p) (PodAgent_fileValidationInterval p)
    (PodAgent_enableRegisterFiles p) (PodAgent_registerFilePaths p) paths.

Definition PodAgent_SetConstraints (constraints : slice (ptr Constraint)) (p : PodAgent) : PodAgent :=
  mkPodAgent (PodAgent_podName p) (PodAgent_podUID p) (PodAgent_podLabels p) (PodAgent_namespace p)
    constraints (PodAgent_constraintsInitialized p) (PodAgent_fileValidationInterval p)
    (PodAgent_enableRegisterFiles p) (PodAgent_registerFilePaths p) (PodAgent_registerFileIgnorePaths p).

Definition PodAgent_GetConstraints (p : PodAgent) : slice (ptr Constraint) := PodAgent_constraints p.

Definition PodAgent_set_initialized (p : PodAgent) : PodAgent :=
  mkPodAgent (PodAgent_podName p) (PodAgent_podUID p) (PodAgent_podLabels p) (PodAgent_namespace p)
    (PodAgent_constraints p) true (PodAgent_fileValidationInterval p)
    (PodAgent_enableRegisterFiles p) (PodAgent_registerFilePaths p) (PodAgent_registerFileIgnorePaths p).

Record violatedFile := mkViolatedFileEntry {
  violatedFile_name : string;
  violatedFile_expectedSha256Sum : string;
  violatedFile_actualSha256Sum : string;
}.

(** * Environment *)

(** One call [WalkDir] makes of its function: the path, and whether the entry
    is a directory; there is no entry when the root cannot be read. *)
Definition walk_call : Type := string * option bool.

Inductive PodE : Type -> Type :=
| PConfig {X} (e : ConfigE X) : PodE X
| PEvent {X} (e : EventE X) : PodE X
| PNow : PodE Z
(** [os.Open]. *)
| POpen (path : string) : PodE (option error)
(** [io.Copy] from an open file: what was read, and the error. *)
| PCopy (path : string) : PodE (string * option error)
(** The calls [filepath.WalkDir] makes of a function that never answers an error. *)
| PWalkDir (root : string) : PodE (list walk_call).

(** [filepath.Match], false also for a malformed pattern. *)
Class PathMatch := filepath_Match : string -> string -> bool.

Section agent.
Context `{MR : MapRange} `{PM : PathMatch}.

(** The checksum of what can be read of a file; nothing of a file that cannot
    be opened. *)
Definition file_sum (path : string) : prog PodE string :=
  err <- call (POpen path);;
  content <- match err with
             | None => r <- call (PCopy path);; Ret r.1
             | Some _ => Ret ""
             end;;
  Ret (sha256_hex content).

(** [SyncConstraints]: [Fatal] ends the process. *)
Definition PodAgent_SyncConstraints (p : PodAgent) : prog PodE PodAgent :=
  r <- call (PConfig (GetConstraints (mkGetConstraintsRequest (PodAgent_namespace p)
         (PodAgent_podLabels p))));;
  let '(resp, err) := r in
  match err with
  | Some _ => Crash (FatalExit "couldn't get constraints from the cluster agent")
  | None =>
      Ret (PodAgent_set_initialized
             (PodAgent_SetConstraints (GetConstraintsResponse_GetConstraints resp) p))
  end.

(** ** Validation *)

(** The rules of the constraints that name a file and a checksum, in the order
    the two loops visit them. *)
Definition file_rules (constraints : slice (ptr Constraint)) : list (string * string) :=
  elems constraints ≫= fun constraint =>
    match Constraint_GetAllowedFiles constraint with
    | None => []
    | Some allowedFiles =>
        allowedFiles ≫= fun allowedFile =>
          if String.eqb (AllowedFileRule_GetName allowedFile) "" ||
             String.eqb (AllowedFileRule_GetSha256Sum allowedFile) ""
          then [] else [(AllowedFileRule_GetName allowedFile, AllowedFileRule_GetSha256Sum allowedFile)]
    end.

(** One turn of the inner loop. *)
Definition validate_rule (rule : string * string)
    (s : gmap string violatedFile * gset string) : prog PodE (gmap string violatedFile * gset string) :=
  let '(name, sum) := rule in
  let '(violatedFiles, allowedFiles) := s in
  actualSha256Sum <- file_sum name;;
  if String.eqb actualSha256Sum sum
  then Ret (violatedFiles, {[ name ]} ∪ allowedFiles)
  else Ret (<[name := mkViolatedFileEntry name sum actualSha256Sum]> violatedFiles, allowedFiles).

Definition validateFileChecksums (p : PodAgent) : prog PodE (gmap string violatedFile) :=
  s <- for_each (file_rules (PodAgent_constraints p)) (∅, ∅) validate_rule;;
  let '(violatedFiles, allowedFiles) := s in
  Ret (filter (fun kv => kv.1 ∉ allowedFiles) violatedFiles).

(** The loop that fills [vf]. *)
Definition file_reports (violatedFiles : gmap string violatedFile) : list (ptr ViolatedFile) :=
  (fun kv => Some (mkViolatedFile (violatedFile_name kv.2)
     (violatedFile_actualSha256Sum kv.2) (violatedFile_expectedSha256Sum kv.2)))
  <$> map_range violatedFiles.

Definition ReportViolatedFilesToClusterAgent (p : PodAgent) (violatedFiles : gmap string violatedFile)
  : prog PodE unit :=
  let vf := file_reports violatedFiles in
  now <- call PNow;;
  call (PEvent (IngestEvent (mkIngestEventRequest (Some
    (mkEvent "" EventTypeViolation "" None (Some (timestamppb_New now)) None
      (Some [Some (mkTarget
        (Some (mkPod (PodAgent_podUID p) (PodAgent_namespace p) (PodAgent_podName p)
                     (PodAgent_podLabels p))) None (Some vf) None "" "")]))))));;;
  Ret tt.

(** One turn of [loopValidateFileChecksums], after its pause. *)
Definition loopValidateFileChecksums_body (p : PodAgent) : prog PodE unit :=
  if negb (PodAgent_constraintsInitialized p) then Ret tt
  else
    violatedFiles <- validateFileChecksums p;;
    if decide (violatedFiles = ∅) then Ret tt
    else ReportViolatedFilesToClusterAgent p violatedFiles.

(** ** Registration *)

(** A nil label panics. *)
Definition matchLabelsFromLabels (labels : slice (ptr Label)) : prog PodE (slice (ptr MatchLabel)) :=
  matchLabels <- for_each (elems labels) [] (fun l acc =>
    l <- deref "label" l;;
    Ret (acc ++ [Some (mkMatchLabel (Label_Key l) (Label_Value l))]));;
  Ret (Some matchLabels).

Definition createConstraintWithFileRule (p : PodAgent) (constraintName path sha256Sum : string)
  : prog PodE (ptr AddConstraintResponse * option error) :=
  matchLabels <- matchLabelsFromLabels (PodAgent_podLabels p);;
  call (PConfig (AddConstraint (mkAddConstraintRequest (Some
    (mkConstraint KindConstraint (PodAgent_namespace p) constraintName
       (Some (mkSelector matchLabels)) None
       (Some [Some (mkAllowedFileRule path (Some sha256Sum))])))))).

Definition deleteConstraintByNamePrefix (p : PodAgent) (prefix : string) : prog PodE (option error) :=
  r <- for_range (elems (PodAgent_constraints p)) tt (fun c _ =>
         if HasPrefix (Constraint_GetName c) prefix then
           r <- call (PConfig (RemoveConstraint
                  (mkRemoveConstraintRequest (PodAgent_namespace p) (Constraint_GetName c))));;
           match r.2 with
           | Some err => Ret (Return err)
           | None => Ret (Next tt)
           end
         else Ret (Next tt));;
  match r with
  | inr err => Ret (Some err)
  | inl _ => Ret None
  end.

(** The map filled from the constraints: the last rule of a file wins. *)
Definition registeredSha256Sums (p : PodAgent) : gmap string string :=
  fold_left (fun m rule => <[rule.1 := rule.2]> m) (file_rules (PodAgent_constraints p)) ∅.

Definition constraint_prefix (p : PodAgent) (path : string) : prog PodE string :=
  pathShaStr <- slice_to 10 (sha256_hex path);;
  Ret (PodAgent_podName p +:+ "-" +:+ pathShaStr +:+ "-").

Definition register_file (p : PodAgent) (path actualSha256Sum : string) : prog PodE unit :=
  prefix <- constraint_prefix p path;;
  sum10 <- slice_to 10 actualSha256Sum;;
  createConstraintWithFileRule p (prefix +:+ sum10) path actualSha256Sum;;;
  Ret tt.

(** The function given to [WalkDir]. *)
Definition register_walk (p : PodAgent) (sums : gmap string string) (c : walk_call) : prog PodE unit :=
  let '(path, f) := c in
  isDir <- deref "f" f;;
  if (isDir : bool) then Ret tt
  else if existsb (fun pattern => filepath_Match pattern path)
                  (elems (PodAgent_registerFileIgnorePaths p)) then Ret tt
  else
    actualSha256Sum <- file_sum path;;
    match sums !! path with
    | Some expectedSha256Sum =>
        if negb (String.eqb actualSha256Sum expectedSha256Sum) then
          prefix <- constraint_prefix p path;;
          deleteConstraintByNamePrefix p prefix;;;
          register_file p path actualSha256Sum
        else Ret tt
    | None => register_file p path actualSha256Sum
    end.

Definition registerFileChecksums (p : PodAgent) : prog PodE unit :=
  let sums := registeredSha256Sums p in
  for_each (elems (PodAgent_registerFilePaths p)) tt (fun registerFilePath _ =>
    calls <- call (PWalkDir registerFilePath);;
    for_each calls tt (fun c _ => register_walk p sums c)).
End agent.

(** ** The goroutines of the two modes *)

Inductive PodTask := SyncTask | ValidateTask | RegisterFilesTask.

(** What the process asks besides: the agent as the other goroutine left it,
    and the pause between two turns, which says whether the context is done. *)
Inductive PodRunE : Type -> Type :=
| PodDial (address : string) : PodRunE (option error)
| PodGo (t : PodTask) : PodRunE unit
| PodWait : PodRunE unit
| PodCloseConn : PodRunE unit
| PodCurrent : PodRunE PodAgent
| PodSet (p : PodAgent) : PodRunE unit
| PodPause (interval : Z) : PodRunE bool
| OnPod {X} (e : PodE X) : PodRunE X.

Definition on_pod {A} (p : prog PodE A) : prog PodRunE A := interp (fun _ e => call (OnPod e)) p.

Definition three_seconds : Z := 3000000000.

(** [turns] turns of the loops, fewer when the context is done. *)
Fixpoint PodAgent_loopSyncConstraints (turns : nat) : prog PodRunE unit :=
  match turns with
  | 0 => Ret tt
  | S turns' =>
      p <- call PodCurrent;;
      p <- on_pod (PodAgent_SyncConstraints p);;
      call (PodSet p);;;
      done <- call (PodPause three_seconds);;
      if done : bool then Ret tt else PodAgent_loopSyncConstraints turns'
  end.

Fixpoint loopValidateFileChecksums (turns : nat) : prog PodRunE unit :=
  match turns with
  | 0 => Ret tt
  | S turns' =>
      p <- call PodCurrent;;
      done <- call (PodPause (PodAgent_fileValidationInterval p));;
      if done : bool then Ret tt
      else
        p <- call PodCurrent;;
        on_pod (loopValidateFileChecksums_body p);;;
        loopValidateFileChecksums turns'
  end.

Fixpoint loopRegisterFileChecksums `{PathMatch} (turns : nat) : prog PodRunE unit :=
  match turns with
  | 0 => Ret tt
  | S turns' =>
      p <- call PodCurrent;;
      on_pod (registerFileChecksums p);;;
      done <- call (PodPause (PodAgent_fileValidationInterval p));;
      if done : bool then Ret tt else loopRegisterFileChecksums turns'
  end.

Definition pod_task `{PathMatch} (turns : nat) (t : PodTask) : prog PodRunE unit :=
  match t with
  | SyncTask => PodAgent_loopSyncConstraints turns
  | ValidateTask => loopValidateFileChecksums turns
  | RegisterFilesTask => loopRegisterFileChecksums turns
  end.

(** The agent does not go on without a connection ([logger.Fatal]). *)
Definition PodAgent_Dial (clusterAgentAddress : string) : prog PodRunE unit :=
  err <- call (PodDial clusterAgentAddress);;
  match err with
  | Some _ => Crash (FatalExit "couldn't connect to the cluster agent")
  | None => Ret tt
  end.

Definition RunThreatScan (clusterAgentAddress : string) : prog PodRunE unit :=
  PodAgent_Dial clusterAgentAddress;;;
  call (PodGo SyncTask);;;
  call (PodGo ValidateTask);;;
  call PodWait;;;
  call PodCloseConn.

Definition RunRegister (clusterAgentAddress : string) : prog PodRunE unit :=
  PodAgent_Dial clusterAgentAddress;;;
  call (PodGo SyncTask);;;
  p <- call PodCurrent;;
  (if PodAgent_enableRegisterFiles p then call (PodGo RegisterFilesTask) else Ret tt);;;
  call PodWait;;;
  call PodCloseConn.

(** * Commands *)

(** [bufio.ScanLines] over a file's content: lines without their end, up to
    the first one that does not fit the scanner's 64 KB buffer. *)
Definition MaxScanTokenSize : nat := 65536.

Fixpoint drop_cr (line : string) : string :=
  match line with
  | String c "" => if Ascii.eqb c "013"%char then "" else line
  | String c rest => String c (drop_cr rest)
  | "" => ""
  end.

Fixpoint take_lines (lines : list string) : list string :=
  match lines with
  | [] => []
  | [last] => if String.eqb last "" then []
              else if (String.length last <? MaxScanTokenSize)%nat then [drop_cr last] else []
  | l :: rest =>
      if (String.length l <? MaxScanTokenSize)%nat then drop_cr l :: take_lines rest else []
  end.

Definition ScanLines (content : string) : list string :=
  take_lines (Split content (String "010"%char "")).

Definition label_of_line (line : string) : option (ptr Label) :=
  match Cut line "=" with
  | None => None
  | Some (key, rest) => Some (Some (mkLabel key (Trim rest (String "034"%char ""))))
  end.

(** [None] content: the file cannot be opened. *)
Definition readLabelsFromFile (content : string + error) : list (ptr Label) + error :=
  match content with
  | inr err => inr (WrapError "failed to open file" (Some err))
  | inl content =>
      match omap label_of_line (ScanLines content) with
      | [] => inr (PlainError "no labels found in file")
      | labels => inl labels
      end
  end.

(** Both commands drop the first pod-template-hash label. *)
Fixpoint drop_template_hash (podLabels : list (ptr Label)) : list (ptr Label) :=
  match podLabels with
  | [] => []
  | e :: rest =>
      if String.eqb (Label_GetKey e) "pod-template-hash" then rest else e :: drop_template_hash rest
  end.

Record pod_agent_flags := mkPodAgentFlags {
  flag_podLabelsFile : string;
  flag_podName : string;
  flag_podUID : string;
  flag_namespace : string;
  flag_registerRules : string;
  flag_registerFilePaths : string;
  flag_registerFileIgnorePaths : string;
  flag_fileValidationInterval : Z;
}.

Definition registers_files (value : string) : bool :=
  existsb (fun rule => String.eqb rule "files" || String.eqb rule "all") (register_rules value).

(** What both commands set, given the label file and the host name. *)
Definition configure_common (flags : pod_agent_flags) (labelsFile : string + error)
    (hostname : string + error) (p : PodAgent) : PodAgent + error :=
  let p := if negb (String.eqb (flag_podLabelsFile flags) "") then
             match readLabelsFromFile labelsFile with
             | inr err => inr (WrapError "failed reading pod-labels-file" (Some err))
             | inl podLabels => inl (SetPodLabels (Some (drop_template_hash podLabels)) p)
             end
           else inl p in
  match p with
  | inr err => inr err
  | inl p =>
      let p := if negb (String.eqb (flag_podName flags) "") then SetPodName (flag_podName flags) p
               else match hostname with inl name => SetPodName name p | inr _ => p end in
      let p := if negb (String.eqb (flag_podUID flags) "") then SetPodUID (flag_podUID flags) p else p in
      let p := if negb (String.eqb (flag_namespace flags) "") then SetNamespace (flag_namespace flags) p
               else p in
      inl p
  end.

(** [threat-scan] up to its loops. *)
Definition configure_threat_scan (flags : pod_agent_flags) (labelsFile hostname : string + error)
  : PodAgent + error :=
  match configure_common flags labelsFile hostname NewPodAgent with
  | inr err => inr err
  | inl p => inl (SetFileValidationInterval (flag_fileValidationInterval flags) p)
  end.

(** [register] up to its loops. *)
Definition configure_register (flags : pod_agent_flags) (labelsFile hostname : string + error)
  : PodAgent + error :=
  match configure_common flags labelsFile hostname NewPodAgent with
  | inr err => inr err
  | inl p =>
      let p := if registers_files (flag_registerRules flags) then EnableRegisterFiles p else p in
      let p := SetRegisterFilePaths
                 (Some (TrimSpace <$> Split (flag_registerFilePaths flags) ",")) p in
      let p := SetRegisterFileIgnorePaths
                 (Some (TrimSpace <$> Split (flag_registerFileIgnorePaths flags) ",")) p in
      inl (SetFileValidationInterval (flag_fileValidationInterval flags) p)
  end.

(** * Facts on validation *)

(** The files the agent can read; nothing it does changes them. *)
Class PodFiles {W} (h : handler PodE W) (files : W -> gmap string string) : Prop := {
  open_file path w : (h _ (POpen path) w).1 = None <-> is_Some (files w !! path);
  copy_file path w c : files w !! path = Some c -> (h _ (PCopy path) w).1 = (c, None);
  files_frame X (e : PodE X) w : files (h X e w).2 = files w;
}.

(** The checksum the agent sees of a file: that of nothing when it cannot be
    opened. *)
Definition seen_sum (files : gmap string string) (path : string) : string :=
  sha256_hex (default "" (files !! path)).

(** A file is violated: rules name it and none of them has its checksum. *)
Definition violated (constraints : slice (ptr Constraint)) (files : gmap string string) (name : string)
  : Prop :=
  (exists sum, (name, sum) ∈ file_rules constraints) /\
  forall sum, (name, sum) ∈ file_rules constraints -> sum <> seen_sum files name.

Lemma elem_of_file_rules constraints name sum :
  (name, sum) ∈ file_rules constraints <->
  name <> "" /\ sum <> "" /\ exists c r, c ∈ elems constraints /\
    r ∈ elems (Constraint_GetAllowedFiles c) /\
    AllowedFileRule_GetName r = name /\ AllowedFileRule_GetSha256Sum r = sum.
Proof.
  unfold file_rules. rewrite list_elem_of_bind. split.
  - intros (c&Hr&Hc). destruct (Constraint_GetAllowedFiles c) as [rs|] eqn:Hrs;
      [|by apply elem_of_nil in Hr].
    apply list_elem_of_bind in Hr as (r&Hr&Hin).
    destruct (String.eqb_spec (AllowedFileRule_GetName r) "") as [?|Hn];
      [by apply elem_of_nil in Hr|].
    destruct (String.eqb_spec (AllowedFileRule_GetSha256Sum r) "") as [?|Hs];
      [by apply elem_of_nil in Hr|].
    apply list_elem_of_singleton in Hr as [= -> ->]. split_and!; try done.
    exists c, r. by rewrite Hrs.
  - intros (Hn&Hs&c&r&Hc&Hr&<-&<-). exists c. split; [|done].
    destruct (Constraint_GetAllowedFiles c) as [rs|]; [|by apply elem_of_nil in Hr].
    apply list_elem_of_bind. exists r. split; [|done].
    apply String.eqb_neq in Hn as ->. apply String.eqb_neq in Hs as ->. by left.
Qed.

(** The pure effect of a rule, for known checksums. *)
Definition apply_rule (H : string -> string) (s : gmap string violatedFile * gset string)
    (rule : string * string) : gmap string violatedFile * gset string :=
  if String.eqb (H rule.1) rule.2 then (s.1, {[ rule.1 ]} ∪ s.2)
  else (<[rule.1 := mkViolatedFileEntry rule.1 rule.2 (H rule.1)]> s.1, s.2).

Lemma apply_rules_spec H rules name :
  let s := fold_left (apply_rule H) rules (∅, ∅) in
  (name ∈ s.2 <-> (name, H name) ∈ rules) /\
  (s.1 !! name = None <-> forall sum, (name, sum) ∈ rules -> sum = H name) /\
  forall v, s.1 !! name = Some v ->
    violatedFile_name v = name /\ violatedFile_actualSha256Sum v = H name /\
    (name, violatedFile_expectedSha256Sum v) ∈ rules.
Proof.
  induction rules as [|[n sum] rules IH] using rev_ind.
  - cbn. split_and!; [set_solver|set_solver|done].
  - rewrite fold_left_app. cbn [fold_left].
    destruct (fold_left (apply_rule H) rules (∅, ∅)) as [vf af]. cbn in IH |- *.
    destruct IH as (Ha&Hn&Hv). unfold apply_rule. cbn [fst snd].
    destruct (String.eqb_spec (H n) sum) as [<-|Hne]; cbn [fst snd].
    + split_and!; [set_solver| |intros v Hvf; destruct (Hv v Hvf) as (?&?&?); set_solver].
      rewrite Hn. set_solver.
    + split; [set_solver|]. destruct (decide (n = name)) as [->|Hnn].
      * rewrite lookup_insert_eq. split; [split; [done|]|].
        -- intros Hall. destruct Hne. symmetry. apply Hall. set_solver.
        -- intros v [= <-]. cbn. set_solver.
      * rewrite lookup_insert_ne by done. split; [rewrite Hn; set_solver|].
        intros v Hvf. destruct (Hv v Hvf) as (?&?&?). set_solver.
Qed.

Section validation.
Context `{MR : MapRange} `{!MapRangeLaws MR} `{PM : PathMatch}.
Context {W : Type} (h : handler PodE W) (files : W -> gmap string string) `{!PodFiles h files}.

Lemma file_sum_run path w :
  exists w', run h (file_sum path) w = (Done (seen_sum (files w) path), w') /\ files w' = files w.
Proof.
  unfold file_sum, seen_sum. cbn.
  pose proof (open_file path w) as Ho. pose proof (files_frame _ (POpen path) w) as Hf.
  destruct (h _ (POpen path) w) as [[e|] w1]; cbn in *.
  - exists w1. split; [|done]. destruct (files w !! path); [|done]. destruct Ho as [_ Ho]. by discriminate Ho.
  - destruct (proj1 Ho eq_refl) as [c Hc].
    pose proof (copy_file path w1 c) as Hcp. rewrite Hf in Hcp. specialize (Hcp Hc).
    pose proof (files_frame _ (PCopy path) w1) as Hf2.
    destruct (h _ (PCopy path) w1) as [r w2]. cbn in *. exists w2. rewrite Hcp, Hc, Hf2. done.
Qed.

Lemma validate_rules_run rules s w :
  exists w', run h (for_each rules s validate_rule) w =
    (Done (fold_left (apply_rule (seen_sum (files w))) rules s), w') /\ files w' = files w.
Proof.
  revert s w. induction rules as [|[n sum] rules IH]; intros [vf af] w; [by exists w|].
  cbn [for_each fold_left]. rewrite run_bind. unfold validate_rule at 1. rewrite run_bind.
  destruct (file_sum_run n w) as (w1&->&Hw1). unfold apply_rule at 2. cbn [fst snd].
  rewrite <- Hw1. destruct (String.eqb (seen_sum (files w1) n) sum); cbn [run]; apply IH.
Qed.

Lemma validateFileChecksums_run p w :
  exists m w', run h (validateFileChecksums p) w = (Done m, w') /\ files w' = files w /\
    (forall name, is_Some (m !! name) <-> violated (PodAgent_constraints p) (files w) name) /\
    forall name v, m !! name = Some v -> violatedFile_name v = name /\
      violatedFile_actualSha256Sum v = seen_sum (files w) name /\
      (name, violatedFile_expectedSha256Sum v) ∈ file_rules (PodAgent_constraints p).
Proof.
  unfold validateFileChecksums. rewrite run_bind.
  destruct (validate_rules_run (file_rules (PodAgent_constraints p)) (∅, ∅) w) as (w1&->&Hw1).
  pose proof (apply_rules_spec (seen_sum (files w)) (file_rules (PodAgent_constraints p))) as Hs.
  destruct (fold_left _ _ _) as [vf af]. cbn in Hs |- *.
  eexists _, w1. split; [reflexivity|]. split; [done|].
  assert (forall name v, filter (fun kv => kv.1 ∉ af) vf !! name = Some v <->
    vf !! name = Some v /\ name ∉ af) as Hf by (intros; by rewrite map_lookup_filter_Some).
  split.
  - intros name. destruct (Hs name) as (Ha&Hn&Hv). unfold violated. split.
    + intros [v [Hvf Hna]%Hf]. destruct (Hv v Hvf) as (_&_&Hin). split; [by eexists|].
      intros sum Hin' ->. by apply Hna, Ha.
    + intros [[sum Hin] Hall]. destruct (vf !! name) as [v|] eqn:Hvf.
      * exists v. apply Hf. split; [done|]. intros Hin'%Ha. by eapply Hall.
      * exfalso. apply (Hall sum Hin). by apply Hn.
  - intros name v [Hvf _]%Hf. by apply Hs.
Qed.

(** What a report lists: every violated file once, with the checksum seen. *)
Definition lists_violated (constraints : slice (ptr Constraint)) (fs : gmap string string)
    (vf : list (ptr ViolatedFile)) : Prop :=
  NoDup (ViolatedFile_GetName <$> vf) /\
  (forall name, name ∈ ViolatedFile_GetName <$> vf <-> violated constraints fs name) /\
  forall f, f ∈ vf -> ViolatedFile_GetActualSha256Sum f = seen_sum fs (ViolatedFile_GetName f).

Lemma validate_reports p w :
  exists m w', run h (validateFileChecksums p) w = (Done m, w') /\ files w' = files w /\
    (m = ∅ -> forall name, ~ violated (PodAgent_constraints p) (files w) name) /\
    lists_violated (PodAgent_constraints p) (files w) (file_reports m).
Proof.
  destruct (validateFileChecksums_run p w) as (m&w1&Hr&Hw1&Hdom&Hv). exists m, w1. split_and!; [done|done| |].
  { intros -> name Hviol%Hdom. by apply lookup_empty_is_Some in Hviol. }
  assert (ViolatedFile_GetName <$> file_reports m = (map_range m).*1) as Hn.
  { unfold file_reports. rewrite <- list_fmap_compose. unfold compose. cbn.
    apply list_fmap_ext. intros i [k v] Hi%list_elem_of_lookup_2. cbn.
    apply elem_of_map_range in Hi. by apply Hv. }
  unfold lists_violated. rewrite Hn. split_and!.
  - rewrite (map_range_perm _ m). apply NoDup_fst_map_to_list.
  - intros name. rewrite <- Hdom, list_elem_of_fmap. split.
    + intros ([k v]&->&Hin). apply elem_of_map_range in Hin. by exists v.
    + intros [v Hin]. exists (name, v). split; [done|]. by apply elem_of_map_range.
  - intros f ([k v]&->&Hin)%list_elem_of_fmap. cbn. apply elem_of_map_range in Hin.
    by destruct (Hv k v Hin) as (->&->&_).
Qed.

(** What a run asks of the server. *)
Definition pod_ingested (tr : list (event PodE)) : list IngestEventRequest :=
  omap (fun v => match projT2 v with PEvent (IngestEvent r) => Some r | _ => None end) tr.

Definition pod_added (tr : list (event PodE)) : list AddConstraintRequest :=
  omap (fun v => match projT2 v with PConfig (AddConstraint r) => Some r | _ => None end) tr.

Definition local_call {X} (e : PodE X) : Prop :=
  match e with PConfig _ | PEvent _ => False | _ => True end.

Lemma local_trace (tr : list (event PodE)) :
  Forall (fun v => local_call (projT2 v)) tr -> pod_ingested tr = [] /\ pod_added tr = [].
Proof.
  induction 1 as [|[X e] tr He _ [IH1 IH2]]; [done|].
  unfold pod_ingested, pod_added in *. cbn in *. by destruct e.
Qed.

Definition local_prog {A} (p : prog PodE A) : Prop :=
  sat (fun X e => local_call e) (fun _ _ _ => True) (fun _ => True) p.

Lemma local_prog_trace {A} (p : prog PodE A) w :
  local_prog p -> pod_ingested (trace h p w) = [] /\ pod_added (trace h p w) = [].
Proof.
  intros Hp. apply local_trace.
  by destruct (sat_run (fun X e => local_call e) (fun _ _ _ => True) h (fun _ => True) _ p w
                 ltac:(auto) Hp I) as (_&_&?).
Qed.

Lemma file_sum_local path : local_prog (file_sum path).
Proof. split; [done|]. intros [e|] _; cbn; [done|]. split; [done|]. by intros r _. Qed.

Lemma validate_local p : local_prog (validateFileChecksums p).
Proof.
  unfold local_prog, validateFileChecksums. apply sat_bind.
  eapply sat_mono; [|apply (sat_for_each _ _ (fun _ => True) (fun _ => True)); [done|]].
  - by intros [[vf af]|c].
  - intros [n sum] [vf af] _ _. unfold validate_rule. apply sat_bind.
    eapply sat_mono; [|apply file_sum_local]. intros [a|c] _; [|done]. by destruct (String.eqb a sum).
Qed.

(** C31. A threat scan reports exactly the violated files: once constraints are
    known, a turn of the loop sends nothing when no file is violated, and else
    one violation event of this pod that lists every violated file once, with
    the checksum that was seen.  A file is violated when rules name it and none
    has its checksum; a file that cannot be opened counts as empty. *)
Theorem threat_scan_reports_exactly p w :
  PodAgent_constraintsInitialized p = true ->
  let tr := trace h (loopValidateFileChecksums_body p) w in
  let is_violated := violated (PodAgent_constraints p) (files w) in
  (run h (loopValidateFileChecksums_body p) w).1 = Done tt /\
  ((pod_ingested tr = [] /\ forall name, ~ is_violated name) \/
   exists e t vf, pod_ingested tr = [mkIngestEventRequest (Some e)] /\
     Event_Type e = EventTypeViolation /\ Event_Targets e = Some [Some t] /\
     Target_Pod t = Some (mkPod (PodAgent_podUID p) (PodAgent_namespace p) (PodAgent_podName p)
                                (PodAgent_podLabels p)) /\
     Target_ViolatedFiles t = Some vf /\
     NoDup (ViolatedFile_GetName <$> vf) /\
     (forall name, name ∈ ViolatedFile_GetName <$> vf <-> is_violated name) /\
     forall f, f ∈ vf ->
       ViolatedFile_GetActualSha256Sum f = seen_sum (files w) (ViolatedFile_GetName f)).
Proof.
  intros Hinit. unfold loopValidateFileChecksums_body. rewrite Hinit. cbn [negb].
  rewrite run_bind, trace_bind. unfold pod_ingested. rewrite omap_app.
  fold (pod_ingested (trace h (validateFileChecksums p) w)).
  destruct (local_prog_trace _ w (validate_local p)) as [-> _].
  destruct (validate_reports p w) as (m&w1&->&_&Hnone&Hvf). cbn [app].
  case_decide as Hm; [by split; [|left; split; [|apply Hnone]]|].
  unfold ReportViolatedFilesToClusterAgent. cbn.
  destruct (h _ PNow w1) as [now w2]. cbn. destruct (h _ (PEvent _) w2) as [a w3]. cbn.
  split; [done|]. right. do 3 eexists. split; [reflexivity|]. cbn. do 4 (split; [reflexivity|]). exact Hvf.
Qed.

(** ** Registration *)

Lemma matchLabels_run labels :
  Forall is_Some (elems labels) ->
  matchLabelsFromLabels labels =
    Ret (Some ((fun l => Some (mkMatchLabel (Label_GetKey l) (Label_GetValue l))) <$> elems labels)).
Proof.
  intros Hl. unfold matchLabelsFromLabels.
  assert (forall acc, for_each (elems labels) acc (fun l acc =>
      l <- deref "label" l;; Ret (acc ++ [Some (mkMatchLabel (Label_Key l) (Label_Value l))])) =
    Ret (E := PodE)
      (acc ++ ((fun l => Some (mkMatchLabel (Label_GetKey l) (Label_GetValue l))) <$> elems labels))) as H.
  { induction Hl as [|l ls [x ->] _ IH]; intros acc; cbn; [by rewrite app_nil_r|].
    rewrite IH. by rewrite <- app_assoc. }
  by rewrite H.
Qed.

Lemma deleteConstraint_run p prefix w :
  exists r w', run h (deleteConstraintByNamePrefix p prefix) w = (Done r, w') /\ files w' = files w /\
    pod_added (trace h (deleteConstraintByNamePrefix p prefix) w) = [].
Proof.
  unfold deleteConstraintByNamePrefix.
  set (body := fun (c : ptr Constraint) (_ : unit) => _).
  assert (forall cs w, exists r w', run h (for_range cs tt body) w = (Done r, w') /\ files w' = files w /\
    pod_added (trace h (for_range cs tt body) w) = []) as H.
  { induction cs as [|c cs IH]; intros w0; [by exists (inl tt), w0|]. cbn. unfold body at 1 3.
    destruct (HasPrefix (Constraint_GetName c) prefix); cbn; [|apply IH].
    pose proof (files_frame _ (PConfig (RemoveConstraint (mkRemoveConstraintRequest
      (PodAgent_namespace p) (Constraint_GetName c)))) w0) as Hf.
    destruct (h _ (PConfig _) w0) as [[resp [e|]] w1]; cbn in *.
    - by exists (inr e), w1.
    - destruct (IH w1) as (r&w2&Hr&Hw2&Ha). exists r, w2. by rewrite Hr, Hw2, Hf. }
  destruct (H (elems (PodAgent_constraints p)) w) as (r&w1&Hr&Hw1&Ha).
  rewrite run_bind, trace_bind, Hr. unfold pod_added in *. rewrite omap_app, Ha.
  destruct r; cbn; eauto.
Qed.

Lemma register_file_run p path sum w :
  Forall is_Some (elems (PodAgent_podLabels p)) -> String.length sum = 64 ->
  exists w', run h (register_file p path sum) w = (Done tt, w') /\ files w' = files w /\
    pod_added (trace h (register_file p path sum) w) =
      [mkAddConstraintRequest (Some (mkConstraint KindConstraint (PodAgent_namespace p)
         (PodAgent_podName p +:+ "-" +:+ str_take 10 (sha256_hex path) +:+ "-" +:+ str_take 10 sum)
         (Some (mkSelector (Some ((fun l => Some (mkMatchLabel (Label_GetKey l) (Label_GetValue l)))
                                    <$> elems (PodAgent_podLabels p)))))
         None (Some [Some (mkAllowedFileRule path (Some sum))])))].
Proof.
  intros Hl Hs. unfold register_file, constraint_prefix, createConstraintWithFileRule.
  rewrite !slice_to_ok by (rewrite ?sha256_hex_length, ?Hs; lia). rewrite matchLabels_run by done. cbn.
  pose proof (files_frame _ (PConfig (AddConstraint (mkAddConstraintRequest (Some (mkConstraint KindConstraint
    (PodAgent_namespace p)
    ((PodAgent_podName p +:+ "-" +:+ str_take 10 (sha256_hex path) +:+ "-") +:+ str_take 10 sum)
    (Some (mkSelector (Some ((fun l => Some (mkMatchLabel (Label_GetKey l) (Label_GetValue l)))
                                    <$> elems (PodAgent_podLabels p)))))
    None (Some [Some (mkAllowedFileRule path (Some sum))])))))) w) as Hf.
  destruct (h _ (PConfig _) w) as [a w1]. cbn in *. exists w1. split; [done|]. split; [done|].
  by rewrite !app_assoc_s.
Qed.

(** C32. Registering a file settles it.  For a file that no ignore pattern
    matches: when its checksum is the one last registered, the server is not
    asked to add anything; else exactly one constraint is added, of the agent's
    namespace and with a name fixed by pod, path and checksum, and with that
    constraint, whatever the others, the file is not violated as long as its
    content stays. *)
Theorem register_walk_settles p path w :
  path <> "" -> Forall is_Some (elems (PodAgent_podLabels p)) ->
  existsb (fun pattern => filepath_Match pattern path)
    (elems (PodAgent_registerFileIgnorePaths p)) = false ->
  let tr := trace h (register_walk p (registeredSha256Sums p) (path, Some false)) w in
  exists w', run h (register_walk p (registeredSha256Sums p) (path, Some false)) w = (Done tt, w') /\
    files w' = files w /\
    if decide (registeredSha256Sums p !! path = Some (seen_sum (files w) path))
    then pod_added tr = []
    else exists c, pod_added tr = [mkAddConstraintRequest (Some c)] /\
      Constraint_Namespace c = PodAgent_namespace p /\
      Constraint_Name c = PodAgent_podName p +:+ "-" +:+ str_take 10 (sha256_hex path) +:+ "-" +:+
                          str_take 10 (seen_sum (files w) path) /\
      forall constraints files', Some c ∈ elems constraints -> files' !! path = files w !! path ->
        ~ violated constraints files' path.
Proof.
  intros Hpath Hl Hign. unfold register_walk. cbn [deref bind]. rewrite Hign.
  rewrite run_bind, trace_bind. unfold pod_added. rewrite omap_app.
  fold (pod_added (trace h (file_sum path) w)).
  destruct (local_prog_trace _ w (file_sum_local path)) as [_ ->].
  destruct (file_sum_run path w) as (w1&->&Hw1). cbn [app].
  set (sum := seen_sum (files w) path).
  assert (String.length sum = 64) as Hlen by apply sha256_hex_length.
  assert (forall w2 tr, files w2 = files w -> pod_added tr = [] ->
    exists w', run h (register_file p path sum) w2 = (Done tt, w') /\ files w' = files w /\
      exists c, pod_added (tr ++ trace h (register_file p path sum) w2) = [mkAddConstraintRequest (Some c)] /\
      Constraint_Namespace c = PodAgent_namespace p /\
      Constraint_Name c = PodAgent_podName p +:+ "-" +:+ str_take 10 (sha256_hex path) +:+ "-" +:+
                          str_take 10 sum /\
      forall constraints files', Some c ∈ elems constraints -> files' !! path = files w !! path ->
        ~ violated constraints files' path) as Hreg.
  { intros w2 tr Hw2 Htr. destruct (register_file_run p path sum w2 Hl Hlen) as (w3&Hr&Hw3&Ha).
    exists w3. split; [done|]. split; [by rewrite Hw3|]. unfold pod_added in *.
    rewrite omap_app, Htr, Ha. eexists. do 3 (split; [reflexivity|]).
    intros cs files' Hin Hf [_ Hno]. apply (Hno sum).
    - apply elem_of_file_rules. split; [done|]. split; [by intros Hs; rewrite Hs in Hlen|].
      eexists _, (Some (mkAllowedFileRule path (Some sum))). split; [exact Hin|]. cbn.
      split; [by left|done].
    - unfold sum, seen_sum. by rewrite Hf. }
  destruct (registeredSha256Sums p !! path) as [expected|] eqn:Hsum.
  - destruct (String.eqb_spec sum expected) as [->|Hne]; cbn [negb].
    + rewrite decide_True by done. by exists w1.
    + rewrite decide_False by congruence.
      unfold constraint_prefix at 1 2. rewrite slice_to_ok by (rewrite sha256_hex_length; lia).
      cbn [bind]. rewrite run_bind, trace_bind.
      match goal with |- context [deleteConstraintByNamePrefix p ?pre] =>
        destruct (deleteConstraint_run p pre w1) as (r&w2&->&Hw2&Ha) end.
      apply Hreg; [by rewrite Hw2|done].
  - rewrite decide_False by congruence. apply (Hreg w1 []); [done|done].
Qed.
End validation.

(** * Facts on the commands *)

Section panic.
Context `{PM : PathMatch}.
Context {W : Type} (h : handler PodE W).

(** A registering agent that is given no paths panics: the empty flag gives
    one path, the empty one, of which the walk has no entry - and the entry is
    used without looking whether there is one. *)
Lemma register_without_paths_panics flags labelsFile hostname p w w' :
  flag_registerFilePaths flags = "" ->
  configure_register flags labelsFile hostname = inl p ->
  h _ (PWalkDir "") w = ([("", None)], w') ->
  run h (registerFileChecksums p) w = (Crashed (NilDeref "f"), w').
Proof.
  intros Hf Hc Hw. unfold configure_register in Hc.
  destruct (configure_common _ _ _ _) as [q|e]; [|done]. injection Hc as <-.
  unfold registerFileChecksums. cbn [SetRegisterFilePaths SetRegisterFileIgnorePaths
    SetFileValidationInterval PodAgent_registerFilePaths]. rewrite Hf.
  change (elems (Some (TrimSpace <$> Split "" ","))) with [""]. cbn. by rewrite Hw.
Qed.
End panic.

(** A line of the downward API labels file. *)
Definition render_label (l : Label) : string :=
  Label_Key l +:+ String "="%char (String "034"%char (Label_Value l +:+ String "034"%char "")).

Definition render_labels (labels : list Label) : string :=
  Join ((render_label <$> labels) ++ [""]) (String "010"%char "").

(** Keys and values as Kubernetes has them: no '=', quotes or line breaks. *)
Definition label_ok (l : Label) : Prop :=
  Contains (Label_Key l) (String "="%char "") = false /\
  Contains (Label_Key l) (String "010"%char "") = false /\
  Contains (Label_Value l) (String "034"%char "") = false /\
  Contains (Label_Value l) (String "010"%char "") = false /\
  String.length (render_label l) < MaxScanTokenSize.

Lemma drop_cr_snoc s c : c <> "013"%char -> drop_cr (s +:+ String c "") = s +:+ String c "".
Proof.
  intros Hc. induction s as [|d s IH]; cbn.
  - by destruct (Ascii.eqb_spec c "013"%char).
  - rewrite IH. by destruct (s +:+ String c "") eqn:Hs; [destruct s|].
Qed.

Lemma take_lines_cons l ls :
  ls <> [] -> String.length l < MaxScanTokenSize -> take_lines (l :: ls) = drop_cr l :: take_lines ls.
Proof.
  intros Hne Hl%Nat.ltb_lt. destruct ls as [|l' ls]; [done|]. cbn [take_lines]. by rewrite Hl.
Qed.

Lemma take_lines_render labels :
  Forall label_ok labels ->
  take_lines ((render_label <$> labels) ++ [""]) = render_label <$> labels.
Proof.
  induction 1 as [|l labels Hl _ IH]; [done|]. rewrite fmap_cons. cbn [app].
  destruct Hl as (_&_&_&_&Hlen). rewrite take_lines_cons; [|by destruct labels|done].
  rewrite IH. f_equal. unfold render_label.
  change (String "="%char (String "034"%char ?v)) with
    ((String "="%char (String "034"%char "")) +:+ v).
  rewrite <- !app_assoc_s. by apply drop_cr_snoc.
Qed.

(** The label file round trip: from the file that lists labels the way the
    downward API does, both commands read exactly those labels, in order;
    without any label they fail. *)
Lemma readLabelsFromFile_render labels :
  Forall label_ok labels ->
  readLabelsFromFile (inl (render_labels labels)) =
    match labels with
    | [] => inr (PlainError "no labels found in file")
    | _ => inl (Some <$> labels)
    end.
Proof.
  intros Hl. unfold readLabelsFromFile, ScanLines, render_labels. rewrite Split_Join.
  - rewrite take_lines_render by done.
    assert (omap label_of_line (render_label <$> labels) = Some <$> labels) as ->; [|by destruct labels].
    clear -Hl. induction Hl as [|[k v] labels (Hk&_&Hv&_) _ IH]; [done|]. cbn in Hk, Hv.
    cbn [fmap list_fmap omap list_omap]. unfold label_of_line at 1, render_label at 1. cbn [Label_Key Label_Value].
    rewrite Cut_app by done. rewrite Trim_quoted by done. f_equal. exact IH.
  - by destruct labels.
  - apply Forall_app. split; [|by repeat constructor]. apply Forall_fmap.
    eapply Forall_impl; [exact Hl|]. intros l (_&Hk&_&Hv&_). unfold compose, render_label.
    apply Contains_app_false. split; [done|]. rewrite !Contains_cons_false. split_and!; [done|done|].
    apply Contains_app_false. split; [done|]. by rewrite Contains_cons_false.
Qed.

(** * A concrete pod *)

(** Patterns without wildcards. *)
#[local] Instance literal_match : PathMatch := String.eqb.

(** A file system; an empty root cannot be read, every other one is a file. *)
Definition pod_env : handler PodE (gmap string string) := fun X e w =>
  match e in PodE X return X * gmap string string with
  | PConfig e => (config_down _ e, w)
  | PEvent e => (event_down _ e, w)
  | PNow => (0%Z, w)
  | POpen path => (match w !! path with
                   | Some _ => None | None => Some (PlainError "no such file or directory") end, w)
  | PCopy path => ((default "" (w !! path), None), w)
  | PWalkDir root => ([(root, if String.eqb root "" then None else Some false)], w)
  end.

#[export] Instance pod_env_files : PodFiles pod_env (fun w => w).
Proof.
  split.
  - intros path w. cbn. destruct (w !! path); split; first [done|by eexists|by intros [??]].
  - intros path w c Hc. cbn. by rewrite Hc.
  - by intros X [] w.
Qed.

Definition ex_files : gmap string string := {[ "/etc/app.conf" := "changed"; "/etc/hosts" := "h" ]}.

Definition file_constraint (name path content : string) : ptr Constraint :=
  Some (mkConstraint KindConstraint "default" name None None
    (Some [Some (mkAllowedFileRule path (Some (sha256_hex content)))])).

Definition ex_pod_agent : PodAgent :=
  mkPodAgent "web" "uid-1" (Some [Some (mkLabel "app" "web")]) "default"
    (Some [file_constraint "a" "/etc/app.conf" "original"; file_constraint "b" "/etc/hosts" "h"])
    true 3000000000 true (Some ["/etc/app.conf"]) (Some []).

Lemma threat_scan_reports_exactly_witness :
  let tr := trace pod_env (loopValidateFileChecksums_body ex_pod_agent) ex_files in
  (pod_ingested tr = [] /\ forall name, ~ violated (PodAgent_constraints ex_pod_agent) ex_files name) \/
  exists e, pod_ingested tr = [mkIngestEventRequest (Some e)] /\ Event_Type e = EventTypeViolation.
Proof.
  destruct (threat_scan_reports_exactly pod_env (fun w => w) ex_pod_agent ex_files eq_refl)
    as [_ [H|(e&t&vf&He&Hty&_)]]; [left; exact H|right; exists e; exact (conj He Hty)].
Defined.

Lemma register_walk_settles_witness :
  exists w', run pod_env (register_walk ex_pod_agent (registeredSha256Sums ex_pod_agent)
      ("/etc/app.conf", Some false)) ex_files = (Done tt, w') /\ w' = ex_files.
Proof.
  destruct (register_walk_settles pod_env (fun w => w) ex_pod_agent "/etc/app.conf" ex_files)
    as (w'&Hr&Hw&_).
  - discriminate.
  - repeat constructor. by eexists.
  - reflexivity.
  - exists w'. exact (conj Hr Hw).
Defined.

(** The flags the webhook passes for a pod without volumes of its own. *)
Definition ex_flags : pod_agent_flags :=
  mkPodAgentFlags "/etc/podinfo/labels" "web" "uid-1" "default" "files" "" "" 3000000000.

Lemma register_without_paths_panics_witness :
  exists p, configure_register ex_flags (inl (render_labels [mkLabel "app" "web"])) (inl "host") = inl p /\
    run pod_env (registerFileChecksums p) ex_files = (Crashed (NilDeref "f"), ex_files).
Proof.
  eexists. split; [reflexivity|].
  eapply (register_without_paths_panics pod_env ex_flags (inl (render_labels [mkLabel "app" "web"])) (inl "host"));
    reflexivity.
Defined.

Lemma readLabelsFromFile_render_witness :
  readLabelsFromFile (inl (render_labels [mkLabel "app" "web"; mkLabel "pod-template-hash" "5d9"])) =
    inl (Some <$> [mkLabel "app" "web"; mkLabel "pod-template-hash" "5d9"]).
Proof.
  apply (readLabelsFromFile_render [mkLabel "app" "web"; mkLabel "pod-template-hash" "5d9"]).
  constructor; [|constructor; [|constructor]];
    (split; [reflexivity|]; split; [reflexivity|]; split; [reflexivity|]; split; [reflexivity|];
     apply Nat.ltb_lt; vm_compute; reflexivity).
Defined.
