(* ===== verification/TarianCtl.v ===== *)
(** The command line client ([cmd/tarianctl]): the global flags, and the add,
    get, import and remove commands.  A command is a program over the calls it
    makes to tarian-server, the clock and its output.  What cobra and pflag do
    (parsing the command line) and what the YAML library does are not modelled:
    a command starts from the values of its flags, and rendering is a
    parameter.  A command starts connected here; [Commands] connects it.

    The theorems: exactly which constraint is built from a violated pod, and
    that deduplication keeps at most the last rule; match labels survive being
    printed and read back; labels that do not parse widen a resource to its
    whole namespace; import and remove work through their input in order, up
    to the first error. *)

From S2P Require Import Prelude GoStrings Types Labels NodeAgent Events Alerts ClusterAgent Containers Json GoTime.

(** [yaml.Marshal] of gopkg.in/yaml. *)
Class Yaml := {
  yaml_Marshal_constraint : ptr Constraint -> string + error;
  yaml_Marshal_action : ptr Action -> string + error;
}.

(** The calls of a command: the server's services, [time.Now()] in
    nanoseconds, and the output that was asked for: lines given to the logger
    and tables given to github.com/olekukonko/tablewriter. *)
Inductive CtlE : Type -> Type :=
| CtlConfig {X} (e : ConfigE X) : CtlE X
| CtlEvent {X} (e : EventE X) : CtlE X
| CtlNow : CtlE Z
| CtlPrint (s : string) : CtlE unit
| CtlTable (header : list string) (rows : list (list string)) : CtlE unit.

(** * Global flags ([cmd/flags]) *)

Record GlobalFlags := mkGlobalFlags {
  LogLevel : string;
  LogFormatter : string;
  ServerAddr : string;
  ServerTLSEnabled : bool;
  ServerTLSCAFile : string;
  ServerTLSInsecureSkipVerify : bool;
}.

Definition defaultServerAddress := "localhost:50051".

(** The values of the flags nobody sets. *)
Definition SetGlobalFlags : GlobalFlags :=
  mkGlobalFlags "info" "text" defaultServerAddress false "" true.

Definition ValidateGlobalFlags (globalFlags : GlobalFlags) : option error :=
  let validLogLevels := ["debug"; "info"; "warn"; "warning"; "error"; "fatal"] in
  let validLogFormatters := ["json"; "text"] in
  if negb (existsb (String.eqb (LogLevel globalFlags)) validLogLevels)
  then Some (PlainError ("invalid log level: " +:+ LogLevel globalFlags))
  else if negb (existsb (String.eqb (LogFormatter globalFlags)) validLogFormatters)
  then Some (PlainError ("invalid log formatter: " +:+ LogFormatter globalFlags))
  else if ServerTLSEnabled globalFlags && String.eqb (ServerTLSCAFile globalFlags) ""
  then Some (PlainError "server TLS enabled but CA file is not provided")
  else None.

(** [os.Getenv]: an unset variable reads as the empty string. *)
Definition Getenv (env : gmap string string) (k : string) : string := default "" (env !! k).

Definition GetFlagValuesFromEnvVar (env : gmap string string) (f : GlobalFlags) : GlobalFlags :=
  let serverAddressEnv := Getenv env "TARIAN_SERVER_ADDRESS" in
  let addr :=
    if String.eqb (ServerAddr f) defaultServerAddress || String.eqb (ServerAddr f) ""
    then if negb (String.eqb serverAddressEnv "") then serverAddressEnv else ServerAddr f
    else ServerAddr f in
  let tls := if String.eqb (Getenv env "TARIAN_TLS_ENABLED") "true" then true
             else ServerTLSEnabled f in
  let serverTLSCAFileEnv := Getenv env "TARIAN_TLS_CA_FILE" in
  let ca := if String.eqb (ServerTLSCAFile f) ""
            then if negb (String.eqb serverTLSCAFileEnv "") then serverTLSCAFileEnv
                 else ServerTLSCAFile f
            else ServerTLSCAFile f in
  let insecure := if String.eqb (Getenv env "TARIAN_TLS_INSECURE_SKIP_VERIFY") "false" then false
                  else ServerTLSInsecureSkipVerify f in
  mkGlobalFlags (LogLevel f) (LogFormatter f) addr tls ca insecure.

(** [PersistentPreRunE] of the root command: validate, then read the
    environment. *)
Definition PersistentPreRunE (env : gmap string string) (f : GlobalFlags) : GlobalFlags + error :=
  match ValidateGlobalFlags f with
  | Some err => inr err
  | None => inl (GetFlagValuesFromEnvVar env f)
  end.

(** * Reading flag values ([cmd/add]) *)

(** The double quote. *)
Definition quote_mark : string := String "034"%char "".

(** [key=value] texts; without '=' or with nothing after it, [continue]. *)
Definition match_label_of (s : string) : option (ptr MatchLabel) :=
  let idx := Index s "=" in
  if ((idx <? 0) || (idx =? Z.of_nat (String.length s) - 1))%Z then None
  else
    let key := str_take (Z.to_nat idx) s in
    let value := Trim (str_drop (Z.to_nat (idx + 1)) s) quote_mark in
    Some (Some (mkMatchLabel key value)).

(** A slice that is only handed out when it holds something. *)
Definition nil_if_empty {A} (l : list A) : slice A :=
  match l with [] => None | _ => Some l end.

Definition matchLabelsFromString (strLabels : slice string) : slice (ptr MatchLabel) :=
  match strLabels with
  | None => None
  | Some strLabels => nil_if_empty (omap match_label_of strLabels)
  end.

Definition allowedProcessesFromString (strProcesses : slice string) : slice (ptr AllowedProcessRule) :=
  match strProcesses with
  | None => None
  | Some strProcesses =>
      nil_if_empty ((fun s => Some (mkAllowedProcessRule (Some (Trim s (quote_mark +:+ " "))))) <$> strProcesses)
  end.

Definition allowed_file_of (s : string) : option (ptr AllowedFileRule) :=
  let idx := Index s "=" in
  if ((idx <? 0) || (idx =? Z.of_nat (String.length s) - 1))%Z then None
  else
    let name := Trim (str_take (Z.to_nat idx) s) quote_mark in
    let value := Trim (str_drop (Z.to_nat (idx + 1)) s) quote_mark in
    Some (Some (mkAllowedFileRule name (Some value))).

Definition allowedFilesFromString (strFiles : slice string) : slice (ptr AllowedFileRule) :=
  match strFiles with
  | None => None
  | Some strFiles => nil_if_empty (omap allowed_file_of strFiles)
  end.

(** * Adding constraints *)

Record constraintsCommand := mkConstraintsCommand {
  cc_name : string;
  cc_namespace : string;
  cc_matchLabels : slice string;
  cc_allowedProcesses : slice string;
  cc_allowedFileSha256Sums : slice string;
  cc_fromViolatedPod : string;
  cc_dryRun : bool;
}.

(** The command before its command line is read: the defaults of its flags. *)
Definition newAddConstraintCommand : constraintsCommand :=
  mkConstraintsCommand "" "default" (Some []) (Some []) (Some []) "" false.

(** Go reads [for _, x := range s] from the backing array of [s], and
    [append(s[:0], x)] writes into that array: a slice of the loop is its
    backing array with a length. *)
Definition dedup_step {A} (dup : A -> bool) (s : list A * nat) (i : nat) : list A * nat :=
  match s.1 !! i with
  | None => s
  | Some x => if dup x then (s.1, 0) else (<[0 := x]> s.1, 1)
  end.

Definition dedup_loop {A} (dup : A -> bool) (rules : list A) : list A :=
  let s := fold_left (dedup_step dup) (seq 0 (length rules)) (rules, length rules) in
  take s.2 s.1.

(** The inner loops: some constraint has an equal rule. *)
Definition process_rule_known (constraints : list (ptr Constraint)) (r : ptr AllowedProcessRule)
  : bool :=
  existsb (fun c => existsb (fun p =>
      String.eqb (AllowedProcessRule_GetRegex r) (AllowedProcessRule_GetRegex p))
    (elems (Constraint_GetAllowedProcesses c))) constraints.

Definition file_rule_known (constraints : list (ptr Constraint)) (r : ptr AllowedFileRule) : bool :=
  existsb (fun c => existsb (fun f =>
      String.eqb (AllowedFileRule_GetName r) (AllowedFileRule_GetName f) &&
      String.eqb (AllowedFileRule_GetSha256Sum r) (AllowedFileRule_GetSha256Sum f))
    (elems (Constraint_GetAllowedFiles c))) constraints.

Definition deduplicateRules (allowedProcesses : list (ptr AllowedProcessRule))
    (allowedFiles : list (ptr AllowedFileRule)) (constraints : list (ptr Constraint))
  : list (ptr AllowedProcessRule) * list (ptr AllowedFileRule) :=
  (dedup_loop (process_rule_known constraints) allowedProcesses,
   dedup_loop (file_rule_known constraints) allowedFiles).

(** A target of the pod: [target.GetPod() != nil] and its name. *)
Definition target_of_pod (podName : string) (target : ptr Target) : bool :=
  match Target_GetPod target with
  | None => false
  | Some _ => String.eqb (Pod_GetName (Target_GetPod target)) podName
  end.

Definition collectEventTargetsByPodName (events : list (ptr Event)) (podName : string)
  : list (ptr Target) :=
  events ≫= fun event => List.filter (target_of_pod podName) (elems (Event_GetTargets event)).

Definition process_rules (target : Target) : list (ptr AllowedProcessRule) :=
  (fun p => Some (mkAllowedProcessRule (Some (Process_GetName p)))) <$>
  elems (Target_ViolatedProcesses target).

Definition file_rules (target : Target) : list (ptr AllowedFileRule) :=
  (fun f => Some (mkAllowedFileRule (ViolatedFile_GetName f)
                    (Some (ViolatedFile_GetActualSha256Sum f)))) <$>
  elems (Target_ViolatedFiles target).

Definition ignoredLabel := "pod-template-hash".

Definition match_labels_of_pod (labels : list (ptr Label)) : list (ptr MatchLabel) :=
  (fun l => Some (mkMatchLabel (Label_GetKey l) (Label_GetValue l))) <$>
  List.filter (fun l => negb (String.eqb (Label_GetKey l) ignoredLabel)) labels.

Definition build_error (e : error) : ptr Constraint * option error :=
  (None, Errorf "buildConstraintFromViolatedPod" (Some e)).

Definition buildConstraintFromViolatedPod (c : constraintsCommand) (podName : string)
  : prog CtlE (ptr Constraint * option error) :=
  r <- call (CtlEvent (GetEvents (mkGetEventsRequest "" 1000)));;
  let '(resp, err) := r in
  match err with
  | Some err => Ret (build_error err)
  | None =>
      let targets := match GetEventsResponse_GetEvents resp with
                     | Some events => collectEventTargetsByPodName events podName
                     | None => []
                     end in
      match targets with
      | [] => Ret (build_error (PlainError "zero target found"))
      | target0 :: _ =>
          allowedProcesses <- for_each targets [] (fun target acc =>
            t <- deref "target" target;; Ret (acc ++ process_rules t));;
          allowedFiles <- for_each targets [] (fun target acc =>
            t <- deref "target" target;; Ret (acc ++ file_rules t));;
          match Target_GetPod target0, Pod_GetLabels (Target_GetPod target0) with
          | None, _ => Ret (build_error (PlainError "no pod found"))
          | _, None => Ret (build_error (PlainError "no labels found"))
          | _, Some labels =>
              r <- call (CtlConfig (GetConstraints
                           (mkGetConstraintsRequest (cc_namespace c) (Some labels))));;
              let '(allowedProcesses, allowedFiles) :=
                match GetConstraintsResponse_GetConstraints r.1 with
                | Some constraints => deduplicateRules allowedProcesses allowedFiles constraints
                | None => (allowedProcesses, allowedFiles)
                end in
              match allowedProcesses, allowedFiles with
              | [], [] =>
                  Ret (None, Errorf "add constraints: buildConstraintFromViolatedPod"
                               (Some (PlainError "no allowed processes or files found")))
              | _, _ =>
                  constraintName <-
                    (if String.eqb (cc_name c) ""
                     then now <- call CtlNow;;
                          Ret (podName +:+ "-" +:+ Itoa (now / 1000000000)%Z)
                     else Ret (cc_name c));;
                  Ret (Some (mkConstraint KindConstraint (cc_namespace c) constraintName
                         (Some (mkSelector (Some (match_labels_of_pod labels))))
                         (Some allowedProcesses) (Some allowedFiles)), None)
              end
          end
      end
  end.

Section commands.
Context `{Yaml}.

Definition add_constraints_error (e : error) : option error := Errorf "add constraints" (Some e).

(** The tail of [constraintsCommand.run], with a request. *)
Definition send_constraint (c : constraintsCommand) (req : AddConstraintRequest)
  : prog CtlE (option error) :=
  if cc_dryRun c then
    match yaml_Marshal_constraint (AddConstraintRequest_GetConstraint (Some req)) with
    | inr err => Ret (add_constraints_error err)
    | inl d => call (CtlPrint d);;; Ret None
    end
  else
    match cc_allowedFileSha256Sums c, cc_allowedProcesses c, cc_matchLabels c with
    | None, None, _ => Ret (add_constraints_error (PlainError
        "no allowed processes or files found, use --allowed-processes or --allowed-file-sha256sums or both"))
    | _, _, None => Ret (add_constraints_error (PlainError "no match labels found, use --match-labels"))
    | _, _, _ =>
        r <- call (CtlConfig (AddConstraint req));;
        let '(response, err) := r in
        match err with
        | Some err => Ret (Errorf "add constraints: failed to add constraints" (Some err))
        | None =>
            if AddConstraintResponse_GetSuccess response then Ret None
            else Ret (add_constraints_error (PlainError "failed to add Constraint"))
        end
    end.

(** The constraint the flags describe. *)
Definition constraint_of_flags (c : constraintsCommand) : Constraint :=
  mkConstraint KindConstraint (cc_namespace c) (cc_name c)
    (Some (mkSelector (matchLabelsFromString (cc_matchLabels c))))
    (allowedProcessesFromString (cc_allowedProcesses c))
    (allowedFilesFromString (cc_allowedFileSha256Sums c)).

Definition add_constraint_run (c : constraintsCommand) : prog CtlE (option error) :=
  let fromViolatedPod := cc_fromViolatedPod c in
  if String.eqb fromViolatedPod "" && String.eqb (cc_name c) ""
  then Ret (add_constraints_error (PlainError
              "either constraint name or from-violated-pod is required"))
  else if negb (String.eqb fromViolatedPod "") && negb (String.eqb (cc_name c) "")
  then Ret (add_constraints_error (PlainError
              "constraint name and from-violated-pod cannot be used together"))
  else if negb (String.eqb fromViolatedPod "") then
    r <- buildConstraintFromViolatedPod c fromViolatedPod;;
    match r with
    | (_, Some err) => Ret (add_constraints_error err)
    | (Some constraint, None) => send_constraint c (mkAddConstraintRequest (Some constraint))
    | (None, None) => Ret None
    end
  else send_constraint c (mkAddConstraintRequest (Some (constraint_of_flags c))).

(** * Adding actions *)

Record actionCommand := mkActionCommand {
  ac_name : string;
  ac_namespace : string;
  ac_matchLabels : slice string;
  ac_action : string;
  ac_dryRun : bool;
  ac_onViolatedProcess : bool;
  ac_onViolatedFile : bool;
  ac_onFalcoAlert : string;
}.

Definition newAddActionCommand : actionCommand :=
  mkActionCommand "" "default" (Some []) "" false true true "".

(** The action the flags describe; [priority] is set when there is a Falco
    flag. *)
Definition action_of_flags (c : actionCommand) (onFalcoAlert : bool) (priority : FalcoPriority)
  : Action :=
  mkAction KindAction (ac_namespace c) (ac_name c)
    (Some (mkSelector (matchLabelsFromString (ac_matchLabels c))))
    (ac_onViolatedProcess c) (ac_onViolatedFile c) onFalcoAlert priority (ac_action c).

Definition send_action (c : actionCommand) (action : Action) : prog CtlE (option error) :=
  if ac_dryRun c then
    match yaml_Marshal_action (Some action) with
    | inr err => Ret (Errorf "add action" (Some err))
    | inl d => call (CtlPrint d);;; Ret None
    end
  else
    r <- call (CtlConfig (AddAction (mkAddActionRequest (Some action))));;
    let '(response, err) := r in
    match err with
    | Some err => Ret (Errorf "add action: failed to add action" (Some err))
    | None =>
        if AddActionResponse_GetSuccess response then Ret None
        else Ret (Errorf "add action" (Some (PlainError "failed to add action")))
    end.

Definition add_action_run (c : actionCommand) : prog CtlE (option error) :=
  if negb (String.eqb (ac_action c) "delete-pod")
  then Ret (Some (PlainError ("add action: invalid action: " +:+ ac_action c)))
  else if negb (String.eqb (ac_onFalcoAlert c) "") then
    if negb (existsb (String.eqb (ac_onFalcoAlert c)) ["alert"; "critical"; "emergency"])
    then Ret (Some (PlainError ("add action: invalid falco alert: " +:+ ac_onFalcoAlert c)))
    else send_action c (action_of_flags c true (FalcoPriorityFromString (ac_onFalcoAlert c)))
  else send_action c (action_of_flags c false 0%Z).

(** * Removing ([cmd/remove]) *)

(** The end of both commands: what was removed. *)
Definition removed_text (what : string) (none : string) (deleted : list string) : string :=
  match deleted with
  | [] => none +:+ newline
  | _ => "Successfully removed " +:+ what +:+ ": [" +:+ Join deleted " " +:+ "]" +:+ newline
  end.

Definition remove_constraints_run (namespace : string) (args : list string)
  : prog CtlE (option error) :=
  match args with
  | [] => Ret (Errorf "remove constraint" (Some (PlainError
            "please specify the name(s) of the constraint to be removed")))
  | _ =>
      r <- for_range args [] (fun name deletedConstraints =>
        r <- call (CtlConfig (RemoveConstraint (mkRemoveConstraintRequest namespace name)));;
        let '(response, err) := r in
        match err with
        | Some err => Ret (Return (Errorf "remove constraint" (Some err)))
        | None =>
            if RemoveConstraintResponse_GetSuccess response
            then Ret (Next (deletedConstraints ++ [name]))
            else Ret (Next deletedConstraints)
        end);;
      match r with
      | inr err => Ret err
      | inl deletedConstraints =>
          call (CtlPrint (removed_text "constraints" "No Constraints removed" deletedConstraints));;;
          Ret None
      end
  end.

Definition remove_actions_run (namespace : string) (args : list string)
  : prog CtlE (option error) :=
  match args with
  | [] => Ret (Errorf "remove action" (Some (PlainError
            "please specify the name(s) of the action to be removed")))
  | _ =>
      r <- for_range args [] (fun name deletedActions =>
        r <- call (CtlConfig (RemoveAction (mkRemoveActionRequest namespace name)));;
        let '(response, err) := r in
        match err with
        | Some err => Ret (Return (Errorf "remove action" (Some err)))
        | None =>
            if RemoveActionResponse_GetSuccess response
            then Ret (Next (deletedActions ++ [name]))
            else Ret (Next deletedActions)
        end);;
      match r with
      | inr err => Ret err
      | inl deletedActions =>
          call (CtlPrint (removed_text "actions" "No actions removed" deletedActions));;;
          Ret None
      end
  end.

(** * Importing ([cmd/import]) *)

(** An opened file: what successive [Decode] calls give before [io.EOF]. *)
Definition yaml_file := list (Constraint + error).

(** The body of the loop: a document, and how many were imported so far. *)
Definition import_document (decoded : Constraint + error) (imported : nat)
  : prog CtlE (flow nat (option error)) :=
  match decoded with
  | inr err => Ret (Return (Errorf "failed to decode yaml" (Some err)))
  | inl constraint =>
      r <- call (CtlConfig (AddConstraint (mkAddConstraintRequest (Some constraint))));;
      let '(response, err) := r in
      match err with
      | Some err => Ret (Return (Errorf "failed to add constraints" (Some err)))
      | None =>
          if AddConstraintResponse_GetSuccess response
          then Ret (Next (S imported)) else Ret (Next imported)
      end
  end.

Definition importFile (f : yaml_file) : prog CtlE (option error) :=
  r <- for_range f 0%nat import_document;;
  match r with
  | inr err => Ret err
  | inl 0 => call (CtlPrint "No constraints imported");;; Ret None
  | inl imported =>
      call (CtlPrint (Itoa (Z.of_nat imported) +:+ " constraint(s) imported successfully"));;;
      Ret None
  end.

(** Opening the arguments in order, and importing the opened files. *)
Definition open_file (a : string * (yaml_file + error)) (files : list yaml_file)
  : prog CtlE (flow (list yaml_file) (option error)) :=
  match a.2 with
  | inr err => Ret (Return (Errorf ("import: failed to open file " +:+ a.1) (Some err)))
  | inl f => Ret (Next (files ++ [f]))
  end.

Definition import_opened (f : yaml_file) (_ : unit) : prog CtlE (flow unit (option error)) :=
  err <- importFile f;;
  match err with
  | Some err => Ret (Return (Errorf "import" (Some err)))
  | None => Ret (Next tt)
  end.

(** The arguments are paths; [os.Open] gives a file or an error for each. *)
Definition import_run (args : list (string * (yaml_file + error))) : prog CtlE (option error) :=
  match args with
  | [] => Ret (Errorf "import" (Some (PlainError "specify file paths to import")))
  | _ =>
      files <- for_range args [] open_file;;
      match files with
      | inr err => Ret err
      | inl files =>
          r <- for_range files tt import_opened;;
          match r with
          | inr err => Ret err
          | inl _ => Ret None
          end
      end
  end.

(** * Getting ([cmd/get]) *)

(** The loops that write items with a separator, at index [i] of [n]. *)
Fixpoint write_items (sep : string) (i n : nat) (items : list string) : string :=
  match items with
  | [] => ""
  | item :: items' =>
      item +:+ (if (Z.of_nat i <? Z.of_nat n - 1)%Z then sep else "") +:+
      write_items sep (S i) n items'
  end.

Definition matchLabelsToString (labels : slice (ptr MatchLabel)) : string :=
  match elems labels with
  | [] => ""
  | ls => "matchLabels:" +:+ write_items "," 0 (length ls) (MatchLabel_text <$> ls)
  end.

Definition allowedProcessesToString (rules : slice (ptr AllowedProcessRule)) : string :=
  write_items "," 0 (length (elems rules))
    ((fun r => "regex:" +:+ AllowedProcessRule_GetRegex r) <$> elems rules).

Definition allowedFilesToString (rules : slice (ptr AllowedFileRule)) : string :=
  write_items "," 0 (length (elems rules))
    ((fun r => AllowedFileRule_GetName r +:+ ":" +:+ AllowedFileRule_GetSha256Sum r) <$> elems rules).

Definition formatActionTrigger (action : ptr Action) : string :=
  let str := if Action_GetOnViolatedProcess action then "onViolatedProcess" else "" in
  let str := if Action_GetOnViolatedFile action
             then str +:+ (if (0 <? String.length str)%nat then ", " else "") +:+ "onViolatedFile"
             else str in
  if Action_GetOnFalcoAlert action
  then str +:+ (if (0 <? String.length str)%nat then ", " else "") +:+ "onFalcoAlert=" +:+
       FalcoPriority_ToString (Action_GetFalcoPriority action)
  else str.

Definition constraint_row (c : ptr Constraint) : list string :=
  [ Constraint_GetNamespace c; Constraint_GetName c;
    matchLabelsToString (Selector_GetMatchLabels (Constraint_GetSelector c));
    allowedProcessesToString (Constraint_GetAllowedProcesses c);
    allowedFilesToString (Constraint_GetAllowedFiles c) ].

Definition constraintsTableOutput (constraints : slice (ptr Constraint)) : prog CtlE unit :=
  call (CtlTable ["Namespace"; "Constraint Name"; "Selector"; "Allowed Processes"; "Allowed Files"]
          (constraint_row <$> elems constraints)).

Definition action_row (a : ptr Action) : list string :=
  [ Action_GetNamespace a; Action_GetName a;
    matchLabelsToString (Selector_GetMatchLabels (Action_GetSelector a));
    formatActionTrigger a; Action_GetAction a ].

Definition actionsTableOutput (actions : slice (ptr Action)) : prog CtlE unit :=
  call (CtlTable ["Namespace"; "Action Name"; "Selector"; "Trigger"; "Action"]
          (action_row <$> elems actions)).

(** The loop of [constraintsYamlOutput] and [actionsYamlOutput]. *)
Definition yaml_output {A} (marshal : A -> string + error) (l : list A) : prog CtlE (option error) :=
  r <- for_range l tt (fun x _ =>
    match marshal x with
    | inr err => Ret (Return (Some err))
    | inl d => call (CtlPrint d);;; call (CtlPrint ("---" +:+ newline));;; Ret (Next tt)
    end);;
  match r with inr err => Ret err | inl _ => Ret None end.

Definition constraintsYamlOutput (constraints : slice (ptr Constraint)) : prog CtlE (option error) :=
  yaml_output yaml_Marshal_constraint (elems constraints).

Definition actionsYamlOutput (actions : slice (ptr Action)) : prog CtlE (option error) :=
  yaml_output yaml_Marshal_action (elems actions).

Definition get_constraints_run (output : string) : prog CtlE (option error) :=
  r <- call (CtlConfig (GetConstraints (mkGetConstraintsRequest "" None)));;
  let '(response, err) := r in
  match err with
  | Some err => Ret (Errorf "get constraints: failed to get constraints" (Some err))
  | None =>
      let constraints := GetConstraintsResponse_GetConstraints response in
      if String.eqb output "" then constraintsTableOutput constraints;;; Ret None
      else if String.eqb output "yaml" then
        err <- constraintsYamlOutput constraints;;
        match err with
        | Some err => Ret (Errorf "get constraints" (Some err))
        | None => Ret None
        end
      else Ret (Some (PlainError ("get constraints: invalid output format: " +:+ output)))
  end.

Definition get_actions_run (namespace output : string) : prog CtlE (option error) :=
  r <- call (CtlConfig (GetActions (mkGetActionsRequest
               (if negb (String.eqb namespace "") then namespace else "") None)));;
  let '(response, err) := r in
  match err with
  | Some err => Ret (Errorf "get actions: failed to get actions" (Some err))
  | None =>
      let actions := GetActionsResponse_GetActions response in
      if String.eqb output "" then actionsTableOutput actions;;; Ret None
      else if String.eqb output "yaml" then
        err <- actionsYamlOutput actions;;
        match err with
        | Some err => Ret (Errorf "get actions" (Some err))
        | None => Ret None
        end
      else Ret (Some (PlainError ("get actions: invalid output format: " +:+ output)))
  end.
End commands.

(** ** Events *)

(** Both [...ToString] functions loop like those of the alert dispatcher: a
    list is broken off after its eleventh item. *)
Definition get_violatedProcessesToString (processes : slice (ptr Process)) : string :=
  items_loop 0 (length (elems processes)) (process_text <$> elems processes).

Definition violated_file_text (f : ptr ViolatedFile) : string :=
  "name=" +:+ ViolatedFile_GetName f +:+ " actual-sha256=" +:+ ViolatedFile_GetActualSha256Sum f +:+
  " expected-sha256=" +:+ ViolatedFile_GetExpectedSha256Sum f.

Definition get_violatedFilesToString (violatedFiles : slice (ptr ViolatedFile)) : string :=
  items_loop 0 (length (elems violatedFiles)) (violated_file_text <$> elems violatedFiles).

Definition falcoAlertToString (f : ptr FalcoAlert) : string :=
  match f with
  | None => ""
  | Some _ => FalcoPriority_ToString (FalcoAlert_GetPriority f) +:+ ": " +:+ FalcoAlert_GetOutput f
  end.

Definition event_text (e : ptr Event) (t : ptr Target) : string :=
  (match Target_GetViolatedProcesses t with
   | Some _ => "violated processes" +:+ newline +:+
               get_violatedProcessesToString (Target_GetViolatedProcesses t)
   | None => "" end) +:+
  (match Target_GetViolatedFiles t with
   | Some _ => "violated files" +:+ newline +:+ get_violatedFilesToString (Target_GetViolatedFiles t)
   | None => "" end) +:+
  (match Target_GetFalcoAlert t with
   | Some _ => "falco alert" +:+ newline +:+ falcoAlertToString (Target_GetFalcoAlert t)
   | None => "" end) +:+
  (if String.eqb (Event_GetType e) EventTypePodDeleted then "pod deleted" else "") +:+
  (if String.eqb (Event_GetType e) EventTypeDetection
   then "tarian detection event" +:+ newline +:+ "detection: " +:+ Target_GetDetectionDataType t +:+
        ": " +:+ Target_GetDetectionData t
   else "") +:+ newline.

Definition event_rows (e : ptr Event) : list (list string) :=
  (fun t => [ Format_RFC3339 (AsTime (Event_GetServerTimestamp e));
              Pod_GetNamespace (Target_GetPod t); Pod_GetName (Target_GetPod t);
              event_text e t ]) <$> elems (Event_GetTargets e).

Definition eventsTableOutput (events : slice (ptr Event)) : prog CtlE unit :=
  call (CtlTable ["Time"; "Namespace"; "Pod"; "Events"] (elems events ≫= event_rows)).

(** [limit] is a [uint]; [uint32(c.limit)] keeps its low 32 bits. *)
Definition get_events_run (limit : Z) : prog CtlE (option error) :=
  r <- call (CtlEvent (GetEvents (mkGetEventsRequest "" (limit mod 2 ^ 32)%Z)));;
  let '(response, err) := r in
  match err with
  | Some err => Ret (Errorf "get events: failed to get events" (Some err))
  | None => eventsTableOutput (GetEventsResponse_GetEvents response);;; Ret None
  end.

(** * Facts on deduplication *)

(** What the loops are meant to leave, and what they leave. *)
Definition last_if_new {A} (dup : A -> bool) (rules : list A) : list A :=
  match last rules with
  | Some x => if dup x then [] else [x]
  | None => []
  end.

Lemma dedup_prefix {A} (dup : A -> bool) (rules : list A) k :
  k <= length rules ->
  let s := fold_left (dedup_step dup) (seq 0 k) (rules, length rules) in
  length s.1 = length rules /\
  (forall i, 0 < i \/ k = 0 -> s.1 !! i = rules !! i) /\
  take s.2 s.1 = match k with
                 | 0 => rules
                 | S j => match rules !! j with
                          | Some x => if dup x then [] else [x]
                          | None => []
                          end
                 end.
Proof.
  induction k as [|k IH]; intros Hk; [cbn; by rewrite firstn_all|].
  rewrite seq_S, fold_left_app. cbn [fold_left Nat.add].
  destruct IH as (Hl&Hi&_); [lia|]. set (s := fold_left _ _ _) in *.
  destruct (lookup_lt_is_Some_2 rules k) as [x Hx]; [lia|].
  assert (s.1 !! k = Some x) as Hs by (rewrite Hi; [done|lia]).
  unfold dedup_step. rewrite Hs, Hx. destruct (dup x); cbn [fst snd].
  - split_and!; [done| |done]. intros i [Hp|?]; [apply Hi; lia|done].
  - rewrite length_insert. split_and!; [done| |].
    + intros i [Hp|?]; [|done]. rewrite list_lookup_insert_ne by lia. apply Hi. lia.
    + destruct (s.1) as [|y l]; [done|]. by cbn.
Qed.

Lemma dedup_loop_last {A} (dup : A -> bool) (rules : list A) :
  dedup_loop dup rules = last_if_new dup rules.
Proof.
  unfold dedup_loop, last_if_new.
  destruct (dedup_prefix dup rules (length rules) ltac:(done)) as (_&_&->).
  rewrite last_lookup. by destruct rules.
Qed.

(** * Facts on flag values *)

(** No key and value can be read from the text. *)
Definition malformed (s : string) : Prop :=
  Contains s "=" = false \/ exists k, s = k +:+ "=" /\ Contains k "=" = false.

Lemma Cut_key k v :
  Contains k "=" = false -> Cut (k +:+ "=" +:+ v) "=" = Some (k, v).
Proof. apply Cut_app. Qed.

Lemma match_label_of_text k v :
  Contains k "=" = false -> v <> "" ->
  match_label_of (label_text k v) = Some (Some (mkMatchLabel k (Trim v quote_mark))).
Proof.
  intros Hk Hv. unfold match_label_of, label_text, Index. rewrite Cut_key by done.
  rewrite !length_app_s. cbn [String.length].
  assert (String.length v <> 0) by (by destruct v).
  destruct (Z.ltb_spec (Z.of_nat (String.length k)) 0); [lia|].
  destruct (Z.eqb_spec (Z.of_nat (String.length k))
              (Z.of_nat (String.length k + (1 + String.length v)) - 1)); [lia|]. cbn [orb].
  rewrite Nat2Z.id, str_take_app_length.
  replace (Z.to_nat (Z.of_nat (String.length k) + 1)) with (String.length (k +:+ "="))
    by (rewrite length_app_s; cbn; lia).
  by rewrite <- app_assoc_s, str_drop_app_length.
Qed.

Lemma match_label_of_None s : match_label_of s = None <-> malformed s.
Proof.
  unfold malformed. destruct (Cut s "=") as [[k v]|] eqn:Hc.
  - pose proof (Cut_before_free _ _ _ _ Hc) as Hk. apply Cut_Some in Hc as ->.
    destruct (String.eqb_spec v "") as [->|Hv].
    + split; [right; by exists k|]. intros _. unfold match_label_of, Index.
      rewrite Cut_key, !length_app_s by done. cbn [String.length].
      destruct (Z.ltb_spec (Z.of_nat (String.length k)) 0); [lia|].
      destruct (Z.eqb_spec (Z.of_nat (String.length k))
                  (Z.of_nat (String.length k + (1 + 0)) - 1)); [done|lia].
    + change (k +:+ "=" +:+ v) with (label_text k v). rewrite match_label_of_text by done.
      split; [done|]. intros [Hf|(k'&He&Hk')].
      * unfold Contains, label_text in Hf. by rewrite Cut_key in Hf.
      * pose proof (Cut_key k v Hk) as H1. unfold label_text in He. rewrite He in H1.
        pose proof (Cut_key k' "" Hk') as H2. change ("=" +:+ "") with "=" in H2. congruence.
  - split; [left; unfold Contains; by rewrite Hc|]. intros _.
    unfold match_label_of, Index. by rewrite Hc.
Qed.

Lemma malformed_labels_none ls :
  Forall malformed ls -> matchLabelsFromString (Some ls) = None.
Proof.
  intros Hl. cbn. replace (omap match_label_of ls) with (@nil (ptr MatchLabel)); [done|].
  induction Hl as [|s ls Hs _ IH]; [done|]. cbn. by apply match_label_of_None in Hs as ->.
Qed.

Lemma Trim_free c v : Contains v (String c "") = false -> Trim v (String c "") = v.
Proof.
  intros Hv. unfold Trim, trim_both. cbn [cutset_chars].
  change (List.map str_rev [String c ""]) with [String c ""].
  rewrite (trim_left_other c v) by (intros t; by apply Contains_false_head).
  rewrite trim_left_other, str_rev_rev; [done|].
  intros t. by apply Contains_false_head, Contains_rev_false.
Qed.

(** A label that survives being written on a command line. *)
Definition match_label_ok (l : ptr MatchLabel) : Prop := exists k v,
  l = Some (mkMatchLabel k v) /\ v <> "" /\
  Contains k "=" = false /\ Contains k "," = false /\ Contains v "," = false /\
  Contains v quote_mark = false.

Lemma match_label_of_ok l : match_label_ok l -> match_label_of (MatchLabel_text l) = Some l.
Proof.
  intros (k&v&->&Hv&Hk&_&_&Hq).
  change (MatchLabel_text (Some (mkMatchLabel k v))) with (label_text k v).
  rewrite match_label_of_text by done. unfold quote_mark in *. by rewrite Trim_free.
Qed.

Lemma match_labels_of_texts ls :
  Forall match_label_ok ls -> omap match_label_of (MatchLabel_text <$> ls) = ls.
Proof.
  induction 1 as [|x ls Hx _ IH]; [done|]. rewrite fmap_cons. cbn [omap list_omap].
  rewrite (match_label_of_ok x Hx). by f_equal.
Qed.

Lemma write_items_Join sep items i n :
  (i + length items)%nat = n -> write_items sep i n items = Join items sep.
Proof.
  revert i. induction items as [|x items IH]; intros i Hn; [done|]. cbn [write_items].
  cbn [length] in Hn. rewrite IH by lia. destruct items as [|y items].
  - destruct (Z.ltb_spec (Z.of_nat i) (Z.of_nat n - 1)); [cbn in Hn; lia|].
    cbn. by rewrite !app_empty_r.
  - destruct (Z.ltb_spec (Z.of_nat i) (Z.of_nat n - 1)); [done|cbn in Hn; lia].
Qed.

(** Match labels survive the command line: the selector that
    [tarianctl get] prints for labels with non-empty values (no comma or
    quote in them, no '=' in keys), split at its commas, is read back by
    [tarianctl add] as the same labels in the same order. *)
Lemma printed_labels_read_back ls :
  Forall match_label_ok ls ->
  matchLabelsFromString
    (Some (Split (str_drop (String.length "matchLabels:") (matchLabelsToString (Some ls))) ",")) =
  nil_if_empty ls.
Proof.
  intros Hl. unfold matchLabelsToString. change (elems (Some ls)) with ls.
  destruct ls as [|l ls]; [done|]. cbv beta iota.
  rewrite str_drop_app_length, write_items_Join by (by rewrite length_fmap).
  rewrite Split_Join; [|done|].
  - unfold matchLabelsFromString. by rewrite match_labels_of_texts.
  - apply Forall_fmap. eapply Forall_impl; [exact Hl|]. intros x (k&v&->&_&_&Hk&Hv&_).
    cbn -[Contains]. rewrite Contains_app_false, Contains_cons_false. by split_and!.
Qed.

(** * Facts on the commands *)

(** The constraints and the actions a run asks the server to add. *)
Definition ctl_added (tr : list (event CtlE)) : list AddConstraintRequest :=
  omap (fun v => match projT2 v with CtlConfig (AddConstraint r) => Some r | _ => None end) tr.

Definition ctl_actions (tr : list (event CtlE)) : list AddActionRequest :=
  omap (fun v => match projT2 v with CtlConfig (AddAction r) => Some r | _ => None end) tr.

Section facts.
Context `{Y : Yaml} {W : Type} (h : handler CtlE W).

Lemma send_constraint_added c req w :
  cc_dryRun c = false -> is_Some (cc_allowedProcesses c) -> is_Some (cc_matchLabels c) ->
  ctl_added (trace h (send_constraint c req) w) = [req].
Proof.
  intros Hd [ps Hp] [ms Hm]. unfold send_constraint. rewrite Hd, Hp, Hm.
  destruct (cc_allowedFileSha256Sums c); cbn;
    (destruct (h _ (CtlConfig (AddConstraint req)) w) as [[resp [err|]] w1]; cbn; [done|];
     by destruct (AddConstraintResponse_GetSuccess resp)).
Qed.

Lemma send_action_added c a w :
  ac_dryRun c = false ->
  ctl_actions (trace h (send_action c a) w) = [mkAddActionRequest (Some a)].
Proof.
  intros Hd. unfold send_action. rewrite Hd. cbn.
  destruct (h _ (CtlConfig (AddAction (mkAddActionRequest (Some a)))) w) as [[resp [err|]] w1];
    cbn; [done|]. by destruct (AddActionResponse_GetSuccess resp).
Qed.

(** The rules of all targets. *)
Definition all_rules {A} (f : Target -> list A) (targets : list (ptr Target)) : list A :=
  targets ≫= from_option f [].

Lemma gather_rules {A} (f : Target -> list A) targets acc :
  Forall is_Some targets ->
  for_each (E := CtlE) targets acc (fun target acc =>
    t <- deref "target" target;; Ret (acc ++ f t)) = Ret (acc ++ all_rules f targets).
Proof.
  intros Ht. revert acc. induction Ht as [|x targets [t ->] _ IH]; intros acc; cbn.
  - by rewrite app_nil_r.
  - rewrite IH. by rewrite <- app_assoc.
Qed.

Lemma collected_targets events podName :
  Forall is_Some (collectEventTargetsByPodName events podName).
Proof.
  apply Forall_forall. intros t. unfold collectEventTargetsByPodName.
  rewrite list_elem_of_bind. intros (e&Ht&_). apply list_elem_of_In, filter_In in Ht as [_ Ht].
  unfold target_of_pod in Ht. by destruct t.
Qed.

(** The rules that are sent: all of them when the server has no constraint
    for the labels, else what deduplication leaves. *)
Definition sent_rules {A} (dup : list (ptr Constraint) -> A -> bool)
    (known : slice (ptr Constraint)) (rules : list A) : list A :=
  match known with
  | None => rules
  | Some cs => last_if_new (dup cs) rules
  end.

Lemma build_exact c podName w resp w1 target0 targets labels cresp w2 now w3 :
  cc_name c = "" ->
  h _ (CtlEvent (GetEvents (mkGetEventsRequest "" 1000))) w = ((resp, None), w1) ->
  collectEventTargetsByPodName (elems (GetEventsResponse_GetEvents resp)) podName =
    target0 :: targets ->
  Pod_GetLabels (Target_GetPod target0) = Some labels ->
  h _ (CtlConfig (GetConstraints (mkGetConstraintsRequest (cc_namespace c) (Some labels)))) w1 =
    (cresp, w2) ->
  h _ CtlNow w2 = (now, w3) ->
  let known := GetConstraintsResponse_GetConstraints cresp.1 in
  let ps := sent_rules process_rule_known known (all_rules process_rules (target0 :: targets)) in
  let fs := sent_rules file_rule_known known (all_rules file_rules (target0 :: targets)) in
  let p := buildConstraintFromViolatedPod c podName in
  ctl_added (trace h p w) = [] /\
  ((ps = [] /\ fs = [] /\ exists err, (run h p w).1 = Done (None, Some err)) \/
   ((ps <> [] \/ fs <> []) /\
    run h p w = (Done (Some (mkConstraint KindConstraint (cc_namespace c)
                   (podName +:+ "-" +:+ Itoa (now / 1000000000)%Z)
                   (Some (mkSelector (Some (match_labels_of_pod labels)))) (Some ps) (Some fs)), None), w3))).
Proof.
  intros Hn He Ht Hl Hc Hnow known ps fs p. subst p. unfold buildConstraintFromViolatedPod.
  assert (GetEventsResponse_GetEvents resp = Some (elems (GetEventsResponse_GetEvents resp))) as Hev.
  { by destruct (GetEventsResponse_GetEvents resp). }
  pose proof (collected_targets (elems (GetEventsResponse_GetEvents resp)) podName) as Hsome.
  rewrite Ht in Hsome. rewrite run_bind, trace_bind. cbn [run trace call]. rewrite He. cbn [run trace].
  rewrite Hev, Ht, !gather_rules by done. cbn [bind app].
  rewrite Hl. destruct (Target_GetPod target0) as [pod0|] eqn:Hp0; [|done].
  rewrite run_bind, trace_bind. cbn [run trace call]. rewrite Hc. cbn [run trace].
  fold known.
  replace (match known with Some constraints => _ | None => _ end) with (ps, fs);
    [|by unfold ps, fs, sent_rules, deduplicateRules; destruct known; rewrite ?dedup_loop_last].
  clearbody ps fs known. rewrite Hn. cbn [String.eqb].
  destruct ps as [|p0 ps], fs as [|f0 fs].
  - split; [done|]. left. by split_and!; [..|eexists].
  - cbn. rewrite Hnow. cbn. split; [done|]. right. split; [by right|done].
  - cbn. rewrite Hnow. cbn. split; [done|]. right. split; [by left|done].
  - cbn. rewrite Hnow. cbn. split; [done|]. right. split; [by left|done].
Qed.

(** C36. The constraint made from a violated pod.  The command asks the server
    to add one constraint: of the namespace of the flags, selecting the labels
    of the pod's first recent target without the hash of its template, with
    rules for the violated processes and files of all recent targets of the
    pod when the server knows no constraint for these labels - but when it
    knows some, with at most one process rule and one file rule: those of the
    last violation, if they are new.  Without any rule nothing is sent and the
    command fails. *)
Theorem from_violated_pod_exact c w resp w1 target0 targets labels cresp w2 now w3 :
  cc_fromViolatedPod c <> "" -> cc_name c = "" -> cc_dryRun c = false ->
  is_Some (cc_allowedProcesses c) -> is_Some (cc_matchLabels c) ->
  h _ (CtlEvent (GetEvents (mkGetEventsRequest "" 1000))) w = ((resp, None), w1) ->
  collectEventTargetsByPodName (elems (GetEventsResponse_GetEvents resp)) (cc_fromViolatedPod c) =
    target0 :: targets ->
  Pod_GetLabels (Target_GetPod target0) = Some labels ->
  h _ (CtlConfig (GetConstraints (mkGetConstraintsRequest (cc_namespace c) (Some labels)))) w1 =
    (cresp, w2) ->
  h _ CtlNow w2 = (now, w3) ->
  let known := GetConstraintsResponse_GetConstraints cresp.1 in
  let ps := sent_rules process_rule_known known (all_rules process_rules (target0 :: targets)) in
  let fs := sent_rules file_rule_known known (all_rules file_rules (target0 :: targets)) in
  (ps = [] /\ fs = [] /\ ctl_added (trace h (add_constraint_run c) w) = [] /\
   exists err, (run h (add_constraint_run c) w).1 = Done (Some err)) \/
  ((ps <> [] \/ fs <> []) /\
   ctl_added (trace h (add_constraint_run c) w) =
     [mkAddConstraintRequest (Some (mkConstraint KindConstraint (cc_namespace c)
        (cc_fromViolatedPod c +:+ "-" +:+ Itoa (now / 1000000000)%Z)
        (Some (mkSelector (Some (match_labels_of_pod labels)))) (Some ps) (Some fs)))] /\
   (is_Some known -> length ps <= 1 /\ length fs <= 1)).
Proof.
  intros Hpod Hn Hd Hp Hm He Ht Hl Hc Hnow known ps fs.
  destruct (build_exact c (cc_fromViolatedPod c) w resp w1 target0 targets labels cresp w2 now w3
              Hn He Ht Hl Hc Hnow) as [Hno Hr]. fold known in Hr. fold ps fs in Hr.
  assert (is_Some known -> length ps <= 1 /\ length fs <= 1) as Hlen.
  { intros [cs Hk]. unfold ps, fs, sent_rules, last_if_new. rewrite Hk.
    split; repeat case_match; simpl; lia. }
  clearbody ps fs known. unfold add_constraint_run. rewrite Hn.
  destruct (String.eqb_spec (cc_fromViolatedPod c) "") as [?|_]; [done|]. cbn [negb andb].
  cbn [String.eqb negb]. rewrite run_bind, trace_bind. unfold ctl_added in *. rewrite omap_app.
  rewrite Hno. destruct Hr as [(->&->&err&Hr)|(Hne&Hr)].
  - left. destruct (run h (buildConstraintFromViolatedPod _ _) w) as [o w']. cbn in Hr. subst o.
    cbn. split_and!; [done..|by eexists].
  - right. rewrite Hr. split_and!; [done| |done]. by apply send_constraint_added.
Qed.

(** Labels that do not parse widen a resource.  When every text given for
    the match labels of an action has no '=' or nothing after it, the command
    drops them without a word, and the action it adds matches every pod of its
    namespace; a constraint added like that is meant for every pod of its
    namespace. *)
Lemma malformed_labels_widen `{SS : StrSet} (ac : actionCommand) (cc : constraintsCommand) ls w w' :
  Forall malformed ls ->
  ac_matchLabels ac = Some ls -> ac_action ac = "delete-pod" -> ac_onFalcoAlert ac = "" ->
  ac_dryRun ac = false ->
  cc_matchLabels cc = Some ls -> cc_name cc <> "" -> cc_fromViolatedPod cc = "" ->
  cc_dryRun cc = false -> is_Some (cc_allowedProcesses cc) ->
  (exists a, ctl_actions (trace h (add_action_run ac) w) = [mkAddActionRequest (Some a)] /\
     Action_Namespace a = ac_namespace ac /\ Action_Action a = "delete-pod" /\
     forall pod, Pod_GetNamespace pod = ac_namespace ac -> actionMatchesPod (Some a) pod = true) /\
  (exists c, ctl_added (trace h (add_constraint_run cc) w') = [mkAddConstraintRequest (Some c)] /\
     forall evt podLabels, ExecEvent_K8sNamespace evt = cc_namespace cc ->
       constraint_for_pod (Some c) evt podLabels).
Proof.
  intros Hls Hal Haa Haf Had Hcl Hcn Hcf Hcd Hcp.
  pose proof (malformed_labels_none ls Hls) as Hnone. split.
  - exists (action_of_flags ac false 0%Z). unfold add_action_run. rewrite Haa, Haf. cbn [String.eqb negb].
    split_and!; [by apply send_action_added|done|done|].
    intros pod Hpod. unfold actionMatchesPod, action_of_flags. cbn -[matchLabelsFromString].
    by rewrite Hpod, String.eqb_refl, Hal, Hnone.
  - exists (constraint_of_flags cc). unfold add_constraint_run. rewrite Hcf.
    destruct (String.eqb_spec (cc_name cc) "") as [?|_]; [done|]. cbn [String.eqb negb andb].
    split; [apply send_constraint_added; [done..|by eexists]|].
    intros evt podLabels Hns. unfold constraint_for_pod, constraint_of_flags.
    cbn -[matchLabelsFromString]. rewrite Hcl, Hnone. by split.
Qed.
End facts.

(** * Concrete runs *)

(** A server with one event and one constraint. *)
Definition ctl_env (known : slice (ptr Constraint)) (events : list (ptr Event)) : handler CtlE Z :=
  fun X e w =>
  match e in CtlE X return X * Z with
  | CtlConfig e =>
      (match e in ConfigE X return X with
       | GetConstraints _ => (Some (mkGetConstraintsResponse known), None)
       | AddConstraint _ => (Some (mkAddConstraintResponse true), None)
       | RemoveConstraint _ => (Some (mkRemoveConstraintResponse true), None)
       | AddAction _ => (Some (mkAddActionResponse true), None)
       | GetActions _ => (Some (mkGetActionsResponse None), None)
       | RemoveAction _ => (Some (mkRemoveActionResponse true), None)
       end, w)
  | CtlEvent e =>
      (match e in EventE X return X with
       | IngestEvent _ => (Some (mkIngestEventResponse true), None)
       | GetEvents _ => (Some (mkGetEventsResponse (Some events)), None)
       end, w)
  | CtlNow => (w, w)
  | CtlPrint _ => (tt, w)
  | CtlTable _ _ => (tt, w)
  end.

#[local] Instance plain_yaml : Yaml :=
  {| yaml_Marshal_constraint c := inl (Constraint_GetName c);
     yaml_Marshal_action a := inl (Action_GetName a) |}.

Definition ex_target : Target :=
  mkTarget (Some (mkPod "uid-1" "default" "web-5d9"
      (Some [Some (mkLabel "app" "web"); Some (mkLabel "pod-template-hash" "5d9")])))
    (Some [Some (mkProcess 7 "sh"); Some (mkProcess 8 "curl")]) None None "" "".

Definition ex_event_of_web : ptr Event :=
  Some (mkEvent KindEvent EventTypeViolation "" None None None (Some [Some ex_target])).

Definition ex_web_constraint : Constraint :=
  mkConstraint KindConstraint "default" "web" (Some (mkSelector (Some [Some (mkMatchLabel "app" "web")])))
    (Some [Some (mkAllowedProcessRule (Some "nginx"))]) None.

Definition from_web : constraintsCommand :=
  mkConstraintsCommand "" "default" (Some []) (Some []) (Some []) "web-5d9" false.

(** The server knows one constraint for the pod: of the two violated
    processes only the last becomes a rule. *)
Lemma from_violated_pod_exact_witness : exists req,
  ctl_added (trace (ctl_env (Some [Some ex_web_constraint]) [ex_event_of_web])
    (add_constraint_run from_web) 1700000000000000000%Z) = [req] /\
  Constraint_GetAllowedProcesses (AddConstraintRequest_Constraint req) =
    Some [Some (mkAllowedProcessRule (Some "curl"))].
Proof.
  destruct (from_violated_pod_exact (ctl_env (Some [Some ex_web_constraint]) [ex_event_of_web])
    from_web 1700000000000000000%Z (Some (mkGetEventsResponse (Some [ex_event_of_web])))
    1700000000000000000%Z (Some ex_target) []
    [Some (mkLabel "app" "web"); Some (mkLabel "pod-template-hash" "5d9")]
    (Some (mkGetConstraintsResponse (Some [Some ex_web_constraint])), None)
    1700000000000000000%Z 1700000000000000000%Z 1700000000000000000%Z)
    as [(Hps&_)|(_&Hadd&_)]; try reflexivity.
  - discriminate.
  - by eexists.
  - by eexists.
  - discriminate.
  - eexists. split; [exact Hadd|]. reflexivity.
Defined.

Lemma printed_labels_read_back_witness :
  let ls := [Some (mkMatchLabel "app" "web"); Some (mkMatchLabel "tier" "a=b")] in
  matchLabelsToString (Some ls) = "matchLabels:app=web,tier=a=b" /\
  matchLabelsFromString (Some (Split (str_drop 12 (matchLabelsToString (Some ls))) ",")) = Some ls.
Proof.
  intros ls. split; [reflexivity|]. apply (printed_labels_read_back ls).
  repeat constructor; do 2 eexists; (split; [reflexivity|]); by split_and!.
Defined.

Lemma malformed_labels_widen_witness :
  let ls := ["app"; "tier="] in
  let ac := mkActionCommand "kill" "default" (Some ls) "delete-pod" false true true "" in
  let cc := mkConstraintsCommand "c" "default" (Some ls) (Some ["sh"]) (Some []) "" false in
  exists a, ctl_actions (trace (ctl_env None []) (add_action_run ac) 0%Z) =
      [mkAddActionRequest (Some a)] /\
    forall pod, Pod_GetNamespace pod = "default" -> actionMatchesPod (Some a) pod = true.
Proof.
  intros ls ac cc.
  destruct (malformed_labels_widen (ctl_env None []) ac cc ls 0%Z 0%Z) as [(a&Ha&_&_&Hm) _];
    try reflexivity.
  - constructor; [by left|]. constructor; [|constructor]. right. by exists "tier".
  - discriminate.
  - by eexists.
  - by exists a.
Defined.
