(* ===== verification/Install.v ===== *)
(** [tarianctl install] ([cmd/tarianctl/cmd/install]) with the clients it uses
    ([pkg/util/helm], [pkg/util/kubeclient]): the order in which the parts are
    installed, the arguments of helm, and what counts as ready.  The theorem:
    under every schedule of the two goroutines that install the dependencies,
    and whatever the cluster answers, a part is only installed after the parts
    it needs have been reported ready, and success means that every step
    succeeded - NATS and Dgraph included also when only the agents are asked
    for. *)

From S2P Require Import Prelude Guards GoStrings.

(** * Default values of the charts ([defaultValues.go]) *)

Record StorageOpts := mkStorageOpts { StorageOpts_Enabled : bool; StorageOpts_Size : string }.

Record JetstreamOpts := mkJetstreamOpts {
  JetstreamOpts_Enabled : bool;
  JetstreamOpts_MemStorage : StorageOpts;
  JetstreamOpts_FileStorage : StorageOpts;
}.

Record NatsValues := mkNatsValues { NatsValues_Image : string; NatsValues_Jetstream : JetstreamOpts }.
Record NatsHelmDefaultValues := mkNatsHelmDefaultValues { Nats : NatsValues }.

Record Env := mkEnv { Env_Name : string; Env_Value : string }.
Record Config := mkConfig { ExtraEnvs : slice Env }.
Record AlphaConfig := mkAlphaConfig { Alpha : Config }.

(** What [yaml.Marshal] is given. *)
Inductive helm_values :=
| NatsDefaults (v : NatsHelmDefaultValues)
| DgraphDefaults (v : AlphaConfig).

(** * What the command asks of its surroundings *)

(** The file system and environment, and the two client interfaces
    [helm.Client] and [kubeclient.Client]. *)
Inductive InstallE : Type -> Type :=
| MkdirTemp : InstallE (string * option error)
| RemoveAll (dir : string) : InstallE unit
| Getenv (k : string) : InstallE string
| HomeDir : InstallE string
| Stat (path : string) : InstallE (option error)
| MarshalTo (v : helm_values) : InstallE (string + error)
| WriteFile (path content : string) : InstallE (option error)
| NewHelmClient (kubeconfig kubeContext : string) : InstallE (option error)
| NewKubeClient (kubeconfig kubeContext : string) : InstallE (option error)
| AddRepo (name url : string) : InstallE (option error)
| HelmInstall (name chart namespace : string) (valuesFiles : slice string) (version : string)
    (setArgs : slice string) : InstallE (option error)
| WaitForPodsToBeReady (namespace labelSelector : string) : InstallE (option error)
| GetPodName (namespace labelSelector : string) : InstallE (string * option error)
| ExecPodWithOneContainer (namespace podName : string) (cmd : list string) : InstallE (string * option error).

Record installCmd := mkInstallCmd {
  install_namespace : string;
  install_kubeContext : string;
  install_kubeconfig : string;
  install_charts : string;
  install_serverValues : slice string;
  install_agentsValues : slice string;
  install_natsValues : slice string;
  install_dgraphValues : slice string;
  install_onlyAgents : bool;
  install_helmClient : bool;
  install_kubeClient : bool;
}.

(** The values of flags nobody sets; the clients are nil. *)
Definition NewInstallCommand : installCmd :=
  mkInstallCmd "tarian-system" "" "" "" None None None None false false false.

Definition set_kubeconfig (k : string) (c : installCmd) : installCmd :=
  mkInstallCmd (install_namespace c) (install_kubeContext c) k (install_charts c)
    (install_serverValues c) (install_agentsValues c) (install_natsValues c) (install_dgraphValues c)
    (install_onlyAgents c) (install_helmClient c) (install_kubeClient c).

Definition set_charts (charts : string) (c : installCmd) : installCmd :=
  mkInstallCmd (install_namespace c) (install_kubeContext c) (install_kubeconfig c) charts
    (install_serverValues c) (install_agentsValues c) (install_natsValues c) (install_dgraphValues c)
    (install_onlyAgents c) (install_helmClient c) (install_kubeClient c).

(** [fmt.Errorf] with a text that quotes the error: it does not wrap. *)
Definition quoted_error (text : string) : option error := Some (PlainError text).

Definition write_values (v : helm_values) (path : string) : prog InstallE (option error) :=
  r <- call (MarshalTo v);;
  match r with
  | inr _ => Ret (quoted_error "failed to marshal values to YAML")
  | inl valuesYAML =>
      err <- call (WriteFile path valuesYAML);;
      match err with
      | Some _ => Ret (quoted_error "failed to write values to temporary file")
      | None => Ret None
      end
  end.

Definition natsHelmDefaultValues (natsValuesFile : string) : prog InstallE (option error) :=
  write_values (NatsDefaults (mkNatsHelmDefaultValues (mkNatsValues "nats:alpine"
    (mkJetstreamOpts true (mkStorageOpts true "128Mi") (mkStorageOpts true "200Mi"))))) natsValuesFile.

Definition dgraphHelmDefaultValues (dgraphValuesFile : string) : prog InstallE (option error) :=
  write_values (DgraphDefaults (mkAlphaConfig (mkConfig
    (Some [mkEnv "DGRAPH_ALPHA_SECURITY" "whitelist=0.0.0.0/0"])))) dgraphValuesFile.

(** [if err := ...; err != nil { return fmt.Errorf("text: %w", err) }]. *)
Definition try_ (text : string) (p next : prog InstallE (option error)) : prog InstallE (option error) :=
  err <- p;;
  match err with
  | Some _ => Ret (Errorf text err)
  | None => next
  end.

Definition installNats (c : installCmd) (tempDir : string) : prog InstallE (option error) :=
  let natsValuesFile := path_Join [tempDir; "nats-values.yaml"] in
  let valuesFiles := append_slice (Some [natsValuesFile]) (elems (install_natsValues c)) in
  let natsVer := "0.19.16" in
  try_ "failed to add nats repo" (call (AddRepo "nats" "https://nats-io.github.io/k8s/helm/charts/"))
  (try_ "failed to get nats helm default values file" (natsHelmDefaultValues natsValuesFile)
  (try_ "failed to install nats"
     (call (HelmInstall "nats" "nats/nats" (install_namespace c) valuesFiles natsVer None))
  (try_ "nats pods failed to be ready"
     (call (WaitForPodsToBeReady (install_namespace c) "app.kubernetes.io/name=nats"))
  (Ret None)))).

Definition installDgraph (c : installCmd) (tempDir : string) : prog InstallE (option error) :=
  let dgraphValuesFile := path_Join [tempDir; "dgraph-values.yaml"] in
  let valuesFiles := append_slice (Some [dgraphValuesFile]) (elems (install_dgraphValues c)) in
  try_ "failed to add dgraph repo" (call (AddRepo "dgraph" "https://charts.dgraph.io"))
  (try_ "failed to get dgraph helm default values file" (dgraphHelmDefaultValues dgraphValuesFile)
  (try_ "failed to install dgraph"
     (call (HelmInstall "dgraph" "dgraph/dgraph" (install_namespace c) valuesFiles "" None))
  (try_ "dgraph pods failed to be ready"
     (call (WaitForPodsToBeReady (install_namespace c) "app=dgraph"))
  (Ret None)))).

(** The charts directory, or the repository of the charts; the choice is kept
    in the command. *)
Definition tarian_charts (c : installCmd) : prog InstallE (installCmd * option error) :=
  if String.eqb (install_charts c) ""
  then
    err <- call (AddRepo "tarian" "https://kube-tarian.github.io/helm-charts");;
    match err with
    | Some _ => Ret (c, Errorf "failed to add tarian repo" err)
    | None => Ret (set_charts "tarian" c, None)
    end
  else Ret (c, None).

Definition dgraphCmd : list string := ["./tarian-server"; "dgraph"; "apply-schema"].

Definition installServer (c : installCmd) : prog InstallE (installCmd * option error) :=
  r <- tarian_charts c;;
  let '(c, err) := r in
  match err with
  | Some _ => Ret (c, err)
  | None =>
      let chart := install_charts c +:+ "/tarian-server" in
      let set := Some ["server.dgraph.address=dgraph-dgraph-alpha:9080"] in
      err <- try_ "failed to install tarian server"
        (call (HelmInstall "tarian-server" chart (install_namespace c) (install_serverValues c) "" set))
        (try_ "tarian server pods failed to be ready"
           (call (WaitForPodsToBeReady (install_namespace c) "app=tarian-server"))
           (r <- call (GetPodName (install_namespace c) "app=tarian-server");;
            let '(podName, err) := r in
            match err with
            | Some _ => Ret (Errorf "failed to get tarian server pod name" err)
            | None =>
                r <- call (ExecPodWithOneContainer (install_namespace c) podName dgraphCmd);;
                let '(output, err) := r in
                match err with
                | Some _ => Ret (Errorf "failed to apply schema to dgraph" err)
                | None =>
                    if Contains output "error while applying dgraph schema"
                    then Ret (quoted_error ("failed to execute command: '" +:+ Join dgraphCmd " " +:+
                           "', in namespace/pod: " +:+ install_namespace c +:+ "/" +:+ podName +:+
                           ", error: " +:+ output))
                    else Ret None
                end
            end));;
      Ret (c, err)
  end.

Definition installAgents (c : installCmd) : prog InstallE (installCmd * option error) :=
  r <- tarian_charts c;;
  let '(c, err) := r in
  match err with
  | Some _ => Ret (c, err)
  | None =>
      let chart := install_charts c +:+ "/tarian-cluster-agent" in
      err <- try_ "failed to install tarian cluster agent"
        (call (HelmInstall "tarian" chart (install_namespace c) (install_agentsValues c) "" None))
        (try_ "tarian cluster/node agent pods failed to be ready"
           (call (WaitForPodsToBeReady (install_namespace c) "app=tarian"))
           (Ret None));;
      Ret (c, err)
  end.

(** Which kubeconfig is used. *)
Definition find_kubeconfig (c : installCmd) : prog InstallE (installCmd + error) :=
  if String.eqb (install_kubeconfig c) ""
  then
    kubeconfigEnv <- call (Getenv "KUBECONFIG");;
    if negb (String.eqb kubeconfigEnv "") then Ret (inl (set_kubeconfig kubeconfigEnv c))
    else
      home <- call HomeDir;;
      let path := path_Join [home; ".kube"; "config"] in
      err <- call (Stat path);;
      match err with
      | Some _ => Ret (inr (PlainError "install: could not find kubeconfig"))
      | None => Ret (inl (set_kubeconfig path c))
      end
  else Ret (inl c).

(** The two clients, unless the command was given some. *)
Definition make_clients (c : installCmd) : prog InstallE (option error) :=
  err <- (if install_helmClient c then Ret None
          else call (NewHelmClient (install_kubeconfig c) (install_kubeContext c)));;
  match err with
  | Some _ => Ret (Errorf "install: failed to create helm client" err)
  | None =>
      err <- (if install_kubeClient c then Ret None
              else call (NewKubeClient (install_kubeconfig c) (install_kubeContext c)));;
      match err with
      | Some _ => Ret (Errorf "install: failed to get kubeclient" err)
      | None => Ret None
      end
  end.

(** What follows once the dependencies are there. *)
Definition install_parts (c : installCmd) : prog InstallE (option error) :=
  r <- (if install_onlyAgents c then Ret (c, None) else installServer c);;
  let '(c, err) := r in
  match err with
  | Some _ => Ret (Errorf "install" err)
  | None =>
      r <- installAgents c;;
      match r.2 with
      | Some _ => Ret (Errorf "install" r.2)
      | None => Ret None
      end
  end.

(** The command between creating and removing ([defer]) its directory;
    [sched] is the order in which the two goroutines take their turns. *)
Definition install_in (sched : list bool) (c : installCmd) (tempDir : string)
  : prog InstallE (option error) :=
  r <- find_kubeconfig c;;
  match r with
  | inr e => Ret (Some e)
  | inl c =>
      err <- make_clients c;;
      match err with
      | Some _ => Ret err
      | None =>
          err <- both sched (installNats c tempDir) (installDgraph c tempDir);;
          match err with
          | Some _ => Ret (Errorf "install: failed to install dependencies" err)
          | None => install_parts c
          end
      end
  end.

Definition install_run (sched : list bool) (c : installCmd) : prog InstallE (option error) :=
  r <- call MkdirTemp;;
  let '(tempDir, err) := r in
  match err with
  | Some _ => Ret (quoted_error "failed to create temporary directory")
  | None =>
      err <- install_in sched c tempDir;;
      call (RemoveAll tempDir);;;
      Ret err
  end.

(** * The order of installation *)

(** What the command has seen happen: pods reported ready, a release
    installed, the schema applied. *)
Definition ready (c : installCmd) (selector : string) (past : list (answered InstallE)) : Prop :=
  got (WaitForPodsToBeReady (install_namespace c) selector) None ∈ past.

Definition installed (c : installCmd) (name chart : string) (values : slice string) (version : string)
    (setArgs : slice string) (past : list (answered InstallE)) : Prop :=
  got (HelmInstall name chart (install_namespace c) values version setArgs) None ∈ past.

Definition dependencies_ready (c : installCmd) (past : list (answered InstallE)) : Prop :=
  ready c "app.kubernetes.io/name=nats" past /\ ready c "app=dgraph" past.

Definition schema_applied (c : installCmd) (past : list (answered InstallE)) : Prop :=
  exists podName output,
    got (ExecPodWithOneContainer (install_namespace c) podName dgraphCmd) (output, None) ∈ past /\
    Contains output "error while applying dgraph schema" = false.

(** What must have happened before a call is made. *)
Definition install_guard (c : installCmd) (past : list (answered InstallE)) X (e : InstallE X) : Prop :=
  match e with
  | HelmInstall name _ _ _ _ _ =>
      (name = "tarian-server" -> dependencies_ready c past) /\
      (name = "tarian" -> dependencies_ready c past /\
         (install_onlyAgents c = false -> ready c "app=tarian-server" past /\ schema_applied c past))
  | ExecPodWithOneContainer _ _ _ => ready c "app=tarian-server" past
  | _ => True
  end.

(** The charts a successful run has installed, with the values of the user
    after the default ones. *)
Definition charts_of (c : installCmd) : string :=
  if String.eqb (install_charts c) "" then "tarian" else install_charts c.

Definition server_installed (c : installCmd) (past : list (answered InstallE)) : Prop :=
  installed c "tarian-server" (charts_of c +:+ "/tarian-server") (install_serverValues c) ""
    (Some ["server.dgraph.address=dgraph-dgraph-alpha:9080"]) past /\
  ready c "app=tarian-server" past /\ schema_applied c past.

Definition agents_installed (c : installCmd) (past : list (answered InstallE)) : Prop :=
  installed c "tarian" (charts_of c +:+ "/tarian-cluster-agent") (install_agentsValues c) "" None past /\
  ready c "app=tarian" past.

Definition all_installed (c : installCmd) (past : list (answered InstallE)) : Prop :=
  (exists dir,
     installed c "nats" "nats/nats"
       (Some (path_Join [dir; "nats-values.yaml"] :: elems (install_natsValues c))) "0.19.16" None past /\
     installed c "dgraph" "dgraph/dgraph"
       (Some (path_Join [dir; "dgraph-values.yaml"] :: elems (install_dgraphValues c))) "" None past) /\
  dependencies_ready c past /\
  (install_onlyAgents c = false -> server_installed c past) /\ agents_installed c past.

(** ** Conditions on the past *)

Lemma ready_past c sel past past' : past ⊆ past' -> ready c sel past -> ready c sel past'.
Proof. intros Hs. apply Hs. Qed.

Lemma installed_past c name chart values version setArgs past past' :
  past ⊆ past' -> installed c name chart values version setArgs past ->
  installed c name chart values version setArgs past'.
Proof. intros Hs. apply Hs. Qed.

Lemma schema_past c past past' : past ⊆ past' -> schema_applied c past -> schema_applied c past'.
Proof. intros Hs (pod&out&Hin&Ho). exists pod, out. split; [by apply Hs|done]. Qed.

Lemma dependencies_past c past past' :
  past ⊆ past' -> dependencies_ready c past -> dependencies_ready c past'.
Proof. intros Hs [? ?]. split; by eapply ready_past. Qed.

Lemma past_snoc {A} (past : list A) v : past ⊆ past ++ [v].
Proof. intros x. rewrite elem_of_app. by left. Qed.

Lemma past_last {A} (past : list A) v : v ∈ past ++ [v].
Proof. apply elem_of_app. right. by left. Qed.

Create HintDb install.
#[export] Hint Resolve ready_past installed_past schema_past dependencies_past past_snoc past_last : install.

Lemma install_guard_past c past past' X (e : InstallE X) :
  past ⊆ past' -> install_guard c past X e -> install_guard c past' X e.
Proof.
  intros Hs. destruct e; cbn; try done; [|by apply ready_past].
  intros [H1 H2]. split; [eauto with install|]. intros Hn. destruct (H2 Hn) as [H3 H4].
  split; [eauto with install|]. intros Ha. destruct (H4 Ha). eauto with install.
Qed.

(** A step that must succeed: what it establishes is there for the rest. *)
Lemma guarded_try (P : list (answered InstallE) -> forall X, InstallE X -> Prop)
    (F : list (answered InstallE) -> Prop) past text p next :
  guarded P (fun past' err => err = None -> guarded P (fun past' err => err = None -> F past') past' next)
    past p ->
  guarded P (fun past' err => err = None -> F past') past (try_ text p next).
Proof.
  intros Hp. apply guarded_bind. eapply guarded_mono; [|exact Hp].
  intros past' [err|] _ Hn; [done|]. by apply Hn.
Qed.

Lemma guarded_try_call (P : list (answered InstallE) -> forall X, InstallE X -> Prop)
    (F : list (answered InstallE) -> Prop) past text (e : InstallE (option error)) next :
  P past _ e ->
  (guarded P (fun past' err => err = None -> F past') (past ++ [got e None]) next) ->
  guarded P (fun past' err => err = None -> F past') past (try_ text (call e) next).
Proof. intros He Hn. apply guarded_try. split; [done|]. intros [err|]; [done|]. by intros _. Qed.

Lemma guarded_write c (F : list (answered InstallE) -> Prop) past v path text next :
  (forall past', past ⊆ past' -> guarded (install_guard c) (fun past' err => err = None -> F past') past' next) ->
  guarded (install_guard c) (fun past' err => err = None -> F past') past
    (try_ text (write_values v path) next).
Proof.
  intros Hn. apply guarded_try. split; [done|]. intros [content|e]; [|done].
  split; [done|]. intros [err|]; [done|]. intros _. apply Hn.
  by do 2 (etrans; [|apply past_snoc]).
Qed.

Section order.
Context (c : installCmd).

Lemma installNats_guarded dir past :
  guarded (install_guard c) (fun past' err => err = None ->
    installed c "nats" "nats/nats"
      (Some (path_Join [dir; "nats-values.yaml"] :: elems (install_natsValues c))) "0.19.16" None past' /\
    ready c "app.kubernetes.io/name=nats" past') past (installNats c dir).
Proof.
  apply guarded_try_call; [done|]. apply guarded_write. intros past1 _.
  apply guarded_try_call; [done|]. apply guarded_try_call; [done|]. intros _. split.
  - eapply installed_past; [apply past_snoc|]. apply past_last.
  - apply past_last.
Qed.

Lemma installDgraph_guarded dir past :
  guarded (install_guard c) (fun past' err => err = None ->
    installed c "dgraph" "dgraph/dgraph"
      (Some (path_Join [dir; "dgraph-values.yaml"] :: elems (install_dgraphValues c))) "" None past' /\
    ready c "app=dgraph" past') past (installDgraph c dir).
Proof.
  apply guarded_try_call; [done|]. apply guarded_write. intros past1 _.
  apply guarded_try_call; [done|]. apply guarded_try_call; [done|]. intros _. split.
  - eapply installed_past; [apply past_snoc|]. apply past_last.
  - apply past_last.
Qed.

Lemma tarian_charts_guarded (Q : list (answered InstallE) -> installCmd * option error -> Prop) past :
  (forall past', past ⊆ past' -> Q past' (set_charts (charts_of c) c, None)) ->
  (forall past' e, Q past' (c, Some e)) ->
  guarded (install_guard c) Q past (tarian_charts c).
Proof.
  intros Hok Herr. unfold tarian_charts. destruct (String.eqb (install_charts c) "") eqn:Hc.
  - split; [done|]. intros [e|]; [apply Herr|]. replace "tarian" with (charts_of c) by (by unfold charts_of; rewrite Hc).
    apply Hok, past_snoc.
  - specialize (Hok past (reflexivity _)). unfold charts_of in Hok. rewrite Hc in Hok. by destruct c.
Qed.

Lemma server_past past past' : past ⊆ past' -> server_installed c past -> server_installed c past'.
Proof. intros Hs (?&?&?). split_and!; eauto with install. Qed.

Lemma installServer_guarded past :
  dependencies_ready c past ->
  guarded (install_guard c) (fun past' r => r.2 = None ->
    r.1 = set_charts (charts_of c) c /\ server_installed c past') past (installServer c).
Proof.
  intros Hd. apply guarded_bind, tarian_charts_guarded; [|done]. intros past1 Hs1. cbn [snd fst].
  apply guarded_bind.
  change (install_namespace (set_charts _ c)) with (install_namespace c).
  eapply guarded_mono; [|apply (guarded_try_call _ (server_installed c))].
  - intros past' err _ Herr Hn. cbn in Hn. by apply Herr in Hn.
  - split; [eauto with install|done].
  - apply guarded_try_call; [done|]. apply guarded_bind. split; [done|].
    intros [pod [err|]]; [done|]. split; [cbn [install_guard]; unfold ready; set_solver|].
    intros [output [err|]]; [done|]. cbn [bind].
    destruct (Contains output _) eqn:Ho; [done|]. intros _.
    split_and!; [unfold installed; cbn; set_solver|unfold ready; set_solver|].
    exists pod, output. split; [apply past_last|done].
Qed.

Lemma installAgents_guarded past :
  dependencies_ready c past -> (install_onlyAgents c = false -> server_installed c past) ->
  guarded (install_guard c) (fun past' r => r.2 = None -> agents_installed c past') past (installAgents c).
Proof.
  intros Hd Hsv. apply guarded_bind, tarian_charts_guarded; [|done]. intros past1 Hs1. cbn [snd fst].
  apply guarded_bind.
  change (install_namespace (set_charts _ c)) with (install_namespace c).
  eapply guarded_mono; [|apply (guarded_try_call _ (agents_installed c))].
  - intros past' err _ Herr Hn. cbn in Hn. by apply Herr in Hn.
  - split; [done|]. intros _. split; [eauto with install|]. intros Ha.
    destruct (Hsv Ha) as (_&?&?). eauto with install.
  - apply guarded_try_call; [done|]. intros _. split; [unfold installed; cbn; set_solver|apply past_last].
Qed.

#[local] Instance stable_nats dir : Stable (fun past' (err : option error) => err = None ->
    installed c "nats" "nats/nats"
      (Some (path_Join [dir; "nats-values.yaml"] :: elems (install_natsValues c))) "0.19.16" None past' /\
    ready c "app.kubernetes.io/name=nats" past').
Proof. intros past past' err Hs H He. destruct (H He). eauto with install. Qed.

#[local] Instance stable_dgraph dir : Stable (fun past' (err : option error) => err = None ->
    installed c "dgraph" "dgraph/dgraph"
      (Some (path_Join [dir; "dgraph-values.yaml"] :: elems (install_dgraphValues c))) "" None past' /\
    ready c "app=dgraph" past').
Proof. intros past past' err Hs H He. destruct (H He). eauto with install. Qed.

End order.

Lemma charts_of_set c : charts_of (set_charts (charts_of c) c) = charts_of c.
Proof.
  unfold charts_of at 1. cbn. destruct (String.eqb_spec (charts_of c) "") as [He|]; [|done].
  unfold charts_of in He. by destruct (String.eqb_spec (install_charts c) "").
Qed.

(** The agents, with the charts the server has chosen. *)
Lemma agents_after_guarded c c' past :
  dependencies_ready c past -> (install_onlyAgents c = false -> server_installed c past) ->
  c' = c \/ c' = set_charts (charts_of c) c ->
  guarded (install_guard c) (fun past' (r : installCmd * option error) =>
    past ⊆ past' /\ (r.2 = None -> agents_installed c past')) past (installAgents c').
Proof.
  intros Hd Hsv Hc'. apply guarded_extends. destruct Hc' as [->| ->]; [by apply installAgents_guarded|].
  pose proof (installAgents_guarded (set_charts (charts_of c) c) past Hd) as Ha.
  unfold agents_installed, server_installed in *. rewrite charts_of_set in Ha. by apply Ha.
Qed.

Lemma install_parts_guarded c past :
  dependencies_ready c past ->
  guarded (install_guard c) (fun past' err => err = None ->
    (install_onlyAgents c = false -> server_installed c past') /\ agents_installed c past') past (install_parts c).
Proof.
  intros Hd.
  assert (forall past1 c', past ⊆ past1 -> (install_onlyAgents c = false -> server_installed c past1) ->
    (c' = c \/ c' = set_charts (charts_of c) c) ->
    guarded (install_guard c) (fun past' err => err = None ->
      (install_onlyAgents c = false -> server_installed c past') /\ agents_installed c past') past1
      (r <- installAgents c';; match r.2 with Some _ => Ret (Errorf "install" r.2) | None => Ret None end)) as Hrest.
  { intros past1 c' Hs Hsv Hc'. apply guarded_bind. eapply guarded_mono; [|apply agents_after_guarded; eauto with install].
    intros past2 [c2 [err|]] _ [Hs2 Hag]; [done|]. intros _. split; [|by apply Hag].
    intros Ho. by eapply server_past; [|apply Hsv]. }
  unfold install_parts. apply guarded_bind. destruct (install_onlyAgents c) eqn:Ho.
  - apply (Hrest past c); [done|done|by left].
  - eapply guarded_mono; [|by apply installServer_guarded].
    intros past1 [c1 [err|]] Hs Hsv; [done|]. cbn in Hsv. destruct (Hsv eq_refl) as [-> Hsi].
    apply (Hrest past1); [done|done|by right].
Qed.

(** Either every chart is installed, in order, or the result is an error. *)
Lemma install_rest_guarded c sched dir past :
  guarded (install_guard c) (fun past' err => err = None -> all_installed c past') past
    (err <- both sched (installNats c dir) (installDgraph c dir);;
     match err with
     | Some _ => Ret (Errorf "install: failed to install dependencies" err)
     | None => install_parts c
     end).
Proof.
  apply guarded_bind. eapply guarded_mono.
  2: { apply (guarded_both _ _ _ _ _ _ _ (install_guard_past c) (stable_nats c dir) (stable_dgraph c dir));
         [apply installNats_guarded|apply installDgraph_guarded]. }
  intros past1 [err|] _ Hdeps; [done|]. destruct (Hdeps eq_refl) as [Hn Hg].
  destruct (Hn eq_refl) as [Hn1 Hn2], (Hg eq_refl) as [Hg1 Hg2]. clear Hdeps Hn Hg.
  eapply guarded_mono; [|apply guarded_extends, install_parts_guarded; done].
  intros past2 err _ [Hs Hparts] Herr. destruct (Hparts Herr) as [Hsv Hag].
  split_and!; [|split; eauto with install|done|done]. exists dir. eauto with install.
Qed.

Lemma install_in_guarded c sched dir past :
  guarded (install_guard c) (fun past' err => err = None -> all_installed c past') past (install_in sched c dir).
Proof.
  assert (forall k past', guarded (install_guard c) (fun past' err => err = None -> all_installed c past') past'
    (err <- make_clients (set_kubeconfig k c);;
     match err with
     | Some _ => Ret err
     | None =>
         err <- both sched (installNats (set_kubeconfig k c) dir) (installDgraph (set_kubeconfig k c) dir);;
         match err with
         | Some _ => Ret (Errorf "install: failed to install dependencies" err)
         | None => install_parts (set_kubeconfig k c)
         end
     end)) as Hrest.
  { intros k past'. apply guarded_bind.
    eapply (guarded_mono _ (fun _ _ => True)).
    - intros past1 [err|] _ _; [done|]. exact (install_rest_guarded (set_kubeconfig k c) sched dir past1).
    - unfold make_clients. destruct (install_helmClient _), (install_kubeClient _); cbn;
        repeat first [done | split; [done|intros [?|]]]. }
  unfold install_in. apply guarded_bind. unfold find_kubeconfig.
  destruct (String.eqb (install_kubeconfig c) "").
  - split; [done|]. intros env. cbn [bind].
    destruct (negb (String.eqb env "")); [apply Hrest|]. split; [done|]. intros home.
    split; [done|]. intros [err|]; [done|]. apply Hrest.
  - pose proof (Hrest (install_kubeconfig c) past) as Hr.
    by replace (set_kubeconfig (install_kubeconfig c) c) with c in Hr by (by destruct c).
Qed.

(** C26. Parts are installed in the order they need each other.  Under every
    schedule of the goroutines that install NATS and Dgraph and whatever helm
    and the cluster answer: the server and the agents are installed only after
    the pods of both dependencies were reported ready, the agents of a full
    installation only after the server was ready and the schema applied to the
    database; and when the command succeeds every chart was installed, the
    user's values files after the default ones, and every wait was answered.
    With [--only-agents], too, NATS and Dgraph are installed. *)
Theorem install_in_order {S} (h : handler InstallE S) sched c s :
  let hist := history h (install_run sched c) s in
  (forall pre X (e : InstallE X) x post,
     hist = pre ++ got e x :: post -> install_guard c pre X e) /\
  ((run h (install_run sched c) s).1 = Done None -> all_installed c hist).
Proof.
  assert (guarded (install_guard c) (fun past err => err = None -> all_installed c past) []
            (install_run sched c)) as Hg.
  { split; [done|]. intros [dir [err|]]; [done|]. cbn [bind]. apply guarded_bind.
    eapply guarded_mono; [|apply install_in_guarded]. intros past err _ Hall. split; [done|].
    intros [] Hn. destruct (Hall Hn) as ((d&?&?)&?&?&?&?).
    split_and!; [exists d| |intros Ho; eapply server_past; [apply past_snoc|auto]|split]; eauto with install. }
  destruct (guarded_run _ h _ [] _ s Hg) as [H1 H2]. split; [exact H1|]. intros Hr. by apply (H2 None Hr).
Qed.

(** A cluster on which everything is fine, seen by a user without a
    kubeconfig; the log is the state. *)
Definition fine_cluster : handler InstallE (list string) := fun X e log =>
  match e in InstallE X return X * list string with
  | MkdirTemp => (("/tmp/helm-values-1", None), log)
  | RemoveAll _ => (tt, log)
  | Getenv _ => ("", log)
  | HomeDir => ("/home/u", log)
  | Stat _ => (None, log)
  | MarshalTo _ => (inl "yaml", log)
  | WriteFile _ _ => (None, log)
  | NewHelmClient _ _ => (None, log)
  | NewKubeClient _ _ => (None, log)
  | AddRepo _ _ => (None, log)
  | HelmInstall name _ _ _ _ _ => (None, log ++ ["install " +:+ name])
  | WaitForPodsToBeReady _ sel => (None, log ++ ["wait " +:+ sel])
  | GetPodName _ _ => (("tarian-server-0", None), log)
  | ExecPodWithOneContainer _ _ _ => (("successfully applied schema", None), log ++ ["exec"])
  end.

Example ex_install :
  (run fine_cluster (install_run [true; false; true; true] NewInstallCommand) []) =
  (Done None, ["install nats"; "wait app.kubernetes.io/name=nats"; "install dgraph"; "wait app=dgraph";
               "install tarian-server"; "wait app=tarian-server"; "exec"; "install tarian"; "wait app=tarian"]).
Proof. by vm_compute. Qed.

Lemma install_in_order_witness :
  let hist := history fine_cluster (install_run [] NewInstallCommand) [] in
  all_installed NewInstallCommand hist.
Proof.
  intros hist. apply (install_in_order fine_cluster [] NewInstallCommand []). by vm_compute.
Defined.

(** * The clients *)

(** ** Helm ([helm.go]) *)

Inductive HelmE : Type -> Type :=
| LookPath (file : string) : HelmE (string * option error)
| CombinedOutput (bin : string) (args : list string) : HelmE (string * option error).

Record helm_client := mkHelmClient { helmBin : string; helm_kubeconfig : string; helm_kubeContext : string }.

(** [Version:, a quote, v3.] *)
Definition helm_v3 : string := "Version:" +:+ String "034"%char "v3.".

Definition helm_NewHelmClient (kubeconfig kubeContext : string) : prog HelmE (helm_client + error) :=
  r <- call (LookPath "helm");;
  let '(helmBinaryPath, err) := r in
  match err with
  | Some _ => Ret (inr (PlainError "seems like helm is not installed, please install helm first"))
  | None =>
      r <- call (CombinedOutput helmBinaryPath ["version"]);;
      let '(output, err) := r in
      match err with
      | Some _ => Ret (inr (WrapError "failed to run helm version" err))
      | None =>
          if negb (Contains output helm_v3)
          then Ret (inr (PlainError ("helm version >=v3.*.* is required, current version: " +:+ output)))
          else Ret (inl (mkHelmClient helmBinaryPath kubeconfig kubeContext))
      end
  end.

Definition kube_args (h : helm_client) : list string :=
  (if String.eqb (helm_kubeconfig h) "" then [] else ["--kubeconfig"; helm_kubeconfig h]) ++
  (if String.eqb (helm_kubeContext h) "" then [] else ["--kube-context"; helm_kubeContext h]).

Definition helm_AddRepo (h : helm_client) (name url : string) : prog HelmE (option error) :=
  r <- call (CombinedOutput (helmBin h) (["repo"; "add"; name; url] ++ kube_args h));;
  Ret (snd r).

Definition install_args (h : helm_client) (name chart namespace : string) (valuesFiles : slice string)
    (version : string) (setArgs : slice string) : list string :=
  ["upgrade"; "--install"; name; chart; "--namespace"; namespace; "--create-namespace"] ++ kube_args h ++
  concat (List.map (fun valuesFile => ["--values"; valuesFile]) (elems valuesFiles)) ++
  (if String.eqb version "" then [] else ["--version"; version]) ++
  concat (List.map (fun setArg => ["--set"; setArg]) (elems setArgs)).

Definition helm_Install (h : helm_client) (name chart namespace : string) (valuesFiles : slice string)
    (version : string) (setArgs : slice string) : prog HelmE (option error) :=
  r <- call (CombinedOutput (helmBin h) (install_args h name chart namespace valuesFiles version setArgs));;
  Ret (snd r).

(** ** Kubernetes ([kubeclient.go]) *)

Record PodState := mkPodState {
  PodState_Name : string;
  PodState_Phase : string;
  PodState_ContainersReady : list bool;
}.

Inductive KubeE : Type -> Type :=
| ClientConfig (kubeconfig kubeContext : string) : KubeE (option error)
| BuildConfigFromFlags (kubeconfig : string) : KubeE (option error)
| NewForConfig : KubeE (option error)
| ListPods (namespace labelSelector : string) : KubeE (list PodState * option error)
| NewSPDYExecutor (namespace podName : string) (cmd : list string) : KubeE (option error)
| StreamWithContext : KubeE (string * string * option error).

Definition kube_NewKubeClient (kubeconfig kubeContext : string) : prog KubeE (option error) :=
  err <- (if negb (String.eqb kubeContext "") then call (ClientConfig kubeconfig kubeContext)
          else call (BuildConfigFromFlags kubeconfig));;
  match err with
  | Some _ => Ret (Errorf "failed to build kubeconfig" err)
  | None =>
      err <- call NewForConfig;;
      match err with
      | Some _ => Ret (Errorf "failed to create kube client" err)
      | None => Ret None
      end
  end.

Definition pod_ready (pod : PodState) : bool :=
  String.eqb (PodState_Phase pod) "Running" && forallb (fun b => b) (PodState_ContainersReady pod).

(** The condition that is polled; an error of the API means not yet. *)
Definition pods_condition (namespace labelSelector : string) : prog KubeE (bool * option error) :=
  r <- call (ListPods namespace labelSelector);;
  let '(podList, err) := r in
  match err with
  | Some _ => Ret (false, None)
  | None => Ret (forallb pod_ready podList, None)
  end.

(** [wait.PollUntilContextTimeout] of apimachinery: the condition every two
    seconds for at most five minutes. *)
Class Poll := PollUntilContextTimeout : prog KubeE (bool * option error) -> prog KubeE (option error).

(** It answers nil only when the condition has just held. *)
Class PollLaws (PL : Poll) : Prop :=
  poll_holds P (F : list (answered KubeE) -> Prop) past condition :
    (forall past', past ⊆ past' -> guarded P (fun past'' r => r.1 = true -> F past'') past' condition) ->
    guarded P (fun past' err => err = None -> F past') past (PollUntilContextTimeout condition).

Definition kube_WaitForPodsToBeReady `{Poll} (namespace labelSelector : string) : prog KubeE (option error) :=
  PollUntilContextTimeout (pods_condition namespace labelSelector).

Definition kube_ExecPodWithOneContainer (namespace podName : string) (cmd : list string)
  : prog KubeE (string * option error) :=
  err <- call (NewSPDYExecutor namespace podName cmd);;
  match err with
  | Some _ => Ret ("", Errorf "failed to create executor" err)
  | None =>
      r <- call StreamWithContext;;
      let '(stdout, stderr, err) := r in
      match err with
      | Some _ => Ret ("", Errorf "failed to stream" err)
      | None =>
          if negb (String.eqb stderr "") then Ret ("", Some (PlainError ("stderr: " +:+ stderr)))
          else Ret (stdout, None)
      end
  end.

Definition kube_GetPodName (namespace labelSelector : string) : prog KubeE (string * option error) :=
  r <- call (ListPods namespace labelSelector);;
  let '(podList, err) := r in
  match err, podList with
  | None, pod :: _ => Ret (PodState_Name pod, None)
  | _, _ => Ret ("", Errorf "failed to get pod" err)
  end.

(** [n] turns of polling: the law holds whatever the number. *)
Fixpoint poll_times (n : nat) (condition : prog KubeE (bool * option error)) : prog KubeE (option error) :=
  match n with
  | 0 => Ret (Some (PlainError "context deadline exceeded"))
  | S n' =>
      r <- condition;;
      let '(b, err) := r in
      match err with
      | Some _ => Ret err
      | None => if b : bool then Ret None else poll_times n' condition
      end
  end.

#[export] Instance poll_times_laws n : PollLaws (poll_times n).
Proof.
  intros P F past condition Hc. revert past Hc. unfold PollUntilContextTimeout.
  induction n as [|n IH]; intros past Hc; cbn [poll_times]; [done|].
  apply guarded_bind. eapply guarded_mono; [|apply guarded_extends, Hc; reflexivity].
  intros past1 [b [err|]] _ [Hs Hb]; [done|]. destruct b; [by intros _; apply Hb|].
  apply IH. intros past2 Hs2. apply Hc. set_solver.
Qed.

(** What ready means.  When the wait ends without an error, the last
    listing of the pods has shown every one of them running with all its
    containers ready - and that includes a listing without any pod, which the
    cluster answers before the pods are created. *)
Lemma ready_pods_listed `{PL : Poll} `{!PollLaws PL} {S} (h : handler KubeE S) namespace labelSelector s :
  ((run h (kube_WaitForPodsToBeReady namespace labelSelector) s).1 = Done None ->
   exists pods, got (ListPods namespace labelSelector) (pods, None) ∈
                  history h (kube_WaitForPodsToBeReady namespace labelSelector) s /\
     forall pod, pod ∈ pods -> PodState_Phase pod = "Running" /\
       forall b, b ∈ PodState_ContainersReady pod -> b = true) /\
  forall s', (h _ (ListPods namespace labelSelector) s).1 = ([], None) ->
    (h _ (ListPods namespace labelSelector) s).2 = s' ->
    run h (pods_condition namespace labelSelector) s = (Done (true, None), s').
Proof.
  split.
  - assert (guarded (fun _ _ _ => True) (fun past err => err = None -> exists pods,
      got (ListPods namespace labelSelector) (pods, None) ∈ past /\ forallb pod_ready pods = true) []
      (kube_WaitForPodsToBeReady namespace labelSelector)) as Hg.
    { apply poll_holds. intros past' _. split; [done|]. intros [pods [err|]]; [done|]. intros Hb.
      exists pods. split; [apply elem_of_app; right; by left|done]. }
    intros Hr. destruct (guarded_run _ h _ [] _ s Hg) as [_ H].
    destruct (H None Hr eq_refl) as (pods&Hin&Hp). exists pods. split; [done|]. intros pod Hpod.
    apply forallb_forall with (x := pod) in Hp; [|by apply list_elem_of_In].
    apply andb_true_iff in Hp as [Hphase Hall]. to_prop. split; [done|]. intros b Hb.
    by apply (proj1 (forallb_forall _ _) Hall), list_elem_of_In.
  - intros s' Ha Hs. unfold pods_condition. cbn.
    destruct (h _ (ListPods namespace labelSelector) s) as [r s1]. cbn in *. by subst.
Qed.

Lemma ready_pods_listed_witness :
  let api : handler KubeE nat := fun X e n =>
    match e in KubeE X return X * nat with
    | ListPods _ _ => ((if (n <? 2)%nat then [mkPodState "a" "Pending" []] else [mkPodState "a" "Running" [true; true]],
                        None), S n)
    | ClientConfig _ _ => (None, n)
    | BuildConfigFromFlags _ => (None, n)
    | NewForConfig => (None, n)
    | NewSPDYExecutor _ _ _ => (None, n)
    | StreamWithContext => (("", "", None), n)
    end in
  run api (kube_WaitForPodsToBeReady (H := poll_times 150) "tarian-system" "app=dgraph") 0 = (Done None, 3) /\
  exists pods, got (ListPods "tarian-system" "app=dgraph") (pods, None) ∈
    history api (kube_WaitForPodsToBeReady (H := poll_times 150) "tarian-system" "app=dgraph") 0 /\
  forall pod, pod ∈ pods -> PodState_Phase pod = "Running" /\
    forall b, b ∈ PodState_ContainersReady pod -> b = true.
Proof.
  intros api. split; [by vm_compute|].
  apply (ready_pods_listed (PL := poll_times 150) api "tarian-system" "app=dgraph" 0). by vm_compute.
Defined.
