(* ===== verification/Commands.v ===== *)
(** The commands as a whole ([cmd/*/cmd/root.go], [cmd/*/cmd/flags],
    [pkg/log]): what the root command of every process does with its global
    flags before a command runs, the logger, the connection a command of
    [tarianctl] opens before it calls tarian-server, and the two commands of
    the pod agent.  Cobra, which parses the command line, and logrus are
    parameters.  The theorem says how a command of [tarianctl] is connected
    when it makes a call. *)

From S2P Require Import Prelude Guards GoStrings Types Labels Dial NodeAgent Sha256 PodAgent TarianCtl.

(** * The logger *)

(** github.com/sirupsen/logrus: a level that is not known gives the zero level
    with an error. *)
Class Logrus := {
  log_level : Type;
  InfoLevel : log_level;
  ParseLevel : string -> log_level * option error;
}.

Record text_format := mkTextFormat {
  ForceColors : bool;
  DisableColors : bool;
  FullTimestamp : bool;
  DisableQuote : bool;
  DisableTimestamp : bool;
  DisableLevelTruncation : bool;
}.

Inductive log_formatter := TextFormatter (f : text_format) | JSONFormatter.

Inductive log_output := Stderr | Stdout.

Record Logger `{Logrus} := mkLogger {
  logger_Level : log_level;
  logger_Formatter : log_formatter;
  logger_Out : log_output;
}.

Section logger.
Context `{LR : Logrus}.

(** [logrus.New()]. *)
Definition logrus_New : Logger :=
  mkLogger _ InfoLevel (TextFormatter (mkTextFormat false false false false false false)) Stderr.

Definition DefaultFormat (l : Logger) : Logger :=
  mkLogger _ (logger_Level l) (TextFormatter (mkTextFormat true false true false false false)) (logger_Out l).
Definition MiniLogFormat (l : Logger) : Logger :=
  mkLogger _ (logger_Level l) (TextFormatter (mkTextFormat false true false true true true)) (logger_Out l).

Definition ConfigureLogger (logLevel : string) : Logger :=
  let '(level, err) := ParseLevel logLevel in
  let level := match err with Some _ => InfoLevel | None => level end in
  let logger := logrus_New in
  let logger := mkLogger _ level (logger_Formatter logger) (logger_Out logger) in
  let logger := DefaultFormat logger in
  mkLogger _ (logger_Level logger) (logger_Formatter logger) Stdout.

(** The logger of the package, created when there is none. *)
Definition GetLogger (logger : ptr Logger) : Logger :=
  match logger with Some l => l | None => ConfigureLogger "info" end.

(** * Global flags of the agents and the server *)

Record LogFlags := mkLogFlags {
  flags_LogLevel : string;
  flags_LogFormatter : string;
}.

(** The values of flags nobody sets. *)
Definition agent_SetGlobalFlags : LogFlags := mkLogFlags "info" "text".

Definition agent_ValidateGlobalFlags (globalFlags : LogFlags) : option error :=
  let validLogLevels := ["debug"; "info"; "warn"; "warning"; "error"; "fatal"] in
  let validLogFormatters := ["json"; "text"] in
  if negb (existsb (String.eqb (flags_LogLevel globalFlags)) validLogLevels)
  then Some (PlainError ("invalid log level: " +:+ flags_LogLevel globalFlags))
  else if negb (existsb (String.eqb (flags_LogFormatter globalFlags)) validLogFormatters)
  then Some (PlainError ("invalid log formatter: " +:+ flags_LogFormatter globalFlags))
  else None.

(** The logger under flags that are valid. *)
Definition set_logger (LogLevel LogFormatter : string) (l : Logger) : Logger :=
  let '(logLevel, _) := ParseLevel LogLevel in
  mkLogger _ logLevel (if String.eqb LogFormatter "json" then JSONFormatter else logger_Formatter l) (logger_Out l).

(** [PersistentPreRunE] of the agents and the server. *)
Definition agent_PersistentPreRunE (globalFlags : LogFlags) (logger : Logger) : Logger + error :=
  match agent_ValidateGlobalFlags globalFlags with
  | Some err => inr err
  | None => inl (set_logger (flags_LogLevel globalFlags) (flags_LogFormatter globalFlags) logger)
  end.

(** That of [tarianctl], which also reads the environment. *)
Definition ctl_PersistentPreRunE (env : gmap string string) (globalFlags : GlobalFlags) (logger : Logger)
  : (GlobalFlags * Logger) + error :=
  match PersistentPreRunE env globalFlags with
  | inr err => inr err
  | inl flags => inl (flags, set_logger (LogLevel globalFlags) (LogFormatter globalFlags) logger)
  end.

(** ** Root commands *)

(** What [buildRootCommand] puts together. *)
Record root_command := mkRoot {
  root_Use : string;
  root_version_template : string;
  root_commands : list string;
}.

Definition server_root : root_command :=
  mkRoot "tarian-server" "tarian server version: {{.Version}}" ["version"; "run"; "dgraph"].
Definition cluster_root : root_command :=
  mkRoot "tarian-cluster-agent" "tarian cluster agent version: {{.Version}}" ["version"; "run"; "run-webhook-server"].
Definition node_root : root_command :=
  mkRoot "tarian-node-agent" "tarian node agent version: {{.Version}}" ["version"; "run"].
Definition pod_root : root_command :=
  mkRoot "tarian-pod-agent" "tarian pod agent version: {{.Version}}" ["version"; "threat-scan"; "register"].
Definition ctl_root : root_command :=
  mkRoot "tarianctl" "tarianctl version: {{.Version}}" ["version"; "get"; "add"; "remove"; "import"; "install"].

(** [Execute], when cobra has found a command: the hook of the root, then the
    command; an error of either ends the process with status 1. *)
Definition Execute {E} (hook : Logger -> Logger + error) (RunE : Logger -> prog E (option error))
  : prog E unit :=
  match hook (GetLogger None) with
  | inr err => Crash (FatalExit "command failed")
  | inl logger =>
      err <- RunE logger;;
      match err with
      | Some err => Crash (FatalExit "command failed")
      | None => Ret tt
      end
  end.

(** Under valid flags the command runs with the logger they ask for; under
    others it does not start. *)
Lemma Execute_flags {E} (flags : LogFlags) (RunE : Logger -> prog E (option error)) :
  match agent_ValidateGlobalFlags flags with
  | Some _ => Execute (agent_PersistentPreRunE flags) RunE = Crash (FatalExit "command failed")
  | None => exists l, Execute (agent_PersistentPreRunE flags) RunE =
      (err <- RunE l;; match err with Some err => Crash (FatalExit "command failed") | None => Ret tt end) /\
      logger_Level l = (ParseLevel (flags_LogLevel flags)).1 /\ logger_Out l = Stdout /\
      (logger_Formatter l = JSONFormatter <-> flags_LogFormatter flags = "json")
  end.
Proof.
  unfold Execute, agent_PersistentPreRunE. destruct (agent_ValidateGlobalFlags flags); [done|].
  eexists. split; [reflexivity|]. unfold set_logger, GetLogger, ConfigureLogger.
  destruct (ParseLevel (flags_LogLevel flags)) as [level e], (ParseLevel "info") as [info e']. cbn.
  split_and!; [done|done|]. destruct (String.eqb_spec (flags_LogFormatter flags) "json"); naive_solver.
Qed.
End logger.

(** * The commands of tarianctl *)

Inductive CommandE : Type -> Type :=
| OnDial {X} (e : DialE X) : CommandE X
| GrpcDial (address : string) (opts : list transport) : CommandE (option error)
| CloseConn : CommandE unit
| OnCtl {X} (e : CtlE X) : CommandE X.

(** What the commands have in common: [text] starts their errors. *)
Definition with_server (text : string) (g : GlobalFlags) (p : prog CtlE (option error))
  : prog CommandE (option error) :=
  r <- interp (fun _ e => call (OnDial e))
         (GetDialOptions (ServerTLSEnabled g) (ServerTLSInsecureSkipVerify g) (ServerTLSCAFile g));;
  match r with
  | inr err => Ret (Errorf text (Some err))
  | inl opts =>
      err <- call (GrpcDial (ServerAddr g) opts);;
      match err with
      | Some _ => Ret (Errorf (text +:+ ": failed to connect to server") err)
      | None =>
          err <- interp (fun _ e => call (OnCtl e)) p;;
          call CloseConn;;;
          Ret err
      end
  end.

(** A command that talks to the server, with its flags and arguments. *)
Inductive server_command :=
| CmdAddConstraints (c : constraintsCommand)
| CmdAddActions (c : actionCommand)
| CmdGetConstraints (output : string)
| CmdGetActions (namespace output : string)
| CmdGetEvents (limit : Z)
| CmdRemoveConstraints (namespace : string) (args : list string)
| CmdRemoveActions (namespace : string) (args : list string)
| CmdImport (args : list (string * (yaml_file + error))).

(** The commands that only have subcommands, and may run without one. *)
Inductive ctl_group := GroupGet | GroupAdd | GroupRemove.

Inductive ctl_command :=
| OnServer (c : server_command)
| OnGroup (group : ctl_group) (args : list string).

(** [NewGetCommand], [NewAddCommand], [NewRemoveCommand]. *)
Definition get_group (args : list string) : option error :=
  match args with
  | [] => Errorf "get" (Some (PlainError "no resource specified, use `tarianctl get --help` for command usage"))
  | _ => None
  end.
Definition add_group (args : list string) : option error :=
  match args with
  | [] => Errorf "add" (Some (PlainError ("tarianctl needs exactly one argument, use " +:+ quote_mark +:+
      "tarianctl add --help" +:+ quote_mark +:+ " for command usage")))
  | _ => None
  end.
Definition remove_group (args : list string) : option error :=
  match args with
  | [] => Errorf "remove" (Some (PlainError "no resource specified, use `tarianctl remove --help` for command usage"))
  | _ => None
  end.

Definition run_group (group : ctl_group) : list string -> option error :=
  match group with GroupGet => get_group | GroupAdd => add_group | GroupRemove => remove_group end.

(** A word that is no subcommand is taken as an argument: nothing is done and
    the command succeeds. *)
Lemma unknown_resource_succeeds group arg args : run_group group (arg :: args) = None.
Proof. by destruct group. Qed.

Section commands.
Context `{Yaml}.

(** What a command checks before it connects: an error that ends it. *)
Definition before_connecting (c : server_command) : option error :=
  match c with
  | CmdAddActions c =>
      if negb (String.eqb (ac_action c) "delete-pod")
      then Some (PlainError ("add action: invalid action: " +:+ ac_action c)) else None
  | CmdRemoveConstraints _ [] => Errorf "remove constraint" (Some (PlainError
      "please specify the name(s) of the constraint to be removed"))
  | CmdRemoveActions _ [] => Errorf "remove action" (Some (PlainError
      "please specify the name(s) of the action to be removed"))
  | CmdImport [] => Errorf "import" (Some (PlainError "specify file paths to import"))
  | CmdImport args =>
      match List.find (fun f => match f.2 with inr _ => true | inl _ => false end) args with
      | Some (path, inr err) => Errorf ("import: failed to open file " +:+ path) (Some err)
      | _ => None
      end
  | _ => None
  end.

(** The start of its errors, and what it does once it is connected. *)
Definition connected_command (c : server_command) : string * prog CtlE (option error) :=
  match c with
  | CmdAddConstraints c => ("add constraints", add_constraint_run c)
  | CmdAddActions c => ("add constraints", add_action_run c)
  | CmdGetConstraints output => ("add constraints", get_constraints_run output)
  | CmdGetActions namespace output => ("add constraints", get_actions_run namespace output)
  | CmdGetEvents limit => ("add constraints", get_events_run limit)
  | CmdRemoveConstraints namespace args => ("import", remove_constraints_run namespace args)
  | CmdRemoveActions namespace args => ("import", remove_actions_run namespace args)
  | CmdImport args => ("import", import_run args)
  end.

Definition ctl_run (g : GlobalFlags) (c : ctl_command) : prog CommandE (option error) :=
  match c with
  | OnGroup group args => Ret (run_group group args)
  | OnServer c =>
      match before_connecting c with
      | Some err => Ret (Some err)
      | None => let '(text, p) := connected_command c in with_server text g p
      end
  end.

(** From the flags on the command line. *)
Definition ctl_execute (env : gmap string string) (flags : GlobalFlags) (c : ctl_command)
  : prog CommandE (option error) :=
  match PersistentPreRunE env flags with
  | inr err => Ret (Some err)
  | inl g => ctl_run g c
  end.
End commands.

(** * The commands of the pod agent *)

Inductive PodCmdE : Type -> Type :=
| ReadLabelsFile (path : string) : PodCmdE (string + error)
| Hostname : PodCmdE (string + error)
| NotifySignals : PodCmdE unit
| OnRun {X} (e : PodRunE X) : PodCmdE X.

(** The address of the cluster agent and the flags both commands have, as
    nobody sets them; those of files are only defined for [register]. *)
Record podAgentCommand := mkPodAgentCommand {
  command_host : string;
  command_port : string;
  command_flags : pod_agent_flags;
}.

Definition newPodAgentCommand : podAgentCommand :=
  mkPodAgentCommand "" "50052" (mkPodAgentFlags "" "" "" "" "" "" "" three_seconds).

(** Both commands: the agent is set up, then its goroutines run. *)
Definition pod_agent_command
    (configure : pod_agent_flags -> string + error -> string + error -> PodAgent + error)
    (loops : string -> prog PodRunE unit) (c : podAgentCommand) : prog PodCmdE (option error) :=
  let flags := command_flags c in
  labelsFile <- (if negb (String.eqb (flag_podLabelsFile flags) "")
                 then call (ReadLabelsFile (flag_podLabelsFile flags)) else Ret (inl ""));;
  match readLabelsFromFile labelsFile with
  | inr err => Ret (Errorf "failed reading pod-labels-file" (Some err))
  | inl _ =>
      hostname <- (if negb (String.eqb (flag_podName flags) "") then Ret (inl "") else call Hostname);;
      match configure flags labelsFile hostname with
      | inr err => Ret (Some err)
      | inl p =>
          call NotifySignals;;;
          call (OnRun (PodSet p));;;
          interp (fun _ e => call (OnRun e)) (loops (command_host c +:+ ":" +:+ command_port c));;;
          Ret None
      end
  end.

Definition threatScanCommand_run : podAgentCommand -> prog PodCmdE (option error) :=
  pod_agent_command configure_threat_scan RunThreatScan.

Definition runRegisterCommand : podAgentCommand -> prog PodCmdE (option error) :=
  pod_agent_command configure_register RunRegister.

(** * How a command is connected *)

Section connection.
Context `{Yaml} (env : gmap string string) (flags : GlobalFlags).

(** What flags and environment ask for. *)
Definition asks_tls : Prop := ServerTLSEnabled flags = true \/ env !! "TARIAN_TLS_ENABLED" = Some "true".
Definition skips_verification : Prop :=
  ServerTLSInsecureSkipVerify flags = true /\ env !! "TARIAN_TLS_INSECURE_SKIP_VERIFY" <> Some "false".

(** The server a command talks to: that of the flag, unless it has the default
    and the environment names one. *)
Definition names_server (address : string) : Prop :=
  match env !! "TARIAN_SERVER_ADDRESS" with
  | Some a =>
      if decide (a <> "" /\ (ServerAddr flags = defaultServerAddress \/ ServerAddr flags = ""))
      then address = a else address = ServerAddr flags
  | None => address = ServerAddr flags
  end.

(** A connection as it was asked for. *)
Definition connection_told (address : string) (opts : list transport) : Prop :=
  names_server address /\ exists t, opts = [t] /\
  match t with
  | Insecure => ~ asks_tls
  | TLS config => asks_tls /\ (tls_InsecureSkipVerify config = true <-> skips_verification)
  end.

Definition command_guard (past : list (answered CommandE)) X (e : CommandE X) : Prop :=
  match e with
  | GrpcDial address opts => connection_told address opts
  | OnCtl _ => exists address opts, got (GrpcDial address opts) None ∈ past
  | _ => True
  end.

Lemma getenv_true k v : v <> "" -> String.eqb (Getenv env k) v = true <-> env !! k = Some v.
Proof.
  intros Hv. rewrite String.eqb_eq. unfold Getenv. destruct (env !! k) as [x|]; cbn; [naive_solver|]. by split.
Qed.

(** The flags after the environment was read. *)
Lemma flags_told g :
  PersistentPreRunE env flags = inl g ->
  names_server (ServerAddr g) /\ (ServerTLSEnabled g = true <-> asks_tls) /\
  (ServerTLSInsecureSkipVerify g = true <-> skips_verification).
Proof.
  unfold PersistentPreRunE. destruct (ValidateGlobalFlags flags); [done|]. intros [= <-].
  unfold GetFlagValuesFromEnvVar, names_server, asks_tls, skips_verification.
  cbn [ServerAddr ServerTLSEnabled ServerTLSInsecureSkipVerify].
  split_and!.
  - unfold Getenv. destruct (env !! "TARIAN_SERVER_ADDRESS") as [a|]; cbn [default from_option id]; [|by destruct (_ || _)].
    case_decide as Hd.
    + destruct Hd as [Ha Hor].
      assert (String.eqb (ServerAddr flags) defaultServerAddress || String.eqb (ServerAddr flags) "" = true) as ->.
      { by rewrite orb_true_iff, !String.eqb_eq. }
      by apply String.eqb_neq in Ha as ->.
    + destruct (_ || _) eqn:Ho; [|done]. destruct (String.eqb_spec a "") as [|Ha]; [done|]. destruct Hd.
      split; [done|]. by rewrite orb_true_iff, !String.eqb_eq in Ho.
  - rewrite <- (getenv_true "TARIAN_TLS_ENABLED" "true") by done.
    destruct (String.eqb (Getenv env "TARIAN_TLS_ENABLED") "true"); [|naive_solver]. split; [by right|done].
  - rewrite <- (getenv_true "TARIAN_TLS_INSECURE_SKIP_VERIFY" "false") by done.
    destruct (String.eqb (Getenv env "TARIAN_TLS_INSECURE_SKIP_VERIFY") "false"); [naive_solver|].
    split; [done|naive_solver].
Qed.

(** A connection that was opened is closed. *)
Definition connection_closed (past : list (answered CommandE)) : Prop :=
  forall address opts, got (GrpcDial address opts) None ∈ past -> got CloseConn tt ∈ past.

Definition is_dial X (e : CommandE X) : Prop := match e with OnDial _ => True | _ => False end.

Lemma no_dial new address opts :
  Forall (fun v : answered CommandE => is_dial _ (projT2 v).1) new -> got (GrpcDial address opts) None ∉ new.
Proof. intros Hnew Hin. exact (proj1 (Forall_forall _ _) Hnew _ Hin). Qed.

Lemma dial_options_only tls skip ca :
  sat is_dial (fun _ _ _ => True) (fun _ => True)
    (interp (fun _ e => call (OnDial e)) (GetDialOptions tls skip ca)).
Proof.
  unfold GetDialOptions, ca_pool. destruct tls; [|done]. split; [done|]. intros b _. cbn.
  destruct (String.eqb ca ""); [done|]. split; [done|]. intros [pem|err] _; [|done]. by split.
Qed.

Lemma with_server_guarded text g p :
  PersistentPreRunE env flags = inl g ->
  guarded command_guard (fun past _ => connection_closed past) [] (with_server text g p).
Proof.
  intros (Haddr&Htls&Hskip)%flags_told. apply guarded_bind.
  eapply guarded_mono; [|apply (guarded_sat _ is_dial); [apply dial_options_only|]].
  2: { apply (guarded_interp_ensures _ (fun _ e => OnDial e)); [done|apply GetDialOptions_ensures]. }
  intros past [opts|err] _ [[_ Ho] (new&->&Hnew)]; cbn [app] in *.
  2: { intros a o Hin. by apply no_dial in Hin. }
  destruct Ho as (t&->&Ht). split.
  - split; [done|]. exists t. split; [done|]. destruct t as [|config].
    + rewrite <- Htls. by rewrite Ht.
    + destruct Ht as (He&->&_). by rewrite <- Htls, <- Hskip.
  - intros [err|].
    + intros a o [Hin|Hin%list_elem_of_singleton]%elem_of_app; [by apply no_dial in Hin|].
      apply (f_equal (fun v : answered CommandE =>
        match v with existT _ (GrpcDial _ _, Some _) => true | _ => false end)) in Hin. done.
    + cbn [bind]. apply guarded_bind. eapply guarded_mono; [|apply (guarded_interp command_guard (fun _ e => OnCtl e))].
      * intros past err _ Hs. split; [done|]. intros [] a o _. apply elem_of_app. right. by left.
      * intros past' X e Hs. exists (ServerAddr g), [t]. apply Hs, elem_of_app. right. by left.
Qed.

(** C28. Every call is made over the connection that was asked for.  Whatever
    command is run, a call to tarian-server, and anything else the command
    does, comes after a connection to the server the flags or the environment
    name; the connection is in plain text only when neither asks for TLS, and
    the certificate is left unverified only when the flag says so and the
    environment does not forbid it; and when the command returns, a connection
    that was opened has been closed. *)
Theorem connects_as_told {S} (h : handler CommandE S) c s :
  let hist := history h (ctl_execute env flags c) s in
  (forall pre address opts err post, hist = pre ++ got (GrpcDial address opts) err :: post ->
     connection_told address opts) /\
  (forall pre X (e : CtlE X) x post, hist = pre ++ got (OnCtl e) x :: post ->
     exists address opts, got (GrpcDial address opts) None ∈ pre) /\
  (forall err, (run h (ctl_execute env flags c) s).1 = Done err -> connection_closed hist).
Proof.
  assert (guarded command_guard (fun past _ => connection_closed past) [] (ctl_execute env flags c)) as Hg.
  { unfold ctl_execute. destruct (PersistentPreRunE env flags) as [g|err] eqn:He.
    - unfold ctl_run. destruct c as [c|group args]; [|by intros a o Hin%elem_of_nil].
      destruct (before_connecting c); [by intros a o Hin%elem_of_nil|].
      destruct (connected_command c) as [text p]. by apply with_server_guarded.
    - by intros a o Hin%elem_of_nil. }
  destruct (guarded_run _ h _ [] _ s Hg) as [H1 H2]. split_and!.
  - intros pre address opts err post Heq. exact (H1 pre _ _ _ post Heq).
  - intros pre X e x post Heq. exact (H1 pre _ _ _ post Heq).
  - exact H2.
Qed.
End connection.

(** * A run *)

Definition ex_command_env : handler CommandE Z := fun X e w =>
  match e in CommandE X return X * Z with
  | OnDial e =>
      (match e in DialE X return X with
       | SystemCertPool => true
       | ReadFile _ => inl "pem"
       | AppendCertsFromPEM _ => true
       | LoadX509KeyPair _ _ => None
       end, w)
  | GrpcDial _ _ => (None, w)
  | CloseConn => (tt, w)
  | OnCtl e => ctl_env None [] _ e w
  end.

Definition ex_environment : gmap string string :=
  {[ "TARIAN_SERVER_ADDRESS" := "tarian:443"; "TARIAN_TLS_ENABLED" := "true" ]}.

#[local] Instance ex_yaml : Yaml := {| yaml_Marshal_constraint _ := inl ""; yaml_Marshal_action _ := inl "" |}.

Example ex_connection :
  ctl_execute ex_environment SetGlobalFlags (OnServer (CmdRemoveConstraints "default" [])) =
    Ret (Errorf "remove constraint" (Some (PlainError
      "please specify the name(s) of the constraint to be removed"))) /\
  forall g, PersistentPreRunE ex_environment SetGlobalFlags = inl g -> ServerAddr g = "tarian:443".
Proof. split; [reflexivity|]. by intros g [= <-]. Qed.

(** Events are listed over TLS, although no flag asks for it. *)
Lemma connects_as_told_witness :
  let p := ctl_execute ex_environment SetGlobalFlags (OnServer (CmdGetEvents 200)) in
  let hist := history ex_command_env p 0%Z in
  (run ex_command_env p 0%Z).1 = Done None /\ connection_closed hist /\
  connection_told ex_environment SetGlobalFlags "tarian:443" [TLS (mkTLSConfig "" (mkCertPool true []) [] true)].
Proof.
  intros p hist.
  destruct (connects_as_told ex_environment SetGlobalFlags ex_command_env (OnServer (CmdGetEvents 200)) 0%Z) as (H1&_&H3).
  assert ((run ex_command_env p 0%Z).1 = Done None) as Hr by (vm_compute; reflexivity).
  split; [exact Hr|]. split; [exact (H3 None Hr)|].
  assert (hist = [got (OnDial SystemCertPool) true] ++
    got (GrpcDial "tarian:443" [TLS (mkTLSConfig "" (mkCertPool true []) [] true)]) None :: tl (tl hist)) as Hh.
  { vm_compute. reflexivity. }
  exact (H1 _ _ _ _ _ Hh).
Defined.
