(* ===== verification/System.v ===== *)
(** The parts together.  Agents call the cluster agent, which passes calls on
    to tarian-server, which works on its stores and queues; [tarianctl] calls
    tarian-server directly.  Here the calls one part makes are answered by the
    next part's handlers, so that one run goes all the way: from a violation
    on a node to the constraint in the store and back to the agent, from a
    YAML file to the store, from a store error to the alarms it causes. *)

From S2P Require Import Prelude GoStrings Types Labels K8s NodeAgent Store ConfigServer.
From S2P Require Import Queue Events ClusterAgent TarianCtl.

(** * Composition *)

(** What tarian-server and the cluster agent ask of their environment. *)
Inductive ClusterE : Type -> Type :=
| ClStore {X} (e : ServerE X) : ClusterE X
| ClEvents {X} (e : EventServerE X) : ClusterE X
| ClQueue (event : ptr Event) : ClusterE unit.

Section composition.
Context `{SS : StrSet}.

(** A call to tarian-server. *)
Definition config_at_server X (e : ConfigE X) : prog ClusterE X :=
  interp (fun _ e => call (ClStore e)) (config_service X e).

Definition event_at_server X (e : EventE X) : prog ClusterE X :=
  interp (fun _ e => call (ClEvents e)) (event_service X e).

(** The proxies of the cluster agent call tarian-server and the queue of the
    action handler. *)
Definition proxy_backend X (e : ProxyE X) : prog ClusterE X :=
  match e in ProxyE X return prog ClusterE X with
  | PConfig e => config_at_server _ e
  | PEvent e => event_at_server _ e
  | PQueueEvent event => call (ClQueue event)
  end.

(** An agent's call to the cluster agent. *)
Definition config_at_cluster_agent (cs : ProxyConfigServer) X (e : ConfigE X) : prog ClusterE X :=
  interp proxy_backend (proxy_service cs X e).

(** The Event service of the cluster agent embeds the generated
    [UnimplementedEventServer] for [GetEvents]. *)
Definition proxy_event_service X (e : EventE X) : prog ProxyE X :=
  match e in EventE X return prog ProxyE X with
  | IngestEvent r => a <- Proxy_IngestEvent r;; Ret (client_invoke a)
  | GetEvents r => a <- unimplemented "GetEvents";; Ret (client_invoke a)
  end.

Definition event_at_cluster_agent X (e : EventE X) : prog ClusterE X :=
  interp proxy_backend (proxy_event_service X e).

(** A node agent with its cluster. *)
Inductive NodeSystemE : Type -> Type :=
| SysCluster {X} (e : ClusterE X) : NodeSystemE X
| SysNode {X} (e : NodeE X) : NodeSystemE X.

Definition node_backend (cs : ProxyConfigServer) X (e : NodeE X) : prog NodeSystemE X :=
  match e in NodeE X return prog NodeSystemE X with
  | NConfig e => interp (fun _ e => call (SysCluster e)) (config_at_cluster_agent cs _ e)
  | NEvent e => interp (fun _ e => call (SysCluster e)) (event_at_cluster_agent _ e)
  | NNow => call (SysNode NNow)
  | NReadCgroup pid => call (SysNode (NReadCgroup pid))
  | NFindPod id => call (SysNode (NFindPod id))
  | NReadLabels l => call (SysNode (NReadLabels l))
  | NDeleteLabel l k => call (SysNode (NDeleteLabel l k))
  | NGo t => call (SysNode (NGo t))
  end.

(** The command line client with its server. *)
Inductive CtlSystemE : Type -> Type :=
| CtlCluster {X} (e : ClusterE X) : CtlSystemE X
| CtlLocal {X} (e : CtlE X) : CtlSystemE X.

Definition ctl_backend X (e : CtlE X) : prog CtlSystemE X :=
  match e in CtlE X return prog CtlSystemE X with
  | CtlConfig e => interp (fun _ e => call (CtlCluster e)) (config_at_server _ e)
  | CtlEvent e => interp (fun _ e => call (CtlCluster e)) (event_at_server _ e)
  | CtlNow => call (CtlLocal CtlNow)
  | CtlPrint s => call (CtlLocal (CtlPrint s))
  | CtlTable header rows => call (CtlLocal (CtlTable header rows))
  end.
End composition.

(** * Runs of composed programs *)

(** Calls that are passed on unchanged. *)
Lemma run_lift {E F A S} (inj : forall X, E X -> F X) (h : handler F S) (p : prog E A) s :
  run h (interp (fun X e => call (inj X e)) p) s = run (fun X e => h X (inj X e)) p s.
Proof. apply run_interp. intros X e s'. cbn. by destruct (h X (inj X e) s'). Qed.

Lemma run_interp_bind {E F A B S} (i : forall X, E X -> prog F X) (h : handler F S)
    (p : prog E A) (f : A -> prog E B) s :
  run h (interp i (bind p f)) s =
  match run h (interp i p) s with
  | (Done a, s') => run h (interp i (f a)) s'
  | (Crashed c, s') => (Crashed c, s')
  end.
Proof.
  revert s. induction p as [a|X e k IH|c]; intros s; cbn; [done| |done].
  rewrite !run_bind. destruct (run h (i X e) s) as [[x|c] s']; [apply IH|done].
Qed.

Lemma client_invoke_idem {R} (a : ptr R * option error) : client_invoke (client_invoke a) = client_invoke a.
Proof. by destruct a as [r [e|]]. Qed.

Section cluster.
Context `{SS : StrSet} {S : Type} (h : handler ClusterE S).

(** The stores of tarian-server, in the state of the whole cluster. *)
Definition at_store : handler ServerE S := fun X e => h X (ClStore e).

Lemma config_at_server_run X (e : ConfigE X) s :
  run h (config_at_server X e) s = run at_store (config_service X e) s.
Proof. apply (run_lift (fun X e => ClStore e)). Qed.

(** A call that the cluster agent lets through ends as it does at the server. *)
Lemma proxied_run cs X (e : ConfigE X) s :
  proxied cs e = true ->
  run h (config_at_cluster_agent cs X e) s = run at_store (config_service X e) s.
Proof.
  assert (forall R (r : ConfigE (ptr R * option error)) p s,
    config_service _ r = answer p ->
    run h (interp proxy_backend (a <- call (PConfig r);; Ret (client_invoke a))) s =
    run at_store (config_service _ r) s) as Hgo.
  { intros R r p s' Hp. cbn. rewrite run_bind. cbn. rewrite config_at_server_run, Hp, run_answer.
    destruct (run at_store p s') as [[a|c] s1]; [|done]. cbn. by rewrite client_invoke_idem. }
  unfold config_at_cluster_agent.
  destruct e; cbn [proxied proxy_service]; intros Hp; try done;
    unfold Proxy_AddConstraint, Proxy_RemoveConstraint; rewrite ?Hp; cbn [negb];
    by eapply Hgo.
Qed.

(** A call that it does not let through changes nothing. *)
Lemma refused_run cs X (e : ConfigE X) s :
  proxied cs e = false -> exists a, run h (config_at_cluster_agent cs X e) s = (Done a, s).
Proof.
  unfold config_at_cluster_agent.
  destruct e; cbn [proxied proxy_service]; intros Hp; try done;
    unfold Proxy_AddConstraint, Proxy_RemoveConstraint; rewrite ?Hp; cbn; eauto.
Qed.
End cluster.

Section cluster_state.
Context `{SS : StrSet} {S : Type} (h : handler ClusterE S).
Context (cview : S -> list Constraint) (aview : S -> list Action).
Context (cnorm : Constraint -> Constraint) (anorm : Action -> Action).
Context `{HL : !ServerLaws (at_store h) cview aview cnorm anorm}.

(** Calls on constraints leave the actions alone, reading leaves both. *)
Lemma proxied_frame cs X (e : ConfigE X) s :
  proxied cs e = true ->
  let s' := (run (at_store h) (config_service X e) s).2 in
  aview s' = aview s /\ (proxy_enableAddConstraint cs = false -> cview s' = cview s).
Proof using HL.
  destruct e as [[ns ls]|[[c|]]|[ns n]|?|?|?]; intros Hp; try done; cbn [config_service];
    rewrite run_answer.
  - rewrite GetConstraints_run.
    pose proof (cs_frame (at_store h) cview aview cnorm anorm _
                  (if String.eqb ns "" then GetAll else FindByNamespace ns) s) as F.
    unfold on_constraints. destruct (at_store h _ (CS _) s) as [[l er] s'] eqn:Hh.
    apply (store_read_spec (on_constraints (at_store h)) cview cnorm) in Hh as [Hv _].
    cbn. split; [done|by rewrite Hv].
  - rewrite AddConstraint_shape.
    pose proof (constraints_frame (at_store h) cview aview cnorm anorm (add_resource c) s) as F.
    cbn in Hp. rewrite Hp.
    by destruct (run (on_constraints (at_store h)) (add_resource c) s) as [[[]|] ?].
  - rewrite RemoveConstraint_shape.
    pose proof (constraints_frame (at_store h) cview aview cnorm anorm
                  (remove_resource ns n "Constraint not found") s) as F.
    cbn in Hp. rewrite Hp.
    by destruct (run (on_constraints (at_store h)) (remove_resource ns n "Constraint not found") s)
      as [[[]|] ?].
Qed.

(** C19. What agents can do to tarian-server.  Whatever sequence of Config
    calls the programs that talk to the cluster agent make, and whatever
    fails in between: every call is answered, the actions of the server stay
    as they are, names of constraints stay unique, and the constraints stay as
    they are unless adding constraints is enabled at the cluster agent. *)
Theorem agents_keep_server_state {A} cs (p : prog ConfigE A) s :
  unique_state cview aview s ->
  let s' := (run h (interp (config_at_cluster_agent cs) p) s).2 in
  aview s' = aview s /\ unique_keys (cview s') /\
  (proxy_enableAddConstraint cs = false -> cview s' = cview s).
Proof using HL.
  intros Hu.
  pose (I := fun s' => aview s' = aview s /\ unique_keys (cview s') /\
    (proxy_enableAddConstraint cs = false -> cview s' = cview s)).
  apply (interp_invariant (config_at_cluster_agent cs) h I); [|by destruct Hu].
  intros X e s1 (Ha&Hc&Hk). destruct (proxied cs e) eqn:Hp.
  - rewrite (proxied_run h cs X e s1 Hp).
    destruct (service_keeps_unique (at_store h) cview aview cnorm anorm X e s1) as (x&Hx&Hc'&Ha').
    { split; [done|]. rewrite Ha. apply Hu. }
    destruct (proxied_frame cs X e s1 Hp) as [Ha1 Hc1].
    exists x. split; [done|]. split_and!; [congruence|done|]. intros He.
    rewrite Hc1 by done. by apply Hk.
  - destruct (refused_run h cs X e s1 Hp) as [a ->]. by exists a.
Qed.
End cluster_state.

(** * A reliable server *)

(** Stores that answer every call on constraints without an error. *)
Class ReliableServer {S} (h : handler ServerE S) : Prop := {
  reliable_exist ns n s : (h _ (CS (NamespaceAndNameExist ns n)) s).1.2 = None;
  reliable_store_add c s : (h _ (CS (Add (Some c))) s).1 = None;
  reliable_getall s : (h _ (CS GetAll) s).1.2 = None;
}.

#[export] Instance mem_server_reliable : ReliableServer mem_server.
Proof. by split. Qed.

Section reliable.
Context `{SS : StrSet} {S : Type} (h : handler ServerE S).
Context (cview : S -> list Constraint) (aview : S -> list Action).
Context (cnorm : Constraint -> Constraint) (anorm : Action -> Action).
Context `{HL : !ServerLaws h cview aview cnorm anorm} `{HR : !ReliableServer h}.

Definition well_keyed (c : Constraint) : Prop := Constraint_Namespace c <> "" /\ Constraint_Name c <> "".

(** A store that answers keeps names. *)
Lemma reliable_norm_key c (s : S) : resource_key (cnorm c) = resource_key c.
Proof using HL HR.
  destruct (resource_key c) as [ns n] eqn:Hk. pose proof (reliable_exist ns n s) as Her.
  destruct (h _ (CS (NamespaceAndNameExist ns n)) s) as [[b er] s'] eqn:Hh. cbn in Her. subst er.
  by eapply (norm_key (on_constraints h) cview cnorm).
Qed.

(** What the server answers to an addition. *)
Lemma reliable_add c s :
  well_keyed c ->
  exists s', run h (config_service _ (AddConstraint (mkAddConstraintRequest (Some c)))) s =
    (Done (if decide (resource_key c ∈ resource_key <$> cview s)
           then (None, invalid "namespace and name already exists")
           else (Some (mkAddConstraintResponse true), None)), s') /\
  (if decide (resource_key c ∈ resource_key <$> cview s)
   then cview s' = cview s else cview s' ≡ₚ cnorm c :: cview s).
Proof using HL HR.
  intros [Hns Hn]. cbn [config_service]. rewrite run_answer, AddConstraint_shape.
  unfold add_resource. destruct (resource_key c) as [ns n] eqn:Hk.
  injection Hk as Hk1 Hk2. subst ns n.
  destruct (String.eqb_spec (Constraint_Namespace c) "") as [?|_]; [done|].
  destruct (String.eqb_spec (Constraint_Name c) "") as [?|_]; [done|]. cbn [run bind call].
  pose proof (reliable_exist (Constraint_Namespace c) (Constraint_Name c) s) as H1.
  unfold on_constraints at 1.
  destruct (h _ (CS (NamespaceAndNameExist _ _)) s) as [[found er] s1] eqn:Hh. cbn in H1. subst er.
  apply (exist_view (on_constraints h) cview cnorm) in Hh as [V1 E1]; [|done..].
  destruct (E1 eq_refl) as [E2 _]. clear E1. rename E2 into E1. unfold stored in E1.
  destruct (decide ((Constraint_Namespace c, Constraint_Name c) ∈ resource_key <$> cview s)) as [Hin|Hin].
  - rewrite (proj2 E1 Hin). by exists s1.
  - destruct found; [by destruct Hin; apply E1|]. cbn [run].
    pose proof (reliable_store_add c s1) as H2. unfold on_constraints.
    destruct (h _ (CS (Add (Some c))) s1) as [er s2] eqn:Hh2. cbn in H2. subst er. cbn.
    exists s2. split; [done|].
    rewrite <- V1. by apply (store_add (on_constraints h) cview cnorm).
Qed.

Lemma reliable_add_fresh c s :
  well_keyed c -> resource_key c ∉ resource_key <$> cview s ->
  exists s', run h (config_service _ (AddConstraint (mkAddConstraintRequest (Some c)))) s =
    (Done (Some (mkAddConstraintResponse true), None), s') /\ cview s' ≡ₚ cnorm c :: cview s.
Proof using HL HR.
  intros Hk Hin. destruct (reliable_add c s Hk) as (s'&Hr&Hv). exists s'. by destruct (decide _).
Qed.

Lemma reliable_add_duplicate c s :
  well_keyed c -> resource_key c ∈ resource_key <$> cview s ->
  exists s', run h (config_service _ (AddConstraint (mkAddConstraintRequest (Some c)))) s =
    (Done (None, invalid "namespace and name already exists"), s') /\ cview s' = cview s.
Proof using HL HR.
  intros Hk Hin. destruct (reliable_add c s Hk) as (s'&Hr&Hv). exists s'. by destruct (decide _).
Qed.

Lemma reliable_get s :
  exists l s', run h (config_service _ (GetConstraints (mkGetConstraintsRequest "" None))) s =
    (Done (Some (mkGetConstraintsResponse l), None), s') /\
    cview s' = cview s /\ elems l ≡ₚ Some <$> cview s.
Proof using HL HR.
  cbn [config_service]. rewrite run_answer, GetConstraints_run. cbn [String.eqb].
  pose proof (reliable_getall s) as H1. unfold on_constraints.
  destruct (h _ (CS GetAll) s) as [[l er] s1] eqn:Hh. cbn in H1. subst er. cbn.
  exists l, s1. split; [done|].
  split; [by eapply (read_view (on_constraints h) cview cnorm); [|done]|].
  by eapply (store_getall (on_constraints h) cview cnorm).
Qed.
End reliable.

(** * From a violation to the store and back *)

(** A store that keeps what the constraint of a registration means to the
    agents. *)
Definition keeps_meaning `{SS : StrSet} `{MR : MapRange} `{RX : Regexp}
    (cnorm : Constraint -> Constraint) (evt : ExecEvent) (labels : gmap string string) : Prop :=
  forall now evt' labels',
    constraint_allows evt' labels' (Some (cnorm (violation_constraint evt now labels))) =
    constraint_allows evt' labels' (Some (violation_constraint evt now labels)).

Section node_system.
Context `{SS : StrSet} `{!StrSetLaws SS} `{MR : MapRange} `{!MapRangeLaws MR} `{RX : Regexp}.
Context {S : Type} (h : handler NodeSystemE S) (maps : S -> heap).
Context (cview : S -> list Constraint) (aview : S -> list Action).
Context (cnorm : Constraint -> Constraint) (anorm : Action -> Action).

Definition cluster_side : handler ClusterE S := fun X e => h X (SysCluster e).
Definition node_side : handler NodeE S := fun X e => h X (SysNode e).
Definition server_side : handler ServerE S := at_store cluster_side.

(** The environment of a node and its cluster: the label maps live on the
    node, the constraints with the server. *)
Class NodeSystemLaws : Prop := {
  ns_heap :: NodeHeap node_side maps;
  ns_server :: ServerLaws server_side cview aview cnorm anorm;
  ns_frame X (e : NodeE X) s : cview (h X (SysNode e) s).2 = cview s;
}.

Context `{HL : !NodeSystemLaws} `{HR : !ReliableServer server_side}.

Lemma node_config_run cs X (e : ConfigE X) s :
  proxied cs e = true ->
  run h (node_backend cs X (NConfig e)) s = run server_side (config_service X e) s.
Proof.
  intros Hp. cbn [node_backend]. rewrite (run_lift (fun X e => SysCluster e)).
  by apply proxied_run.
Qed.

(** Registering, up to the request. *)
Lemma register_system_run cs v s :
  proxy_enableAddConstraint cs = true ->
  let evt := violation_event v in
  let labels := delete "pod-template-hash" (heap_read (ExecEvent_K8sPodLabels evt) (maps s)) in
  exists s1 s2 now, (node_side _ NNow s1).1 = now /\ cview s2 = cview s /\
  run h (interp (node_backend cs) (RegisterViolationsAsNewConstraint v)) s =
    match run server_side (config_service _ (AddConstraint (mkAddConstraintRequest
            (Some (violation_constraint evt now labels))))) s2 with
    | (Done _, s3) => (Done tt, s3)
    | (Crashed c, s3) => (Crashed c, s3)
    end.
Proof using HL.
  intros Hen evt labels. unfold RegisterViolationsAsNewConstraint. fold evt.
  rewrite run_interp_bind. cbn -[node_backend config_service]. cbn [node_backend].
  cbn [run bind call].
  set (l := ExecEvent_K8sPodLabels evt).
  pose proof (delete_label (h := node_side) (maps := maps) l "pod-template-hash" s) as Hd.
  pose proof (ns_frame _ (NDeleteLabel l "pod-template-hash") s) as Hf0.
  unfold node_side in Hd. destruct (h _ (SysNode (NDeleteLabel l "pod-template-hash")) s) as [u s1].
  cbn [fst snd run bind] in *.
  pose proof (maps_frame (h := node_side) (maps := maps) _ NNow s1 I) as Hn.
  pose proof (ns_frame _ NNow s1) as Hf1. unfold node_side in *.
  destruct (h _ (SysNode NNow) s1) as [now s2] eqn:Hnow. cbn [fst snd] in *.
  pose proof (read_labels (h := node_side) (maps := maps) l s2) as Hr1.
  pose proof (ns_frame _ (NReadLabels l) s2) as Hf2. unfold node_side in *.
  destruct (h _ (SysNode (NReadLabels l)) s2) as [labels' s3]. cbn [fst snd] in *.
  assert (labels' = labels) as -> by by rewrite Hr1, Hn, Hd, heap_read_delete.
  exists s1, s3, now. split; [by rewrite Hnow|]. split; [congruence|].
  rewrite run_bind.
  change (interp (fun X (e : ClusterE X) => call (SysCluster e)) (config_at_cluster_agent cs _ ?e))
    with (node_backend cs _ (NConfig e)).
  by rewrite node_config_run.
Qed.

(** Fetching the constraints. *)
Lemma sync_system_run cs n s : exists l s',
  run h (interp (node_backend cs) (SyncConstraints n)) s =
    (Done (set_initialized (SetConstraints l n)), s') /\
  cview s' = cview s /\ elems l ≡ₚ Some <$> cview s.
Proof using HL HR.
  destruct (reliable_get server_side cview aview cnorm anorm s) as (l&s'&Hr&Hv&Hl).
  exists l, s'. split; [|done]. unfold SyncConstraints. rewrite run_interp_bind.
  cbn [interp call]. rewrite run_bind, node_config_run by done. by rewrite Hr.
Qed.

Lemma registered_keyed evt now labels :
  ExecEvent_K8sNamespace evt <> "" -> well_keyed (violation_constraint evt now labels).
Proof. split; [done|]. cbn. by destruct (ExecEvent_K8sPodName evt). Qed.

(** C7. A registration goes all the way.  A violation is registered through a
    cluster agent that has adding constraints enabled, at a server whose
    stores answer and that has no constraint of such a name yet; the agent
    then fetches its constraints: it is initialised and finds no violation in
    the same event any more, whatever labels the pod still has. *)
Theorem registration_reaches_agents cs v n s :
  let evt := violation_event v in
  let labels := heap_read (ExecEvent_K8sPodLabels evt) (maps s) in
  keeps_meaning cnorm evt (delete "pod-template-hash" labels) ->
  proxy_enableAddConstraint cs = true -> ExecEvent_K8sNamespace evt <> "" -> pod_labels_ok labels ->
  rule_accepts (ExecEvent_Command evt) (Some (mkAllowedProcessRule (Some (ExecEvent_Command evt)))) ->
  (forall t, (ExecEvent_K8sNamespace evt, ExecEvent_K8sPodName evt +:+ "-" +:+ t)
     ∉ resource_key <$> cview s) ->
  exists n' s',
    run h (interp (node_backend cs) (RegisterViolationsAsNewConstraint v;;; SyncConstraints n)) s =
      (Done n', s') /\
    NodeAgent_constraintsInitialized n' = true /\
    (exists c, cview s' ≡ₚ c :: cview s) /\
    forall labels', pod_labels_ok labels' -> delete "pod-template-hash" labels ⊆ labels' ->
      ValidateProcess n' evt labels' = None.
Proof using HL HR SS StrSetLaws0 MapRangeLaws0.
  intros evt labels Hnorm Hen Hns Hok Hacc Hfresh. rewrite run_interp_bind.
  destruct (register_system_run cs v s Hen) as (s1&s2&now&_&Hv&->). fold evt labels.
  set (c := violation_constraint evt now (delete "pod-template-hash" labels)).
  destruct (reliable_add_fresh server_side cview aview cnorm anorm c s2) as (s3&Hr&Hv3).
  { by apply registered_keyed. }
  { rewrite Hv. apply Hfresh. }
  rewrite Hr. destruct (sync_system_run cs n s3) as (l&s4&->&Hv4&Hl).
  do 2 eexists. split; [done|]. split; [done|].
  split; [exists (cnorm c); by rewrite Hv4, Hv3, Hv|].
  intros labels' Hok' Hsub. apply (ValidateProcess_allowed _ _ _ (Some (cnorm c))).
  - cbn. rewrite Hl, Hv3. left.
  - unfold c. rewrite Hnorm. by apply violation_constraint_allows; [apply pod_labels_ok_delete| | |].
Qed.

(** C38. Registrations collide.  The name of the constraint is the pod's name
    with the clock in units of 3.6 milliseconds: of two violations of one pod
    registered within such a unit the second is refused as a duplicate, and
    the agent does not learn of it - after it fetched the constraints again
    the second event is still a violation, unless some other constraint
    allows it. *)
Theorem registrations_collide cs v1 v2 n s slot :
  let evt1 := violation_event v1 in
  let evt2 := violation_event v2 in
  (forall labels, keeps_meaning cnorm evt1 labels) ->
  (forall s, Z.quot (node_side _ NNow s).1 3600000 = slot) ->
  proxy_enableAddConstraint cs = true ->
  ExecEvent_K8sNamespace evt1 <> "" -> ExecEvent_K8sPodName evt1 <> "" ->
  ExecEvent_K8sNamespace evt2 = ExecEvent_K8sNamespace evt1 ->
  ExecEvent_K8sPodName evt2 = ExecEvent_K8sPodName evt1 ->
  ~ rule_accepts (ExecEvent_Command evt2) (Some (mkAllowedProcessRule (Some (ExecEvent_Command evt1)))) ->
  (forall labels c, c ∈ cview s -> constraint_allows evt2 labels (Some c) = false) ->
  exists n' s',
    run h (interp (node_backend cs)
      (RegisterViolationsAsNewConstraint v1;;; RegisterViolationsAsNewConstraint v2;;;
       SyncConstraints n)) s = (Done n', s') /\
    (exists c, cview s' ≡ₚ c :: cview s \/ cview s' = cview s) /\
    forall labels', ValidateProcess n' evt2 labels' = Some v2.
Proof using HL HR.
  intros evt1 evt2 Hnorm Hclock Hen Hns Hpod Hns2 Hpod2 Hrej Hold. rewrite run_interp_bind.
  destruct (register_system_run cs v1 s Hen) as (s1&s2&now1&Hnow1&Hv2&->). fold evt1.
  set (c1 := violation_constraint evt1 now1 _).
  assert (exists o s3, run server_side (config_service _ (AddConstraint
      (mkAddConstraintRequest (Some c1)))) s2 = (Done o, s3) /\
    resource_key c1 ∈ resource_key <$> cview s3 /\
    (cview s3 ≡ₚ cnorm c1 :: cview s \/ cview s3 = cview s)) as (o&s3&->&Hin&Hv3).
  { assert (well_keyed c1) as Hk by by apply registered_keyed.
    destruct (decide (resource_key c1 ∈ resource_key <$> cview s2)) as [Hin|Hin].
    - destruct (reliable_add_duplicate server_side cview aview cnorm anorm c1 s2 Hk Hin) as (s3&Hr&Hv).
      eexists _, s3. split; [exact Hr|]. split; [by rewrite Hv|right; congruence].
    - destruct (reliable_add_fresh server_side cview aview cnorm anorm c1 s2 Hk Hin) as (s3&Hr&Hv).
      eexists _, s3. split; [exact Hr|]. rewrite Hv2 in Hv. split; [|by left].
      rewrite Hv, fmap_cons, <- (reliable_norm_key server_side cview aview cnorm anorm c1 s). left. }
  rewrite run_interp_bind.
  destruct (register_system_run cs v2 s3 Hen) as (s4&s5&now2&Hnow2&Hv5&->). fold evt2.
  set (c2 := violation_constraint evt2 now2 _).
  destruct (reliable_add_duplicate server_side cview aview cnorm anorm c2 s5) as (s6&->&Hv6).
  { by apply registered_keyed; rewrite Hns2. }
  { rewrite Hv5. replace (resource_key c2) with (resource_key c1); [done|].
    unfold resource_key, Constraint_keyed, c1, c2. cbn. by rewrite Hns2, Hpod2, <- Hnow1, <- Hnow2, !Hclock. }
  destruct (sync_system_run cs n s6) as (l&s7&->&Hv7&Hl).
  do 2 eexists. split; [done|]. split.
  { exists (cnorm c1). rewrite Hv7, Hv6, Hv5. exact Hv3. }
  intros labels'. unfold ValidateProcess. fold evt2. rewrite Hns2, Hpod2.
  apply String.eqb_neq in Hns as ->. apply String.eqb_neq in Hpod as ->. cbn [orb].
  replace (existsb _ _) with false; [by destruct v2|]. symmetry. apply not_true_iff_false.
  rewrite existsb_exists. intros (c&Hc%list_elem_of_In&Hall). cbn in Hc. rewrite Hl in Hc.
  apply list_elem_of_fmap in Hc as (c'&->&Hc'). rewrite Hv6, Hv5 in Hc'.
  assert (c' = cnorm c1 \/ c' ∈ cview s) as [->|Hs].
  { destruct Hv3 as [Hp|He]; [rewrite Hp in Hc'; by apply elem_of_cons in Hc'|right; by rewrite <- He]. }
  - unfold c1 in Hall; rewrite Hnorm in Hall. unfold constraint_allows in Hall. cbn -[rule_allows] in Hall.
    apply andb_true_iff in Hall as [_ Hr]. rewrite orb_false_r in Hr.
    by apply rule_allows_spec in Hr.
  - by rewrite (Hold labels' c' Hs) in Hall.
Qed.
End node_system.

(** * A store that fails *)

Section failing_store.
Context `{SS : StrSet} `{MR : MapRange} `{RX : Regexp}.
Context {S : Type} (h : handler NodeSystemE S).
Context (cview : S -> list Constraint) (aview : S -> list Action).
Context (cnorm : Constraint -> Constraint) (anorm : Action -> Action).
Context `{HL : !ServerLaws (server_side h) cview aview cnorm anorm}.

(** C39. One failed query disarms every constraint.  When the constraint store
    cannot be read, tarian-server answers with no constraint and no error, so
    a node agent that fetches its constraints at that moment does not stop, as
    it does when it gets an error: it counts as initialised, has no constraint
    and finds a violation in every exec event of every pod. *)
Theorem store_error_flags_every_exec cs n s l er s1 :
  server_side h _ (CS GetAll) s = ((l, Some er), s1) ->
  exists n', run h (interp (node_backend cs) (SyncConstraints n)) s = (Done n', s1) /\
    NodeAgent_constraintsInitialized n' = true /\
    forall evt labels, ExecEvent_K8sNamespace evt <> "" -> ExecEvent_K8sPodName evt <> "" ->
      ValidateProcess n' evt labels = Some (mkProcessViolation evt).
Proof using HL.
  intros Hh. unfold SyncConstraints. rewrite run_interp_bind. cbn [interp call].
  rewrite run_bind, node_config_run by done. cbn [config_service].
  rewrite run_answer, GetConstraints_run. cbn [String.eqb]. unfold on_constraints at 1. rewrite Hh.
  apply (store_getall_error (on_constraints (server_side h)) cview cnorm) in Hh as ->.
  cbn. eexists. split; [done|]. split; [done|]. intros evt labels Hns Hpod.
  unfold ValidateProcess. apply String.eqb_neq in Hns as ->. by apply String.eqb_neq in Hpod as ->.
Qed.
End failing_store.

(** * Importing constraints *)

Section import.
Context `{SS : StrSet} {S : Type} (h : handler CtlSystemE S).
Context (cview : S -> list Constraint) (aview : S -> list Action).
Context (cnorm : Constraint -> Constraint) (anorm : Action -> Action).

Definition ctl_server : handler ServerE S := at_store (fun X e => h X (CtlCluster e)).

Class CtlSystemLaws : Prop := {
  ctl_laws :: ServerLaws ctl_server cview aview cnorm anorm;
  ctl_frame X (e : CtlE X) s : cview (h X (CtlLocal e) s).2 = cview s;
}.

Context `{HL : !CtlSystemLaws} `{HR : !ReliableServer ctl_server}.

Lemma ctl_config_run X (e : ConfigE X) s :
  run h (ctl_backend X (CtlConfig e)) s = run ctl_server (config_service X e) s.
Proof. cbn [ctl_backend]. rewrite (run_lift (fun X e => CtlCluster e)). apply config_at_server_run. Qed.

(** A file of the given constraints. *)
Abbreviation documents cs := (fmap (M := list) (@inl Constraint error) cs).

(** Constraints that a server can take one after the other. *)
Definition addable (cs : list Constraint) (v : list Constraint) : Prop :=
  Forall well_keyed cs /\ NoDup (resource_key <$> cs) /\
  Forall (fun c => resource_key c ∉ resource_key <$> v) cs.

Lemma addable_cons c cs v v' (s : S) :
  addable (c :: cs) v -> v' ≡ₚ cnorm c :: v ->
  well_keyed c /\ resource_key c ∉ resource_key <$> v /\ addable cs v'.
Proof using HL HR.
  intros (Hk&Hd&Hn) Hv. inversion Hk; inversion Hn; subst. rewrite fmap_cons in Hd.
  apply NoDup_cons in Hd as [Hd1 Hd2]. split_and!; [done..|]. split_and!; [done..|].
  apply Forall_forall. intros x Hx.
  rewrite Hv, fmap_cons, (reliable_norm_key ctl_server cview aview cnorm anorm c s).
  intros [He|Hin]%elem_of_cons.
  - apply Hd1. rewrite <- He. by apply list_elem_of_fmap_2.
  - match goal with H : Forall (fun c => resource_key c ∉ _) cs |- _ =>
      by apply (proj1 (Forall_forall _ _) H x Hx) end.
Qed.

Lemma import_document_fresh c k s :
  well_keyed c -> resource_key c ∉ resource_key <$> cview s -> exists s',
  run h (interp ctl_backend (import_document (inl c) k)) s = (Done (Next (Datatypes.S k)), s') /\
  cview s' ≡ₚ cnorm c :: cview s.
Proof using HL HR.
  intros Hk Hn. unfold import_document. rewrite run_interp_bind. cbn [interp call].
  rewrite run_bind, ctl_config_run.
  by destruct (reliable_add_fresh ctl_server cview aview cnorm anorm c s Hk Hn) as (s'&->&Hv); eauto.
Qed.

Lemma import_document_duplicate c k s :
  well_keyed c -> resource_key c ∈ resource_key <$> cview s -> exists err s',
  run h (interp ctl_backend (import_document (inl c) k)) s = (Done (Return (Some err)), s') /\
  cview s' = cview s.
Proof using HL HR.
  intros Hk Hn. unfold import_document. rewrite run_interp_bind. cbn [interp call].
  rewrite run_bind, ctl_config_run.
  destruct (reliable_add_duplicate ctl_server cview aview cnorm anorm c s Hk Hn) as (s'&->&Hv).
  cbn. eauto.
Qed.

Lemma import_documents cs k s :
  addable cs (cview s) -> exists s',
  run h (interp ctl_backend (for_range (documents cs) k import_document)) s =
    (Done (inl (k + length cs)%nat), s') /\ cview s' ≡ₚ (cnorm <$> cs) ++ cview s.
Proof using HL HR.
  revert k s. induction cs as [|c cs IH]; intros k s Ha.
  - exists s. by rewrite Nat.add_0_r.
  - rewrite fmap_cons. cbn [for_range]. rewrite run_interp_bind.
    assert (well_keyed c /\ resource_key c ∉ resource_key <$> cview s) as [Hk Hn].
    { destruct Ha as (Hk&_&Hn). inversion Hk; inversion Hn; by subst. }
    destruct (import_document_fresh c k s Hk Hn) as (s1&->&Hv1).
    destruct (addable_cons c cs _ _ s Ha Hv1) as (_&_&Ha1).
    destruct (IH (Datatypes.S k) s1 Ha1) as (s2&->&Hv2). exists s2. split.
    + cbn [length]. by rewrite Nat.add_succ_comm.
    + rewrite Hv2, Hv1, fmap_cons. cbn. symmetry. apply Permutation_middle.
Qed.

Lemma print_run text s : exists s',
  run h (interp ctl_backend (call (CtlPrint text);;; Ret (None : option error))) s = (Done None, s') /\
  cview s' = cview s.
Proof using HL.
  cbn. pose proof (ctl_frame _ (CtlPrint text) s) as Hf.
  destruct (h _ (CtlLocal (CtlPrint text)) s) as [u s']. cbn in *. eauto.
Qed.

Lemma importFile_fresh cs s :
  addable cs (cview s) -> exists s',
  run h (interp ctl_backend (importFile (documents cs))) s = (Done None, s') /\
  cview s' ≡ₚ (cnorm <$> cs) ++ cview s.
Proof using HL HR.
  intros Ha. unfold importFile. rewrite run_interp_bind.
  destruct (import_documents cs 0 s Ha) as (s1&->&Hv1). cbn [Nat.add].
  destruct (length cs) as [|k].
  - destruct (print_run "No constraints imported" s1) as (s2&->&Hv2). exists s2.
    split; [done|by rewrite Hv2].
  - destruct (print_run (Itoa (Z.of_nat (Datatypes.S k)) +:+ " constraint(s) imported successfully") s1)
      as (s2&->&Hv2). exists s2. split; [done|by rewrite Hv2].
Qed.

Lemma importFile_duplicate c cs s :
  well_keyed c -> resource_key c ∈ resource_key <$> cview s -> exists err s',
  run h (interp ctl_backend (importFile (documents (c :: cs)))) s = (Done (Some err), s') /\
  cview s' = cview s.
Proof using HL HR.
  intros Hk Hn. unfold importFile. rewrite run_interp_bind, fmap_cons. cbn [for_range].
  rewrite run_interp_bind.
  destruct (import_document_duplicate c 0 s Hk Hn) as (err&s1&->&Hv1). cbn. eauto.
Qed.

Lemma addable_app a b v v' (s : S) :
  addable (a ++ b) v -> v' ≡ₚ (cnorm <$> a) ++ v -> addable a v /\ addable b v'.
Proof using HL HR.
  intros (Hk&Hd&Hn) Hv. rewrite fmap_app in Hd.
  apply Forall_app in Hk as [Hk1 Hk2]. apply Forall_app in Hn as [Hn1 Hn2].
  apply NoDup_app in Hd as (Hd1&Hd2&Hd3). split; [by split_and!|]. split_and!; [done..|].
  apply Forall_forall. intros x Hx. rewrite Hv, fmap_app, elem_of_app, <- list_fmap_compose.
  intros [Hin|Hin].
  - apply list_elem_of_fmap in Hin as (y&Hy&Hiny). cbn in Hy.
    rewrite (reliable_norm_key ctl_server cview aview cnorm anorm y s) in Hy.
    apply (Hd2 (resource_key x)); [rewrite Hy; by apply list_elem_of_fmap_2|by apply list_elem_of_fmap_2].
  - by apply (proj1 (Forall_forall _ _) Hn2 x Hx).
Qed.

(** Files that decode: their names and their constraints. *)
Definition decoded (files : list (string * list Constraint)) : list (string * (yaml_file + error)) :=
  (fun f => (f.1, inl (documents f.2))) <$> files.

Lemma open_files files acc :
  for_range (decoded files) acc open_file = Ret (inl (acc ++ ((fun f => documents (@snd string (list Constraint) f)) <$> files))).
Proof.
  revert acc. induction files as [|f files IH]; intros acc; cbn; [by rewrite app_nil_r|].
  unfold decoded in IH. rewrite IH. by rewrite <- app_assoc.
Qed.

Lemma import_files files s :
  addable (concat files.*2) (cview s) -> exists s',
  run h (interp ctl_backend (for_range ((fun f => documents (@snd string (list Constraint) f)) <$> files) tt import_opened)) s =
    (Done (inl tt), s') /\ cview s' ≡ₚ (cnorm <$> concat files.*2) ++ cview s.
Proof using HL HR.
  revert s. induction files as [|[path cs] files IH]; intros s Ha; [by exists s|].
  rewrite !fmap_cons in *. cbn [for_range fst snd List.concat] in *. rewrite run_interp_bind.
  unfold import_opened at 1. rewrite run_interp_bind.
  destruct (addable_app cs _ _ _ s Ha (reflexivity _)) as [Ha1 _].
  destruct (importFile_fresh cs s Ha1) as (s1&->&Hv1). cbn [run interp].
  destruct (addable_app cs _ _ _ s Ha Hv1) as [_ Ha2].
  destruct (IH s1 Ha2) as (s2&->&Hv2). exists s2. split; [done|].
  rewrite Hv2, Hv1, fmap_app, !app_assoc. f_equiv. apply Permutation_app_comm.
Qed.

Lemma import_files_again files s :
  concat files.*2 <> [] -> Forall well_keyed (concat files.*2) ->
  (forall c, c ∈ concat files.*2 -> resource_key c ∈ resource_key <$> cview s) -> exists err s',
  run h (interp ctl_backend (for_range ((fun f => documents (@snd string (list Constraint) f)) <$> files) tt import_opened)) s =
    (Done (inr (Some err)), s') /\ cview s' ≡ₚ cview s.
Proof using HL HR.
  revert s. induction files as [|[path cs] files IH]; intros s Hne Hk Hin; [done|].
  rewrite !fmap_cons in *. cbn [for_range fst snd List.concat] in *. rewrite run_interp_bind.
  unfold import_opened at 1. rewrite run_interp_bind. destruct cs as [|c cs].
  - destruct (importFile_fresh [] s) as (s1&->&Hv1); [split_and!; constructor|]. cbn [run interp].
    destruct (IH s1 Hne Hk) as (err&s2&->&Hv2).
    { intros c Hc. rewrite Hv1. by apply Hin. }
    exists err, s2. split; [done|by rewrite Hv2].
  - destruct (importFile_duplicate c cs s) as (err&s1&->&Hv1).
    { by inversion Hk. }
    { apply Hin. left. }
    cbn. eexists _, s1. split; [done|by rewrite Hv1].
Qed.

(** C37. Importing works once.  Files whose constraints are all named, have
    names of their own that the server does not know, and decode without an
    error are imported completely: the command succeeds and the server has
    exactly these constraints more.  Importing the same files again fails at
    the first constraint and changes nothing. *)
Theorem import_works_once files s :
  files <> [] -> addable (concat files.*2) (cview s) ->
  exists s', run h (interp ctl_backend (import_run (decoded files))) s = (Done None, s') /\
    cview s' ≡ₚ (cnorm <$> concat files.*2) ++ cview s /\
    (concat files.*2 <> [] -> exists err s'',
       run h (interp ctl_backend (import_run (decoded files))) s' = (Done (Some err), s'') /\
       cview s'' ≡ₚ cview s').
Proof using HL HR.
  intros Hne Ha. assert (forall s0, run h (interp ctl_backend (import_run (decoded files))) s0 =
    match run h (interp ctl_backend
            (for_range ((fun f => documents (@snd string (list Constraint) f)) <$> files) tt import_opened)) s0 with
    | (Done (inr err), s1) => (Done err, s1)
    | (Done (inl _), s1) => (Done None, s1)
    | (Crashed c, s1) => (Crashed c, s1)
    end) as Hrun.
  { intros s0. unfold import_run. rewrite open_files.
    destruct files as [|f files]; [done|]. unfold decoded. rewrite fmap_cons at 1.
    cbn [bind app]. rewrite run_interp_bind.
    by destruct (run h _ s0) as [[[]|] s1]. }
  destruct (import_files files s Ha) as (s1&Hr1&Hv1). exists s1. rewrite Hrun, Hr1.
  split_and!; [done..|]. intros Hcs.
  destruct (import_files_again files s1 Hcs) as (err&s2&Hr2&Hv2).
  - apply Ha.
  - intros c Hc. rewrite Hv1, fmap_app, elem_of_app. left.
    rewrite <- (reliable_norm_key ctl_server cview aview cnorm anorm c s).
    by apply list_elem_of_fmap_2, list_elem_of_fmap_2.
  - exists err, s2. by rewrite Hrun, Hr2.
Qed.
End import.

(** * Concrete environments *)

(** A cluster on a given server side; nothing answers for events. *)
Definition down_events : forall X, EventServerE X -> X := fun X e =>
  match e in EventServerE X return X with
  | ES e =>
      match e in EventStoreE X return X with
      | EventGetAll _ => (None, unavailable)
      | EventFindByNamespace _ _ => (None, unavailable)
      | FindWhereAlertNotSent => (None, unavailable)
      | EventAdd _ => unavailable
      | UpdateAlertSent _ => unavailable
      end
  | EPublish _ _ => unavailable
  end.

Definition cluster_env {T} (g : handler ServerE T) : handler ClusterE T := fun X e s =>
  match e in ClusterE X return X * T with
  | ClStore e => g _ e s
  | ClEvents e => (down_events _ e, s)
  | ClQueue _ => (tt, s)
  end.

#[export] Instance cluster_env_laws g :
  ServerLaws g fst snd (fun x => x) (fun x => x) ->
  ServerLaws (at_store (cluster_env g)) fst snd (fun x => x) (fun x => x).
Proof. done. Qed.

(** A node next to it, on which no time passes. *)
Definition node_local : handler NodeE heap := fun X e m =>
  let '(x, w) := node_env X e (m, 1700000000000000000%Z) in (x, w.1).

Definition node_system_env {T} (g : handler ServerE T) : handler NodeSystemE (heap * T) := fun X e s =>
  match e in NodeSystemE X return X * (heap * T) with
  | SysCluster e => let '(x, c) := cluster_env g _ e s.2 in (x, (s.1, c))
  | SysNode e => let '(x, m) := node_local _ e s.1 in (x, (m, s.2))
  end.

(** A server on part of the state. *)
Lemma ServerLaws_lens {S S'} (g : handler ServerE S) (g' : handler ServerE S') (get : S' -> S)
    cview aview cnorm anorm :
  (forall X (e : ServerE X) s, (g' X e s).1 = (g X e (get s)).1 /\ get (g' X e s).2 = (g X e (get s)).2) ->
  ServerLaws g cview aview cnorm anorm ->
  ServerLaws g' (fun s => cview (get s)) (fun s => aview (get s)) cnorm anorm.
Proof.
  intros Hl HL. split.
  - apply (StoreLaws_lens (on_constraints g) _ get cview); [intros; apply Hl|apply _].
  - apply (StoreLaws_lens (on_actions g) _ get aview); [intros; apply Hl|apply _].
  - intros X e s. destruct (Hl _ (CS e) s) as [_ ->]. apply HL.
  - intros X e s. destruct (Hl _ (AS e) s) as [_ ->]. apply HL.
Qed.

#[export] Instance node_system_env_laws g :
  ServerLaws g fst snd (fun x => x) (fun x => x) ->
  NodeSystemLaws (node_system_env g) fst (fun s => s.2.1) (fun s => s.2.2)
    (fun x => x) (fun x => x).
Proof.
  intros HL. split.
  - split.
    + intros l w. done.
    + intros l k w. done.
    + intros X e w. by destruct e.
  - apply (ServerLaws_lens g _ snd); [|done]. intros X e [n c]. cbn. by destruct (g X e c).
  - intros X e s. cbn. by destruct (node_local X e s.1).
Qed.

#[export] Instance node_system_reliable : ReliableServer (server_side (node_system_env mem_server)).
Proof. by split. Qed.

Definition ex_proxy (enabled : bool) : ProxyConfigServer := mkProxyConfigServer enabled.

Lemma agents_keep_server_state_witness :
  let p := call (AddConstraint (mkAddConstraintRequest (Some nginx)));;;
           call (AddAction (mkAddActionRequest (Some kill)));;;
           call (RemoveConstraint (mkRemoveConstraintRequest "default" "redis")) in
  let after enabled := (run (cluster_env mem_server)
    (interp (config_at_cluster_agent (ex_proxy enabled)) p) ([redis], [])).2 in
  after true = ([nginx], []) /\ unique_keys (after true).1 /\ (after false).1 = [redis].
Proof.
  intros p after. assert (unique_state fst snd ([redis], [])) as Hu.
  { split; [apply NoDup_singleton|constructor]. }
  split; [reflexivity|]. split.
  - apply (agents_keep_server_state (cluster_env mem_server) fst snd (fun x => x) (fun x => x)
      (ex_proxy true) p ([redis], []) Hu).
  - apply (agents_keep_server_state (cluster_env mem_server) fst snd (fun x => x) (fun x => x)
      (ex_proxy false) p ([redis], []) Hu). reflexivity.
Defined.

Lemma store_error_flags_every_exec_witness :
  let s := (ex_world.1, ([nginx], [])) in
  exists n', run (node_system_env broken_server)
      (interp (node_backend (ex_proxy true)) (SyncConstraints NewNodeAgent)) s =
      (Done n', s) /\
    ValidateProcess (RX := literal_engine) n' (ex_evt "nginx") ∅ =
      Some (mkProcessViolation (ex_evt "nginx")).
Proof.
  intros s. destruct (store_error_flags_every_exec (RX := literal_engine)
    (node_system_env broken_server) (fun s => s.2.1) (fun s => s.2.2) (fun x => x) (fun x => x)
    (ex_proxy true) NewNodeAgent s None (PlainError "unreachable") s
    eq_refl) as (n'&Hr&_&Hv).
  exists n'. split; [exact Hr|]. by apply Hv.
Defined.

#[local] Existing Instance literal_engine.

Lemma keeps_meaning_id evt labels : keeps_meaning (fun c => c) evt labels.
Proof. done. Qed.

Lemma registration_reaches_agents_witness :
  let v := mkProcessViolation (ex_evt "sh") in
  exists n' s',
    run (node_system_env mem_server)
      (interp (node_backend (ex_proxy true))
         (RegisterViolationsAsNewConstraint v;;; SyncConstraints NewNodeAgent))
      (ex_world.1, ([nginx], [])) = (Done n', s') /\
    ValidateProcess n' (ex_evt "sh") {[ "app" := "web" ]} = None.
Proof.
  intros v. destruct (registration_reaches_agents (node_system_env mem_server)
    fst (fun s => s.2.1) (fun s => s.2.2) (fun x => x) (fun x => x)
    (ex_proxy true) v NewNodeAgent (ex_world.1, ([nginx], []))) as (n'&s'&Hr&_&_&Hv).
  - intros; apply keeps_meaning_id.
  - reflexivity.
  - discriminate.
  - labels_ok.
  - exists (fun s => Contains s "sh"). split; [discriminate|]. by vm_compute.
  - intros t. cbn. intros [Hx|Hx]%elem_of_cons; [discriminate|by apply elem_of_nil in Hx].
  - exists n', s'. split; [exact Hr|]. apply Hv; [labels_ok|].
    apply (bool_decide_unpack _). by vm_compute.
Defined.

Lemma registrations_collide_witness :
  let v1 := mkProcessViolation (ex_evt "sh") in
  let v2 := mkProcessViolation (ex_evt "curl") in
  exists n' s',
    run (node_system_env mem_server)
      (interp (node_backend (ex_proxy true))
         (RegisterViolationsAsNewConstraint v1;;; RegisterViolationsAsNewConstraint v2;;;
          SyncConstraints NewNodeAgent)) (ex_world.1, ([nginx], [])) = (Done n', s') /\
    ValidateProcess n' (ex_evt "curl") {[ "app" := "web" ]} = Some v2.
Proof.
  intros v1 v2.
  destruct (registrations_collide (node_system_env mem_server)
    fst (fun s => s.2.1) (fun s => s.2.2) (fun x => x) (fun x => x)
    (ex_proxy true) v1 v2 NewNodeAgent (ex_world.1, ([nginx], [])) 472222222222) as (n'&s'&Hr&_&Hv).
  - intros; apply keeps_meaning_id.
  - reflexivity.
  - reflexivity.
  - discriminate.
  - discriminate.
  - reflexivity.
  - reflexivity.
  - intros (m&_&Hm&Ht). vm_compute in Hm. injection Hm as <-. by vm_compute in Ht.
  - intros labels c Hc. apply list_elem_of_singleton in Hc as ->. done.
  - exists n', s'. split; [exact Hr|]. by apply Hv.
Defined.

(** The client next to a server; it prints nowhere. *)
Definition ctl_system_env : handler CtlSystemE (list Constraint * list Action) := fun X e s =>
  match e in CtlSystemE X return X * (list Constraint * list Action) with
  | CtlCluster e => cluster_env mem_server _ e s
  | CtlLocal e =>
      (match e in CtlE X return X with
       | CtlConfig e => config_down _ e
       | CtlEvent e => event_down _ e
       | CtlNow => 0%Z
       | CtlPrint _ => tt
       | CtlTable _ _ => tt
       end, s)
  end.

#[export] Instance ctl_system_env_laws :
  CtlSystemLaws ctl_system_env fst snd (fun x => x) (fun x => x).
Proof. split; [exact _|]. intros X e s. by destruct e. Qed.

#[export] Instance ctl_system_env_reliable : ReliableServer (ctl_server ctl_system_env).
Proof. by split. Qed.

Lemma import_works_once_witness :
  let files := [("a.yaml", [nginx]); ("empty.yaml", []); ("b.yaml", [redis])] in
  exists s', run ctl_system_env (interp ctl_backend (import_run (decoded files))) ([], []) =
      (Done None, s') /\ s'.1 ≡ₚ [nginx; redis] /\
    exists err s'', run ctl_system_env (interp ctl_backend (import_run (decoded files))) s' =
      (Done (Some err), s'') /\ s''.1 ≡ₚ s'.1.
Proof.
  intros files.
  destruct (import_works_once ctl_system_env fst snd (fun x => x) (fun x => x) files ([], []))
    as (s'&Hr&Hv&Hagain).
  - discriminate.
  - split_and!.
    + by repeat constructor.
    + apply (bool_decide_unpack _). by vm_compute.
    + repeat constructor; by apply not_elem_of_nil.
  - exists s'. split; [exact Hr|]. split; [exact Hv|]. by apply Hagain.
Defined.
