(* ===== verification/Delivery.v ===== *)
(** From an agent to the Alertmanager: the report of an agent passes the
    cluster agent and tarian-server's Event service into the queues of
    [Pipeline], whose goroutines store it and post its alert.  The theorems: a
    violation on a node ends as an alert that names its pod and its process,
    and what a pod agent finds in a scan as an alert that lists the files. *)

From S2P Require Import Prelude Guards GoStrings Types Labels K8s NodeAgent PodAgent Store ConfigServer Queue Events ClusterAgent.
From S2P Require Import Json GoTime Sha256 Alerts Pipeline System.

(** * The cluster around the running server *)

Section delivery.
Context `{SS : StrSet} {W R A : Type}.

(** What the cluster agent and tarian-server call besides the queues, and what
    a node agent calls on its node. *)
Context (rest : handler ClusterE R) (local : handler NodeE A).

(** A request is accepted when its event is published. *)
Definition publish_event (q : queue_name) (event : Event) (s : pipeline W) : option (pipeline W) :=
  (fun i => mkPipeline
     (mkIngestion (ingestion_general i) (ingestion_detection i) (ingestion_env i)
        (ingestion_accepted i ++ [event]) (ingestion_added i))
     (pipeline_past s) (pipeline_round s)) <$> publish_to q event (pipeline_ingestion s).

(** The calls of the cluster agent and of tarian-server.  A publish to a full
    queue blocks; the theorems are about queues with room. *)
Definition server_with : handler ClusterE (pipeline W * R) := fun X e w =>
  let other {X} (e : ClusterE X) := let '(x, r) := rest X e w.2 in (x, (w.1, r)) in
  match e in ClusterE X return X * (pipeline W * R) with
  | ClStore e => other (ClStore e)
  | ClQueue event => other (ClQueue event)
  | ClEvents e =>
      match e in EventServerE X return X * (pipeline W * R) with
      | ES e => other (ClEvents (ES e))
      | EPublish q event =>
          match event ≫= fun event => publish_event q event w.1 with
          | Some s' => (None, (s', w.2))
          | None => (Some (PlainError "blocked"), w)
          end
      end
  end.

Definition node_cluster : handler NodeSystemE ((pipeline W * R) * A) := fun X e w =>
  match e in NodeSystemE X return X * ((pipeline W * R) * A) with
  | SysCluster e => let '(x, c) := server_with _ e w.1 in (x, (c, w.2))
  | SysNode e => let '(x, a) := local _ e w.2 in (x, (w.1, a))
  end.

(** The queue of the class has room. *)
Definition has_room (q : queue_name) (s : pipeline W) : Prop :=
  length (consumer_queue (get_consumer q (pipeline_ingestion s))) < channel_capacity.

(** * An event on its way *)

Context (h : handler PipelineE W).

Lemma publish_accepts q e s :
  of_class q e -> has_room q s -> exists s', publish_event q e s = Some s' /\
    pipeline_step h s s' /\ e ∈ pending (get_consumer q (pipeline_ingestion s')) /\
    ingestion_accepted (pipeline_ingestion s') = ingestion_accepted (pipeline_ingestion s) ++ [e].
Proof.
  intros Hq Hroom. destruct s as [i past p]. unfold has_room in Hroom. cbn [pipeline_ingestion] in Hroom.
  assert (exists a i', ingest (Some (mkIngestEventRequest (Some e))) i = Some (a, i') /\
    publish_event q e (mkPipeline i past p) = Some (mkPipeline i' past p) /\
    e ∈ pending (get_consumer q i') /\ ingestion_accepted i' = ingestion_accepted i ++ [e])
    as (a&i'&Hi&Hp&He&Hacc).
  { unfold publish_event, ingest, EventServer_IngestEvent, publish_to, ChannelQueue_Publish.
    cbn [pipeline_ingestion IngestEventRequest_GetEvent IngestEventRequest_Event].
    assert (e ∈ consumer_chan (get_consumer q i) ++ option_list (consumer_hand (get_consumer q i)) ++
      consumer_queue (get_consumer q i) ++ [e]) as He by set_solver.
    destruct (String.eqb_spec (Event_Type e) EventTypeDetection) as [Ht|Ht]; destruct q; try done;
      cbn [bind call publish_to]; rewrite (proj2 (Nat.ltb_lt _ _) Hroom); do 2 eexists;
      (split; [reflexivity|split; [reflexivity|split; [exact He|reflexivity]]]). }
  eexists. split; [exact Hp|]. split; [|split; [exact He|exact Hacc]]. by eapply step_ingestion, step_ingest.
Qed.

(** The call an agent makes: it is answered with success, the event is
    pending at the server, and the action handler got it. *)
Lemma ingested_at_cluster_agent q e s r :
  of_class q e -> has_room q s -> exists s',
    run server_with (event_at_cluster_agent _ (IngestEvent (mkIngestEventRequest (Some e)))) (s, r) =
      (Done (Some (mkIngestEventResponse true), None), (s', (rest _ (ClQueue (Some e)) r).2)) /\
    pipeline_step h s s' /\ e ∈ pending (get_consumer q (pipeline_ingestion s')) /\
    ingestion_accepted (pipeline_ingestion s') = ingestion_accepted (pipeline_ingestion s) ++ [e].
Proof.
  intros Hq Hroom. destruct (publish_accepts q e s Hq Hroom) as (s'&Hp&Hs&He).
  exists s'. split; [|done]. unfold event_at_cluster_agent. cbn [proxy_event_service].
  unfold Proxy_IngestEvent. cbn [bind call interp proxy_backend IngestEventRequest_Event].
  unfold event_at_server. cbn [event_service]. unfold EventServer_IngestEvent.
  cbn [IngestEventRequest_GetEvent IngestEventRequest_Event].
  destruct (String.eqb_spec (Event_Type e) EventTypeDetection) as [Ht|Ht]; destruct q; try done;
    cbn; rewrite Hp; cbn; by destruct (rest _ (ClQueue (Some e)) r).
Qed.
End delivery.

(** * What an alert names *)

Lemma alert_names x t :
  let labels := alert_labels (Some x) t in
  labels !! "type" = Some (Event_Type x) /\ labels !! "pod_uid" = Some (Pod_GetUid (Target_GetPod t)) /\
  (elems (Target_GetViolatedProcesses t) <> [] ->
   labels !! "violated_processes" = Some (violatedProcessesToString (elems (Target_GetViolatedProcesses t)))) /\
  (elems (Target_GetViolatedFiles t) <> [] ->
   labels !! "violated_files" = Some (violatedFilesToString (elems (Target_GetViolatedFiles t)))).
Proof.
  unfold alert_labels. destruct (Target_GetViolatedProcesses t) as [ps|], (Target_GetViolatedFiles t) as [fs|],
    (Target_GetFalcoAlert t) as [f|]; cbn [elems default id Event_GetType]; split_and!; try done; intros; by simplify_map_eq.
Qed.

(** * From the report to the alert *)

(** Once the store and the Alertmanager answer, a report of one target that
    was just accepted is posted, with what it says about its pod. *)
Lemma report_gets_posted {W} (h h' : handler PipelineE W) (V : view W)
    `{!PipelineLaws h V} `{!PipelineLaws h' V} `{!Reliable h'} q e t w s s1 :
  (forall x, x ∈ unsent V w -> Event_Uid x ∈ issued V w) -> rtc (pipeline_step h) (boot w) s ->
  all_fine V (pipeline_ingestion s) -> fine V e /\ okay V e -> alertable (Some e) = true ->
  Event_Targets e = Some [t] -> is_Some (Target_GetPod t) ->
  pipeline_step h s s1 -> e ∈ pending (get_consumer q (pipeline_ingestion s1)) ->
  ingestion_accepted (pipeline_ingestion s1) = ingestion_accepted (pipeline_ingestion s) ++ [e] ->
  rtc (pipeline_step h) (boot w) s1 /\
  exists s2 labels, rtc (pipeline_step h') s1 s2 /\ labels ∈ alerts V (world_env (pipeline_world s2)) /\
    labels !! "type" = Some (Event_Type e) /\ labels !! "pod_uid" = Some (Pod_GetUid (Target_GetPod t)) /\
    (elems (Target_GetViolatedProcesses t) <> [] ->
     labels !! "violated_processes" = Some (violatedProcessesToString (elems (Target_GetViolatedProcesses t)))) /\
    (elems (Target_GetViolatedFiles t) <> [] ->
     labels !! "violated_files" = Some (violatedFilesToString (elems (Target_GetViolatedFiles t)))).
Proof.
  intros Hw Hr Hfine [Hef Heo] Hal Hts Hpod Hs He Hacc.
  assert (rtc (pipeline_step h) (boot w) s1) as Hr1 by (eapply rtc_r; done). split; [done|].
  assert (all_fine V (pipeline_ingestion s1)) as Hf1.
  { intros e'. rewrite Hacc. by intros [?| ->%list_elem_of_singleton]%elem_of_app; [apply Hfine|]. }
  pose proof (steps_kept h V _ _ Hr1 Hf1 (boot_kept V w Hw)) as Hk.
  destruct (pending_gets_posted h' V s1 q _ Hf1 Hk He) as (s2&Hr2&e'&x&Hu&Hx&Ha); [done..|].
  pose proof (f_equal Event_Targets Hu : Event_Targets e' = Event_Targets e) as Het.
  destruct (pl_kept_target e' x Hx) as (t'&t''&Ht'&Ht''&(Huid&Hps&Hfs)).
  { unfold alert_target. cbn [Event_GetTargets]. rewrite Het, Hts. cbn.
    destruct Hpod as [pod ->]. by eexists. }
  rewrite Het, Hts in Ht'. apply list_elem_of_singleton in Ht' as ->.
  destruct (alert_names x t'') as (H1&H2&H3&H4). destruct (Huid Hpod) as [_ Hp]. rewrite Hps in H3. rewrite Hfs in H4.
  exists s2, (alert_labels (Some x) t''). split_and!; [done|by apply Ha| |by rewrite H2, Hp|done..].
  rewrite H1, (pl_kept_type e' x Hx). f_equal. exact (f_equal Event_Type Hu : Event_Type e' = _).
Qed.

(** * From a node *)

Section nodes.
Context `{SS : StrSet} `{MR : MapRange} {W R A : Type}.
Context (rest : handler ClusterE R) (local : handler NodeE A).

(** The event of a report. *)
Definition violation_report (evt : ExecEvent) (now : Z) (labels : gmap string string) : Event :=
  mkEvent "" EventTypeViolation "" None (Some (timestamppb_New now)) None
    (Some [Some (mkTarget
      (Some (mkPod (ExecEvent_K8sPodUID evt) (ExecEvent_K8sNamespace evt)
                   (ExecEvent_K8sPodName evt) (report_labels labels)))
      (Some [Some (mkProcess (to_int32 (ExecEvent_Pid evt)) (ExecEvent_Command evt))]) None None "" "")]).

Lemma node_cluster_run {B} (p : prog ClusterE B) (c : pipeline W * R) a :
  run (fun X e => node_cluster rest local X (SysCluster e)) p (c, a) =
  ((run (server_with rest) p c).1, ((run (server_with rest) p c).2, a)).
Proof.
  revert c. induction p as [b|X e k IH|cr]; intros c; cbn [run]; [done| |done]. unfold node_cluster at 1. cbn [fst snd].
  destruct (server_with rest X e c) as [x c']. apply IH.
Qed.

Lemma report_run cs v s r a (h : handler PipelineE W) :
  has_room GeneralQueue s ->
  exists now labels s' a', let e := violation_report (violation_event v) now labels in
    run (node_cluster rest local) (interp (node_backend cs) (run_task (ReportTask v))) ((s, r), a) =
      (Done tt, ((s', (rest _ (ClQueue (Some e)) r).2), a')) /\
    pipeline_step h s s' /\ e ∈ pending (get_consumer GeneralQueue (pipeline_ingestion s')) /\
    ingestion_accepted (pipeline_ingestion s') = ingestion_accepted (pipeline_ingestion s) ++ [e].
Proof.
  intros Hroom. cbn [run_task]. unfold ReportViolationsToClusterAgent. cbn [interp bind call run node_backend node_cluster].
  destruct (local _ (NReadLabels (ExecEvent_K8sPodLabels (violation_event v))) a) as [labels a1] eqn:H1.
  destruct (local _ NNow a1) as [now a2] eqn:H2. exists now, labels.
  destruct (ingested_at_cluster_agent rest h GeneralQueue (violation_report (violation_event v) now labels) s r)
    as (s'&Hr&Hs&He); [done|done|].
  exists s', a2. split; [|done]. cbn [fst snd].
  rewrite H1. cbn [fst snd]. rewrite H2. cbn [fst snd]. rewrite run_bind, run_lift.
  rewrite node_cluster_run. change (mkEvent "" EventTypeViolation "" None (Some (timestamppb_New now)) None _)
    with (violation_report (violation_event v) now labels).
  by rewrite Hr.
Qed.

(** C2. A violation on a node ends as an alert.  Whatever has happened at
    tarian-server so far, as long as the queue has room the report of a node
    agent is answered with success through the cluster agent, whose action
    handler gets the event too; and once the store and the Alertmanager
    answer, the server can go on until the Alertmanager has an alert of type
    violation that names the pod and the process - its pid in 32 bits - that
    was seen on the node. *)
Theorem violations_end_as_alerts (h h' : handler PipelineE W) (V : view W)
    `{!PipelineLaws h V} `{!PipelineLaws h' V} `{!Reliable h'} cs v w s r a :
  let evt := violation_event v in
  (forall x, x ∈ unsent V w -> Event_Uid x ∈ issued V w) -> rtc (pipeline_step h) (boot w) s ->
  all_fine V (pipeline_ingestion s) -> has_room GeneralQueue s ->
  (forall now labels, fine V (violation_report evt now labels) /\ okay V (violation_report evt now labels)) ->
  exists e s1 a1 s2,
    run (node_cluster rest local) (interp (node_backend cs) (run_task (ReportTask v))) ((s, r), a) =
      (Done tt, ((s1, (rest _ (ClQueue (Some e)) r).2), a1)) /\
    rtc (pipeline_step h) (boot w) s1 /\ rtc (pipeline_step h') s1 s2 /\
    exists labels, labels ∈ alerts V (world_env (pipeline_world s2)) /\
      labels !! "type" = Some EventTypeViolation /\ labels !! "pod_uid" = Some (ExecEvent_K8sPodUID evt) /\
      labels !! "violated_processes" = Some (Itoa (to_int32 (ExecEvent_Pid evt)) +:+ ":" +:+ ExecEvent_Command evt).
Proof.
  intros evt Hw Hr Hfine Hroom Hok. destruct (report_run cs v s r a h Hroom) as (now&ls&s1&a1&Hrun&Hs&He&Hacc).
  destruct (report_gets_posted h h' V _ _ _ w s s1 Hw Hr Hfine (Hok now ls) eq_refl eq_refl ltac:(by eexists) Hs He Hacc)
    as (Hr1&s2&labels&Hr2&Hl&H1&H2&H3&_).
  exists (violation_report evt now ls), s1, a1, s2. split_and!; [exact Hrun|done|done|].
  exists labels. split_and!; [done..|]. rewrite H3 by done. cbn. by rewrite app_empty_r.
Qed.
End nodes.

(** * From a pod *)

(** A pod agent with its cluster. *)
Inductive PodSystemE : Type -> Type :=
| OnCluster {X} (e : ClusterE X) : PodSystemE X
| InPod {X} (e : PodE X) : PodSystemE X.

(** The agent calls the cluster agent; the rest it does in its pod. *)
Definition pod_backend `{SS : StrSet} (cs : ProxyConfigServer) X (e : PodE X) : prog PodSystemE X :=
  match e in PodE X return prog PodSystemE X with
  | PodAgent.PConfig e => interp (fun _ e => call (OnCluster e)) (config_at_cluster_agent cs _ e)
  | PodAgent.PEvent e => interp (fun _ e => call (OnCluster e)) (event_at_cluster_agent _ e)
  | PNow => call (InPod PNow)
  | POpen path => call (InPod (POpen path))
  | PCopy path => call (InPod (PCopy path))
  | PWalkDir root => call (InPod (PWalkDir root))
  end.

Section pods.
Context `{SS : StrSet} `{MR : MapRange} `{!MapRangeLaws MR} {W R A : Type}.
Context (rest : handler ClusterE R) (local : handler PodE A) (files : A -> gmap string string) `{!PodFiles local files}.

Definition pod_cluster : handler PodSystemE ((pipeline W * R) * A) := fun X e w =>
  match e in PodSystemE X return X * ((pipeline W * R) * A) with
  | OnCluster e => let '(x, c) := server_with rest _ e w.1 in (x, (c, w.2))
  | InPod e => let '(x, a) := local _ e w.2 in (x, (w.1, a))
  end.

(** The event of a scan. *)
Definition file_report (p : PodAgent) (now : Z) (vf : list (ptr ViolatedFile)) : Event :=
  mkEvent "" EventTypeViolation "" None (Some (timestamppb_New now)) None
    (Some [Some (mkTarget
      (Some (mkPod (PodAgent_podUID p) (PodAgent_namespace p) (PodAgent_podName p) (PodAgent_podLabels p)))
      None (Some vf) None "" "")]).

Lemma pod_cluster_run {B} (p : prog ClusterE B) (c : pipeline W * R) a :
  run (fun X e => pod_cluster X (OnCluster e)) p (c, a) =
  ((run (server_with rest) p c).1, ((run (server_with rest) p c).2, a)).
Proof.
  revert c. induction p as [b|X e k IH|cr]; intros c; cbn [run]; [done| |done]. unfold pod_cluster at 1. cbn [fst snd].
  destruct (server_with rest X e c) as [x c']. apply IH.
Qed.

(** What the agent does in its pod leaves the cluster as it is. *)
Lemma local_prog_run {B} cs (p : prog PodE B) (c : pipeline W * R) a :
  local_prog p ->
  run pod_cluster (interp (pod_backend cs) p) (c, a) = ((run local p a).1, (c, (run local p a).2)).
Proof.
  unfold local_prog. revert a. induction p as [b|X e k IH|cr]; intros a Hp; cbn [interp run]; [done| |done].
  destruct Hp as [He Hk]. rewrite run_bind.
  destruct e; try done; cbn [pod_backend call run pod_cluster fst snd];
    destruct (local _ _ a) as [x a'] eqn:Hl; cbn [fst snd]; apply IH; by apply Hk.
Qed.

(** A scan that finds something is answered with success; its event lists
    what was found and is pending at the server. *)
Lemma scan_run cs p s r a (h : handler PipelineE W) :
  PodAgent_constraintsInitialized p = true ->
  (exists name, violated (PodAgent_constraints p) (files a) name) -> has_room GeneralQueue s ->
  exists now vf s' a', let e := file_report p now vf in
    lists_violated (PodAgent_constraints p) (files a) vf /\
    run pod_cluster (interp (pod_backend cs) (loopValidateFileChecksums_body p)) ((s, r), a) =
      (Done tt, ((s', (rest _ (ClQueue (Some e)) r).2), a')) /\
    pipeline_step h s s' /\ e ∈ pending (get_consumer GeneralQueue (pipeline_ingestion s')) /\
    ingestion_accepted (pipeline_ingestion s') = ingestion_accepted (pipeline_ingestion s) ++ [e].
Proof.
  intros Hinit [name Hname] Hroom. destruct (validate_reports local files p a) as (m&a1&Hm&_&Hnone&Hvf).
  unfold loopValidateFileChecksums_body. rewrite Hinit. cbn [negb]. rewrite run_interp_bind.
  rewrite local_prog_run by apply validate_local. rewrite Hm. cbn [fst snd].
  case_decide as Hem; [by destruct (Hnone Hem name)|]. unfold ReportViolatedFilesToClusterAgent.
  cbn [interp bind call run pod_backend pod_cluster fst snd]. destruct (local _ PNow a1) as [now a2] eqn:Hnow. cbn [fst snd].
  destruct (ingested_at_cluster_agent rest h GeneralQueue (file_report p now (file_reports m)) s r)
    as (s'&Hr&Hs&He); [done|done|].
  exists now, (file_reports m), s', a2. split; [done|]. split; [|done].
  rewrite run_bind, run_lift, pod_cluster_run.
  change (mkEvent "" EventTypeViolation "" None (Some (timestamppb_New now)) None _)
    with (file_report p now (file_reports m)).
  by rewrite Hr.
Qed.

(** C3. Files that violate end as an alert.  When a pod agent that has its
    constraints scans its pod and a file violates them, then, whatever has
    happened at tarian-server so far, as long as the queue has room its report
    is answered with success through the cluster agent; and once the store and
    the Alertmanager answer, the server can go on until the Alertmanager has
    an alert of type violation with the uid of the pod and the text of exactly
    the files that violate. *)
Theorem file_violations_end_as_alerts (h h' : handler PipelineE W) (V : view W)
    `{!PipelineLaws h V} `{!PipelineLaws h' V} `{!Reliable h'} cs p w s r a :
  let found := lists_violated (PodAgent_constraints p) (files a) in
  PodAgent_constraintsInitialized p = true ->
  (exists name, violated (PodAgent_constraints p) (files a) name) ->
  (forall x, x ∈ unsent V w -> Event_Uid x ∈ issued V w) -> rtc (pipeline_step h) (boot w) s ->
  all_fine V (pipeline_ingestion s) -> has_room GeneralQueue s ->
  (forall now vf, found vf -> fine V (file_report p now vf) /\ okay V (file_report p now vf)) ->
  exists e vf s1 a1 s2, found vf /\
    run pod_cluster (interp (pod_backend cs) (loopValidateFileChecksums_body p)) ((s, r), a) =
      (Done tt, ((s1, (rest _ (ClQueue (Some e)) r).2), a1)) /\
    rtc (pipeline_step h) (boot w) s1 /\ rtc (pipeline_step h') s1 s2 /\
    exists labels, labels ∈ alerts V (world_env (pipeline_world s2)) /\
      labels !! "type" = Some EventTypeViolation /\ labels !! "pod_uid" = Some (PodAgent_podUID p) /\
      labels !! "violated_files" = Some (violatedFilesToString vf).
Proof.
  intros found Hinit Hv Hw Hr Hfine Hroom Hok.
  destruct (scan_run cs p s r a h Hinit Hv Hroom) as (now&vf&s1&a1&Hvf&Hrun&Hs&He&Hacc).
  destruct (report_gets_posted h h' V _ _ _ w s s1 Hw Hr Hfine (Hok now vf Hvf) eq_refl eq_refl ltac:(by eexists) Hs He Hacc)
    as (Hr1&s2&labels&Hr2&Hl&H1&H2&_&H4).
  exists (file_report p now vf), vf, s1, a1, s2. split_and!; [exact Hvf|exact Hrun|done|done|].
  exists labels. split_and!; [done..|]. rewrite H4; [done|]. intros Hnil. cbn in Hnil. subst vf.
  destruct Hv as [name Hname]. apply Hvf in Hname. by apply elem_of_nil in Hname.
Qed.
End pods.

(** * A run *)

(** The action handler keeps what it gets. *)
Definition ex_rest : handler ClusterE (list (ptr Event)) := fun X e r =>
  match e in ClusterE X return X * list (ptr Event) with
  | ClStore e => let '(x, _) := mem_server _ e ([], []) in (x, r)
  | ClEvents e => (down_events _ e, r)
  | ClQueue event => (tt, r ++ [event])
  end.

Lemma ex_pipeline_has_room : has_room GeneralQueue ex_pipeline.
Proof. apply Nat.ltb_lt. vm_compute. reflexivity. Qed.

Lemma violations_end_as_alerts_witness :
  exists e s1 a1 s2,
    run (node_cluster ex_rest node_env) (interp (node_backend (mkProxyConfigServer false))
        (run_task (ReportTask (mkProcessViolation (ex_evt "sh"))))) ((ex_pipeline, []), ex_world) =
      (Done tt, ((s1, [Some e]), a1)) /\
    rtc (pipeline_step (mem_env true)) (boot ex_mem) s1 /\ rtc (pipeline_step (mem_env false)) s1 s2 /\
    exists labels, labels ∈ mem_posted (world_env (pipeline_world s2)) /\
      labels !! "type" = Some EventTypeViolation /\ labels !! "pod_uid" = Some (ExecEvent_K8sPodUID (ex_evt "sh")) /\
      labels !! "violated_processes" = Some "0:sh".
Proof.
  exact (violations_end_as_alerts ex_rest node_env (mem_env true) (mem_env false) mem_view (mkProxyConfigServer false)
    (mkProcessViolation (ex_evt "sh")) ex_mem ex_pipeline [] ex_world ex_mem_issued ex_pipeline_reachable (fun _ _ => I) ex_pipeline_has_room
    (fun _ _ => conj I I)).
Defined.

Lemma ex_pod_agent_violates :
  exists name, violated (PodAgent_constraints ex_pod_agent) ex_files name.
Proof.
  assert (exists s1 s2, file_rules (PodAgent_constraints ex_pod_agent) = [("/etc/app.conf", s1); ("/etc/hosts", s2)] /\
    s1 <> seen_sum ex_files "/etc/app.conf") as (s1&s2&Hr&Hne)
    by (do 2 eexists; split; [vm_compute; reflexivity|vm_compute; discriminate]).
  exists "/etc/app.conf". unfold violated. rewrite Hr. split; [exists s1; by left|].
  by intros sum [[= ->]|[[=]|?%elem_of_nil]%elem_of_cons]%elem_of_cons.
Qed.

Lemma file_violations_end_as_alerts_witness :
  exists vf s1 s2,
    lists_violated (PodAgent_constraints ex_pod_agent) ex_files vf /\
    rtc (pipeline_step (mem_env true)) (boot ex_mem) s1 /\ rtc (pipeline_step (mem_env false)) s1 s2 /\
    exists labels, labels ∈ mem_posted (world_env (pipeline_world s2)) /\
      labels !! "type" = Some EventTypeViolation /\ labels !! "pod_uid" = Some "uid-1" /\
      labels !! "violated_files" = Some (violatedFilesToString vf).
Proof.
  destruct (file_violations_end_as_alerts ex_rest pod_env (fun w => w) (mem_env true) (mem_env false) mem_view
    (mkProxyConfigServer false) ex_pod_agent ex_mem ex_pipeline [] ex_files eq_refl ex_pod_agent_violates ex_mem_issued
    ex_pipeline_reachable (fun _ _ => I) ex_pipeline_has_room (fun _ _ _ => conj I I)) as (e&vf&s1&a1&s2&Hvf&_&Hr1&Hr2&Hl).
  exists vf, s1, s2. exact (conj Hvf (conj Hr1 (conj Hr2 Hl))).
Defined.
