(* ===== verification/DgraphSystem.v ===== *)
(** The cluster on its database.  The parts together ([System]) with the
    constraint store of [DgraphStore] in place of an abstract store: from a
    violation on a node through the cluster agent and tarian-server to the
    nodes in Dgraph, and back through JSON to the agent that fetches its
    constraints.  The laws of Dgraph are those of [Dgraph.v]. *)

From S2P Require Import Prelude GoStrings Types Labels Json Codec K8s NodeAgent Store ConfigServer.
From S2P Require Import Dgraph DgraphStore Queue Events ClusterAgent System.

(** * What Dgraph keeps of a registered constraint *)

(** Text as messages carry it. *)
Definition plain_event (evt : ExecEvent) : Prop :=
  utf8 (ExecEvent_K8sNamespace evt) /\ utf8 (ExecEvent_K8sPodName evt) /\ utf8 (ExecEvent_Command evt).

Definition plain_map (labels : gmap string string) : Prop :=
  map_Forall (fun k v => utf8 k /\ utf8 v) labels.

Lemma ascii_map labels :
  map_Forall (fun k v => all_ascii k = true /\ all_ascii v = true) labels -> plain_map labels.
Proof. intros Hm k v Hk. destruct (Hm k v Hk). split; by apply utf8_ascii. Qed.

Section meaning.
Context `{SS : StrSet} `{!StrSetLaws SS} `{MR : MapRange} `{!MapRangeLaws MR} `{RX : Regexp}.

Lemma plain_matchLabels labels :
  plain_map labels -> Forall plain_label (elems (matchLabelsFromPodLabels labels)).
Proof.
  intros Hp. unfold matchLabelsFromPodLabels. cbn. rewrite Forall_fmap. apply Forall_forall.
  intros [k v] Hin. apply elem_of_map_range in Hin. exact (Hp k v Hin).
Qed.

Lemma utf8_constraint_name evt now :
  plain_event evt -> utf8 (ExecEvent_K8sPodName evt +:+ "-" +:+ Itoa (Z.quot now 3600000)).
Proof.
  intros (_&Hp&_). apply utf8_app; [done|]. by apply (utf8_app "-"); apply utf8_ascii; [|apply ascii_Itoa].
Qed.

(** It is kept as it was sent, but for a list of match labels that is empty. *)
Lemma stored_registration evt now labels :
  plain_event evt -> plain_map labels ->
  let c := violation_constraint evt now labels in
  stored_constraint c =
    match elems (matchLabelsFromPodLabels labels) with
    | [] => mkConstraint KindConstraint (Constraint_Namespace c) (Constraint_Name c)
              (Some (mkSelector None)) (Constraint_AllowedProcesses c) None
    | _ :: _ => c
    end.
Proof.
  intros He Hl c. pose proof (plain_matchLabels labels Hl) as Hms.
  pose proof (utf8_constraint_name evt now He) as Hname. destruct He as (Hns&_&Hcmd).
  destruct (matchLabelsFromPodLabels labels) as [[|m ms]|] eqn:Hml; [| |done].
  - unfold c, violation_constraint. rewrite Hml. unfold stored_constraint.
    cbn [Constraint_Namespace Constraint_Name Constraint_Selector Constraint_AllowedProcesses
         Constraint_AllowedFiles elems default List.map fmap option_fmap option_map].
    unfold clean_AllowedProcessRule.
    cbn [AllowedProcessRule_Regex fmap option_fmap option_map]. by rewrite !utf8_clean.
  - cbn [elems default]. apply stored_plain. unfold c, violation_constraint. rewrite Hml.
    split_and!; cbn [Constraint_Kind Constraint_Namespace Constraint_Name Constraint_Selector
      Constraint_AllowedProcesses Constraint_AllowedFiles elems default]; try done.
    by repeat constructor.
Qed.

Lemma stored_keeps_meaning evt labels :
  plain_event evt -> plain_map labels -> keeps_meaning stored_constraint evt labels.
Proof.
  intros He Hl now evt' labels'. pose proof (stored_registration evt now labels He Hl) as Hs.
  cbv zeta in Hs. rewrite Hs. clear Hs.
  destruct (elems (matchLabelsFromPodLabels labels)) as [|m ms] eqn:Hml; [|done].
  unfold constraint_allows. cbn [Constraint_GetAllowedProcesses Constraint_AllowedProcesses violation_constraint].
  f_equal. unfold constraintMatchesPod. cbn [Constraint_GetNamespace Constraint_Namespace Constraint_GetSelector
    Constraint_Selector Selector_GetMatchLabels Selector_MatchLabels violation_constraint].
  destruct (negb _); [done|]. destruct (matchLabelsFromPodLabels labels) as [l|]; [|done].
  cbn in Hml. subst l. symmetry. apply IsSubset_set_of. intros x Hx. by apply elem_of_nil in Hx.
Qed.
End meaning.

(** * A node, its cluster and their database *)

Section on_dgraph.
Context `{SS : StrSet} `{!StrSetLaws SS} `{MR : MapRange} `{!MapRangeLaws MR} `{RX : Regexp}.
Context {S D : Type} (h : handler NodeSystemE S) (maps : S -> heap) (get : S -> D).
Context (hd : handler DgraphE D) (nodes : D -> list node).

(** The stores of tarian-server work on a Dgraph in the state of the whole,
    which nothing on the node touches. *)
Class OnDgraph : Prop := {
  od_dgraph :: DgraphLaws hd nodes dgraph_queries;
  od_heap :: NodeHeap (node_side h) maps;
  od_store X (e : ServerE X) s :
    (server_side h X e s).1 = (dgraph_server hd X e (get s)).1 /\
    get (server_side h X e s).2 = (dgraph_server hd X e (get s)).2;
  od_frame X (e : NodeE X) s : get (h X (SysNode e) s).2 = get s;
}.

(** The constraints the nodes of the database describe. *)
Definition kept_constraints (s : S) : list Constraint := dgraph_constraints nodes (get s).
Definition kept_actions (s : S) : list Action := dgraph_actions nodes (get s).

Context `{HO : !OnDgraph}.

#[local] Instance on_dgraph_laws :
  NodeSystemLaws h maps kept_constraints kept_actions
    (dgraph_norm constraint_kind) (dgraph_norm action_kind).
Proof using HO.
  split.
  - apply HO.
  - apply (ServerLaws_lens (dgraph_server hd) _ get); [apply od_store|exact (dgraph_server_laws hd nodes)].
  - intros X e s. unfold kept_constraints. by rewrite od_frame.
Qed.

(** Why tarian-server does not add [c]: the name is taken, or Dgraph failed
    when it was looked up or when the constraint was written. *)
Definition not_added (c : Constraint) (s : S) : Prop :=
  resource_key c ∈ resource_key <$> kept_constraints s \/
  let '((_, er), s') :=
    server_side h _ (CS (NamespaceAndNameExist (Constraint_Namespace c) (Constraint_Name c))) s in
  er <> None \/ (server_side h _ (CS (Add (Some c))) s').1 <> None.

Lemma add_outcome c s :
  well_keyed c ->
  exists a s', run (server_side h) (config_service _ (AddConstraint (mkAddConstraintRequest (Some c)))) s =
    (Done a, s') /\
  ((kept_constraints s' ≡ₚ kept_constraints s /\ not_added c s) \/
   kept_constraints s' ≡ₚ stored_constraint c :: kept_constraints s).
Proof using HO.
  intros [Hns Hn]. cbn [config_service]. rewrite run_answer, AddConstraint_shape.
  unfold add_resource, not_added. destruct (resource_key c) as [ns n] eqn:Hk.
  injection Hk as <- <-.
  destruct (String.eqb_spec (Constraint_Namespace c) "") as [?|_]; [done|].
  destruct (String.eqb_spec (Constraint_Name c) "") as [?|_]; [done|]. cbn [run bind call orb].
  unfold on_constraints at 1.
  destruct (server_side h _ (CS (NamespaceAndNameExist _ _)) s) as [[found er] s1] eqn:Hh.
  apply (exist_view (on_constraints (server_side h)) kept_constraints (dgraph_norm constraint_kind))
    in Hh as [V1 E1]; [|done..].
  destruct er as [er|].
  { do 2 eexists. split; [by destruct found|]. left. rewrite V1. split; [done|]. right. by left. }
  destruct (E1 eq_refl) as [E2 _]. destruct found.
  { do 2 eexists. split; [done|]. left. rewrite V1. split; [done|]. left. by apply E2. }
  cbn [run]. unfold on_constraints. destruct (server_side h _ (CS (Add (Some c))) s1) as [er s2] eqn:Hh2.
  rewrite <- constraint_norm, <- V1. destruct er as [er|].
  - do 2 eexists. split; [done|].
    apply (store_add_error (on_constraints (server_side h)) kept_constraints (dgraph_norm constraint_kind))
      in Hh2 as [Hv|Hv]; [left|by right]. split; [exact Hv|]. right. by right.
  - do 2 eexists. split; [done|]. right.
    by apply (store_add (on_constraints (server_side h)) kept_constraints (dgraph_norm constraint_kind)).
Qed.

(** C8. From a violation to the database and back.  A violation registered
    through a cluster agent that has adding constraints enabled leaves the
    constraints in Dgraph as they were only when the name of the new one is
    taken or Dgraph failed, and has added one constraint otherwise; whatever
    happens afterwards, while that constraint is in the database every agent
    that fetches the constraints and gets them finds no violation in the same
    event any more. *)
Theorem registration_reaches_dgraph cs v s :
  let evt := violation_event v in
  let labels := delete "pod-template-hash" (heap_read (ExecEvent_K8sPodLabels evt) (maps s)) in
  proxy_enableAddConstraint cs = true -> ExecEvent_K8sNamespace evt <> "" ->
  plain_event evt -> plain_map labels -> pod_labels_ok labels ->
  rule_accepts (ExecEvent_Command evt) (Some (mkAllowedProcessRule (Some (ExecEvent_Command evt)))) ->
  exists now s0 s1,
    let c := violation_constraint evt now labels in
    kept_constraints s0 = kept_constraints s /\
    run h (interp (node_backend cs) (RegisterViolationsAsNewConstraint v)) s = (Done tt, s1) /\
    ((kept_constraints s1 ≡ₚ kept_constraints s /\ not_added c s0) \/
     (kept_constraints s1 ≡ₚ stored_constraint c :: kept_constraints s /\
      forall n s2 l s3, stored_constraint c ∈ kept_constraints s2 ->
        server_side h _ (CS GetAll) s2 = ((l, None), s3) ->
        exists n', run h (interp (node_backend cs) (SyncConstraints n)) s2 = (Done n', s3) /\
          NodeAgent_constraintsInitialized n' = true /\
          forall labels', pod_labels_ok labels' -> labels ⊆ labels' -> ValidateProcess n' evt labels' = None)).
Proof using HO StrSetLaws0 MapRangeLaws0.
  intros evt labels Hen Hns Hplain Hpm Hok Hacc.
  destruct (register_system_run h maps kept_constraints kept_actions _ _ cs v s Hen)
    as (s1&s2&now&_&Hv&Hrun). fold evt labels in Hrun.
  set (c := violation_constraint evt now labels) in *.
  destruct (add_outcome c s2) as (a&s3&Hadd&Hcase); [by apply registered_keyed|].
  exists now, s2, s3. cbv zeta. rewrite Hadd in Hrun. split; [done|]. split; [done|].
  rewrite Hv in Hcase. destruct Hcase as [?|Hk]; [by left|right]. split; [done|].
  intros n s4 l s5 Hin Hget. eexists. split.
  { unfold SyncConstraints. rewrite run_interp_bind. cbn [interp call].
    rewrite run_bind, node_config_run by done. cbn [config_service].
    rewrite run_answer, GetConstraints_run. cbn [String.eqb]. unfold on_constraints at 1.
    by rewrite Hget. }
  split; [done|]. intros labels' Hok' Hsub.
  apply (store_getall (on_constraints (server_side h)) kept_constraints (dgraph_norm constraint_kind)) in Hget.
  apply (ValidateProcess_allowed _ _ _ (Some (stored_constraint c))).
  - cbn. rewrite Hget. by apply list_elem_of_fmap_2.
  - unfold c. rewrite stored_keeps_meaning by done. by apply violation_constraint_allows.
Qed.
End on_dgraph.

(** * A node, a cluster and a Dgraph in memory *)

Definition ex_system : handler NodeSystemE (heap * list (option raw_node)) :=
  node_system_env (dgraph_server ex_dgraph).

#[export] Instance ex_system_on_dgraph : OnDgraph ex_system fst snd ex_dgraph mem_nodes.
Proof.
  split.
  - apply _.
  - split; [done|done|]. intros X e w. by destruct e.
  - intros X e [m d]. unfold server_side, at_store, cluster_side, ex_system. cbn [node_system_env cluster_env snd].
    by destruct (dgraph_server ex_dgraph X e d).
  - intros X e s. unfold ex_system. cbn [node_system_env]. by destruct (node_local X e s.1).
Qed.

#[local] Existing Instance literal_engine.

(** A shell in a pod without constraints, registered in an empty database. *)
Lemma registration_reaches_dgraph_witness :
  let v := mkProcessViolation (ex_evt "sh") in
  exists s1 n' s3,
    run ex_system (interp (node_backend (ex_proxy true)) (RegisterViolationsAsNewConstraint v))
      (ex_world.1, []) = (Done tt, s1) /\
    length (mem_nodes s1.2) = 1 /\
    run ex_system (interp (node_backend (ex_proxy true)) (SyncConstraints NewNodeAgent)) s1 = (Done n', s3) /\
    ValidateProcess n' (ex_evt "sh") {[ "app" := "web" ]} = None.
Proof.
  intros v.
  destruct (registration_reaches_dgraph ex_system fst snd ex_dgraph mem_nodes (ex_proxy true) v (ex_world.1, []))
    as (now&s0&s1&_&Hrun&Hcase).
  - reflexivity.
  - discriminate.
  - repeat split; by apply utf8_ascii.
  - apply ascii_map, (bool_decide_unpack _). by vm_compute.
  - labels_ok.
  - exists (fun s => Contains s "sh"). split; [discriminate|]. by vm_compute.
  - assert (s1 = (run ex_system (interp (node_backend (ex_proxy true)) (RegisterViolationsAsNewConstraint v))
        (ex_world.1, [])).2) as Hs1 by by rewrite Hrun.
    destruct Hcase as [[Hp _]|[Hp Hagain]].
    { apply Permutation_length in Hp. rewrite Hs1 in Hp. vm_compute in Hp. discriminate Hp. }
    destruct (Hagain NewNodeAgent s1 (server_side ex_system _ (CS GetAll) s1).1.1
                (server_side ex_system _ (CS GetAll) s1).2) as (n'&Hn&_&Hv).
    + rewrite Hp. left.
    + rewrite Hs1. by vm_compute.
    + exists s1, n'. eexists. split; [exact Hrun|]. split; [rewrite Hs1; by vm_compute|].
      split; [exact Hn|]. apply Hv; [labels_ok|]. apply (bool_decide_unpack _). by vm_compute.
Defined.
